(* ===== verification/_CoqProject ===== *)
-Q . S2P
Prelude.v
FixedHex.v
Endpoint.v
TlsOptions.v
TrustStore.v
Atomics.v
Admission.v
Reservations.v
SocketOps.v
Address.v
AdmissionSafety.v
Streambuf.v
ReadUntil.v
Transfer.v
TcpSocket.v
UdpSocket.v
Cni.v
Resolver.v
Scheduler.v
SchedulerThreads.v
TimerQueue.v
LinkedList.v
EpollReactor.v
DeadlineTimer.v
EpollOnce.v
EpollWakeups.v
ContextEnd.v
SocketService.v
SocketSafety.v
SocketOnce.v
BlockingIo.v
SocketObjects.v
UdpTransport.v
Strand.v
StrandPool.v
ServiceRegistry.v
TlsEngine.v
TlsVerify.v
TlsIo.v
AsyncState.v
AsyncOps.v
AsyncSafety.v
AsyncStart.v
EventLoop.v
Delivery.v
Shutdown.v
