(* ===== verification/Prelude.v ===== *)
(** * The covscript-network extension: a verification development

    covscript-network gives CovScript programs TCP and UDP sockets, TLS, and asynchronous
    operations with an event loop.  Its own code is two files over the vendored asio
    library ([src/include/asio]): [src/include/network.hpp] (the socket classes, the TLS
    trust store, the reservation protocol) and [src/network.cpp] (what scripts call:
    argument checks, wrappers, the namespace [async], cooperative closing).  This library
    models both, and the parts of asio they rest on, down to the system calls and OpenSSL:
    addresses and name resolution, the stream buffer, composed reads and writes, the
    scheduler with its services and strands, timers, the epoll reactor, the socket service
    and the TLS stream.

    ** The parts and how they interact

    A script calls a wrapper ([Cni]); it checks its arguments ([FixedHex], [Endpoint],
    [TlsOptions]), resolves names ([Resolver], [Address]) and calls a socket ([TcpSocket],
    [UdpSocket]).  A socket first reserves itself: one exclusive operation, or at most one
    operation in each direction ([Admission], programs of single atomic accesses of
    [Atomics]).  A client that turns TLS on loads trust ([TrustStore]), publishes a report,
    and verifies its peer ([TlsVerify]).  Reads and writes of a given size are asio's
    composed loops ([Transfer]); with TLS they pass through the engine ([TlsEngine],
    [TlsIo]).  An asynchronous operation ([AsyncOps]) makes the same reservation, hands an
    operation to the reactor through the scheduler ([Scheduler]) and keeps the reservation
    until its completion handler runs; the handler fills a shared state ([AsyncState], with
    a [Streambuf]; a delimiter read is [ReadUntil]).  Scripts, worker threads and waiting
    fibers drive the scheduler ([EventLoop]); [safe_shutdown] and [safe_close] cancel, drain
    and close ([Shutdown]), under a timer ([DeadlineTimer], [TimerQueue]).

    Under the asynchronous operations lie asio's socket service ([SocketService]), which
    makes requests of the epoll reactor ([EpollReactor]), which attempts the system calls
    ([SocketOps]) and hands completed operations to the scheduler.  The objects that own a
    descriptor, sockets and acceptors, with the blocking half of the service, are
    [SocketObjects].  Several threads run the
    scheduler ([SchedulerThreads]); handlers that must not overlap go through a strand
    ([Strand], kept by [StrandPool]).  The services live in a registry ([ServiceRegistry])
    and are shut down with it ([ContextEnd]).

    ** Files

    - [Prelude]: scopes, error codes, exceptions, the state-and-exception monad [M], the
      shared lemmas, tactics and hint databases.
    - [FixedHex] ([network.cpp]: [checked_io_buffer_size], [to_fixed_hex],
      [from_fixed_hex]), [Endpoint] ([tcp::endpoint*], [udp::endpoint*], [tcp::ep],
      [udp::ep]), [TlsOptions] ([parse_ssl_options]).
    - [TrustStore] ([network.hpp]: [trust_load_report], [try_load_*],
      [configure_client_context], [configure_client_stream]).
    - [Atomics], [Admission] ([network.hpp]: [try_begin_io_job], [begin_io_job],
      [finish_io_job], [begin_exclusive_operation] and so on, of both socket classes),
      [Reservations] (what they compute alone), [AdmissionSafety] (any number of threads).
    - [TcpSocket], [UdpSocket] (every member function of the two classes), [Cni] (the
      wrappers of [network.cpp]).
    - [Address] ([ip/impl/address*.ipp], [ip/detail/impl/endpoint.ipp],
      [ssl/impl/host_name_verification.ipp]), [Resolver] ([resolve] of [network.hpp] over
      [ip/basic_resolver*.hpp] and [detail/resolver_service.hpp]).
    - [Streambuf] ([basic_streambuf.hpp]), [ReadUntil] ([impl/read_until.hpp]), [Transfer]
      ([impl/read.hpp], [impl/write.hpp], [detail/consuming_buffers.hpp]).
    - [Scheduler], [SchedulerThreads] ([detail/impl/scheduler.ipp], run by one and by any
      number of threads), [ServiceRegistry] ([detail/impl/service_registry.ipp]),
      [LinkedList], [StrandPool] and [Strand] ([detail/strand_executor_service.hpp] and its
      [.ipp]: the list, the service, one strand), [TimerQueue] ([detail/timer_queue.hpp]),
      [DeadlineTimer] ([detail/deadline_timer_service.hpp], [detail/chrono_time_traits.hpp]).
    - [SocketOps] ([detail/impl/socket_ops.ipp] and the attempts of
      [detail/reactive_socket_*_op.hpp]), [EpollReactor] ([detail/impl/epoll_reactor.ipp])
      with [EpollOnce] (what becomes of each operation), [EpollWakeups] (no event is lost)
      and [ContextEnd] (shutdown and fork), [SocketService]
      ([detail/reactive_socket_service*.hpp]) with [SocketSafety] (its invariant) and
      [SocketOnce] (its answers), [BlockingIo] (its blocking calls against its attempts), and
      [SocketObjects] (options, names, binding, listening and
      the blocking calls of the same files; [basic_socket.hpp], [basic_socket_acceptor.hpp],
      [detail/io_object_impl.hpp], [detail/socket_option.hpp]); [UdpTransport] puts the UDP
      socket of scripts on them ([basic_datagram_socket.hpp]).
    - [TlsEngine] ([ssl/detail/engine.hpp], [ssl/detail/io.hpp]: the synchronous calls),
      [TlsIo] (the asynchronous ones), [TlsVerify] (the life of an engine and the
      verification of the peer).
    - [AsyncState] ([async::state_type] and [async::state]), [AsyncOps] (the starting
      functions and completion handlers of [async]), [AsyncSafety] and [AsyncStart] (their
      invariant), [EventLoop] ([poll], [poll_once], [wait], [wait_for], [restart],
      [work_guard], [thread_worker]), [Delivery] (an asynchronous read from the reactor to
      [get_result]), [Shutdown] ([safe_shutdown], [safe_close]).

    ** What the theorems show

    - Reservations.  Under every interleaving of atomic accesses of any number of threads an
      exclusive operation is alone and each direction has one operation; nothing leaks, and
      when all threads are idle every request is admitted ([tcp_reservations_exclude],
      [tcp_no_leak], [udp_reservations_exclude]); a
      sequence of calls, however many throw, returns every reservation
      ([tcp_calls_release], [udp_calls_release]).
    - The event loop of the program.  After any sequence of requests of a script the
      reservations, the states and the count of outstanding work are exactly those of the
      pending operations ([program_accounts]), also after [safe_shutdown]
      ([safe_shutdown_accounts]); polling ends and stops the loop exactly when no work is
      left ([async_poll_ends]); a read started by a script delivers what the socket received
      ([async_read_delivers]).  [safe_shutdown_hangs] states when waiting does not end.
    - The reactor.  The scheduler's count is the operations that are ready or wait
      ([epoll_accounts]), every handler is called once for each time it was given away
      ([every_handler_once]), [run] returns only when all were called ([run_answers]), the
      end of the context destroys the others and leaves nothing ([context_ends]).  Sockets:
      an operation that could make progress is announced or queued
      ([sockets_not_forgotten]), none blocks the reactor ([pending_never_blocks]), [close]
      aborts them all ([close_aborts]), each call is answered once ([calls_answered]).
      [peer_closed_unblocks] and the lemma [ended_read_waits] are where this fails.
      [sockets_not_forgotten] and [pending_never_blocks] ask two things of the program: the
      descriptors it assigns are its own, new and blocking, and non-blocking mode is not
      taken from a socket with pending operations.
      Descriptors: a program of blocking calls leaks none and closes none but its own
      ([descriptors_accounted]); making an acceptor gives a socket that listens, with the
      option set when it was bound, or the error of the first call that failed and nothing
      left ([acceptor_listens]); a script's UDP socket, run over asio and the system, answers
      every call and leaks neither a reservation nor a descriptor ([udp_script_socket]).  The
      lemma [failed_open_leaks] is where a state of the reactor is lost.
    - Threads.  No thread sleeps while there is work ([nobody_sleeps_over_work]), provided
      that a thread that leaves the loop after one handler has no continuation of its own
      left to run ([one_shot_strands]: the proviso is needed); a strand
      runs one handler at a time, in order ([strand_exclusive], [strand_fifo]); a registry
      makes each service once ([registry_one_service]).
    - TLS.  The stream neither loses nor repeats a byte ([tls_io_conserves]), reports eof
      only after the peer's close_notify, any other eof of the transport as
      [stream_truncated], and any other error of a read as it is ([tls_eof_authentic]); the
      asynchronous operations
      agree with the synchronous ones ([tls_async_agrees]) and use the transport one at a
      time ([tls_transport_exclusive]); [connect_ssl] is all or nothing
      ([connect_ssl_outcome]); each trust mode consults exactly its own sources
      ([configure_client_context_calls]); a client that is not insecure talks only to a
      verified peer with a certificate for its host ([secure_client_verifies]); the SSL
      objects, BIOs and callbacks have one owner and are freed once ([engines_own]).
    - Data.  Composed transfers give exactly the bytes of their calls, or the error of the
      call that failed ([tcp_read_write_exact]); an attempt of the reactor that ends is a
      blocking call, and one that does not is where that call waits
      ([blocking_io_agrees]); the resumed delimiter search agrees with a search of the
      whole buffer after every read ([async_read_until_correct]); the stream buffer refines
      a queue of bytes, as long as no single count reaches 2^31
      ([streambuf_refines_queue]).
    - Timers.  The timer queue refines a map of alarms ([timer_queue_refines]), the timers
      of a program a map of expiries and waits, where a run of the event loop that comes to
      the timers ends the waits of all that are due ([deadline_timers_refine]; the handlers
      of these waits make no calls); a blocking wait returns, and not early (lemma
      [wait_returns]).
    - Addresses and numbers.  Endpoints refine pairs of an address and a port
      ([endpoint_refines]), addresses are well typed and survive their text
      ([address_well_typed], [address_text_round_trip]), [resolve] gives what the system
      found ([resolve_answers]); the constructors of
      endpoints take exactly the ports in range ([endpoint_port_exact]), and hexadecimal
      numbers come back ([fixed_hex_round_trip]).

    ** External code

    Code that is not under [src/] or that is the system's is a class, with what is relied
    on as a separate class of laws: [CovNumber], [CovNumeric] and [CovVar] (the CovScript
    SDK), [AddressText], [AddressSystem] with [AddressSystemOk] and [AddressTextOk] (inet_pton,
    inet_ntop, the names of interfaces), [ResolverSystem] with [ResolverOk] (getaddrinfo),
    [ErrorText], [TrustExternal] (OpenSSL's context, the environment, the Windows stores),
    [OpenSsl] (the SSL object and its BIOs), [VerifyContext] and [PeerVerifier] (the
    verification of a certificate chain), [SocketExternal] and [UdpExternal] (the sockets, as
    the program's classes see them), [Sys] and [SysModes] (the socket calls), [Epoll] with
    [EpollState] and [EpollOk], [SteadyClock], [ForkSystem], [SocketSystem] with
    [SocketLaws] (which take an aborted connection in the accept queue as leaving nothing
    ready), [SetupSystem] with [OpenFiles], [FileLaws], [ListenState] and [ListenLaws] (the
    calls that bind, listen, name and set options; the table of open descriptors, which
    a descriptor always leaves when it is closed; a socket that is ready again and again for nothing is so finitely
    often), [SleepSystem] with [SleepOk], [AsyncExternal] with [AsyncExternalOk] (initiating,
    cancelling and completing operations), [CniTcp] and [CniUdp].
    [OpHandlers] and [Scheduler.Reactor] are interfaces between parts, as is [TimerScheduler] with its laws, which the epoll reactor implements;
    [UdpExternal] is implemented by asio's sockets ([UdpTransport]).
    Every law used as a hypothesis has an instance on which a witness evaluates.

    ** Bounds and fuel

    Loops over data have a measure that is enough: the heap and its index ([TimerQueue]),
    the size of the transfer plus one ([Transfer]; [transfer_exact] proves the end), the
    operations queued or deliverable ([Scheduler.poll]; [async_poll_ends]), the entries of
    the results plus one ([Resolver.push_all]).  A delimiter
    read and a wait depend on the peer and the clock: they take the list of what arrives,
    or of rounds (clock reading and what other fibers did), and end with an explicit
    answer when the list runs out; the theorem on hanging quantifies over all lists.
    The blocking system calls of [SocketOps] have fuel for their rounds of waiting; from some
    amount on it makes no difference ([SocketObjects.ends]).  An attempt of the reactor goes
    round while signals interrupt it, [eintr] times at most in the model; out of that fuel it
    would have to wait, and [blocking_io_agrees] is about attempts that do not run out.
    [Scheduler.run] has fuel for the rounds of epoll, which nothing bounds: what is stated
    is what holds when it returns.
    Counters of 64 and 32 bits wrap ([wrap64], [async_jobs]); times saturate at 64 bits;
    ports and sizes are checked against their widths; lengths of vectors are [nat].

    ** Simplifications

    Atomics are sequentially consistent.  Outside [AdmissionSafety] a member function runs
    alone; in [EventLoop] a round of a worker thread, and what holds [lifecycle_mutex], are
    one step, and a handler bound to a strand runs directly.  [Scheduler] and the files over
    it run one thread; [SchedulerThreads] has the mutexes, events and interrupts of the
    same code.  A request to the reactor is one step.  The platform is Linux with epoll
    ([TrustStore] has all platforms).  Heaps (of strands, descriptor states, SSL objects,
    lists of addresses) are maps; memory does not run out.  The
    environment of the scheduler has two fields that only record facts for the proofs
    ([draining] and [guards] of the store), the reactor the list [handled].  A critical
    section of the registry is one step.

    Not modelled: the locations that [throw_error] adds to the texts of errors, the binding
    of names to functions ([network_cs_ext::init], [get_ext]),
    the script packages ([netutils.ecs], [argparse.ecs]), exceptions of handlers,
    asynchronous and reverse name resolution, sequences of several buffers, waits for
    readiness without a transfer ([async_wait], null buffers), [io_control], OpenSSL itself,
    and the parts of asio the program does not use.

    ** Later work

    The law class [AsyncExternalOk] proved of the socket service, so that the theorems on
    the program's event loop and those on the reactor meet in one statement; the accounts of
    [SocketObjects] for asynchronous accepts, whose descriptor the operation holds until its
    handler takes it; the handshake with data already read ([buffered_handshake_op]). *)
From stdpp Require Export base tactics numbers list strings option gmap.
From Stdlib Require Export ZArith Lia Ascii.

(** ** Scopes and databases *)

Declare Scope net_scope.
Delimit Scope net_scope with net.
Open Scope net_scope.
Open Scope Z_scope.

Create HintDb net discriminated.
Create Rewrite HintDb net_rw.

(** ** Error codes

    The [asio::error_code] values the code under [src/] compares with; every
    other value is [other_error].  An [error_code] that tests false (success)
    is [None]. *)
Inductive error :=
  | eof
  | connection_reset
  | would_block
  | try_again
  | not_connected
  | operation_aborted
  | not_found
  | already_open
  | stream_truncated            (** the ssl stream category *)
  | unspecified_system_error
  | unexpected_result
  | ssl_error (code : Z)        (** the category of OpenSSL *)
  | netdb_error (code : Z)      (** the category of the resolver's h_errno *)
  | addrinfo_error (code : Z)   (** the category of getaddrinfo *)
  | other_error (code : Z).

#[export] Instance error_eq_dec : EqDecision error.
Proof. solve_decision. Defined.

Abbreviation error_code := (option error).

(** [if (ec)] *)
Definition ec_set (ec : error_code) : bool :=
  match ec with Some _ => true | None => false end.

(** [ec == e] and [ec != e]. *)
Definition ec_is (ec : error_code) (e : error) : bool := bool_decide (ec = Some e).

(** ** Exceptions *)

Inductive exn :=
  | runtime_error (what : string)
  | length_error (what : string)
  | invalid_argument (what : string)
  | out_of_range (what : string)
  | system_error (e : error)
  | lang_error (what : string).

#[export] Instance exn_eq_dec : EqDecision exn.
Proof. solve_decision. Defined.

(** The text of a system error is chosen by the platform: it is a parameter. *)
Class ErrorText := { error_message : error -> string; system_error_what : error -> string }.

(** An instance to evaluate with. *)
Definition plain_error_text : ErrorText :=
  {| error_message := fun _ => "error"; system_error_what := fun _ => "error" |}.

(** [e.what()] *)
Definition what `{ErrorText} (e : exn) : string :=
  match e with
  | runtime_error s | length_error s | invalid_argument s | out_of_range s
  | lang_error s => s
  | system_error e => system_error_what e
  end.

(** A result: a value, or a thrown exception. *)
Inductive res (A : Type) :=
  | Ok (a : A)
  | Throw (e : exn).
Arguments Ok {A} a.
Arguments Throw {A} e.

Definition is_ok {A} (r : res A) : bool := match r with Ok _ => true | Throw _ => false end.

Definition res_bind {A B} (r : res A) (k : A -> res B) : res B :=
  match r with Ok a => k a | Throw e => Throw e end.

Notation "'let?' x := r 'in' k" := (res_bind r (fun x => k))
  (at level 10, x pattern, r at level 100, k at level 200) : net_scope.

(** ** The state-and-exception monad

    A C++ member function: it may throw, and what it did to the state before it
    threw stays done. *)
Definition M (S A : Type) : Type := S -> res A * S.

Definition ret {S A} (a : A) : M S A := fun s => (Ok a, s).
Definition throw {S A} (e : exn) : M S A := fun s => (Throw e, s).
Definition bind {S A B} (m : M S A) (k : A -> M S B) : M S B := fun s =>
  match m s with
  | (Ok a, s') => k a s'
  | (Throw e, s') => (Throw e, s')
  end.
Definition gets {S A} (f : S -> A) : M S A := fun s => (Ok (f s), s).
Definition modify {S} (f : S -> S) : M S unit := fun s => (Ok tt, f s).

(** [try { m } catch (e) { h e }] *)
Definition try_catch {S A} (m : M S A) (h : exn -> M S A) : M S A := fun s =>
  match m s with
  | (Ok a, s') => (Ok a, s')
  | (Throw e, s') => h e s'
  end.

(** A scope guard: its destructor [d] (which does not throw) runs on every way out
    of [m]. *)
Definition finally {S A} (m : M S A) (d : S -> S) : M S A := fun s =>
  match m s with
  | (r, s') => (r, d s')
  end.

Notation "x <-- m ;; k" := (bind m (fun x => k))
  (at level 100, m at next level, right associativity) : net_scope.
Notation "m ;;; k" := (bind m (fun _ => k))
  (at level 100, k at level 200, right associativity) : net_scope.

(** ** Machine integers *)

Definition size_bits : Z := 64.
Definition size_max : Z := 2 ^ size_bits - 1.
(** Arithmetic on [std::size_t] and [unsigned long long]. *)
Definition wrap64 (z : Z) : Z := z `mod` 2 ^ 64.

Lemma wrap64_small z : 0 <= z < 2 ^ 64 -> wrap64 z = z.
Proof. apply Z.mod_small. Qed.

Lemma wrap64_range z : 0 <= wrap64 z < 2 ^ 64.
Proof. apply Z.mod_pos_bound. lia. Qed.

#[export] Hint Resolve wrap64_range : net.

(** ** Compile-time configuration

    The [NETWORK_*] macros, which [CMakeLists.txt] defines and lets the build
    override, and the conditions the [static_assert]s of [network.cpp] state. *)
Class NetworkConfig := {
  NETWORK_FIXED_HEX_SIZE : nat;
  NETWORK_MAX_PORT : Z;
  NETWORK_MAX_IO_BUFFER_SIZE : Z;
  NETWORK_SAFE_SHUTDOWN_TIMEOUT_MS : Z;
  NETWORK_TLS_SHUTDOWN_TIMEOUT_MS : Z;
}.

Class NetworkConfigOk (c : NetworkConfig) := {
  fixed_hex_size_assert : (1 <= NETWORK_FIXED_HEX_SIZE <= 256)%nat;
  io_buffer_size_assert : NETWORK_MAX_IO_BUFFER_SIZE > 0;
}.

Definition default_config : NetworkConfig := {|
  NETWORK_FIXED_HEX_SIZE := 16;
  NETWORK_MAX_PORT := 65535;
  NETWORK_MAX_IO_BUFFER_SIZE := 67108864;
  NETWORK_SAFE_SHUTDOWN_TIMEOUT_MS := 200;
  NETWORK_TLS_SHUTDOWN_TIMEOUT_MS := 5000;
|}.

#[export] Instance default_config_ok : NetworkConfigOk default_config.
Proof. split; cbn; lia. Qed.

(** ** Tactics *)

(** Case analysis on the innermost [match] or [if] of the goal or a hypothesis,
    recording the equation. *)
Ltac dcase :=
  match goal with
  | |- context [match ?x with _ => _ end] =>
      lazymatch x with
      | context [match _ with _ => _ end] => fail
      | _ => let E := fresh "E" in destruct x eqn:E
      end
  | H : context [match ?x with _ => _ end] |- _ =>
      lazymatch x with
      | context [match _ with _ => _ end] => fail
      | _ => let E := fresh "E" in destruct x eqn:E
      end
  end.

(** Unfold the monad, then run case analysis to the end. *)
Ltac munfold := unfold bind, ret, throw, gets, modify, try_catch, finally, res_bind in *.
Ltac msolve := munfold; cbn in *; repeat (dcase; cbn in *; simplify_eq); auto.

(** ** Text *)

(** A text between double quotes. *)
Definition quoted (s : string) : string :=
  String (ascii_of_nat 34) (s +:+ String (ascii_of_nat 34) "").

(** ** Generic lemmas *)

Lemma string_app_cons c (s t : string) : String c s +:+ t = String c (s +:+ t).
Proof. reflexivity. Qed.

Lemma string_app_nil_l (s : string) : "" +:+ s = s.
Proof. reflexivity. Qed.

Lemma string_app_nil_r (s : string) : s +:+ "" = s.
Proof. induction s as [|c s IH]; [done|]. by rewrite string_app_cons, IH. Qed.

Lemma string_app_assoc (a b c : string) : a +:+ (b +:+ c) = (a +:+ b) +:+ c.
Proof. induction a as [|x a IH]; [done|]. by rewrite !string_app_cons, IH. Qed.

Lemma string_length_app (a b : string) :
  String.length (a +:+ b) = (String.length a + String.length b)%nat.
Proof. induction a as [|x a IH]; [done|]. rewrite string_app_cons. cbn. by rewrite IH. Qed.

#[export] Hint Rewrite string_app_nil_l string_app_nil_r string_app_cons string_length_app : net_rw.

Lemma bind_ret_l {S A B} (a : A) (k : A -> M S B) s : bind (ret a) k s = k a s.
Proof. reflexivity. Qed.

Lemma bind_assoc {S A B C} (m : M S A) (k : A -> M S B) (h : B -> M S C) s :
  bind (bind m k) h s = bind m (fun a => bind (k a) h) s.
Proof. unfold bind. by destruct (m s) as [[a|e] s']. Qed.

(** The sum of the weights of the values of a map. *)
Definition map_sum {A} (w : A -> Z) (f : gmap nat A) : Z := map_fold (fun _ a n => w a + n)%Z 0%Z f.

Lemma map_sum_delete {A} (w : A -> Z) (f : gmap nat A) i a : f !! i = Some a -> map_sum w f = (w a + map_sum w (delete i f))%Z.
Proof. intros Hi. unfold map_sum. apply (map_fold_delete_L (fun _ a n => w a + n)%Z 0%Z i a f); [|done]. intros. lia. Qed.
Lemma map_sum_insert {A} (w : A -> Z) (f : gmap nat A) i a a0 : w a0 = 0%Z ->
  map_sum w (<[i := a]> f) = (map_sum w f + w a - w (default a0 (f !! i)))%Z.
Proof.
  intros H0. rewrite (map_sum_delete w (<[i := a]> f) i a) by apply lookup_insert_eq. rewrite delete_insert_eq.
  destruct (f !! i) as [b|] eqn:Hi; cbn.
  - rewrite (map_sum_delete w f i b) by done. lia.
  - rewrite delete_id by done. lia.
Qed.
Lemma map_sum_zero {A} (w : A -> Z) (f : gmap nat A) : (forall i a, f !! i = Some a -> w a = 0%Z) -> map_sum w f = 0%Z.
Proof.
  induction f as [|i a f Hi IH] using map_ind; intros Hw; [done|].
  rewrite (map_sum_delete w (<[i:=a]> f) i a), delete_insert_id by (done || apply lookup_insert_eq).
  rewrite (Hw i a (lookup_insert_eq _ _ _)), IH; [done|]. intros j b Hj. apply (Hw j b). rewrite lookup_insert_ne; [done|]. by intros ->; rewrite Hi in Hj.
Qed.
Lemma map_sum_sub {A} (w v : A -> Z) (f : gmap nat A) : map_sum (fun a => w a - v a)%Z f = (map_sum w f - map_sum v f)%Z.
Proof.
  induction f as [|i a f Hi IH] using map_ind; [done|].
  rewrite !(map_sum_delete _ (<[i:=a]> f) i a), delete_insert_id, IH by (done || apply lookup_insert_eq). lia.
Qed.
