(* ===== verification/FixedHex.v ===== *)
(** * Numbers at the script boundary: buffer sizes and fixed-width hexadecimal

    Models [checked_io_buffer_size], [to_fixed_hex] and [from_fixed_hex] of
    [network.cpp], with the parts of the C++ library they call: [snprintf] with
    ["%0*llX"] and [std::stoull] in base 16 (libstdc++).  The script's [number] and
    [numeric] types belong to the CovScript SDK: they are the classes [CovNumber]
    and [CovNumeric]. *)
From S2P Require Import Prelude.
From Stdlib Require Import QArith Qround.
Open Scope Z_scope.

(** ** The script's numbers *)

(** [number]: comparison with an integer, and the truncating conversion to an
    unsigned type of a value that is not negative. *)
Class CovNumber := {
  number : Type;
  number_compare : number -> Z -> comparison;
  number_trunc : number -> Z;
}.

Class CovNumberOk (N : CovNumber) := {
  number_trunc_lower n : number_compare n 0 <> Lt -> number_compare n (number_trunc n) <> Lt;
  number_trunc_upper n : number_compare n 0 <> Lt -> number_compare n (number_trunc n + 1) = Lt;
  number_compare_le n a b : number_compare n a <> Lt -> b <= a -> number_compare n b <> Lt;
  number_compare_lt n a b : number_compare n a <> Gt -> a < b -> number_compare n b = Lt;
}.

(** [numeric]: a tagged integer or float; the code reads it as a 64-bit integer and
    returns an [unsigned long long] through its converting constructor. *)
Class CovNumeric := {
  numeric : Type;
  as_integer : numeric -> Z;
  numeric_of_ull : Z -> numeric;
}.

Class CovNumericOk (N : CovNumeric) := {
  as_integer_range n : - 2 ^ 63 <= as_integer n < 2 ^ 63;
  as_integer_of_ull v : 0 <= v < 2 ^ 63 -> as_integer (numeric_of_ull v) = v;
}.

(** ** Buffer sizes *)

Section buffer_size.
  Context `{NetworkConfig} `{CovNumber}.

(** [std::to_string] of a non-negative integer, in base ten. *)
Fixpoint dec_digits (fuel : nat) (z : Z) (acc : string) : string :=
  match fuel with
  | O => acc
  | S fuel =>
      let acc := String (Ascii.ascii_of_nat (Z.to_nat (z `mod` 10) + 48)) acc in
      if z / 10 =? 0 then acc else dec_digits fuel (z / 10) acc
  end.
Definition to_string (z : Z) : string := dec_digits 20 z "".

Definition checked_io_buffer_size (size : number) : res Z :=
  match number_compare size 0 with
  | Lt | Eq => Throw (lang_error "Buffer size must be greater than zero.")
  | Gt =>
      match number_compare size NETWORK_MAX_IO_BUFFER_SIZE with
      | Gt => Throw (lang_error ("Buffer size exceeds the configured limit of "
                +:+ to_string NETWORK_MAX_IO_BUFFER_SIZE +:+ " bytes."))
      | _ => Ok (wrap64 (number_trunc size))
      end
  end.
End buffer_size.

(** ** Hexadecimal printing: [snprintf(buf, size, "%0*llX", width, v)] *)

Definition hex_char (d : Z) : Ascii.ascii :=
  Ascii.ascii_of_nat (Z.to_nat (if d <? 10 then d + 48 else d + 55)).

(** The digits of [v], most significant first, without leading zeros. *)
Fixpoint hex_digits (fuel : nat) (v : Z) (acc : string) : string :=
  match fuel with
  | O => acc
  | S fuel =>
      let acc := String (hex_char (v `mod` 16)) acc in
      if v / 16 =? 0 then acc else hex_digits fuel (v / 16) acc
  end.

Fixpoint zeros (n : nat) (acc : string) : string :=
  match n with
  | O => acc
  | S n => String "0"%char (zeros n acc)
  end.

(** The whole formatted text; an [unsigned long long] has at most 16 digits. *)
Definition format_llX (width : nat) (v : Z) : string :=
  let digits := hex_digits 16 v "" in
  zeros (width - String.length digits) digits.

(** [snprintf] into a buffer of [size] characters: what the buffer holds before its
    terminator, and the returned length of the whole text. *)
Definition snprintf_llX (size width : nat) (v : Z) : string * nat :=
  let text := format_llX width v in
  (String.substring 0 (size - 1) text, String.length text).

Section fixed_hex.
  Context `{NetworkConfig} `{CovNumeric} `{ErrorText}.

Definition to_fixed_hex (n : numeric) : res string :=
  if as_integer n <? 0 then
    Throw (lang_error "Cannot convert negative number to fixed hex string.")
  else
    let '(buf, written) :=
      snprintf_llX (NETWORK_FIXED_HEX_SIZE + 1) NETWORK_FIXED_HEX_SIZE (wrap64 (as_integer n)) in
    if negb (Nat.eqb written NETWORK_FIXED_HEX_SIZE) then
      Throw (lang_error "Failed to convert number to fixed hex string.")
    else Ok (String.substring 0 NETWORK_FIXED_HEX_SIZE buf).

(** ** Hexadecimal parsing: [std::stoull(s, &idx, 16)] *)

(** [std::isspace] in the C locale. *)
Definition is_space (c : Ascii.ascii) : bool :=
  let n := Ascii.nat_of_ascii c in
  (Nat.leb 9 n && Nat.leb n 13) || Nat.eqb n 32.

Definition hex_val (c : Ascii.ascii) : option Z :=
  let n := Z.of_nat (Ascii.nat_of_ascii c) in
  if (48 <=? n) && (n <=? 57) then Some (n - 48)
  else if (65 <=? n) && (n <=? 70) then Some (n - 55)
  else if (97 <=? n) && (n <=? 102) then Some (n - 87)
  else None.

Definition is_hex (c : Ascii.ascii) : bool :=
  match hex_val c with Some _ => true | None => false end.

Fixpoint skip_space (s : string) : string :=
  match s with
  | String c s' => if is_space c then skip_space s' else s
  | EmptyString => s
  end.

Definition take_sign (s : string) : bool * string :=
  match s with
  | String "-"%char s' => (true, s')
  | String "+"%char s' => (false, s')
  | _ => (false, s)
  end.

(** The optional prefix counts only when a digit follows it. *)
Definition take_prefix (s : string) : string :=
  match s with
  | String "0"%char (String x (String d s')) =>
      if (bool_decide (x = "x"%char) || bool_decide (x = "X"%char)) && is_hex d
      then String d s' else s
  | _ => s
  end.

(** The longest run of digits: its value after [acc], and what follows it. *)
Fixpoint hex_run (s : string) (acc : Z) : Z * string :=
  match s with
  | String c s' =>
      match hex_val c with
      | Some d => hex_run s' (acc * 16 + d)
      | None => (acc, s)
      end
  | EmptyString => (acc, s)
  end.

(** The value and the number of characters consumed. *)
Definition stoull16 (s : string) : res (Z * nat) :=
  let '(neg, s2) := take_sign (skip_space s) in
  let s3 := take_prefix s2 in
  let '(v, rest) := hex_run s3 0 in
  if Nat.eqb (String.length rest) (String.length s3) then Throw (invalid_argument "stoull")
  else if 2 ^ 64 - 1 <? v then Throw (out_of_range "stoull")
  else Ok (if neg then wrap64 (- v) else v, (String.length s - String.length rest)%nat).

(** The [unsigned long long] the function computes, before its conversion to the
    script's [numeric]. *)
Definition from_fixed_hex_ull (s : string) : res Z :=
  if negb (Nat.eqb (String.length s) NETWORK_FIXED_HEX_SIZE) then
    Throw (lang_error ("Invalid byte string size, must be "
             +:+ to_string (Z.of_nat NETWORK_FIXED_HEX_SIZE) +:+ "."))
  else
    match stoull16 s with
    | Throw e => Throw (lang_error ("Invalid hex string: " +:+ what e))
    | Ok (val, idx) =>
        if negb (Nat.eqb idx (String.length s)) then
          Throw (lang_error ("Invalid hex string: unexpected trailing characters after "
                   +:+ to_string (Z.of_nat NETWORK_FIXED_HEX_SIZE) +:+ " hex digits."))
        else Ok val
    end.

Definition from_fixed_hex (s : string) : res numeric :=
  let? v := from_fixed_hex_ull s in Ok (numeric_of_ull v).
End fixed_hex.

(** ** Facts about the library functions *)

Definition all_hex (s : string) : Prop :=
  Forall (fun c => is_hex c = true) (String.list_ascii_of_string s).

Lemma hex_val_char d : 0 <= d < 16 -> hex_val (hex_char d) = Some d.
Proof.
  intros Hd.
  assert (d = 0 \/ d = 1 \/ d = 2 \/ d = 3 \/ d = 4 \/ d = 5 \/ d = 6 \/ d = 7 \/ d = 8 \/ d = 9 \/
          d = 10 \/ d = 11 \/ d = 12 \/ d = 13 \/ d = 14 \/ d = 15) as Hc by lia.
  by repeat destruct Hc as [-> | Hc]; subst.
Qed.

Lemma is_hex_char d : 0 <= d < 16 -> is_hex (hex_char d) = true.
Proof. intros Hd. unfold is_hex. by rewrite hex_val_char. Qed.

Lemma hex_not_space c : is_hex c = true -> is_space c = false.
Proof. destruct c as [[] [] [] [] [] [] [] []]; vm_compute; congruence. Qed.

Lemma hex_not_sign c : is_hex c = true -> c <> "-"%char /\ c <> "+"%char.
Proof. destruct c as [[] [] [] [] [] [] [] []]; vm_compute; split; congruence. Qed.

Lemma hex_not_x c : is_hex c = true -> c <> "x"%char /\ c <> "X"%char.
Proof. destruct c as [[] [] [] [] [] [] [] []]; vm_compute; split; congruence. Qed.

Lemma skip_space_hex s : all_hex s -> skip_space s = s.
Proof. destruct s as [|c s]; [done|]. intros H. cbn. by rewrite hex_not_space by by inv H. Qed.

Lemma take_sign_other c s : c <> "-"%char -> c <> "+"%char -> take_sign (String c s) = (false, String c s).
Proof.
  intros H1 H2. destruct c as [[] [] [] [] [] [] [] []]; try reflexivity; congruence.
Qed.

Lemma take_sign_hex s : all_hex s -> take_sign s = (false, s).
Proof.
  destruct s as [|c s]; [done|]. intros H.
  destruct (hex_not_sign c); [by inv H|]. by apply take_sign_other.
Qed.

Lemma take_prefix_hex s : all_hex s -> take_prefix s = s.
Proof.
  intros H. destruct s as [|c [|x [|d s]]]; cbn; [done| | |];
    try (destruct c as [[] [] [] [] [] [] [] []]; reflexivity).
  assert (is_hex x = true) as Hx by (inv H as [|? ? ? H2]; by inv H2).
  destruct (hex_not_x x Hx) as [Hx1 Hx2].
  rewrite !bool_decide_eq_false_2 by done.
  destruct c as [[] [] [] [] [] [] [] []]; reflexivity.
Qed.

Lemma zeros_length n s : String.length (zeros n s) = (n + String.length s)%nat.
Proof. induction n as [|n IH]; cbn; congruence. Qed.

Lemma zeros_all_hex n s : all_hex s -> all_hex (zeros n s).
Proof. intros H. induction n as [|n IH]; [done|]. by constructor. Qed.

Lemma zeros_run n s : hex_run (zeros n s) 0 = hex_run s 0.
Proof. induction n as [|n IH]; [done|]. cbn. apply IH. Qed.

(** What the digit loop produces: [k] digits, enough for [v] and no more. *)
Lemma hex_digits_spec fuel v acc :
  0 <= v < 16 ^ Z.of_nat fuel -> (0 < fuel)%nat -> all_hex acc ->
  exists k : nat,
    (1 <= k <= fuel)%nat /\ v < 16 ^ Z.of_nat k /\ (k = 1%nat \/ 16 ^ (Z.of_nat k - 1) <= v) /\
    String.length (hex_digits fuel v acc) = (k + String.length acc)%nat /\
    all_hex (hex_digits fuel v acc) /\
    forall a, hex_run (hex_digits fuel v acc) a = hex_run acc (a * 16 ^ Z.of_nat k + v).
Proof.
  revert v acc. induction fuel as [|fuel IH]; intros v acc Hv Hf Hacc; [lia|]. cbn [hex_digits].
  pose proof (Z.mod_pos_bound v 16 ltac:(lia)) as Hm.
  pose proof (Z.div_mod v 16 ltac:(lia)) as Hdm.
  assert (all_hex (String (hex_char (v mod 16)) acc)) as Hacc'
    by (constructor; [by apply is_hex_char | done]).
  destruct (Z.eqb_spec (v / 16) 0) as [E|E].
  - exists 1%nat. cbn [Z.of_nat]. split_and!; [lia|lia|lia|by left|reflexivity|done|].
    intros a. cbn [hex_run]. rewrite hex_val_char by lia. f_equal. lia.
  - assert (fuel <> 0%nat) as Hf0.
    { intros ->. apply E. apply Z.div_small. cbn in Hv. lia. }
    rewrite Nat2Z.inj_succ, Z.pow_succ_r in Hv by lia.
    destruct (IH (v / 16) (String (hex_char (v mod 16)) acc))
      as (k & Hk & Hlt & Hge & Hlen & Hall & Hrun); [nia|lia|done|].
    exists (S k). rewrite Nat2Z.inj_succ, Z.pow_succ_r by lia.
    split_and!; [lia|lia|nia|right|cbn in *; lia|done|].
    + replace (Z.succ (Z.of_nat k) - 1) with (Z.of_nat k) by lia.
      destruct Hge as [->|Hge]; [cbn; nia|].
      replace (Z.of_nat k) with (Z.succ (Z.of_nat k - 1)) by lia. rewrite Z.pow_succ_r by lia. nia.
    + intros a. rewrite Hrun. cbn [hex_run]. rewrite hex_val_char by lia. f_equal. lia.
Qed.

(** The value a string of digits denotes. *)
Definition hex_value (s : string) : Z := (hex_run s 0).1.

Lemma hex_run_all s a : all_hex s ->
  0 <= a -> exists v, hex_run s a = (v, EmptyString) /\
    a * 16 ^ Z.of_nat (String.length s) <= v < (a + 1) * 16 ^ Z.of_nat (String.length s).
Proof.
  revert a. induction s as [|c s IH]; intros a Hall Ha; cbn [hex_run String.length].
  { exists a. cbn. split; [done|lia]. }
  inv Hall as [|? ? Hc Hall']. unfold is_hex in Hc.
  destruct (hex_val c) as [d|] eqn:Hd; [|done].
  assert (0 <= d < 16) as Hr.
  { unfold hex_val in Hd. repeat case_match; simplify_eq; lia. }
  destruct (IH (a * 16 + d)) as (v & Hrun & Hv); [done|lia|].
  exists v. rewrite Nat2Z.inj_succ, Z.pow_succ_r by lia. split; [done|nia].
Qed.

Lemma hex_value_bound s : all_hex s -> 0 <= hex_value s < 16 ^ Z.of_nat (String.length s).
Proof.
  intros H. destruct (hex_run_all s 0 H) as (v & Hrun & Hv); [lia|].
  unfold hex_value. rewrite Hrun. cbn. lia.
Qed.

(** What [stoull] makes of at least one and at most sixteen digits. *)
Lemma stoull16_hex s : all_hex s -> (1 <= String.length s <= 16)%nat ->
  stoull16 s = Ok (hex_value s, String.length s).
Proof.
  intros Hall Hlen. pose proof (hex_value_bound s Hall) as Hb.
  destruct (hex_run_all s 0 Hall) as (v & Hrun & _); [lia|].
  unfold stoull16. rewrite skip_space_hex, take_sign_hex, take_prefix_hex by done.
  unfold hex_value in *. rewrite Hrun in *. cbn [fst String.length] in *.
  destruct (Nat.eqb_spec 0 (String.length s)); [lia|].
  assert (16 ^ Z.of_nat (String.length s) <= 16 ^ 16) by (apply Z.pow_le_mono_r; lia).
  destruct (Z.ltb_spec (2 ^ 64 - 1) v); [lia|]. by rewrite Nat.sub_0_r.
Qed.

Lemma substring_0 n s : (String.length s <= n)%nat -> String.substring 0 n s = s.
Proof.
  revert n. induction s as [|c s IH]; intros [|n] Hn; cbn in *; try done; [lia|].
  rewrite IH by lia. done.
Qed.

(** The text [snprintf] formats: at least [width] digits that denote [v]; more than
    [width] only when [v] does not fit. *)
Lemma format_llX_spec width v : (1 <= width)%nat -> 0 <= v < 2 ^ 64 ->
  all_hex (format_llX width v) /\ hex_value (format_llX width v) = v /\
  (String.length (format_llX width v) = width <-> v < 16 ^ Z.of_nat width) /\
  (width <= String.length (format_llX width v))%nat.
Proof.
  intros Hw Hv.
  destruct (hex_digits_spec 16 v "") as (k & Hk & Hlt & Hge & Hlen & Hall & Hrun); [lia|lia|constructor|].
  unfold format_llX. rewrite zeros_length. rewrite Hlen. cbn [String.length].
  rewrite Nat.add_0_r. unfold hex_value. split_and!.
  - by apply zeros_all_hex.
  - rewrite zeros_run, Hrun. cbn. lia.
  - destruct (decide (k <= width)%nat) as [Hkw|Hkw].
    + split; [intros _|lia]. eapply Z.lt_le_trans; [done|]. apply Z.pow_le_mono_r; lia.
    + split; [lia|]. intros Hlt'. exfalso.
      destruct Hge as [->|Hge]; [lia|].
      assert (16 ^ Z.of_nat width <= 16 ^ (Z.of_nat k - 1)) by (apply Z.pow_le_mono_r; lia). lia.
  - lia.
Qed.

(** ** Properties *)

Section properties.
  Context `{Hcfg : NetworkConfig} `{!NetworkConfigOk Hcfg}.
  Context `{Hnum : CovNumeric} `{!CovNumericOk Hnum} `{ErrorText}.

Lemma to_fixed_hex_fits n : 0 <= as_integer n < 16 ^ Z.of_nat NETWORK_FIXED_HEX_SIZE ->
  to_fixed_hex n = Ok (format_llX NETWORK_FIXED_HEX_SIZE (as_integer n)).
Proof.
  intros Hn. pose proof (as_integer_range n). pose proof fixed_hex_size_assert.
  unfold to_fixed_hex, snprintf_llX. rewrite wrap64_small by lia.
  destruct (format_llX_spec NETWORK_FIXED_HEX_SIZE (as_integer n)) as (_ & _ & Hlen & _); [lia|lia|].
  apply proj2 in Hlen. rewrite Hlen, Nat.eqb_refl by lia. cbn [negb].
  destruct (Z.ltb_spec (as_integer n) 0); [lia|].
  rewrite (substring_0 (_ - 1)) by lia. rewrite substring_0 by lia. done.
Qed.

Lemma to_fixed_hex_negative n : as_integer n < 0 ->
  to_fixed_hex n = Throw (lang_error "Cannot convert negative number to fixed hex string.").
Proof. intros Hn. unfold to_fixed_hex. by rewrite (proj2 (Z.ltb_lt _ _)). Qed.

Lemma to_fixed_hex_too_big n : 16 ^ Z.of_nat NETWORK_FIXED_HEX_SIZE <= as_integer n ->
  to_fixed_hex n = Throw (lang_error "Failed to convert number to fixed hex string.").
Proof.
  intros Hn. pose proof (as_integer_range n). pose proof fixed_hex_size_assert.
  assert (0 < 16 ^ Z.of_nat NETWORK_FIXED_HEX_SIZE) by (apply Z.pow_pos_nonneg; lia).
  destruct (format_llX_spec NETWORK_FIXED_HEX_SIZE (as_integer n)) as (_ & _ & Hlen & _); [lia|lia|].
  unfold to_fixed_hex, snprintf_llX. rewrite wrap64_small by lia.
  destruct (Z.ltb_spec (as_integer n) 0); [lia|].
  destruct (Nat.eqb_spec (String.length (format_llX NETWORK_FIXED_HEX_SIZE (as_integer n)))
              NETWORK_FIXED_HEX_SIZE) as [E|E]; [apply Hlen in E; lia|done].
Qed.

Lemma to_fixed_hex_ok_inv n s : to_fixed_hex n = Ok s ->
  0 <= as_integer n < 16 ^ Z.of_nat NETWORK_FIXED_HEX_SIZE /\
  s = format_llX NETWORK_FIXED_HEX_SIZE (as_integer n).
Proof.
  intros Hs. destruct (Z.ltb_spec (as_integer n) 0).
  { by rewrite to_fixed_hex_negative in Hs. }
  destruct (Z.leb_spec (16 ^ Z.of_nat NETWORK_FIXED_HEX_SIZE) (as_integer n)).
  { by rewrite to_fixed_hex_too_big in Hs. }
  rewrite to_fixed_hex_fits in Hs by lia. by simplify_eq.
Qed.

Lemma fixed_format_spec n : 0 <= as_integer n < 16 ^ Z.of_nat NETWORK_FIXED_HEX_SIZE ->
  let s := format_llX NETWORK_FIXED_HEX_SIZE (as_integer n) in
  String.length s = NETWORK_FIXED_HEX_SIZE /\ all_hex s /\ hex_value s = as_integer n.
Proof.
  intros Hn. pose proof (as_integer_range n). pose proof fixed_hex_size_assert.
  destruct (format_llX_spec NETWORK_FIXED_HEX_SIZE (as_integer n)) as (? & ? & Hlen & _); [lia|lia|].
  cbv zeta; split_and!; [apply Hlen; lia|done|done].
Qed.

(** What [to_fixed_hex] does on every integer.  It rejects a negative number, and a
    number that needs more than [NETWORK_FIXED_HEX_SIZE] digits; on every other number it
    returns a text of exactly that many hexadecimal digits which denotes the number. *)
Theorem to_fixed_hex_correct n :
  match to_fixed_hex n with
  | Ok s => 0 <= as_integer n < 16 ^ Z.of_nat NETWORK_FIXED_HEX_SIZE /\
  String.length s = NETWORK_FIXED_HEX_SIZE /\ all_hex s /\ hex_value s = as_integer n
  | Throw e =>
      as_integer n < 0 /\ e = lang_error "Cannot convert negative number to fixed hex string." \/
      16 ^ Z.of_nat NETWORK_FIXED_HEX_SIZE <= as_integer n /\
      e = lang_error "Failed to convert number to fixed hex string."
  end.
Proof.
  destruct (Z.ltb_spec (as_integer n) 0).
  { rewrite to_fixed_hex_negative by done. by left. }
  destruct (Z.leb_spec (16 ^ Z.of_nat NETWORK_FIXED_HEX_SIZE) (as_integer n)).
  { rewrite to_fixed_hex_too_big by done. by right. }
  rewrite to_fixed_hex_fits by lia. split; [lia|]. apply fixed_format_spec. lia.
Qed.

Lemma from_fixed_hex_digits s :
  String.length s = NETWORK_FIXED_HEX_SIZE -> (NETWORK_FIXED_HEX_SIZE <= 16)%nat -> all_hex s ->
  from_fixed_hex_ull s = Ok (hex_value s).
Proof.
  intros Hlen Hw Hall. pose proof fixed_hex_size_assert.
  unfold from_fixed_hex_ull. rewrite Hlen, Nat.eqb_refl. cbn [negb].
  rewrite stoull16_hex by (done || lia). rewrite Hlen, Nat.eqb_refl. done.
Qed.

(** C39: round trip.  Whatever [to_fixed_hex] returns, [from_fixed_hex] converts back to
    the same integer, for every configured width up to the default of sixteen digits. *)
Theorem fixed_hex_round_trip n s : (NETWORK_FIXED_HEX_SIZE <= 16)%nat ->
  to_fixed_hex n = Ok s -> exists m, from_fixed_hex s = Ok m /\ as_integer m = as_integer n.
Proof.
  intros Hw [Hn ->]%to_fixed_hex_ok_inv.
  destruct (fixed_format_spec n Hn) as (Hlen & Hall & Hval). pose proof (as_integer_range n).
  unfold from_fixed_hex. rewrite from_fixed_hex_digits by done. cbn.
  eexists. split; [done|]. rewrite Hval. apply as_integer_of_ull. lia.
Qed.

(** The decoder also takes a sign.  A minus followed by fifteen digits (at the
    default width) is accepted and denotes the negation modulo 2^64. *)
Theorem from_fixed_hex_accepts_sign s :
  NETWORK_FIXED_HEX_SIZE = 16%nat -> String.length s = 15%nat -> all_hex s ->
  from_fixed_hex_ull (String "-"%char s) = Ok (wrap64 (- hex_value s)).
Proof.
  intros Hw Hlen Hall. destruct (hex_run_all s 0 Hall) as (v & Hrun & Hv); [lia|].
  rewrite Hlen in Hv.
  assert (skip_space (String "-"%char s) = String "-"%char s) as Hsk by done.
  assert (take_sign (String "-"%char s) = (true, s)) as Hsg by done.
  unfold from_fixed_hex_ull, stoull16. rewrite Hsk, Hsg, take_prefix_hex by done.
  unfold hex_value. rewrite Hrun. cbn [String.length fst]. rewrite Hlen, Hw. cbn -[wrap64 Z.ltb Z.pow to_string].
  destruct (Z.ltb_spec (2 ^ 64 - 1) v); [lia|done].
Qed.
End properties.

Section buffer_size_properties.
  Context `{Hcfg : NetworkConfig} `{!NetworkConfigOk Hcfg} `{Hnum : CovNumber} `{!CovNumberOk Hnum}.

(** The size a read is given.  A size is accepted exactly when it is above zero and
    at most the configured limit, and the byte count that results is its integer part:
    at most the limit, and zero only for a number strictly between zero and one. *)
Theorem checked_io_buffer_size_correct size :
  NETWORK_MAX_IO_BUFFER_SIZE < 2 ^ 64 ->
  match checked_io_buffer_size size with
  | Ok n => number_compare size 0 = Gt /\ number_compare size NETWORK_MAX_IO_BUFFER_SIZE <> Gt /\
            n = number_trunc size /\ 0 <= n <= NETWORK_MAX_IO_BUFFER_SIZE /\
            (n = 0 <-> number_compare size 1 = Lt)
  | Throw _ => number_compare size 0 <> Gt \/ number_compare size NETWORK_MAX_IO_BUFFER_SIZE = Gt
  end.
Proof.
  intros Hmax. pose proof io_buffer_size_assert as Hpos. unfold checked_io_buffer_size.
  destruct (number_compare size 0) eqn:H0; [by left|by left|].
  assert (number_compare size 0 <> Lt) as H0' by congruence.
  pose proof (number_trunc_lower size H0') as Hlo. pose proof (number_trunc_upper size H0') as Hup.
  assert (0 <= number_trunc size) as Hnn.
  { destruct (Z.le_gt_cases 0 (number_trunc size)); [done|].
    exfalso. apply (number_compare_le size 0 (number_trunc size + 1)); [done|lia|done]. }
  assert (number_trunc size = 0 <-> number_compare size 1 = Lt) as Hz.
  { split; [intros E; by rewrite E in Hup|]. intros E.
    destruct (Z.le_gt_cases 1 (number_trunc size)); [|lia].
    exfalso. by apply (number_compare_le size (number_trunc size) 1). }
  destruct (number_compare size NETWORK_MAX_IO_BUFFER_SIZE) eqn:H1; [| |by right].
  all: assert (number_trunc size <= NETWORK_MAX_IO_BUFFER_SIZE) as Hle by
    (destruct (Z.le_gt_cases (number_trunc size) NETWORK_MAX_IO_BUFFER_SIZE); [done|]; exfalso;
     apply Hlo, (number_compare_lt size NETWORK_MAX_IO_BUFFER_SIZE); [congruence|lia]).
  all: rewrite wrap64_small by lia; split_and!; try done; lia.
Qed.
End buffer_size_properties.

(** ** Instances: integers and rationals as script numbers *)

Definition int_number : CovNumber :=
  {| number := Z; number_compare := Z.compare; number_trunc := fun z => z |}.

#[export] Instance int_number_ok : CovNumberOk int_number.
Proof.
  split; cbn; intros.
  - by rewrite Z.compare_refl.
  - apply Z.compare_lt_iff. lia.
  - rewrite Z.compare_ge_iff in *. lia.
  - rewrite Z.compare_le_iff, Z.compare_lt_iff in *. lia.
Qed.

(** A finite floating-point number is a rational. *)
Definition rational_number : CovNumber :=
  {| number := Q; number_compare := fun q z => Qcompare q (inject_Z z); number_trunc := Qfloor |}.

Lemma Qcompare_not_lt q r : Qcompare q r <> Lt <-> (r <= q)%Q.
Proof.
  rewrite Qle_alt, <- (Qcompare_antisym r q). destruct (Qcompare r q); cbn; naive_solver.
Qed.

#[export] Instance rational_number_ok : CovNumberOk rational_number.
Proof.
  split; cbn; intros.
  - apply Qcompare_not_lt, Qfloor_le.
  - apply Qlt_alt, Qlt_floor.
  - apply Qcompare_not_lt. apply Qcompare_not_lt in H.
    apply Qle_trans with (inject_Z a); [by rewrite <- Zle_Qle|done].
  - apply Qlt_alt. apply Qle_alt in H.
    apply Qle_lt_trans with (inject_Z a); [done|by rewrite <- Zlt_Qlt].
Qed.

Definition int64_numeric : CovNumeric := {|
  numeric := Z;
  as_integer := fun z => (z + 2 ^ 63) `mod` 2 ^ 64 - 2 ^ 63;
  numeric_of_ull := fun v => v |}.

#[export] Instance int64_numeric_ok : CovNumericOk int64_numeric.
Proof.
  split; cbn -[Z.pow]; intros.
  - pose proof (Z.mod_pos_bound (n + 2 ^ 63) (2 ^ 64) ltac:(lia)). lia.
  - rewrite Z.mod_small by lia. lia.
Qed.

(** ** Witnesses *)

Lemma to_fixed_hex_correct_witness :
  exists s, @to_fixed_hex default_config int64_numeric 42 = Ok s /\ hex_value s = 42.
Proof.
  exists "000000000000002A". split; [reflexivity|].
  exact (proj2 (proj2 (proj2 (@to_fixed_hex_correct default_config _ int64_numeric _ 42)))).
Defined.

Lemma fixed_hex_round_trip_witness :
  exists m, @from_fixed_hex default_config int64_numeric plain_error_text "000000000000FFFF" = Ok m /\
            @as_integer int64_numeric m = 65535.
Proof.
  apply (@fixed_hex_round_trip default_config _ int64_numeric _ plain_error_text 65535);
    [cbn; lia | reflexivity].
Defined.

Lemma from_fixed_hex_accepts_sign_witness :
  @from_fixed_hex_ull default_config plain_error_text "-00000000000000F" = Ok (2 ^ 64 - 15).
Proof.
  refine (@from_fixed_hex_accepts_sign default_config plain_error_text "00000000000000F" _ _ _).
  - reflexivity.
  - reflexivity.
  - repeat constructor.
Defined.

(** Half a byte passes the check as a request for zero bytes. *)
Lemma checked_io_buffer_size_correct_witness :
  @checked_io_buffer_size default_config rational_number (1 # 2)%Q = Ok 0 /\
  (0 = 0 <-> @number_compare rational_number (1 # 2)%Q 1 = Lt).
Proof.
  split; [reflexivity|].
  refine (proj2 (proj2 (proj2 (proj2
    (@checked_io_buffer_size_correct default_config _ rational_number _ (1 # 2)%Q _))))).
  cbn. lia.
Defined.
