(* ===== verification/Endpoint.v ===== *)
(** * Endpoints: [tcp::endpoint*], [udp::endpoint*] and the [ep] accessors of
    [network.cpp]

    Parsing and printing an address are fields of [AddressText]; [Address] models what asio
    does for them and has the instance. *)
From S2P Require Import Prelude FixedHex.

Inductive ip_address :=
  | address_v4 (bits : Z)
  | address_v6 (bits : Z) (scope : Z).

#[export] Instance ip_address_eq_dec : EqDecision ip_address.
Proof. solve_decision. Defined.

Record endpoint_t := Endpoint { ep_address : ip_address; ep_port : Z }.

#[export] Instance endpoint_eq_dec : EqDecision endpoint_t.
Proof. solve_decision. Defined.

Class AddressText := {
  make_address : string -> res ip_address;
  address_to_string : ip_address -> res string;
}.

Definition any_v4 : ip_address := address_v4 0.
Definition any_v6 : ip_address := address_v6 0 0.
Definition broadcast_v4 : ip_address := address_v4 4294967295.

Section endpoints.
  Context `{NetworkConfig} `{CovNumber} `{AddressText}.

(** [static_cast<unsigned short>(port)] *)
Definition to_port (port : number) : Z := number_trunc port `mod` 2 ^ 16.

Definition port_out_of_range (port : number) : bool :=
  match number_compare port 0 with
  | Lt => true
  | _ => match number_compare port NETWORK_MAX_PORT with Gt => true | _ => false end
  end.

Definition port_error : exn :=
  lang_error ("Port number must be in range [0, " +:+ to_string NETWORK_MAX_PORT +:+ "].").

Definition tcp_endpoint (host : string) (port : number) : res endpoint_t :=
  if port_out_of_range port then Throw port_error
  else let? a := make_address host in Ok (Endpoint a (to_port port)).

Definition tcp_endpoint_v4 (port : number) : res endpoint_t :=
  if port_out_of_range port then Throw port_error else Ok (Endpoint any_v4 (to_port port)).

Definition tcp_endpoint_v6 (port : number) : res endpoint_t :=
  if port_out_of_range port then Throw port_error else Ok (Endpoint any_v6 (to_port port)).

Definition udp_endpoint (host : string) (port : number) : res endpoint_t :=
  if port_out_of_range port then Throw port_error
  else let? a := make_address host in Ok (Endpoint a (to_port port)).

Definition udp_endpoint_v4 (port : number) : res endpoint_t :=
  if port_out_of_range port then Throw port_error else Ok (Endpoint any_v4 (to_port port)).

Definition udp_endpoint_broadcast (port : number) : res endpoint_t :=
  if port_out_of_range port then Throw port_error else Ok (Endpoint broadcast_v4 (to_port port)).

Definition udp_endpoint_v6 (port : number) : res endpoint_t :=
  if port_out_of_range port then Throw port_error else Ok (Endpoint any_v6 (to_port port)).

(** The accessors of namespace [ep] (the same for TCP and UDP). *)
Definition tcp_ep_address (ep : endpoint_t) : res string := address_to_string (ep_address ep).
Definition tcp_ep_is_v4 (ep : endpoint_t) : bool :=
  match ep_address ep with address_v4 _ => true | _ => false end.
Definition tcp_ep_is_v6 (ep : endpoint_t) : bool :=
  match ep_address ep with address_v6 _ _ => true | _ => false end.
Definition tcp_ep_port (ep : endpoint_t) : Z := ep_port ep.

Definition udp_ep_address (ep : endpoint_t) : res string := address_to_string (ep_address ep).
Definition udp_ep_is_v4 (ep : endpoint_t) : bool :=
  match ep_address ep with address_v4 _ => true | _ => false end.
Definition udp_ep_is_v6 (ep : endpoint_t) : bool :=
  match ep_address ep with address_v6 _ _ => true | _ => false end.
Definition udp_ep_port (ep : endpoint_t) : Z := ep_port ep.
End endpoints.

(** ** Properties *)

Section properties.
  Context `{Hcfg : NetworkConfig} `{Hnum : CovNumber} `{!CovNumberOk Hnum} `{AddressText}.

Lemma port_in_range port : NETWORK_MAX_PORT < 2 ^ 16 -> port_out_of_range port = false ->
  0 <= number_trunc port <= NETWORK_MAX_PORT.
Proof.
  intros Hmax. unfold port_out_of_range. intros E.
  assert (number_compare port 0 <> Lt) as H0 by (intros E'; by rewrite E' in E).
  assert (number_compare port NETWORK_MAX_PORT <> Gt) as H1.
  { destruct (number_compare port 0); [| |]; by destruct (number_compare port NETWORK_MAX_PORT). }
  pose proof (number_trunc_lower port H0) as Hlo. pose proof (number_trunc_upper port H0) as Hup.
  split.
  - destruct (Z.le_gt_cases 0 (number_trunc port)); [done|].
    exfalso. apply (number_compare_le port 0 (number_trunc port + 1)); [done|lia|done].
  - destruct (Z.le_gt_cases (number_trunc port) NETWORK_MAX_PORT); [done|].
    exfalso. apply Hlo, (number_compare_lt port NETWORK_MAX_PORT); [done|lia].
Qed.

Lemma out_of_range_spec port :
  port_out_of_range port = false <-> number_compare port 0 <> Lt /\ number_compare port NETWORK_MAX_PORT <> Gt.
Proof. unfold port_out_of_range. destruct (number_compare port 0), (number_compare port NETWORK_MAX_PORT); naive_solver. Qed.

(** C40: the ports of the endpoints a script builds.  With a limit that fits 16 bits, each of
    the seven constructors accepts exactly the ports from 0 to the limit: it gives the
    endpoint with its address (any, broadcast, or the one the host's text names) and the
    port unchanged (its integer part, which the 16-bit conversion does not wrap), and throws
    for every other port, before it looks at the host; a text that names no address throws
    what parsing it throws. *)
Theorem endpoint_port_exact host port (Hmax : NETWORK_MAX_PORT < 2 ^ 16) :
  let in_range := number_compare port 0 <> Lt /\ number_compare port NETWORK_MAX_PORT <> Gt in
  let accepts (made : res endpoint_t) (address : res ip_address) :=
    (in_range -> match address with Ok a => made = Ok (Endpoint a (number_trunc port)) | Throw e => made = Throw e end) /\
    (~ in_range -> made = Throw port_error) in
  (in_range -> 0 <= number_trunc port <= NETWORK_MAX_PORT) /\
  accepts (tcp_endpoint host port) (make_address host) /\ accepts (udp_endpoint host port) (make_address host) /\
  accepts (tcp_endpoint_v4 port) (Ok any_v4) /\ accepts (udp_endpoint_v4 port) (Ok any_v4) /\
  accepts (tcp_endpoint_v6 port) (Ok any_v6) /\ accepts (udp_endpoint_v6 port) (Ok any_v6) /\
  accepts (udp_endpoint_broadcast port) (Ok broadcast_v4).
Proof.
  intros in_range accepts. unfold accepts, tcp_endpoint, udp_endpoint, tcp_endpoint_v4, udp_endpoint_v4, tcp_endpoint_v6,
    udp_endpoint_v6, udp_endpoint_broadcast. clear accepts.
  pose proof (out_of_range_spec port) as Hspec. fold in_range in Hspec. destruct (port_out_of_range port) eqn:E.
  - assert (~ in_range) as Hno by (intros Hin; by apply Hspec in Hin). split_and!; done || intros Hin; by destruct (Hno Hin).
  - assert (in_range) as Hyes by by apply Hspec. pose proof (port_in_range port Hmax E) as Hp.
    assert (to_port port = number_trunc port) as -> by (unfold to_port; rewrite Z.mod_small; lia).
    split; [done|]. by destruct (make_address host); split_and!.
Qed.
End properties.

(** A text that names one address. *)
#[local] Instance sample_text : AddressText := {|
  make_address := fun s => if String.eqb s "127.0.0.1" then Ok (address_v4 2130706433) else Throw (system_error (other_error 22));
  address_to_string := fun _ => Ok "127.0.0.1"%string;
|}.
Lemma endpoint_port_exact_witness :
  @tcp_endpoint default_config int_number sample_text "127.0.0.1" 65535 = Ok (Endpoint (address_v4 2130706433) 65535) /\
  @udp_endpoint_v4 default_config int_number 65536 = Throw (@port_error default_config).
Proof.
  split.
  - refine (proj1 (proj1 (proj2 (@endpoint_port_exact default_config int_number _ sample_text "127.0.0.1" 65535 _))) _); vm_compute; [done|by split].
  - refine (proj2 (proj1 (proj2 (proj2 (proj2 (proj2 (@endpoint_port_exact default_config int_number _ sample_text "" 65536 _)))))) _); [vm_compute; done|].
    vm_compute. by intros [_ Hle].
Defined.
