(* ===== verification/TlsOptions.v ===== *)
(** * TLS options: [is_null_var] and [parse_ssl_options] of [network.cpp], the
    [ssl_options] record of [network.hpp]

    A script value ([cs::var]) belongs to the CovScript SDK; the code inspects it
    through the operations of the class [CovVar].  A [hash_map] shows its entries in
    the order its iteration visits them. *)
From S2P Require Import Prelude.

(** ** Data *)

Inductive ssl_trust_mode := auto_mode | openssl | custom | insecure.

#[export] Instance ssl_trust_mode_eq_dec : EqDecision ssl_trust_mode.
Proof. solve_decision. Defined.

Record ssl_options := SslOptions {
  trust_mode : ssl_trust_mode;
  verify_peer : bool;
  verify_host : bool;
  ca_file : string;
  ca_path : string;
}.

#[export] Instance ssl_options_eq_dec : EqDecision ssl_options.
Proof. solve_decision. Defined.

Definition default_ssl_options : ssl_options := SslOptions auto_mode true true "" "".

Definition set_trust_mode (m : ssl_trust_mode) (o : ssl_options) : ssl_options :=
  SslOptions m (verify_peer o) (verify_host o) (ca_file o) (ca_path o).
Definition set_verify (p h : bool) (o : ssl_options) : ssl_options :=
  SslOptions (trust_mode o) p h (ca_file o) (ca_path o).
Definition set_ca_file (s : string) (o : ssl_options) : ssl_options :=
  SslOptions (trust_mode o) (verify_peer o) (verify_host o) s (ca_path o).
Definition set_ca_path (s : string) (o : ssl_options) : ssl_options :=
  SslOptions (trust_mode o) (verify_peer o) (verify_host o) (ca_file o) s.

(** [std::string::empty] *)
Definition empty (s : string) : bool := match s with EmptyString => true | _ => false end.

Lemma empty_true s : empty s = true <-> s = EmptyString.
Proof. by destruct s. Qed.

(** ** Script values *)

Class CovVar := {
  var : Type;
  is_void : var -> bool;                      (** [v.type() == typeid(void)] *)
  as_pointer : var -> option bool;            (** a [pointer], and whether its data is usable *)
  as_string : var -> option string;
  as_hash_map : var -> option (list (var * var));
}.

Section parse.
  Context `{CovVar}.

Definition is_null_var (v : var) : bool :=
  if is_void v then true
  else match as_pointer v with
       | Some usable => negb usable
       | None => false
       end.

(** The value of an option that is a string or null. *)
Definition string_or_null (key : string) (value : var) : res string :=
  if is_null_var value then Ok ""
  else match as_string value with
       | Some s => Ok s
       | None => Throw (lang_error ("TLS option " +:+ quoted key +:+ " must be string or null."))
       end.

(** The value of [trust_mode], written into the options. *)
Definition parse_trust_mode (options : ssl_options) (value : var) : res ssl_options :=
  match as_string value with
  | None => Throw (lang_error ("TLS option " +:+ quoted "trust_mode" +:+ " must be string."))
  | Some mode =>
      if bool_decide (mode = "auto") then Ok (set_trust_mode auto_mode options)
      else if bool_decide (mode = "openssl") then Ok (set_trust_mode openssl options)
      else if bool_decide (mode = "custom") then Ok (set_trust_mode custom options)
      else if bool_decide (mode = "insecure") then
        Ok (set_verify false false (set_trust_mode insecure options))
      else Throw (lang_error ("Unsupported TLS trust_mode: " +:+ mode))
  end.

(** One turn of the loop over the entries, on the options read so far and
    [has_trust_mode]. *)
Definition parse_entry (acc : ssl_options * bool) (entry : var * var) : res (ssl_options * bool) :=
  let '(options, has_trust_mode) := acc in
  match as_string entry.1 with
  | None => Throw (lang_error "TLS option keys must be strings.")
  | Some key =>
      let value := entry.2 in
      if bool_decide (key = "trust_mode") then
        let? o := parse_trust_mode options value in Ok (o, true)
      else if bool_decide (key = "ca_file") then
        let? s := string_or_null "ca_file" value in Ok (set_ca_file s options, has_trust_mode)
      else if bool_decide (key = "ca_path") then
        let? s := string_or_null "ca_path" value in Ok (set_ca_path s options, has_trust_mode)
      else if bool_decide (key = "verify_peer") || bool_decide (key = "verify_host") then
        Throw (lang_error ("TLS option " +:+ quoted key +:+ " is not exposed through CNI."))
      else Throw (lang_error ("Unknown TLS option: " +:+ key))
  end.

Fixpoint parse_entries (acc : ssl_options * bool) (entries : list (var * var))
  : res (ssl_options * bool) :=
  match entries with
  | [] => Ok acc
  | entry :: entries => let? acc' := parse_entry acc entry in parse_entries acc' entries
  end.

(** The checks after the loop. *)
Definition check_ssl_options (options : ssl_options) (has_trust_mode : bool) : res ssl_options :=
  let has_ca := negb (empty (ca_file options)) || negb (empty (ca_path options)) in
  if has_ca && negb has_trust_mode then
    Throw (lang_error ("TLS options " +:+ quoted "ca_file" +:+ " and " +:+ quoted "ca_path"
             +:+ " require trust_mode=" +:+ quoted "custom" +:+ "."))
  else if has_ca && negb (bool_decide (trust_mode options = custom)) then
    Throw (lang_error ("TLS options " +:+ quoted "ca_file" +:+ " and " +:+ quoted "ca_path"
             +:+ " can only be used with trust_mode=" +:+ quoted "custom" +:+ "."))
  else if bool_decide (trust_mode options = custom) && empty (ca_file options) && empty (ca_path options) then
    Throw (lang_error ("TLS trust_mode " +:+ quoted "custom" +:+ " requires ca_file or ca_path."))
  else if bool_decide (trust_mode options = insecure) && has_ca then
    Throw (lang_error ("TLS trust_mode " +:+ quoted "insecure"
             +:+ " cannot be combined with ca_file or ca_path."))
  else Ok options.

Definition parse_ssl_options (options_var : var) : res ssl_options :=
  if is_null_var options_var then Ok default_ssl_options
  else match as_hash_map options_var with
       | None => Throw (lang_error "TLS options must be null or hash_map.")
       | Some entries =>
           let? acc := parse_entries (default_ssl_options, false) entries in
           check_ssl_options acc.1 acc.2
       end.
End parse.

Arguments parse_entry : simpl never.

(** ** Facts about one turn of the loop *)

Section facts.
  Context `{CovVar}.

(** The key of an entry, when it is a string. *)
Definition entry_key (e : var * var) : option string := as_string e.1.

(** What the options say about verification, once [trust_mode] is read at most once. *)
Definition verify_consistent (o : ssl_options) : Prop :=
  verify_host o = verify_peer o /\ (trust_mode o = insecure <-> verify_peer o = false).

(** The four kinds of entries. *)
Lemma parse_entry_view e :
  (entry_key e = Some "trust_mode" /\ forall o b,
    parse_entry (o, b) e = (let? o' := parse_trust_mode o e.2 in Ok (o', true))) \/
  (entry_key e = Some "ca_file" /\ forall o b,
    parse_entry (o, b) e = (let? s := string_or_null "ca_file" e.2 in Ok (set_ca_file s o, b))) \/
  (entry_key e = Some "ca_path" /\ forall o b,
    parse_entry (o, b) e = (let? s := string_or_null "ca_path" e.2 in Ok (set_ca_path s o, b))) \/
  exists err, forall o b, parse_entry (o, b) e = Throw err.
Proof.
  unfold parse_entry, entry_key. destruct (as_string e.1) as [k|].
  2: { do 3 right. by eexists. }
  destruct (decide (k = "trust_mode")) as [->|?]; [by left|].
  destruct (decide (k = "ca_file")) as [->|?]; [by right; left|].
  destruct (decide (k = "ca_path")) as [->|?]; [by do 2 right; left|].
  do 3 right. rewrite !(bool_decide_eq_false_2 (k = _)) by done.
  destruct (_ || _); by eexists.
Qed.

Lemma parse_trust_mode_ok o v o' : parse_trust_mode o v = Ok o' ->
  verify_peer o = true -> verify_host o = true -> verify_consistent o'.
Proof.
  unfold parse_trust_mode, verify_consistent. destruct (as_string v) as [m|]; [|done].
  intros Hp Hvp Hvh.
  repeat (case_bool_decide; [simplify_eq; cbn; rewrite ?Hvp, ?Hvh; intuition congruence|]). done.
Qed.

(** An entry other than [trust_mode] leaves the mode and the verification flags alone. *)
Lemma parse_entry_other o b e o' b' : parse_entry (o, b) e = Ok (o', b') ->
  entry_key e <> Some "trust_mode" ->
  trust_mode o' = trust_mode o /\ verify_peer o' = verify_peer o /\
  verify_host o' = verify_host o /\ b' = b.
Proof.
  intros Hp Hk.
  destruct (parse_entry_view e) as [[? _]|[[_ E]|[[_ E]|[err E]]]]; [done| | |];
    rewrite E in Hp; [| |done].
  all: destruct (string_or_null _ _); cbn in Hp; simplify_eq; done.
Qed.

(** The first [trust_mode] entry makes mode and flags agree. *)
Lemma parse_entry_mode o b e o' b' : parse_entry (o, b) e = Ok (o', b') ->
  entry_key e = Some "trust_mode" -> verify_peer o = true -> verify_host o = true ->
  verify_consistent o' /\ b' = true.
Proof.
  intros Hp Hk Hvp Hvh.
  destruct (parse_entry_view e) as [[_ E]|[[? _]|[[? _]|[err E]]]]; [|congruence..|];
    rewrite E in Hp; [|done].
  destruct (parse_trust_mode o e.2) as [o1|] eqn:E1; cbn in Hp; simplify_eq.
  split; [by eapply parse_trust_mode_ok|done].
Qed.

Lemma parse_entries_other es o b o' b' : parse_entries (o, b) es = Ok (o', b') ->
  Some "trust_mode" ∉ (entry_key <$> es) ->
  trust_mode o' = trust_mode o /\ verify_peer o' = verify_peer o /\
  verify_host o' = verify_host o /\ b' = b.
Proof.
  revert o b. induction es as [|e es IH]; cbn; intros o b Hp Hn; [by simplify_eq|].
  destruct (parse_entry (o, b) e) as [[o1 b1]|] eqn:E; [|done]. cbn in Hp.
  rewrite not_elem_of_cons in Hn. destruct Hn as [Hk Hn].
  apply parse_entry_other in E as (<- & <- & <- & ->); [|congruence]. by apply IH.
Qed.

Lemma parse_entries_consistent es o b o' b' : parse_entries (o, b) es = Ok (o', b') ->
  NoDup (entry_key <$> es) -> verify_peer o = true -> verify_host o = true ->
  trust_mode o <> insecure -> verify_consistent o'.
Proof.
  revert o b. induction es as [|e es IH]; cbn; intros o b Hp Hnd Hvp Hvh Hm.
  { simplify_eq. split; [congruence|intuition congruence]. }
  destruct (parse_entry (o, b) e) as [[o1 b1]|] eqn:E; [|done]. cbn in Hp.
  apply NoDup_cons in Hnd as [Hni Hnd].
  destruct (decide (entry_key e = Some "trust_mode")) as [Hk|Hk].
  - rewrite Hk in Hni. apply parse_entry_mode in E as [Hc ->]; [|done..].
    apply parse_entries_other in Hp as (Hm' & Hvp' & Hvh' & _); [|done].
    unfold verify_consistent in *. rewrite Hm', Hvp', Hvh'. done.
  - apply parse_entry_other in E as (Hm' & Hvp' & Hvh' & ->); [|done].
    apply (IH o1 b); [done|done|congruence..].
Qed.

Lemma check_ssl_options_ok o b o' : check_ssl_options o b = Ok o' ->
  o' = o /\ (trust_mode o = custom <-> ca_file o <> "" \/ ca_path o <> "").
Proof.
  unfold check_ssl_options. destruct o as [m p h f q]; cbn.
  destruct f, q, b; cbn; repeat case_bool_decide; cbn; intros; simplify_eq; (split; [done|]);
    (split; [intros; first [by left | by right | congruence] | intros [?|?]; congruence]).
Qed.

(** Reading the mode commutes with setting a CA source. *)
Lemma parse_trust_mode_ca_file o v s :
  parse_trust_mode (set_ca_file s o) v = (let? o' := parse_trust_mode o v in Ok (set_ca_file s o')).
Proof.
  unfold parse_trust_mode. destruct (as_string v) as [m|]; [|done].
  by repeat case_bool_decide.
Qed.

Lemma parse_trust_mode_ca_path o v s :
  parse_trust_mode (set_ca_path s o) v = (let? o' := parse_trust_mode o v in Ok (set_ca_path s o')).
Proof.
  unfold parse_trust_mode. destruct (as_string v) as [m|]; [|done].
  by repeat case_bool_decide.
Qed.

(** Two entries with different keys can be read in either order. *)
Lemma parse_entry_comm acc e1 e2 r : entry_key e1 <> entry_key e2 ->
  (let? a := parse_entry acc e1 in parse_entry a e2) = Ok r ->
  (let? a := parse_entry acc e2 in parse_entry a e1) = Ok r.
Proof.
  intros Hne. destruct acc as [o b].
  destruct (parse_entry_view e1) as [[K1 V1]|[[K1 V1]|[[K1 V1]|[err V1]]]];
  destruct (parse_entry_view e2) as [[K2 V2]|[[K2 V2]|[[K2 V2]|[err' V2]]]];
    try congruence; rewrite ?V1, ?V2; cbn; try done.
  - destruct (parse_trust_mode o e1.2) as [o1|] eqn:E; cbn; [|done]. rewrite V2.
    destruct (string_or_null _ _) as [f|]; cbn; [|done]. rewrite V1, parse_trust_mode_ca_file, E. done.
  - destruct (parse_trust_mode o e1.2) as [o1|] eqn:E; cbn; [|done]. rewrite V2.
    destruct (string_or_null _ _) as [f|]; cbn; [|done]. rewrite V1, parse_trust_mode_ca_path, E. done.
  - destruct (parse_trust_mode o e1.2) as [o1|] eqn:E; cbn; [|done]. by rewrite V2.
  - destruct (string_or_null _ _) as [f|]; cbn; [|done]. rewrite V2, parse_trust_mode_ca_file.
    destruct (parse_trust_mode o e2.2) as [o1|] eqn:E; cbn; [|done]. by rewrite V1.
  - destruct (string_or_null "ca_file" _) as [f|] eqn:E1; cbn; [|done]. rewrite V2.
    destruct (string_or_null "ca_path" _) as [q|] eqn:E2; cbn; [|done]. rewrite V1. done.
  - destruct (string_or_null _ _) as [f|]; cbn; [|done]. by rewrite V2.
  - destruct (string_or_null _ _) as [f|]; cbn; [|done]. rewrite V2, parse_trust_mode_ca_path.
    destruct (parse_trust_mode o e2.2) as [o1|] eqn:E; cbn; [|done]. by rewrite V1.
  - destruct (string_or_null "ca_path" _) as [f|] eqn:E1; cbn; [|done]. rewrite V2.
    destruct (string_or_null "ca_file" _) as [q|] eqn:E2; cbn; [|done]. rewrite V1. done.
  - destruct (string_or_null _ _) as [f|]; cbn; [|done]. by rewrite V2.
Qed.

Lemma parse_entries_perm es es' acc r : es ≡ₚ es' -> NoDup (entry_key <$> es) ->
  parse_entries acc es = Ok r -> parse_entries acc es' = Ok r.
Proof.
  intros Hp. revert acc.
  induction Hp as [|e es es' Hp IH|e1 e2 es|es1 es2 es3 Hp1 IH1 Hp2 IH2]; intros acc Hnd H1; [done| | |].
  - cbn in *. apply NoDup_cons in Hnd as [_ Hnd].
    destruct (parse_entry acc e) as [a|]; cbn in *; [|done]. by apply IH.
  - cbn in *. apply NoDup_cons in Hnd as [Hne _]. rewrite not_elem_of_cons in Hne.
    destruct (parse_entry acc e2) as [a|] eqn:E2; cbn in *; [|done].
    destruct (parse_entry a e1) as [a'|] eqn:E1; cbn in *; [|done].
    assert ((let? a := parse_entry acc e1 in parse_entry a e2) = Ok a') as Hc.
    { apply (parse_entry_comm acc e2 e1); [exact (proj1 Hne)|]. by rewrite E2. }
    destruct (parse_entry acc e1) as [a1|]; cbn in *; [|done]. by rewrite Hc.
  - apply IH2; [|by apply IH1]. by rewrite <- Hp1.
Qed.
End facts.

(** ** Properties *)

Section properties.
  Context `{CovVar}.

(** The entries a map shows when its string keys are distinct. *)
Definition distinct_keys (entries : list (var * var)) : Prop := NoDup (entry_key <$> entries).

(** What a successful parse promises.  Certificates and host name are verified
    unless the mode is insecure, in which case neither is; and the mode is custom
    exactly when a CA file or a CA directory is given.  In particular host
    verification never comes without peer verification, which [init_ssl] requires. *)
Theorem parse_ssl_options_valid v o :
  (forall entries, as_hash_map v = Some entries -> distinct_keys entries) ->
  parse_ssl_options v = Ok o ->
  verify_consistent o /\ (trust_mode o = custom <-> ca_file o <> "" \/ ca_path o <> "").
Proof.
  intros Hd. unfold parse_ssl_options.
  destruct (is_null_var v); [intros [= <-]; cbn; unfold verify_consistent; cbn; intuition congruence|].
  destruct (as_hash_map v) as [es|] eqn:E; [|done]. specialize (Hd es eq_refl).
  destruct (parse_entries _ es) as [[o1 b]|] eqn:Ep; cbn; [|done].
  intros [-> Hc]%check_ssl_options_ok. split; [|done].
  by eapply parse_entries_consistent.
Qed.

(** The order in which the unordered map shows its entries does not matter: the
    same set of entries parses to the same options, in any order. *)
Theorem parse_ssl_options_order v1 v2 es1 es2 o :
  is_null_var v1 = false -> is_null_var v2 = false ->
  as_hash_map v1 = Some es1 -> as_hash_map v2 = Some es2 ->
  es1 ≡ₚ es2 -> distinct_keys es1 ->
  parse_ssl_options v1 = Ok o -> parse_ssl_options v2 = Ok o.
Proof.
  intros Hn1 Hn2 H1 H2 Hp Hd. unfold parse_ssl_options. rewrite Hn1, Hn2, H1, H2.
  destruct (parse_entries _ es1) as [a|] eqn:E; cbn; [|done].
  by rewrite (parse_entries_perm es1 es2 _ a).
Qed.
End properties.

(** ** Witnesses *)

(** Script values as the code tells them apart. *)
Inductive script_value :=
  | SV_null
  | SV_pointer (usable : bool)
  | SV_string (s : string)
  | SV_map (entries : list (script_value * script_value))
  | SV_other.

#[export] Instance script_var : CovVar := {|
  var := script_value;
  is_void := fun v => match v with SV_null => true | _ => false end;
  as_pointer := fun v => match v with SV_pointer b => Some b | _ => None end;
  as_string := fun v => match v with SV_string s => Some s | _ => None end;
  as_hash_map := fun v => match v with SV_map m => Some m | _ => None end |}.

Definition custom_entries : list (script_value * script_value) :=
  [(SV_string "ca_file", SV_string "ca.pem"); (SV_string "trust_mode", SV_string "custom")].

Lemma custom_entries_distinct : @distinct_keys script_var custom_entries.
Proof. vm_compute. repeat (constructor; [set_solver|]). constructor. Qed.

Lemma parse_ssl_options_valid_witness :
  verify_consistent (SslOptions custom true true "ca.pem" "") /\
  (custom = custom <-> "ca.pem" <> "" \/ "" <> "").
Proof.
  apply (@parse_ssl_options_valid script_var (SV_map custom_entries) (SslOptions custom true true "ca.pem" "")).
  - intros es [= <-]. apply custom_entries_distinct.
  - reflexivity.
Defined.

Lemma parse_ssl_options_order_witness :
  @parse_ssl_options script_var (SV_map (reverse custom_entries)) = Ok (SslOptions custom true true "ca.pem" "").
Proof.
  apply (@parse_ssl_options_order script_var (SV_map custom_entries) _ custom_entries (reverse custom_entries));
    [reflexivity..| |apply custom_entries_distinct|reflexivity].
  apply perm_swap.
Defined.
