(* ===== verification/TrustStore.v ===== *)
(** * The trust store of a TLS client: [detail::trust_load_report],
    [try_load_*], [configure_client_context] and [configure_client_stream] of
    [network.hpp]

    OpenSSL and the operating system stand behind [TrustExternal]: a world [W] and the
    calls the code makes.  The two [static] strings that cache the environment and the
    thread's [last_tls_trust_report_slot] are part of the state. *)
From S2P Require Import Prelude TlsOptions.

Inductive verify_mode := verify_none_mode | verify_peer_mode.

Class TrustExternal := {
  W : Type;
  getenv : string -> W -> option string;
  (** [asio::ssl::context] *)
  ctx : Type;
  ctx_new : W -> res ctx * W;
  ctx_load_verify_file : ctx -> string -> W -> res unit * W;
  ctx_add_verify_path : ctx -> string -> W -> res unit * W;
  ctx_set_default_verify_paths : ctx -> W -> res unit * W;
  (** the certificate stores of Windows: opening one, [d2i_X509] and
      [X509_STORE_add_cert] on one of its certificates *)
  cert : Type;
  open_system_store : string -> W -> option (list cert);
  store_add_cert : ctx -> cert -> W -> bool * W;
  (** [asio::ssl::stream] *)
  stream : Type;
  set_tlsext_host_name : stream -> string -> W -> bool * W;
  set_verify_mode : stream -> verify_mode -> W -> res unit * W;
  set_verify_callback : stream -> string -> W -> res unit * W;
}.

(** The preprocessor's choice of platform. *)
Inductive platform := linux | apple | bsd | windows | other_platform.

#[export] Instance platform_eq_dec : EqDecision platform.
Proof. solve_decision. Defined.

Record trust_load_report := TrustReport {
  loaded_any : bool;
  loaded_sources : list string;
  failed_sources : list string;
}.

Definition empty_report : trust_load_report := TrustReport false [] [].

Definition mark_loaded (src : string) (r : trust_load_report) : trust_load_report :=
  TrustReport true (loaded_sources r ++ [src]) (failed_sources r).

Definition mark_failed (src reason : string) (r : trust_load_report) : trust_load_report :=
  TrustReport (loaded_any r) (loaded_sources r)
    (failed_sources r ++ [src +:+ " (" +:+ reason +:+ ")"]).

Fixpoint join_rest (items : list string) : string :=
  match items with
  | [] => ""
  | item :: items => "; " +:+ item +:+ join_rest items
  end.

Definition join_items (items : list string) : string :=
  match items with
  | [] => "(none)"
  | item :: items => item +:+ join_rest items
  end.

Definition build_trust_error (mode : string) (r : trust_load_report) : exn :=
  runtime_error ("TLS " +:+ mode +:+ " trust store initialization failed. "
    +:+ "Loaded: " +:+ join_items (loaded_sources r) +:+ ". "
    +:+ "Tried/failed: " +:+ join_items (failed_sources r) +:+ ".").

Definition build_trust_report (mode : string) (r : trust_load_report) : string :=
  "trust_mode=" +:+ mode +:+ "; loaded=" +:+ join_items (loaded_sources r)
    +:+ "; failed=" +:+ join_items (failed_sources r).

(** The report before any TLS set-up. *)
Definition unset_report : string := "trust_mode=unset; loaded=(none); failed=(none)".

(** ** State *)

Record process `{TrustExternal} := Process {
  world : W;
  env_cache : option (string * string);    (** [cert_file], [cert_dir] once initialised *)
  last_tls_trust_report_slot : string;     (** of the calling thread *)
}.
Arguments Process {_} _ _ _.

Section trust.
  Context `{TrustExternal} `{ErrorText}.
  Context (plat : platform).

Definition set_world (w : W) (p : process) : process :=
  Process w (env_cache p) (last_tls_trust_report_slot p).

(** A call that may throw, and a call that returns a value. *)
Definition ext {A} (f : W -> res A * W) : M process A := fun p =>
  let '(r, w) := f (world p) in (r, set_world w p).
Definition ext_val {A} (f : W -> A * W) : M process A := fun p =>
  let '(a, w) := f (world p) in (Ok a, set_world w p).

Definition set_last_tls_trust_report (report : string) : M process unit :=
  modify (fun p => Process (world p) (env_cache p) report).
Definition get_last_tls_trust_report : M process string := gets last_tls_trust_report_slot.

(** ** Loading *)

Definition try_load_verify_file (c : ctx) (path : string) (report : trust_load_report)
    (source : string) : M process (bool * trust_load_report) :=
  if empty path then ret (false, report)
  else try_catch
    (ext (ctx_load_verify_file c path) ;;; ret (true, mark_loaded (source +:+ ":" +:+ path) report))
    (fun e => ret (false, mark_failed (source +:+ ":" +:+ path) (what e) report)).

Definition try_add_verify_path (c : ctx) (path : string) (report : trust_load_report)
    (source : string) : M process (bool * trust_load_report) :=
  if empty path then ret (false, report)
  else try_catch
    (ext (ctx_add_verify_path c path) ;;; ret (true, mark_loaded (source +:+ ":" +:+ path) report))
    (fun e => ret (false, mark_failed (source +:+ ":" +:+ path) (what e) report)).

(** [getenv], with an unset and an empty variable alike. *)
Definition env_or_empty (name : string) (w : W) : string :=
  match getenv name w with Some v => v | None => "" end.

(** The two static strings: read from the environment at the first call only. *)
Definition cached_env : M process (string * string) := fun p =>
  match env_cache p with
  | Some fd => (Ok fd, p)
  | None =>
      let fd := (env_or_empty "SSL_CERT_FILE" (world p), env_or_empty "SSL_CERT_DIR" (world p)) in
      (Ok fd, Process (world p) (Some fd) (last_tls_trust_report_slot p))
  end.

Definition try_load_env_trust_sources (c : ctx) (report : trust_load_report)
  : M process trust_load_report :=
  fd <-- cached_env ;;
  report <-- (if empty fd.1 then ret report
              else r <-- try_load_verify_file c fd.1 report "env:SSL_CERT_FILE" ;; ret r.2) ;;
  if empty fd.2 then ret report
  else r <-- try_add_verify_path c fd.2 report "env:SSL_CERT_DIR" ;; ret r.2.

Definition file_candidates : list string :=
  match plat with
  | linux => ["/etc/ssl/certs/ca-certificates.crt"; "/etc/pki/tls/certs/ca-bundle.crt";
              "/etc/ssl/ca-bundle.pem"; "/etc/pki/tls/cacert.pem"; "/etc/ssl/cert.pem"]
  | apple => ["/etc/ssl/cert.pem"; "/opt/homebrew/etc/openssl@3/cert.pem";
              "/usr/local/etc/openssl@3/cert.pem"; "/opt/homebrew/etc/openssl@1.1/cert.pem";
              "/usr/local/etc/openssl@1.1/cert.pem"]
  | bsd => ["/usr/local/share/certs/ca-root-nss.crt"; "/etc/ssl/cert.pem"]
  | windows | other_platform => []
  end.

Definition dir_candidates : list string :=
  match plat with
  | linux => ["/etc/ssl/certs"; "/etc/pki/tls/certs"]
  | apple => ["/opt/homebrew/etc/openssl@3/certs"; "/usr/local/etc/openssl@3/certs";
              "/opt/homebrew/etc/openssl@1.1/certs"; "/usr/local/etc/openssl@1.1/certs"]
  | bsd => ["/usr/local/share/certs"; "/etc/ssl/certs"]
  | windows | other_platform => []
  end.

Definition platform_name : string :=
  match plat with linux => "linux" | apple => "macos" | bsd => "bsd" | _ => "" end.

Fixpoint load_files (c : ctx) (paths : list string) (source : string) (report : trust_load_report)
  : M process trust_load_report :=
  match paths with
  | [] => ret report
  | path :: paths =>
      r <-- try_load_verify_file c path report source ;; load_files c paths source r.2
  end.

Fixpoint load_dirs (c : ctx) (paths : list string) (source : string) (report : trust_load_report)
  : M process trust_load_report :=
  match paths with
  | [] => ret report
  | path :: paths =>
      r <-- try_add_verify_path c path report source ;; load_dirs c paths source r.2
  end.

Definition try_load_platform_fallback_trust_sources (c : ctx) (report : trust_load_report)
  : M process trust_load_report :=
  report <-- load_files c file_candidates (platform_name +:+ ":file") report ;;
  load_dirs c dir_candidates (platform_name +:+ ":dir") report.

(** ** Windows *)

Fixpoint add_certs (c : ctx) (certs : list cert) (loaded : bool) : M process bool :=
  match certs with
  | [] => ret loaded
  | crt :: certs => ok <-- ext_val (store_add_cert c crt) ;; add_certs c certs (loaded || ok)
  end.

Fixpoint load_stores (c : ctx) (stores : list string) (report : trust_load_report)
  : M process trust_load_report :=
  match stores with
  | [] => ret report
  | store_name :: stores =>
      opened <-- gets (fun p => open_system_store store_name (world p)) ;;
      report <-- match opened with
                 | None => ret (mark_failed ("windows:" +:+ store_name)
                                  ("failed to open " +:+ store_name +:+ " cert store") report)
                 | Some certs =>
                     loaded <-- add_certs c certs false ;;
                     ret (if (loaded : bool) then mark_loaded ("windows:" +:+ store_name) report
                          else mark_failed ("windows:" +:+ store_name)
                                 ("no certificates decoded from " +:+ store_name +:+ " store") report)
                 end ;;
      load_stores c stores report
  end.

Definition load_windows_root_certs (c : ctx) (report : trust_load_report)
  : M process trust_load_report :=
  load_stores c ["ROOT"; "CA"; "AuthRoot"] report.

(** ** Configuration of a context and of a stream *)

Definition try_default_verify_paths (c : ctx) (report : trust_load_report)
  : M process trust_load_report :=
  try_catch
    (ext (ctx_set_default_verify_paths c) ;;; ret (mark_loaded "openssl:default_verify_paths" report))
    (fun e => ret (mark_failed "openssl:default_verify_paths" (what e) report)).

Definition finish_report (mode : string) (report : trust_load_report) : M process string :=
  if negb (loaded_any report) then throw (build_trust_error mode report)
  else ret (build_trust_report mode report).

Definition configure_client_context (c : ctx) (options : ssl_options) : M process string :=
  match trust_mode options with
  | auto_mode =>
      report <-- try_default_verify_paths c empty_report ;;
      report <-- try_load_env_trust_sources c report ;;
      report <-- (if bool_decide (plat = windows) then load_windows_root_certs c report
                  else try_load_platform_fallback_trust_sources c report) ;;
      finish_report "auto" report
  | openssl =>
      report <-- try_default_verify_paths c empty_report ;;
      report <-- try_load_env_trust_sources c report ;;
      finish_report "openssl" report
  | custom =>
      if empty (ca_file options) && empty (ca_path options) then
        throw (runtime_error "TLS custom trust mode requires ca_file or ca_path.")
      else
        report <-- (if negb (empty (ca_file options)) then
                      r <-- try_load_verify_file c (ca_file options) empty_report "custom:ca_file" ;;
                      ret r.2
                    else ret empty_report) ;;
        report <-- (if negb (empty (ca_path options)) then
                      r <-- try_add_verify_path c (ca_path options) report "custom:ca_path" ;;
                      ret r.2
                    else ret report) ;;
        finish_report "custom" report
  | insecure => ret "trust_mode=insecure; loaded=(none); failed=(none)"
  end.

Definition configure_client_stream (s : stream) (host : string) (options : ssl_options)
  : M process unit :=
  ok <-- ext_val (set_tlsext_host_name s host) ;;
  if negb ok then throw (runtime_error "Failed to set TLS SNI host name.")
  else
    (if bool_decide (trust_mode options = insecure) || negb (verify_peer options)
     then ext (set_verify_mode s verify_none_mode)
     else ext (set_verify_mode s verify_peer_mode)) ;;;
    if negb (bool_decide (trust_mode options = insecure)) && verify_host options
    then ext (set_verify_callback s host)
    else ret tt.
End trust.

(** ** Recording the calls

    Any [TrustExternal] with a log of the loading calls, and whether each succeeded. *)
Inductive trust_call :=
  | call_default
  | call_file (path : string)
  | call_dir (path : string)
  | call_cert.

Section with_log.
  Context (T : TrustExternal).

Definition logged {A} (call : trust_call) (f : W -> res A * W)
  : W * list (trust_call * bool) -> res A * (W * list (trust_call * bool)) := fun wl =>
  let '(r, w) := f wl.1 in (r, (w, wl.2 ++ [(call, is_ok r)])).

Definition unlogged {A} (f : W -> A * W)
  : W * list (trust_call * bool) -> A * (W * list (trust_call * bool)) := fun wl =>
  let '(r, w) := f wl.1 in (r, (w, wl.2)).

Definition with_log : TrustExternal := {|
  W := @W T * list (trust_call * bool);
  getenv := fun n wl => getenv n wl.1;
  ctx := @ctx T;
  ctx_new := unlogged ctx_new;
  ctx_load_verify_file := fun c path => logged (call_file path) (ctx_load_verify_file c path);
  ctx_add_verify_path := fun c path => logged (call_dir path) (ctx_add_verify_path c path);
  ctx_set_default_verify_paths := fun c => logged call_default (ctx_set_default_verify_paths c);
  cert := @cert T;
  open_system_store := fun n wl => open_system_store n wl.1;
  store_add_cert := fun c crt wl =>
    let '(ok, w) := store_add_cert c crt wl.1 in (ok, (w, wl.2 ++ [(call_cert, ok)]));
  stream := @stream T;
  set_tlsext_host_name := fun s h => unlogged (set_tlsext_host_name s h);
  set_verify_mode := fun s m => unlogged (set_verify_mode s m);
  set_verify_callback := fun s h => unlogged (set_verify_callback s h);
|}.
End with_log.

Section trace.
  Context (T : TrustExternal) `{ErrorText}.
  #[local] Existing Instance with_log.

Definition process_log (p : @process (with_log T)) : list (trust_call * bool) := (world p).2.

(** The calls one environment makes. *)
Definition env_calls (fd : string * string) : list trust_call :=
  (if empty fd.1 then [] else [call_file fd.1]) ++ (if empty fd.2 then [] else [call_dir fd.2]).

(** The strings the cache holds after a first use in state [p]. *)
Definition env_strings (p : @process (with_log T)) : string * string :=
  match env_cache p with
  | Some fd => fd
  | None => (@env_or_empty (with_log T) "SSL_CERT_FILE" (world p),
             @env_or_empty (with_log T) "SSL_CERT_DIR" (world p))
  end.

Definition platform_calls (plat : platform) : list trust_call :=
  (call_file <$> file_candidates plat) ++ (call_dir <$> dir_candidates plat).

(** The loading calls a mode makes, in order. *)
Definition mode_calls (plat : platform) (fd : string * string) (o : ssl_options) : list trust_call :=
  match trust_mode o with
  | auto_mode => call_default :: env_calls fd ++ platform_calls plat
  | openssl => call_default :: env_calls fd
  | custom => (if empty (ca_file o) then [] else [call_file (ca_file o)]) ++
              (if empty (ca_path o) then [] else [call_dir (ca_path o)])
  | insecure => []
  end.

(** [m], started on [p] with [rep], makes exactly [calls] and returns a report that
    counts their successes; [after] holds of the state it ends in. *)
Definition traces (m : M (@process (with_log T)) trust_load_report) (rep : trust_load_report)
    (p : @process (with_log T)) (calls : list trust_call) (rep' : trust_load_report)
    (p' : @process (with_log T)) : Prop :=
  exists new, m p = (Ok rep', p') /\ process_log p' = process_log p ++ new /\ new.*1 = calls /\
    loaded_any rep' = loaded_any rep || existsb snd new.

Lemma traces_ret rep p : traces (ret rep) rep p [] rep p.
Proof. exists []. by rewrite app_nil_r, orb_false_r. Qed.

Lemma traces_bind m k rep p c1 rep1 p1 c2 rep2 p2 :
  traces m rep p c1 rep1 p1 -> traces (k rep1) rep1 p1 c2 rep2 p2 ->
  traces (bind m k) rep p (c1 ++ c2) rep2 p2.
Proof.
  intros (n1 & E1 & L1 & C1 & A1) (n2 & E2 & L2 & C2 & A2). exists (n1 ++ n2).
  unfold bind. rewrite E1, E2, L2, L1, A2, A1, existsb_app, fmap_app, C1, C2.
  by rewrite <- app_assoc, orb_assoc.
Qed.

(** Loading the default paths does not change the environment variables. *)
Context (getenv_default : forall c (w : @W T) n,
  getenv n (ctx_set_default_verify_paths c w).2 = getenv n w).

(** Run one logged call and read the trace off its two outcomes. *)
Ltac run_logged rep call :=
  unfold traces; munfold; unfold ext; cbn; unfold logged; cbn;
  destruct call as [[[]|err] w'];
  eexists _, _; repeat (eexists [_] || split); try done; cbn;
  by rewrite ?orb_true_r, ?orb_false_r.

Lemma trace_file c path rep source p : path <> "" ->
  exists rep' p', traces (r <-- try_load_verify_file c path rep source ;; ret r.2)
    rep p [call_file path] rep' p'.
Proof.
  intros Hp. unfold try_load_verify_file. destruct (empty path) eqn:E; [by apply empty_true in E|].
  destruct p as [[w l] e s]. run_logged rep (@ctx_load_verify_file T c path w).
Qed.

Lemma trace_dir c path rep source p : path <> "" ->
  exists rep' p', traces (r <-- try_add_verify_path c path rep source ;; ret r.2)
    rep p [call_dir path] rep' p'.
Proof.
  intros Hp. unfold try_add_verify_path. destruct (empty path) eqn:E; [by apply empty_true in E|].
  destruct p as [[w l] e s]. run_logged rep (@ctx_add_verify_path T c path w).
Qed.

Lemma trace_default c rep p :
  exists rep' p', traces (try_default_verify_paths c rep) rep p [call_default] rep' p' /\
    env_strings p' = env_strings p.
Proof.
  destruct p as [[w l] e s]. pose proof (getenv_default c w) as Hg.
  unfold try_default_verify_paths, traces. munfold. unfold ext, env_strings, env_or_empty. cbn.
  unfold logged. cbn.
  destruct (@ctx_set_default_verify_paths T c w) as [[[]|err] w'];
    eexists _, _; (split; [eexists [_]|]); repeat split; cbn in *;
    by rewrite ?orb_true_r, ?orb_false_r, ?Hg.
Qed.

(** Steps guarded by an emptiness test. *)
Lemma trace_file_if c path rep source p :
  exists rep' p', traces (if empty path then ret rep
      else r <-- try_load_verify_file c path rep source ;; ret r.2)
    rep p (if empty path then [] else [call_file path]) rep' p'.
Proof.
  destruct (empty path) eqn:E; [exists rep, p; apply traces_ret|].
  apply trace_file. intros ->. done.
Qed.

Lemma trace_dir_if c path rep source p :
  exists rep' p', traces (if empty path then ret rep
      else r <-- try_add_verify_path c path rep source ;; ret r.2)
    rep p (if empty path then [] else [call_dir path]) rep' p'.
Proof.
  destruct (empty path) eqn:E; [exists rep, p; apply traces_ret|].
  apply trace_dir. intros ->. done.
Qed.

(** Loops over a list of candidates. *)
Lemma trace_files c paths source rep p : Forall (fun path => path <> "") paths ->
  exists rep' p', traces (load_files c paths source rep) rep p (call_file <$> paths) rep' p'.
Proof.
  revert rep p. induction paths as [|path paths IH]; intros rep p Hne.
  { exists rep, p. apply traces_ret. }
  apply Forall_cons in Hne as [Hp Hps]. destruct (trace_file c path rep source p) as (r1 & p1 & H1); [done|].
  destruct (IH r1 p1) as (r2 & p2 & H2); [done|].
  exists r2, p2. change (call_file <$> path :: paths) with ([call_file path] ++ (call_file <$> paths)).
  pose proof (traces_bind _ (load_files c paths source) _ _ _ _ _ _ _ _ H1 H2) as Ht.
  destruct Ht as (new & E & Ht). exists new. rewrite <- E. split; [|done]. cbn. by rewrite bind_assoc.
Qed.

Lemma trace_dirs c paths source rep p : Forall (fun path => path <> "") paths ->
  exists rep' p', traces (load_dirs c paths source rep) rep p (call_dir <$> paths) rep' p'.
Proof.
  revert rep p. induction paths as [|path paths IH]; intros rep p Hne.
  { exists rep, p. apply traces_ret. }
  apply Forall_cons in Hne as [Hp Hps]. destruct (trace_dir c path rep source p) as (r1 & p1 & H1); [done|].
  destruct (IH r1 p1) as (r2 & p2 & H2); [done|].
  exists r2, p2. change (call_dir <$> path :: paths) with ([call_dir path] ++ (call_dir <$> paths)).
  pose proof (traces_bind _ (load_dirs c paths source) _ _ _ _ _ _ _ _ H1 H2) as Ht.
  destruct Ht as (new & E & Ht). exists new. rewrite <- E. split; [|done]. cbn. by rewrite bind_assoc.
Qed.

Lemma trace_platform plat c rep p :
  exists rep' p', traces (try_load_platform_fallback_trust_sources plat c rep) rep p
    (platform_calls plat) rep' p'.
Proof.
  destruct (trace_files c (file_candidates plat) (platform_name plat +:+ ":file") rep p)
    as (r1 & p1 & H1); [by destruct plat; repeat constructor|].
  destruct (trace_dirs c (dir_candidates plat) (platform_name plat +:+ ":dir") r1 p1)
    as (r2 & p2 & H2); [by destruct plat; repeat constructor|].
  exists r2, p2. by eapply traces_bind.
Qed.

Lemma trace_env c rep p :
  exists rep' p', traces (try_load_env_trust_sources c rep) rep p (env_calls (env_strings p)) rep' p'.
Proof.
  destruct (cached_env p) as [r0 p0] eqn:E0.
  assert (r0 = Ok (env_strings p) /\ process_log p0 = process_log p) as (-> & Hl).
  { unfold cached_env in E0. unfold env_strings. destruct (env_cache p) eqn:Ec; by simplify_eq. }
  destruct (trace_file_if c (env_strings p).1 rep "env:SSL_CERT_FILE" p0) as (r1 & p1 & H1).
  destruct (trace_dir_if c (env_strings p).2 r1 "env:SSL_CERT_DIR" p1) as (r2 & p2 & H2).
  exists r2, p2.
  pose proof (traces_bind _ (fun report => if empty (env_strings p).2 then ret report
      else r <-- try_add_verify_path c (env_strings p).2 report "env:SSL_CERT_DIR" ;; ret r.2)
      _ _ _ _ _ _ _ _ H1 H2) as (new & E & L & C & A).
  exists new. rewrite <- Hl. split_and!; try done.
  rewrite <- E. unfold try_load_env_trust_sources. unfold bind at 1. by rewrite E0.
Qed.

(** [m], started on [p] with [rep], makes exactly [calls] and succeeds exactly when a
    source is loaded by then. *)
Definition finishes (m : M (@process (with_log T)) string) (rep : trust_load_report)
    (p : @process (with_log T)) (calls : list trust_call) : Prop :=
  exists r p' new, m p = (r, p') /\ process_log p' = process_log p ++ new /\ new.*1 = calls /\
    is_ok r = loaded_any rep || existsb snd new.

Lemma finishes_report mode rep p : finishes (finish_report mode rep) rep p [].
Proof.
  unfold finishes, finish_report. exists (finish_report mode rep p).1, p, [].
  unfold finish_report. rewrite app_nil_r. by destruct (loaded_any rep).
Qed.

Lemma finishes_bind m k rep p c1 rep1 p1 c2 :
  traces m rep p c1 rep1 p1 -> finishes (k rep1) rep1 p1 c2 -> finishes (bind m k) rep p (c1 ++ c2).
Proof.
  intros (n1 & E1 & L1 & C1 & A1) (r & p2 & n2 & E2 & L2 & C2 & A2). exists r, p2, (n1 ++ n2).
  unfold bind. rewrite E1, E2, L2, L1, A2, A1, existsb_app, fmap_app, C1, C2.
  by rewrite <- app_assoc, orb_assoc.
Qed.

Lemma finishes_end m mode rep p c1 rep1 p1 :
  traces m rep p c1 rep1 p1 -> finishes (bind m (finish_report mode)) rep p c1.
Proof.
  intros Ht. rewrite <- (app_nil_r c1). apply (finishes_bind _ _ _ _ _ _ _ _ Ht), finishes_report.
Qed.

(** C26: the trust sources of each mode, on every platform but Windows.  A context is
    configured by exactly the calls [mode_calls] lists, in that order: [custom] consults
    nothing but the files it is given, [insecure] nothing at all, [openssl] never the
    platform's fallback paths, and [auto] all of them, whether or not an earlier source
    was loaded.  The configuration succeeds exactly when some call did, and always in
    insecure mode. *)
Theorem configure_client_context_calls plat c options p :
  plat <> windows -> (trust_mode options = custom -> ca_file options <> "" \/ ca_path options <> "") ->
  exists r p' new,
    @configure_client_context (with_log T) _ plat c options p = (r, p') /\
    process_log p' = process_log p ++ new /\
    new.*1 = mode_calls plat (env_strings p) options /\
    is_ok r = bool_decide (trust_mode options = insecure) || existsb snd new.
Proof.
  intros Hp Hcustom. unfold configure_client_context, mode_calls.
  rewrite (bool_decide_eq_false_2 (plat = windows)) by done.
  destruct (trust_mode options) eqn:Em; cbn [orb].
  - destruct (trace_default c empty_report p) as (r1 & p1 & H1 & S1).
    destruct (trace_env c r1 p1) as (r2 & p2 & H2).
    destruct (trace_platform plat c r2 p2) as (r3 & p3 & H3).
    rewrite <- S1. apply (finishes_bind _ _ _ _ [call_default] _ _ _ H1).
    apply (finishes_bind _ _ _ _ _ _ _ _ H2), (finishes_end _ _ _ _ _ _ _ H3).
  - destruct (trace_default c empty_report p) as (r1 & p1 & H1 & S1).
    destruct (trace_env c r1 p1) as (r2 & p2 & H2).
    rewrite <- S1. apply (finishes_bind _ _ _ _ [call_default] _ _ _ H1).
    apply (finishes_end _ _ _ _ _ _ _ H2).
  - specialize (Hcustom eq_refl).
    destruct (trace_file_if c (ca_file options) empty_report "custom:ca_file" p) as (r1 & p1 & H1).
    destruct (trace_dir_if c (ca_path options) r1 "custom:ca_path" p1) as (r2 & p2 & H2).
    assert (empty (ca_file options) && empty (ca_path options) = false) as ->
      by (destruct (ca_file options), (ca_path options), Hcustom; done).
    revert H1 H2. destruct (empty (ca_file options)), (empty (ca_path options)); intros H1 H2;
      apply (finishes_bind _ _ _ _ _ _ _ _ H1), (finishes_end _ _ _ _ _ _ _ H2).
  - eexists _, p, []. by rewrite app_nil_r.
Qed.
End trace.

(** ** A concrete environment

    A file system given by the paths that exist, and the environment variables. *)
Record host := Host { existing : list string; variables : list (string * string) }.

Definition lookup_variable (name : string) (h : host) : option string :=
  snd <$> List.find (fun nv => bool_decide (nv.1 = name)) (variables h).

Definition load_existing (path : string) (h : host) : res unit * host :=
  (if bool_decide (path ∈ existing h) then Ok tt else Throw (runtime_error "No such file"), h).

Definition host_trust : TrustExternal := {|
  W := host;
  getenv := lookup_variable;
  ctx := unit;
  ctx_new := fun h => (Ok tt, h);
  ctx_load_verify_file := fun _ => load_existing;
  ctx_add_verify_path := fun _ => load_existing;
  ctx_set_default_verify_paths := fun _ h => (Ok tt, h);
  cert := unit;
  open_system_store := fun _ _ => None;
  store_add_cert := fun _ _ h => (true, h);
  stream := unit;
  set_tlsext_host_name := fun _ _ h => (true, h);
  set_verify_mode := fun _ _ h => (Ok tt, h);
  set_verify_callback := fun _ _ h => (Ok tt, h) |}.

(** On a Linux host whose default paths load, the fallback paths are tried as well. *)
Lemma configure_client_context_calls_witness :
  let p := @Process (with_log host_trust) (Host ["/etc/ssl/cert.pem"] [], []) None unset_report in
  exists r p' new,
    @configure_client_context (with_log host_trust) plain_error_text linux tt
      default_ssl_options p = (r, p') /\
    process_log host_trust p' = process_log host_trust p ++ new /\
    new.*1 = call_default :: platform_calls linux /\
    is_ok r = existsb snd new.
Proof.
  exact (@configure_client_context_calls host_trust plain_error_text (fun _ _ _ => eq_refl) linux tt
    default_ssl_options _ ltac:(discriminate) ltac:(discriminate)).
Defined.
