(* ===== verification/Atomics.v ===== *)
(** * Atomic programs

    The reservation protocol of the sockets is written with [std::atomic] members.  A
    member function that uses them is a [prog]: a tree of single atomic accesses.  The
    same tree is run alone by [exec] (the sequential reading, used by the socket
    components) and one access at a time by the interleaving semantics of
    [AdmissionSafety].  Each access is indivisible and all threads see one order of
    accesses (sequential consistency); the memory orders of the code are not modelled. *)
From S2P Require Import Prelude.

(** [enum class io_direction] *)
Inductive io_direction := dir_read | dir_write.

#[export] Instance io_direction_eq_dec : EqDecision io_direction.
Proof. solve_decision. Defined.

(** The atomic members of [tcp::socket] ([udp::socket] has no [tls_enabled]). *)
Record atoms := Atoms {
  tls_enabled : bool;
  exclusive_operation : bool;
  read_operation : bool;
  write_operation : bool;
  async_jobs : Z;                  (** [std::size_t] *)
}.

#[export] Instance atoms_eq_dec : EqDecision atoms.
Proof. solve_decision. Defined.

Definition initial_atoms : atoms := Atoms false false false false 0.

Inductive flag := TlsEnabled | Exclusive | Operation (d : io_direction).

#[export] Instance flag_eq_dec : EqDecision flag.
Proof. solve_decision. Defined.

Definition get_flag (f : flag) (s : atoms) : bool :=
  match f with
  | TlsEnabled => tls_enabled s
  | Exclusive => exclusive_operation s
  | Operation dir_read => read_operation s
  | Operation dir_write => write_operation s
  end.

Definition set_flag (f : flag) (b : bool) (s : atoms) : atoms :=
  match f with
  | TlsEnabled => Atoms b (exclusive_operation s) (read_operation s) (write_operation s) (async_jobs s)
  | Exclusive => Atoms (tls_enabled s) b (read_operation s) (write_operation s) (async_jobs s)
  | Operation dir_read =>
      Atoms (tls_enabled s) (exclusive_operation s) b (write_operation s) (async_jobs s)
  | Operation dir_write =>
      Atoms (tls_enabled s) (exclusive_operation s) (read_operation s) b (async_jobs s)
  end.

Definition set_jobs (n : Z) (s : atoms) : atoms :=
  Atoms (tls_enabled s) (exclusive_operation s) (read_operation s) (write_operation s) n.

(** ** One atomic access *)

Inductive act :=
  | Load (f : flag)
  | Store (f : flag) (b : bool)
  | CompareExchange (f : flag) (expected desired : bool)
  | FetchAddJobs
  | FetchSubJobs
  | CompareExchangeJobs (expected desired : Z)
  | JobsPositive.                          (** [async_jobs.load() > 0] *)

(** The value an access returns, and the memory after it.  Accesses that return
    nothing the code looks at return [true]. *)
Definition run_act (a : act) (s : atoms) : bool * atoms :=
  match a with
  | Load f => (get_flag f s, s)
  | Store f b => (true, set_flag f b s)
  | CompareExchange f expected desired =>
      if Bool.eqb (get_flag f s) expected then (true, set_flag f desired s) else (false, s)
  | FetchAddJobs => (true, set_jobs (wrap64 (async_jobs s + 1)) s)
  | FetchSubJobs => (true, set_jobs (wrap64 (async_jobs s - 1)) s)
  | CompareExchangeJobs expected desired =>
      if async_jobs s =? expected then (true, set_jobs desired s) else (false, s)
  | JobsPositive => (0 <? async_jobs s, s)
  end.

(** ** Programs *)

Inductive prog (A : Type) :=
  | Ret (a : A)
  | Raise (e : exn)
  | Act (a : act) (k : bool -> prog A).
Arguments Ret {A} a.
Arguments Raise {A} e.
Arguments Act {A} a k.

Fixpoint prog_bind {A B} (p : prog A) (f : A -> prog B) : prog B :=
  match p with
  | Ret a => f a
  | Raise e => Raise e
  | Act a k => Act a (fun b => prog_bind (k b) f)
  end.

Definition access (a : act) : prog bool := Act a Ret.

Notation "x <~ p ;; q" := (prog_bind p (fun x => q))
  (at level 100, p at next level, right associativity) : net_scope.
Notation "p ~;; q" := (prog_bind p (fun _ => q))
  (at level 100, q at level 200, right associativity) : net_scope.

(** Running a program alone. *)
Fixpoint exec {A} (p : prog A) : M atoms A := fun s =>
  match p with
  | Ret a => (Ok a, s)
  | Raise e => (Throw e, s)
  | Act a k => let '(b, s') := run_act a s in exec (k b) s'
  end.

Lemma exec_bind {A B} (p : prog A) (f : A -> prog B) s :
  exec (prog_bind p f) s = bind (exec p) (fun a => exec (f a)) s.
Proof.
  revert s. induction p as [a|e|a k IH]; intros s; [done..|].
  cbn. destruct (run_act a s) as [b s'] eqn:E. unfold bind. rewrite IH. unfold bind.
  by rewrite E.
Qed.
