(* ===== verification/Admission.v ===== *)
(** * Admission: how [tcp::socket] and [udp::socket] of [network.hpp] reserve the
    socket for an operation

    The two classes repeat the same protocol with other error texts; the protocol is
    written once over a record of the texts, and [Tcp] and [Udp] are its two copies. *)
From S2P Require Import Prelude Atomics.

Record messages := Messages {
  read_busy : string;
  write_busy : string;
  io_blocked : string;
  exclusive_busy : string;
}.

Section protocol.
  Context (msgs : messages).

(** [try_begin_io_job()] *)
Definition try_begin_io_job : prog bool :=
  blocked <~ access (Load Exclusive) ;;
  if blocked then Ret false
  else
    access FetchAddJobs ~;;
    blocked <~ access (Load Exclusive) ;;
    if blocked then access FetchSubJobs ~;; Ret false
    else Ret true.

(** [try_begin_io_job(direction)] *)
Definition try_begin_io_job_dir (d : io_direction) : prog bool :=
  taken <~ access (CompareExchange (Operation d) false true) ;;
  if negb taken then Ret false
  else
    ok <~ try_begin_io_job ;;
    if negb ok then access (Store (Operation d) false) ~;; Ret false
    else Ret true.

Definition begin_io_job (d : io_direction) : prog unit :=
  taken <~ access (CompareExchange (Operation d) false true) ;;
  if negb taken then
    Raise (runtime_error (match d with dir_read => read_busy msgs | dir_write => write_busy msgs end))
  else
    ok <~ try_begin_io_job ;;
    if negb ok then
      access (Store (Operation d) false) ~;; Raise (runtime_error (io_blocked msgs))
    else Ret tt.

Definition finish_io_job (d : io_direction) : prog unit :=
  access FetchSubJobs ~;; access (Store (Operation d) false) ~;; Ret tt.

Definition begin_exclusive_operation (active_io_error : string) : prog unit :=
  taken <~ access (CompareExchange Exclusive false true) ;;
  if negb taken then Raise (runtime_error (exclusive_busy msgs))
  else
    idle <~ access (CompareExchangeJobs 0 1) ;;
    if negb idle then
      access (Store Exclusive false) ~;; Raise (runtime_error active_io_error)
    else Ret tt.

Definition end_exclusive_operation : prog unit :=
  access FetchSubJobs ~;; access (Store Exclusive false) ~;; Ret tt.

Definition begin_draining_exclusive : prog unit :=
  taken <~ access (CompareExchange Exclusive false true) ;;
  if negb taken then Raise (runtime_error (exclusive_busy msgs)) else Ret tt.

Definition end_draining_exclusive : prog unit :=
  access (Store Exclusive false) ~;; Ret tt.
End protocol.

(** ** [tcp::socket] *)

Module Tcp.
Definition texts : messages := {|
  read_busy := "Another read operation is already pending on this socket.";
  write_busy := "Another write operation is already pending on this socket.";
  io_blocked := "Cannot start I/O while an exclusive socket operation is pending.";
  exclusive_busy := "Another exclusive socket operation is already pending." |}.

Definition tcp_try_begin_io_job : io_direction -> prog bool := try_begin_io_job_dir.
Definition tcp_begin_io_job : io_direction -> prog unit := begin_io_job texts.
Definition tcp_finish_io_job : io_direction -> prog unit := finish_io_job.
Definition tcp_begin_exclusive : string -> prog unit := begin_exclusive_operation texts.
Definition tcp_end_exclusive : prog unit := end_exclusive_operation.

Definition begin_tls_handshake : prog unit :=
  enabled <~ access (Load TlsEnabled) ;;
  if enabled then Raise (runtime_error "TLS has already been enabled on this socket.")
  else tcp_begin_exclusive "Cannot enable TLS while asynchronous operations are pending.".
Definition end_tls_handshake : prog unit := tcp_end_exclusive.

Definition begin_async_read : prog unit := tcp_begin_io_job dir_read.
Definition end_async_read : prog unit := tcp_finish_io_job dir_read.
Definition begin_async_write : prog unit := tcp_begin_io_job dir_write.
Definition end_async_write : prog unit := tcp_finish_io_job dir_write.
Definition begin_async_connect : prog unit :=
  tcp_begin_exclusive "Cannot connect while socket I/O is pending.".
Definition end_async_connect : prog unit := tcp_end_exclusive.
Definition begin_draining : prog unit := begin_draining_exclusive texts.
Definition end_draining : prog unit := end_draining_exclusive.
End Tcp.

(** ** [udp::socket] *)

Module Udp.
Definition texts : messages := {|
  read_busy := "Another receive operation is already pending on this UDP socket.";
  write_busy := "Another send operation is already pending on this UDP socket.";
  io_blocked := "Cannot start UDP I/O while close is pending.";
  exclusive_busy := "Another UDP close operation is already pending." |}.

Definition udp_try_begin_io_job : io_direction -> prog bool := try_begin_io_job_dir.
Definition udp_begin_io_job : io_direction -> prog unit := begin_io_job texts.
Definition udp_finish_io_job : io_direction -> prog unit := finish_io_job.
Definition begin_exclusive_close : prog unit :=
  begin_exclusive_operation texts
    "close() called with async operations still in flight. Use safe_close() instead.".
Definition end_exclusive_close : prog unit := end_exclusive_operation.

Definition begin_async_receive : prog unit := udp_begin_io_job dir_read.
Definition end_async_receive : prog unit := udp_finish_io_job dir_read.
Definition begin_async_send : prog unit := udp_begin_io_job dir_write.
Definition end_async_send : prog unit := udp_finish_io_job dir_write.
End Udp.
