(* ===== verification/Reservations.v ===== *)
(** * What the reservation programs compute when they run alone

    Closed forms of the programs of [Admission], for any record of error msgs: the
    sequential reading the socket components build on. *)
From S2P Require Import Prelude Atomics Admission.

Definition reserve_exclusive (a : atoms) : atoms := set_jobs 1 (set_flag Exclusive true a).
Definition reserve_io (d : io_direction) (a : atoms) : atoms :=
  set_jobs (wrap64 (async_jobs a + 1)) (set_flag (Operation d) true a).

Section reservations.
  Context (msgs : messages).

Definition exclusive_refusal (active_io_error : string) (a : atoms) : option exn :=
  if exclusive_operation a then Some (runtime_error (exclusive_busy msgs))
  else if async_jobs a =? 0 then None else Some (runtime_error active_io_error).
Definition busy_text (d : io_direction) : string :=
  match d with dir_read => read_busy msgs | dir_write => write_busy msgs end.
Definition io_refusal (d : io_direction) (a : atoms) : option exn :=
  if get_flag (Operation d) a then Some (runtime_error (busy_text d))
  else if exclusive_operation a then Some (runtime_error (io_blocked msgs)) else None.

Ltac by_atoms a :=
  destruct a as [[] [] [] [] j]; cbn -[Z.eqb wrap64 Z.add Z.sub];
  repeat match goal with |- context [?x =? 0] => destruct (Z.eqb_spec x 0); cbn -[Z.eqb wrap64 Z.add Z.sub] end;
  try done.

Lemma begin_exclusive_exec msg a : exec (begin_exclusive_operation msgs msg) a =
  match exclusive_refusal msg a with Some e => (Throw e, a) | None => (Ok tt, reserve_exclusive a) end.
Proof. unfold exclusive_refusal. by_atoms a. Qed.

Definition jobs_ok (a : atoms) : Prop := 0 <= async_jobs a < 2 ^ 64.

Lemma jobs_undo j : 0 <= j < 2 ^ 64 -> wrap64 (wrap64 (j + 1) - 1) = j.
Proof.
  intros Hj. unfold wrap64. rewrite Zminus_mod_idemp_l.
  replace (j + 1 - 1) with j by lia. by apply Z.mod_small.
Qed.

Lemma begin_io_exec d a : jobs_ok a -> exec (begin_io_job msgs d) a =
  match io_refusal d a with Some e => (Throw e, a) | None => (Ok tt, reserve_io d a) end.
Proof. intros Hj. unfold io_refusal. destruct d; by_atoms a. Qed.

Lemma try_begin_io_exec d a : jobs_ok a -> exec (try_begin_io_job_dir d) a =
  match io_refusal d a with Some _ => (Ok false, a) | None => (Ok true, reserve_io d a) end.
Proof. intros Hj. unfold io_refusal. destruct d; by_atoms a. Qed.

(** The reservations: everything but [tls_enabled]. *)
Definition resv (a : atoms) : bool * bool * bool * Z :=
  (exclusive_operation a, read_operation a, write_operation a, async_jobs a).

Lemma resv_jobs a b : resv a = resv b -> jobs_ok a -> jobs_ok b.
Proof. unfold resv, jobs_ok. intros [=]. congruence. Qed.

Lemma resv_tls a b : resv a = resv b -> tls_enabled a = tls_enabled b -> a = b.
Proof. destruct a, b. by intros [=] [=]; cbn in *; simplify_eq. Qed.

(** Releasing after a critical section that only changed [tls_enabled]. *)
Lemma end_exclusive_exec a b msg : exclusive_refusal msg a = None -> resv b = resv (reserve_exclusive a) ->
  exists c, exec end_exclusive_operation b = (Ok tt, c) /\ resv c = resv a /\ tls_enabled c = tls_enabled b.
Proof.
  unfold exclusive_refusal. destruct a as [t [] rd wr j]; cbn; [done|].
  destruct (Z.eqb_spec j 0) as [->|]; [|done]. intros _. destruct b as [t' e' r' w' j'].
  intros [=]; cbn in *; subst. by eexists.
Qed.

Lemma finish_io_exec d a b : jobs_ok a -> io_refusal d a = None -> resv b = resv (reserve_io d a) ->
  exists c, exec (finish_io_job d) b = (Ok tt, c) /\ resv c = resv a /\ tls_enabled c = tls_enabled b.
Proof.
  intros Hj. destruct a as [t e rd wr j], b as [t' e' rd' wr' j'], d; unfold io_refusal;
    cbn -[wrap64]; intros Hr [=]; subst; eexists; (split; [reflexivity|]); split; [|done| |done];
    cbn -[wrap64]; rewrite jobs_undo by done; by destruct rd, wr.
Qed.
End reservations.
