(* ===== verification/SocketOps.v ===== *)
(** * [asio::detail::socket_ops]: the system calls of a socket

    Models the calls of [include/asio/detail/impl/socket_ops.ipp] that a TCP or UDP socket
    makes on Linux (the branches without [ASIO_WINDOWS]): the loops that make a blocking
    operation of a descriptor that may be non-blocking, the attempts the reactor makes, the
    two non-blocking flags, and what the reactor's operations decide from an attempt
    ([detail/reactive_socket_*_op.hpp]).  The system calls are a class: a call is a function
    of the state of the system, which includes what the peer and the network will do. *)
From S2P Require Import Prelude Endpoint Atomics Admission Reservations.
Open Scope Z_scope.

(** ** Error numbers of Linux *)

Definition EPERM : error := other_error 1.
Definition interrupted : error := other_error 4.
Definition bad_descriptor : error := other_error 9.
Definition invalid_argument : error := other_error 22.
Definition ENOTTY : error := other_error 25.
Definition EPROTO : error := other_error 71.
Definition not_socket : error := other_error 88.
Definition operation_not_supported : error := other_error 95.
Definition connection_aborted : error := other_error 103.
Definition no_buffer_space : error := other_error 105.
Definition in_progress : error := other_error 115.

(** ** Descriptors and flags *)

Definition invalid_socket : Z := -1.
Definition socket_error_retval : Z := -1.

(** [state_type]: an [unsigned char] of flags. *)
Definition user_set_non_blocking : Z := 1.
Definition internal_non_blocking : Z := 2.
Definition non_blocking : Z := Z.lor user_set_non_blocking internal_non_blocking.
Definition enable_connection_aborted : Z := 4.
Definition user_set_linger : Z := 8.
Definition stream_oriented : Z := 16.
Definition datagram_oriented : Z := 32.
Definition possible_dup : Z := 64.
Definition reset_edge_on_partial_read : Z := 128.

(** [(state & flag) != 0], [state |= flag], [state &= ~flag]. *)
Definition has (flag state : Z) : bool := negb (Z.land state flag =? 0).
Definition raise (flag state : Z) : Z := Z.lor state flag.
Definition clear (flag state : Z) : Z := Z.ldiff state flag.

Definition POLLIN : Z := 1.
Definition POLLOUT : Z := 4.
Definition MSG_NOSIGNAL : Z := 16384.
Definition O_NONBLOCK : Z := 2048.

(** ** The system *)

Inductive sysres (A : Type) :=
  | Done (a : A)
  | Errno (e : error).          (** the call returned -1 *)
Arguments Done {A} a.
Arguments Errno {A} e.

Class Sys := {
  K : Type;
  sys_recv : Z -> nat -> Z -> K -> sysres (list ascii) * K;
  sys_send : Z -> list ascii -> Z -> K -> sysres nat * K;
  sys_recvfrom : Z -> nat -> Z -> K -> sysres (list ascii * endpoint_t) * K;
  sys_sendto : Z -> list ascii -> Z -> endpoint_t -> K -> sysres nat * K;
  sys_accept : Z -> K -> sysres (Z * endpoint_t) * K;
  sys_connect : Z -> endpoint_t -> K -> sysres unit * K;
  (** descriptor, events, timeout in milliseconds (-1: none): how many are ready *)
  sys_poll : Z -> Z -> Z -> K -> sysres Z * K;
  (** [getsockopt(SO_ERROR)]: the pending error of the socket, if any *)
  sys_so_error : Z -> K -> sysres error_code * K;
  sys_fionread : Z -> K -> sysres Z * K;
  sys_fionbio : Z -> bool -> K -> sysres unit * K;
  sys_getfl : Z -> K -> sysres Z * K;
  sys_setfl : Z -> Z -> K -> sysres unit * K;
  sys_shutdown : Z -> Z -> K -> sysres unit * K;
  sys_close : Z -> K -> sysres unit * K;
}.

(** [get_last_error]: it clears the code after a call that succeeded. *)
Definition ec_of {A} (r : sysres A) : error_code :=
  match r with Done _ => None | Errno e => Some e end.
Definition failed {A} (r : sysres A) : bool := ec_set (ec_of r).

(** [ec == would_block || ec == try_again] *)
Definition would_wait (ec : error_code) : bool := ec_is ec would_block || ec_is ec try_again.

Section socket_ops.
  Context `{Sys}.

Definition recv1 (s : Z) (size : nat) (flags : Z) : K -> sysres (list ascii) * K := sys_recv s size flags.
Definition send1 (s : Z) (data : list ascii) (flags : Z) : K -> sysres nat * K :=
  sys_send s data (Z.lor flags MSG_NOSIGNAL).
Definition recvfrom1 (s : Z) (size : nat) (flags : Z) : K -> sysres (list ascii * endpoint_t) * K :=
  sys_recvfrom s size flags.
Definition sendto1 (s : Z) (data : list ascii) (flags : Z) (addr : endpoint_t) : K -> sysres nat * K :=
  sys_sendto s data (Z.lor flags MSG_NOSIGNAL) addr.

(** ** Waiting: the result of the call, and the error code *)

Definition poll_for (events : Z) (s state msec : Z) (k : K) : (Z * error_code) * K :=
  if s =? invalid_socket then ((socket_error_retval, Some bad_descriptor), k)
  else
    let timeout := if has user_set_non_blocking state then 0 else msec in
    let '(r, k) := sys_poll s events timeout k in
    match r with
    | Errno e => ((socket_error_retval, Some e), k)
    | Done n => ((n, if (n =? 0) && has user_set_non_blocking state then Some would_block else None), k)
    end.
Definition poll_read : Z -> Z -> Z -> K -> (Z * error_code) * K := poll_for POLLIN.
Definition poll_write : Z -> Z -> Z -> K -> (Z * error_code) * K := poll_for POLLOUT.

Definition poll_connect (s msec : Z) (k : K) : (Z * error_code) * K :=
  if s =? invalid_socket then ((socket_error_retval, Some bad_descriptor), k)
  else
    let '(r, k) := sys_poll s POLLOUT msec k in
    match r with Errno e => ((socket_error_retval, Some e), k) | Done n => ((n, None), k) end.

(** ** Blocking operations

    [try_ k] is one attempt; when it would have to wait and the user did not ask for
    non-blocking behaviour, the loop waits and tries again.  [None]: out of fuel. *)
Fixpoint sync_loop {A} (try_ : K -> sysres A * K) (wait : K -> (Z * error_code) * K) (state : Z)
    (fuel : nat) (k : K) : option (sysres A * K) :=
  match fuel with
  | O => None
  | S fuel =>
      let '(r, k) := try_ k in
      match r with
      | Done a => Some (Done a, k)
      | Errno e =>
          if has user_set_non_blocking state || negb (would_wait (Some e)) then Some (Errno e, k)
          else
            let '((n, ec), k) := wait k in
            if n <? 0 then Some (Errno (default e ec), k) else sync_loop try_ wait state fuel k
      end
  end.

(** [sync_recv1]: the bytes and the error code. *)
Definition sync_recv1 (fuel : nat) (s state : Z) (size : nat) (flags : Z) (k : K)
    : option ((list ascii * error_code) * K) :=
  if s =? invalid_socket then Some (([], Some bad_descriptor), k)
  else if (size =? 0)%nat && has stream_oriented state then Some (([], None), k)
  else
    match sync_loop (recv1 s size flags) (poll_read s 0 (-1)) state fuel k with
    | None => None
    | Some (Errno e, k) => Some (([], Some e), k)
    | Some (Done bytes, k) =>
        if has stream_oriented state && (length bytes =? 0)%nat then Some (([], Some eof), k)
        else Some ((bytes, None), k)
    end.

Definition sync_send1 (fuel : nat) (s state : Z) (data : list ascii) (flags : Z) (k : K)
    : option ((nat * error_code) * K) :=
  if s =? invalid_socket then Some ((0%nat, Some bad_descriptor), k)
  else if (length data =? 0)%nat && has stream_oriented state then Some ((0%nat, None), k)
  else
    match sync_loop (send1 s data flags) (poll_write s 0 (-1)) state fuel k with
    | None => None
    | Some (Errno e, k) => Some ((0%nat, Some e), k)
    | Some (Done n, k) => Some ((n, None), k)
    end.

Definition sync_recvfrom1 (fuel : nat) (s state : Z) (size : nat) (flags : Z) (k : K)
    : option ((list ascii * option endpoint_t * error_code) * K) :=
  if s =? invalid_socket then Some (([], None, Some bad_descriptor), k)
  else
    match sync_loop (recvfrom1 s size flags) (poll_read s 0 (-1)) state fuel k with
    | None => None
    | Some (Errno e, k) => Some (([], None, Some e), k)
    | Some (Done (bytes, from), k) => Some ((bytes, Some from, None), k)
    end.

Definition sync_sendto1 (fuel : nat) (s state : Z) (data : list ascii) (flags : Z) (addr : endpoint_t) (k : K)
    : option ((nat * error_code) * K) :=
  if s =? invalid_socket then Some ((0%nat, Some bad_descriptor), k)
  else
    match sync_loop (sendto1 s data flags addr) (poll_write s 0 (-1)) state fuel k with
    | None => None
    | Some (Errno e, k) => Some ((0%nat, Some e), k)
    | Some (Done n, k) => Some ((n, None), k)
    end.

(** [accept]: the new descriptor, or [invalid_socket] and the error code. *)
Definition accept (s : Z) (k : K) : (Z * option endpoint_t * error_code) * K :=
  if s =? invalid_socket then ((invalid_socket, None, Some bad_descriptor), k)
  else
    let '(r, k) := sys_accept s k in
    match r with
    | Errno e => ((invalid_socket, None, Some e), k)
    | Done (new_s, addr) => ((new_s, Some addr, None), k)
    end.

(** A failed [accept] that is tried again: nothing was waiting, or the connection was lost
    before it was accepted and the user did not ask to see that. *)
Definition accept_again (state : Z) (ec : error_code) : bool :=
  would_wait ec || ((ec_is ec connection_aborted || ec_is ec EPROTO) && negb (has enable_connection_aborted state)).

Fixpoint sync_accept (fuel : nat) (s state : Z) (k : K) : option ((Z * option endpoint_t * error_code) * K) :=
  match fuel with
  | O => None
  | S fuel =>
      let '((new_s, addr, ec), k) := accept s k in
      if negb (new_s =? invalid_socket) then Some ((new_s, addr, ec), k)
      else if (if would_wait ec then has user_set_non_blocking state else negb (accept_again state ec)) then
        Some ((invalid_socket, None, ec), k)
      else
        let '((n, ec), k) := poll_read s 0 (-1) k in
        if n <? 0 then Some ((invalid_socket, None, ec), k) else sync_accept fuel s state k
  end.

(** The addresses this program connects to are not local ones ([AF_UNIX]). *)
Definition connect (s : Z) (addr : endpoint_t) (k : K) : error_code * K :=
  if s =? invalid_socket then (Some bad_descriptor, k)
  else
    let '(r, k) := sys_connect s addr k in
    ((if ec_is (ec_of r) try_again || ec_is (ec_of r) would_block then Some no_buffer_space else ec_of r), k).

Definition sync_connect (s : Z) (addr : endpoint_t) (k : K) : error_code * K :=
  let '(ec, k) := connect s addr k in
  if negb (ec_is ec in_progress) && negb (ec_is ec would_block) then (ec, k)
  else
    let '((n, ec), k) := poll_connect s (-1) k in
    if n <? 0 then (ec, k)
    else
      let '(r, k) := sys_so_error s k in
      match r with Errno e => (Some e, k) | Done connect_error => (connect_error, k) end.

(** ** The attempts of the reactor *)

(** [for (;;)] around a call that a signal may interrupt. *)
Fixpoint uninterrupted {A} (try_ : K -> sysres A * K) (fuel : nat) (k : K) : option (sysres A * K) :=
  match fuel with
  | O => None
  | S fuel =>
      let '(r, k) := try_ k in
      if ec_is (ec_of r) interrupted then uninterrupted try_ fuel k else Some (r, k)
  end.

(** [non_blocking_recv1]: [false] is an operation that would have to wait. *)
Definition non_blocking_recv1 (fuel : nat) (s : Z) (size : nat) (flags : Z) (is_stream : bool) (k : K)
    : option ((bool * list ascii * error_code) * K) :=
  match uninterrupted (recv1 s size flags) fuel k with
  | None => None
  | Some (Done bytes, k) =>
      if is_stream && (length bytes =? 0)%nat then Some ((true, [], Some eof), k) else Some ((true, bytes, None), k)
  | Some (Errno e, k) => Some ((negb (would_wait (Some e)), [], Some e), k)
  end.
Definition non_blocking_send1 (fuel : nat) (s : Z) (data : list ascii) (flags : Z) (k : K)
    : option ((bool * nat * error_code) * K) :=
  match uninterrupted (send1 s data flags) fuel k with
  | None => None
  | Some (Done n, k) => Some ((true, n, None), k)
  | Some (Errno e, k) => Some ((negb (would_wait (Some e)), 0%nat, Some e), k)
  end.
Definition non_blocking_recvfrom1 (fuel : nat) (s : Z) (size : nat) (flags : Z) (k : K)
    : option ((bool * list ascii * option endpoint_t * error_code) * K) :=
  match uninterrupted (recvfrom1 s size flags) fuel k with
  | None => None
  | Some (Done (bytes, from), k) => Some ((true, bytes, Some from, None), k)
  | Some (Errno e, k) => Some ((negb (would_wait (Some e)), [], None, Some e), k)
  end.
Definition non_blocking_sendto1 (fuel : nat) (s : Z) (data : list ascii) (flags : Z) (addr : endpoint_t) (k : K)
    : option ((bool * nat * error_code) * K) :=
  match uninterrupted (sendto1 s data flags addr) fuel k with
  | None => None
  | Some (Done n, k) => Some ((true, n, None), k)
  | Some (Errno e, k) => Some ((negb (would_wait (Some e)), 0%nat, Some e), k)
  end.

Fixpoint non_blocking_accept (fuel : nat) (s state : Z) (k : K)
    : option ((bool * (Z * option endpoint_t) * error_code) * K) :=
  match fuel with
  | O => None
  | S fuel =>
      let '((new_s, addr, ec), k) := accept s k in
      if negb (new_s =? invalid_socket) then Some ((true, (new_s, addr), ec), k)
      else if ec_is ec interrupted then non_blocking_accept fuel s state k
      else Some ((negb (accept_again state ec), (invalid_socket, None), ec), k)
  end.

(** [non_blocking_connect]: [ec] is the code the operation had. *)
Definition non_blocking_connect (s : Z) (ec : error_code) (k : K) : (bool * error_code) * K :=
  let '(r, k) := sys_poll s POLLOUT 0 k in
  match r with
  | Done 0 => ((false, ec), k)
  | _ =>
      let '(r, k) := sys_so_error s k in
      match r with Errno e => ((true, Some e), k) | Done connect_error => ((true, connect_error), k) end
  end.

(** ** What an operation of the reactor makes of an attempt *)

Inductive status := not_done | done | done_and_exhausted.

Definition status_of (finished exhausted : bool) : status :=
  if finished then (if exhausted then done_and_exhausted else done) else not_done.

(** [reactive_socket_recv_op_base::do_perform] *)
Definition recv_perform (fuel : nat) (s state : Z) (size : nat) (flags : Z) (k : K)
    : option ((status * list ascii * error_code) * K) :=
  match non_blocking_recv1 fuel s size flags (has stream_oriented state) k with
  | None => None
  | Some ((finished, bytes, ec), k) =>
      let least := if has reset_edge_on_partial_read state then size else 1%nat in
      Some ((status_of finished (has stream_oriented state && (length bytes <? least)%nat), bytes, ec), k)
  end.
(** [reactive_socket_send_op_base::do_perform] *)
Definition send_perform (fuel : nat) (s state : Z) (data : list ascii) (flags : Z) (k : K)
    : option ((status * nat * error_code) * K) :=
  match non_blocking_send1 fuel s data flags k with
  | None => None
  | Some ((finished, n, ec), k) =>
      Some ((status_of finished (has stream_oriented state && (n <? length data)%nat), n, ec), k)
  end.
Definition recvfrom_perform (fuel : nat) (s : Z) (size : nat) (flags : Z) (k : K)
    : option ((status * list ascii * option endpoint_t * error_code) * K) :=
  match non_blocking_recvfrom1 fuel s size flags k with
  | None => None
  | Some ((finished, bytes, from, ec), k) => Some ((status_of finished false, bytes, from, ec), k)
  end.
Definition sendto_perform (fuel : nat) (s : Z) (data : list ascii) (flags : Z) (addr : endpoint_t) (k : K)
    : option ((status * nat * error_code) * K) :=
  match non_blocking_sendto1 fuel s data flags addr k with
  | None => None
  | Some ((finished, n, ec), k) => Some ((status_of finished false, n, ec), k)
  end.
Definition accept_perform (fuel : nat) (s state : Z) (k : K)
    : option ((status * (Z * option endpoint_t) * error_code) * K) :=
  match non_blocking_accept fuel s state k with
  | None => None
  | Some ((finished, new_s, ec), k) => Some ((status_of finished false, new_s, ec), k)
  end.
Definition connect_perform (s : Z) (ec : error_code) (k : K) : (status * error_code) * K :=
  let '((finished, ec), k) := non_blocking_connect s ec k in ((status_of finished false, ec), k).

(** ** The non-blocking flags *)

(** [ioctl(FIONBIO)], or [fcntl] for a descriptor that may have been duplicated and for one
    that does not know the call. *)
Definition fcntl_non_blocking (s : Z) (value : bool) (k : K) : sysres unit * K :=
  let '(r, k) := sys_getfl s k in
  match r with
  | Errno e => (Errno e, k)
  | Done flags =>
      let flag := if value then Z.lor flags O_NONBLOCK else Z.ldiff flags O_NONBLOCK in
      if flag =? flags then (Done tt, k) else sys_setfl s flag k
  end.
Definition set_descriptor_non_blocking (s state : Z) (value : bool) (k : K) : sysres unit * K :=
  if has possible_dup state then fcntl_non_blocking s value k
  else
    let '(r, k) := sys_fionbio s value k in
    if ec_is (ec_of r) ENOTTY then fcntl_non_blocking s value k else (r, k).

(** The new state, and the error code of a call that failed. *)
Definition set_user_non_blocking (s state : Z) (value : bool) (k : K) : (Z * error_code) * K :=
  if s =? invalid_socket then ((state, Some bad_descriptor), k)
  else
    let '(r, k) := set_descriptor_non_blocking s state value k in
    match r with
    | Errno e => ((state, Some e), k)
    | Done _ => ((if value then raise user_set_non_blocking state else clear non_blocking state, None), k)
    end.
Definition set_internal_non_blocking (s state : Z) (value : bool) (k : K) : (Z * error_code) * K :=
  if s =? invalid_socket then ((state, Some bad_descriptor), k)
  else if negb value && has user_set_non_blocking state then ((state, Some invalid_argument), k)
  else
    let '(r, k) := set_descriptor_non_blocking s state value k in
    match r with
    | Errno e => ((state, Some e), k)
    | Done _ => (((if value then raise else clear) internal_non_blocking state, None), k)
    end.

(** ** The others *)

Definition available (s : Z) (k : K) : (Z * error_code) * K :=
  if s =? invalid_socket then ((0, Some bad_descriptor), k)
  else
    let '(r, k) := sys_fionread s k in
    match r with
    | Done n => ((n, None), k)
    | Errno e => ((0, Some (if bool_decide (e = ENOTTY) then not_socket else e)), k)
    end.
Definition shutdown (s what : Z) (k : K) : error_code * K :=
  if s =? invalid_socket then (Some bad_descriptor, k)
  else let '(r, k) := sys_shutdown s what k in (ec_of r, k).

(** What [close] does to try again: back to blocking mode. *)
Definition restore_blocking (s state : Z) (k : K) : K :=
  let '(ec, k) := if has possible_dup state then (None, k) else let '(r, k) := sys_fionbio s false k in (ec_of r, k) in
  if has possible_dup state || ec_is ec ENOTTY then
    let '(r, k) := sys_getfl s k in
    match r with
    | Done flags => (sys_setfl s (Z.ldiff flags O_NONBLOCK) k).2
    | Errno _ => k
    end
  else k.

(** [close] of a socket whose linger option the user has not set; the new state.  The code
    of an invalid socket stays what it was. *)
Definition close (s state : Z) (ec : error_code) (k : K) : (Z * error_code) * K :=
  if s =? invalid_socket then ((state, ec), k)
  else
    let '(r, k) := sys_close s k in
    if would_wait (ec_of r) then
      let '(r, k) := sys_close s (restore_blocking s state k) in ((clear non_blocking state, ec_of r), k)
    else ((state, ec_of r), k).

(** [tcp::socket::peer_closed] of [network.hpp], between the reservation and its release: a
    look at the input in non-blocking mode.  The answer and the new state. *)
Definition MSG_PEEK : Z := 2.
Definition probe_closed (s state : Z) (k : K) : (bool * Z) * K :=
  let '((state, ec), k) := set_user_non_blocking s state true k in
  if ec_set ec then ((false, state), k)
  else
    match sync_recv1 1 s state 1 MSG_PEEK k with
    | None => ((false, state), k)
    | Some ((peeked, ec), k) =>
        let '((state, _), k) := set_user_non_blocking s state false k in
        (((length peeked =? 0)%nat && negb (would_wait ec), state), k)
    end.

End socket_ops.

(** ** Flags as bits *)

Lemma has_bit n state : 0 <= n -> has (2 ^ n) state = Z.testbit state n.
Proof.
  intros Hn. unfold has. destruct (Z.testbit state n) eqn:Hb.
  - apply negb_true_iff, Z.eqb_neq. intros Hz. apply (f_equal (fun x => Z.testbit x n)) in Hz.
    by rewrite Z.land_spec, Z.pow2_bits_true, Hb, Z.bits_0 in Hz.
  - apply negb_false_iff, Z.eqb_eq. apply Z.bits_inj'. intros i Hi. rewrite Z.land_spec, Z.pow2_bits_eqb, Z.bits_0 by done.
    destruct (Z.eqb_spec n i) as [<-|]; [by rewrite Hb|by rewrite andb_false_r].
Qed.
Lemma has_user state : has user_set_non_blocking state = Z.testbit state 0.
Proof. apply (has_bit 0). lia. Qed.
Lemma has_internal state : has internal_non_blocking state = Z.testbit state 1.
Proof. apply (has_bit 1). lia. Qed.
Lemma has_non_blocking state : has non_blocking state = Z.testbit state 0 || Z.testbit state 1.
Proof.
  rewrite <- has_user, <- has_internal. unfold has, non_blocking.
  rewrite Z.land_lor_distr_r, <- negb_andb. f_equal.
  destruct (Z.eqb_spec (Z.land state user_set_non_blocking) 0) as [->|Hu]; [by rewrite Z.lor_0_l|].
  cbn [andb]. apply Z.eqb_neq. intros [Hz _]%Z.lor_eq_0_iff. done.
Qed.

(** ** Whether a descriptor blocks *)

(** What the system promises of the non-blocking mode of its descriptors. *)
Class SysModes `{Sys} := {
  nonblock : Z -> K -> bool;
  fionbio_mode : forall s v k,
    nonblock s (sys_fionbio s v k).2 = if failed (sys_fionbio s v k).1 then nonblock s k else v;
  getfl_mode : forall s k, nonblock s (sys_getfl s k).2 = nonblock s k /\
    forall flags, (sys_getfl s k).1 = Done flags -> Z.testbit flags 11 = nonblock s k;
  setfl_mode : forall s flags k,
    nonblock s (sys_setfl s flags k).2 = if failed (sys_setfl s flags k).1 then nonblock s k else Z.testbit flags 11;
}.

Section modes.
  Context `{SysModes}.

Lemma fcntl_mode s v k :
  nonblock s (fcntl_non_blocking s v k).2 = if failed (fcntl_non_blocking s v k).1 then nonblock s k else v.
Proof.
  unfold fcntl_non_blocking. destruct (getfl_mode s k) as [Hg Hf].
  destruct (sys_getfl s k) as [[flags|e] k1]; cbn in Hg |- *; [|done]. specialize (Hf flags eq_refl).
  set (flag := if v then _ else _). assert (Z.testbit flag 11 = v) as Hbit.
  { unfold flag, O_NONBLOCK. change 2048 with (2 ^ 11).
    destruct v; rewrite ?Z.lor_spec, ?Z.ldiff_spec, Z.pow2_bits_true by lia; [apply orb_true_r|apply andb_false_r]. }
  destruct (Z.eqb_spec flag flags) as [He|]; [cbn; rewrite Hg, <- Hf, <- He; done|].
  rewrite setfl_mode, Hg. by destruct (failed _).
Qed.
Lemma descriptor_mode s state v k :
  nonblock s (set_descriptor_non_blocking s state v k).2
  = if failed (set_descriptor_non_blocking s state v k).1 then nonblock s k else v.
Proof.
  unfold set_descriptor_non_blocking. destruct (has possible_dup state); [apply fcntl_mode|].
  pose proof (fionbio_mode s v k) as Hio. destruct (sys_fionbio s v k) as [r k1]. cbn in Hio.
  destruct (ec_is (ec_of r) ENOTTY) eqn:He; [|exact Hio].
  rewrite fcntl_mode, Hio. unfold failed. unfold ec_is in He. apply bool_decide_eq_true in He. by rewrite He.
Qed.

(** The flags of a socket say how its descriptor is. *)
Definition mirrors (s state : Z) (k : K) : Prop := has non_blocking state = nonblock s k.

Lemma user_mode s state v k : mirrors s state k ->
  let '((state', ec), k') := set_user_non_blocking s state v k in mirrors s state' k'.
Proof.
  intros Hm. unfold set_user_non_blocking. destruct (s =? invalid_socket); [done|].
  pose proof (descriptor_mode s state v k) as Hd.
  destruct (set_descriptor_non_blocking s state v k) as [[[]|e] k']; cbn in Hd |- *; unfold mirrors; rewrite Hd; [|done].
  rewrite has_non_blocking. unfold raise, clear, non_blocking, user_set_non_blocking, internal_non_blocking.
  destruct v; rewrite ?Z.lor_spec, ?Z.ldiff_spec; cbn; [by rewrite orb_true_r|by rewrite !andb_false_r].
Qed.
Lemma internal_mode s state v k : mirrors s state k ->
  let '((state', ec), k') := set_internal_non_blocking s state v k in mirrors s state' k'.
Proof.
  intros Hm. unfold set_internal_non_blocking. destruct (s =? invalid_socket); [done|].
  destruct (negb v && has user_set_non_blocking state) eqn:Hu; [done|].
  pose proof (descriptor_mode s state v k) as Hd.
  destruct (set_descriptor_non_blocking s state v k) as [[[]|e] k']; cbn in Hd |- *; unfold mirrors; rewrite Hd; [|done].
  rewrite has_non_blocking. unfold raise, clear, internal_non_blocking. rewrite has_user in Hu.
  destruct v; cbn [negb andb] in Hu; rewrite ?Z.lor_spec, ?Z.ldiff_spec;
    change (Z.testbit 2 0) with false; change (Z.testbit 2 1) with true; cbn [negb]; [by rewrite !orb_true_r|].
  by rewrite Hu, andb_false_r.
Qed.
End modes.

(** ** Properties *)

Section properties.
  Context `{SysModes}.

(** A call that changes the mode: by the user, or for the reactor. *)
Definition set_mode (user : bool) : Z -> Z -> bool -> K -> (Z * error_code) * K :=
  if user then set_user_non_blocking else set_internal_non_blocking.
Fixpoint set_modes (calls : list (bool * bool)) (s state : Z) (k : K) : Z * K :=
  match calls with
  | [] => (state, k)
  | (user, value) :: calls =>
      let '((state, _), k) := set_mode user s state value k in set_modes calls s state k
  end.

(** The flags of a socket tell the truth.  Whatever sequence of
    [set_user_non_blocking] and [set_internal_non_blocking] calls is made on a socket,
    whichever of them the system refuses, the socket has one of its non-blocking flags
    exactly when its descriptor is in non-blocking mode. *)
Theorem non_blocking_flags (calls : list (bool * bool)) (s state : Z) (k : K) (Hopen : mirrors s state k) :
  let '(state', k') := set_modes calls s state k in mirrors s state' k'.
Proof.
  revert state k Hopen. induction calls as [|[user value] calls IH]; intros state k Hm; cbn [set_modes]; [done|].
  destruct user; cbn [set_mode].
  - pose proof (user_mode s state value k Hm) as Hm1. destruct (set_user_non_blocking s state value k) as [[state1 ec] k1].
    by apply IH.
  - pose proof (internal_mode s state value k Hm) as Hm1.
    destruct (set_internal_non_blocking s state value k) as [[state1 ec] k1]. by apply IH.
Qed.

(** C30: [peer_closed] takes the non-blocking mode away from a pending write.  While an
    asynchronous write holds its direction of a socket, the read direction that
    [peer_closed] reserves is free, so it is admitted; and however the descriptor was, after
    its probe (whose mode changes succeed) the descriptor blocks and the flag that the
    reactor set for the pending write is gone: the next attempt of the write, made on the
    thread of the event loop, is a blocking system call. *)
Theorem peer_closed_unblocks (msgs : messages) (a : atoms) (s state : Z) (k : K)
  (Hjobs : jobs_ok a) (Hread : read_operation a = false) (Hexcl : exclusive_operation a = false)
  (Hwrite : write_operation a = true) (Hs : s <> invalid_socket) (Hdup : has possible_dup state = false)
  (Hio : forall v k, (sys_fionbio s v k).1 = Done tt) :
  let '((_, state'), k') := probe_closed s state k in
  exec (try_begin_io_job_dir dir_read) a = (Ok true, reserve_io dir_read a) /\
  write_operation (reserve_io dir_read a) = true /\
  has internal_non_blocking state' = false /\ nonblock s k' = false.
Proof.
  assert (forall st v k, failed (set_descriptor_non_blocking s st v k).1 = false \/ has possible_dup st = true) as Hok.
  { intros st v k1. unfold set_descriptor_non_blocking. destruct (has possible_dup st); [by right|left].
    specialize (Hio v k1). destruct (sys_fionbio s v k1) as [r k2]; cbn in Hio; by subst r. }
  assert (forall st v k, has possible_dup st = false -> exists k1,
    set_user_non_blocking s st v k
    = ((if v then raise user_set_non_blocking st else clear non_blocking st, None), k1) /\ nonblock s k1 = v) as Hset.
  { intros st v k0 Hst. unfold set_user_non_blocking. rewrite (proj2 (Z.eqb_neq _ _) Hs).
    pose proof (descriptor_mode s st v k0) as Hd. destruct (Hok st v k0) as [Hf|Hf]; [|congruence].
    rewrite Hf in Hd. destruct (set_descriptor_non_blocking s st v k0) as [[[]|e] k1]; [by exists k1|done]. }
  unfold probe_closed. destruct (Hset state true k Hdup) as (k1 & -> & _). cbn [ec_set].
  set (state1 := raise user_set_non_blocking state).
  assert (has user_set_non_blocking state1 = true) as Hu.
  { rewrite has_user. unfold state1, raise, user_set_non_blocking. rewrite Z.lor_spec. apply orb_true_r. }
  assert (has possible_dup state1 = false) as Hdup1.
  { change possible_dup with (2 ^ 6) in *. rewrite has_bit in * by lia.
    unfold state1, raise, user_set_non_blocking. rewrite Z.lor_spec, Hdup. done. }
  assert (exists p k2, sync_recv1 1 s state1 1 MSG_PEEK k1 = Some (p, k2)) as ([peeked ec] & k2 & ->).
  { unfold sync_recv1. destruct (s =? invalid_socket); [by repeat eexists|]. cbn [Nat.eqb andb sync_loop]. rewrite Hu. cbn [orb].
    destruct (recv1 s 1 MSG_PEEK k1) as [[bytes|e] k2]; [|by repeat eexists]. destruct (_ && _); by repeat eexists. }
  destruct (Hset state1 false k2 Hdup1) as (k3 & -> & Hmode). cbn iota zeta.
  rewrite (try_begin_io_exec msgs) by done. unfold io_refusal. cbn [get_flag]. rewrite Hread, Hexcl.
  split_and!; [done|by destruct a|..|done].
  rewrite has_internal. unfold clear, non_blocking. rewrite Z.ldiff_spec, Z.lor_spec.
  change (Z.testbit internal_non_blocking 1) with true. by rewrite orb_true_r, andb_false_r.
Qed.
End properties.

(** ** A system to evaluate with

    One connected socket: what has arrived, what will arrive (each a packet), the room in
    the send buffer, what was sent, and the mode.  After the last packet the peer closes. *)
Record toy := Toy {
  arrived : list ascii;
  to_come : list (list ascii);
  send_room : nat;
  sent : list ascii;
  mode : bool;
}.

Definition toy_refill (k : toy) : toy :=
  match arrived k, to_come k with
  | [], p :: ps => Toy p ps (send_room k) (sent k) (mode k)
  | _, _ => k
  end.
Definition toy_recv (s : Z) (size : nat) (flags : Z) (k : toy) : sysres (list ascii) * toy :=
  if mode k && bool_decide (arrived k = []) && negb (bool_decide (to_come k = [])) then (Errno try_again, k)
  else
    let k := toy_refill k in
    let rest := if Z.testbit flags 1 then arrived k else drop size (arrived k) in
    (Done (take size (arrived k)), Toy rest (to_come k) (send_room k) (sent k) (mode k)).
Definition toy_room : nat := 4.
Definition toy_send (s : Z) (data : list ascii) (flags : Z) (k : toy) : sysres nat * toy :=
  if mode k then
    if (send_room k =? 0)%nat then (Errno try_again, k)
    else
      let n := Nat.min (send_room k) (length data) in
      (Done n, Toy (arrived k) (to_come k) (send_room k - n) (sent k ++ take n data) true)
  else (Done (length data), Toy (arrived k) (to_come k) (send_room k) (sent k ++ data) false).
Definition toy_poll (s events timeout : Z) (k : toy) : sysres Z * toy :=
  if events =? POLLIN then (Done 1, toy_refill k)
  else (Done 1, Toy (arrived k) (to_come k) toy_room (sent k) (mode k)).
Definition toy_endpoint : endpoint_t := Endpoint any_v4 0.

#[local] Instance toy_sys : Sys := {|
  K := toy;
  sys_recv := toy_recv;
  sys_send := toy_send;
  sys_recvfrom := fun s size flags k => let '(r, k) := toy_recv s size flags k in
    (match r with Done bytes => Done (bytes, toy_endpoint) | Errno e => Errno e end, k);
  sys_sendto := fun s data flags _ k => toy_send s data flags k;
  sys_accept := fun _ k => (Errno try_again, k);
  sys_connect := fun _ _ k => (Done tt, k);
  sys_poll := toy_poll;
  sys_so_error := fun _ k => (Done None, k);
  sys_fionread := fun _ k => (Done (Z.of_nat (length (arrived k))), k);
  sys_fionbio := fun _ v k => (Done tt, Toy (arrived k) (to_come k) (send_room k) (sent k) v);
  sys_getfl := fun _ k => (Done (if mode k then O_NONBLOCK else 0), k);
  sys_setfl := fun _ fl k => (Done tt, Toy (arrived k) (to_come k) (send_room k) (sent k) (Z.testbit fl 11));
  sys_shutdown := fun _ _ k => (Done tt, k);
  sys_close := fun _ k => (Done tt, k);
|}.

#[local] Instance toy_modes : SysModes.
Proof.
  refine {| nonblock := fun _ k => mode k |}; [done| |done].
  intros s k. split; [done|]. intros flags [= <-]. by destruct (mode k).
Defined.

(** Nothing has arrived, and the send buffer is full. *)
Definition toy_start : toy := Toy [] [[]; ["a"; "b"; "c"]%char] 0 [] true.
Definition stream_state : Z := Z.lor stream_oriented internal_non_blocking.

(** An asynchronous write is pending, the user asks for non-blocking behaviour and takes it
    back. *)
Lemma non_blocking_flags_witness :
  let '(state', k') := set_modes [(false, true); (true, true); (true, false)] 5 stream_oriented
    (Toy [] [] 0 [] false) in mirrors 5 state' k'.
Proof.
  apply (@non_blocking_flags toy_sys toy_modes [(false, true); (true, true); (true, false)] 5 stream_oriented
    (Toy [] [] 0 [] false)). reflexivity.
Defined.

Lemma peer_closed_unblocks_witness :
  let a := Atoms false false false true 1 in
  let '((_, state'), k') := probe_closed 5 stream_state toy_start in
  exec (try_begin_io_job_dir dir_read) a = (Ok true, reserve_io dir_read a) /\
  write_operation (reserve_io dir_read a) = true /\
  has internal_non_blocking state' = false /\ nonblock 5 k' = false.
Proof.
  apply (@peer_closed_unblocks toy_sys toy_modes Tcp.texts (Atoms false false false true 1) 5 stream_state toy_start);
    [unfold jobs_ok; cbn [async_jobs]; lia|done|done|done|done|done|done].
Defined.
