(* ===== verification/Address.v ===== *)
(** * [asio::ip]: addresses and endpoints

    Models [ip/impl/address_v4.ipp], [ip/impl/address_v6.ipp], [ip/impl/address.ipp],
    [ip/detail/impl/endpoint.ipp] and the text conversions of [detail/impl/socket_ops.ipp]
    (the branches of Linux): addresses as they lie in memory, in network order, the object
    that is either kind of address, the socket address that is either kind of endpoint, and
    [ssl/impl/host_name_verification.ipp], which asks whether a host name is an address.

    The system's conversions, its interfaces, the order of its bytes and OpenSSL's checks of
    a certificate are classes. *)
From S2P Require Import Prelude FixedHex.
From S2P Require Endpoint SocketOps.
Open Scope Z_scope.

Inductive family := AF_INET | AF_INET6.

#[export] Instance family_eq_dec : EqDecision family.
Proof. solve_decision. Defined.

(** ** Memory *)

(** The bytes of a machine integer, the least significant first. *)
Fixpoint le_bytes (n : nat) (x : Z) : list Z :=
  match n with O => [] | S n => x `mod` 256 :: le_bytes n (x / 256) end.
Fixpoint of_le (b : list Z) : Z := match b with [] => 0 | x :: b => x + 256 * of_le b end.

Class AddressSystem := {
  little_endian : bool;
  (** [::inet_ntop] into so many characters; [::inet_pton] *)
  sys_inet_ntop : family -> list Z -> Z -> string + error;
  sys_inet_pton : family -> string -> option (list Z);
  (** [if_indextoname]; [if_nametoindex], [0] when there is no such interface *)
  sys_if_indextoname : Z -> option string;
  sys_if_nametoindex : string -> Z;
}.

Section memory.
  Context `{AddressSystem}.

Definition to_memory (n : nat) (x : Z) : list Z := if little_endian then le_bytes n x else rev (le_bytes n x).
Definition of_memory (b : list Z) : Z := of_le (if little_endian then b else rev b).

(** [htonl], [htons]: the integer that lies in memory with its most significant byte first. *)
Definition host_to_network (n : nat) (x : Z) : Z := of_memory (rev (le_bytes n x)).
Definition network_to_host (n : nat) (x : Z) : Z := of_le (rev (to_memory n x)).
Definition host_to_network_long : Z -> Z := host_to_network 4.
Definition network_to_host_long : Z -> Z := network_to_host 4.
Definition host_to_network_short : Z -> Z := host_to_network 2.
Definition network_to_host_short : Z -> Z := network_to_host 2.
End memory.

(** [memcmp]: its sign. *)
Fixpoint memcmp (a b : list Z) : comparison :=
  match a, b with
  | x :: a, y :: b => match x ?= y with Eq => memcmp a b | c => c end
  | _, _ => Eq
  end.

(** ** The text conversions of [socket_ops] *)

Definition max_addr_v4_str_len : Z := 16.
(** [INET6_ADDRSTRLEN + 1 + IF_NAMESIZE] *)
Definition max_addr_v6_str_len : Z := 63.

(** What a C string shows of a string. *)
Fixpoint c_str (s : string) : string :=
  match s with
  | EmptyString => EmptyString
  | String c s => if Ascii.eqb c (Ascii.ascii_of_nat 0) then EmptyString else String c (c_str s)
  end.
(** [strchr(s, '%')]: what is before it and what is after it. *)
Fixpoint split_percent (s : string) : string * option string :=
  match s with
  | EmptyString => (EmptyString, None)
  | String c s =>
      if Ascii.eqb c "%"%char then (EmptyString, Some s)
      else let '(a, b) := split_percent s in (String c a, b)
  end.

(** [atoi]: [strtol], which stops at the range of [long], converted to [int]. *)
Definition dec_val (c : Ascii.ascii) : option Z :=
  let n := Z.of_nat (Ascii.nat_of_ascii c) in if (48 <=? n) && (n <=? 57) then Some (n - 48) else None.
Fixpoint dec_run (s : string) (acc : Z) : Z :=
  match s with
  | String c s => match dec_val c with Some d => dec_run s (10 * acc + d) | None => acc end
  | EmptyString => acc
  end.
Definition to_int (z : Z) : Z := (z + 2 ^ 31) `mod` 2 ^ 32 - 2 ^ 31.
Definition atoi (s : string) : Z :=
  let '(negative, digits) := take_sign (skip_space s) in
  let v := dec_run digits 0 in
  to_int (Z.max (- 2 ^ 63) (Z.min (2 ^ 63 - 1) (if negative then - v else v))).

Section text.
  Context `{AddressSystem}.

Definition octet (b : list Z) (i : nat) : Z := nth i b 0.
Definition link_local_bytes (b : list Z) : bool := (octet b 0 =? 254) && (Z.land (octet b 1) 192 =? 128).
Definition multicast_link_local_bytes (b : list Z) : bool := (octet b 0 =? 255) && (Z.land (octet b 1) 15 =? 2).
Definition linked (b : list Z) : bool := link_local_bytes b || multicast_link_local_bytes b.

(** [snprintf(if_name + 1, 22, "%lu", scope_id)] *)
Definition scope_digits (scope_id : Z) : string := String.substring 0 21 (to_string scope_id).
Definition scope_name (src : list Z) (scope_id : Z) : string :=
  match (if linked src then sys_if_indextoname scope_id else None) with
  | Some name => name
  | None => scope_digits scope_id
  end.
Definition inet_ntop (af : family) (src : list Z) (length scope_id : Z) : option string * error_code :=
  match sys_inet_ntop af src length with
  | inr e => (None, Some e)
  | inl s =>
      if bool_decide (af = AF_INET6) && negb (scope_id =? 0) then (Some (s +:+ String "%" (scope_name src scope_id)), None)
      else (Some s, None)
  end.

(** The index of a scope as an [unsigned long]. *)
Definition scope_index (dest : list Z) (if_name : string) : Z :=
  let scope_id := if linked dest then sys_if_nametoindex if_name else 0 in
  if scope_id =? 0 then atoi if_name `mod` 2 ^ 64 else scope_id.
(** The bytes and the scope, or the error. *)
Definition inet_pton (af : family) (src : string) : option (list Z * Z) * error_code :=
  let '(addr, if_name) := if bool_decide (af = AF_INET6) then split_percent src else (src, None) in
  if match if_name with Some _ => max_addr_v6_str_len <? Z.of_nat (String.length addr) | None => false end
  then (None, Some SocketOps.invalid_argument)
  else
    match sys_inet_pton af addr with
    | None => (None, Some SocketOps.invalid_argument)
    | Some dest => (Some (dest, match if_name with Some name => scope_index dest name | None => 0 end), None)
    end.
End text.

(** ** [address_v4] *)

Record address_v4 := AddressV4 { s_addr : Z }.

#[export] Instance address_v4_eq_dec : EqDecision address_v4.
Proof. solve_decision. Defined.

Definition any_v4 : address_v4 := AddressV4 0.
Module V4.
Section v4.
  Context `{AddressSystem}.

Definition of_bytes (bytes : list Z) : address_v4 := AddressV4 (of_memory bytes).
Definition of_uint (addr : Z) : address_v4 := AddressV4 (host_to_network_long addr).
Definition to_bytes (a : address_v4) : list Z := to_memory 4 (s_addr a).
Definition to_uint (a : address_v4) : Z := network_to_host_long (s_addr a).
Definition is_loopback (a : address_v4) : bool := Z.land (to_uint a) 4278190080 =? 2130706432.
Definition is_unspecified (a : address_v4) : bool := to_uint a =? 0.
Definition is_multicast (a : address_v4) : bool := Z.land (to_uint a) 4026531840 =? 3758096384.
Definition equal (a b : address_v4) : bool := s_addr a =? s_addr b.
Definition less (a b : address_v4) : bool := to_uint a <? to_uint b.
Definition loopback : address_v4 := of_uint 2130706433.
Definition broadcast : address_v4 := of_uint 4294967295.
Definition to_text (a : address_v4) : res string :=
  match inet_ntop AF_INET (to_bytes a) max_addr_v4_str_len 0 with
  | (Some s, _) => Ok s
  | (None, ec) => Throw (system_error (default SocketOps.invalid_argument ec))
  end.
(** [make_address_v4(str, ec)] *)
Definition make (str : string) : address_v4 * error_code :=
  match inet_pton AF_INET str with
  | (Some (bytes, _), ec) => (of_bytes bytes, ec)
  | (None, ec) => (any_v4, ec)
  end.
End v4.
End V4.

(** ** [address_v6] *)

Record address_v6 := AddressV6 { s6_addr : list Z; scope_id_ : Z }.

#[export] Instance address_v6_eq_dec : EqDecision address_v6.
Proof. solve_decision. Defined.

Definition any_v6 : address_v6 := AddressV6 (replicate 16 0) 0.
Module V6.
Section v6.
  Context `{AddressSystem}.

Definition of_bytes (bytes : list Z) (scope : Z) : address_v6 := AddressV6 bytes scope.
Definition to_bytes (a : address_v6) : list Z := s6_addr a.
Definition set_scope_id (id : Z) (a : address_v6) : address_v6 := AddressV6 (s6_addr a) id.
(** The bytes from the first on are those. *)
Definition starts (b : list Z) (a : address_v6) : bool := bool_decide (take (length b) (s6_addr a) = b).
Definition is_loopback (a : address_v6) : bool := starts (replicate 15 0 ++ [1]) a.
Definition is_unspecified (a : address_v6) : bool := starts (replicate 16 0) a.
Definition is_link_local (a : address_v6) : bool := link_local_bytes (s6_addr a).
Definition is_site_local (a : address_v6) : bool := (octet (s6_addr a) 0 =? 254) && (Z.land (octet (s6_addr a) 1) 192 =? 192).
Definition is_v4_mapped (a : address_v6) : bool := starts (replicate 10 0 ++ [255; 255]) a.
Definition is_multicast (a : address_v6) : bool := octet (s6_addr a) 0 =? 255.
Definition multicast_scope (n : Z) (a : address_v6) : bool := (octet (s6_addr a) 0 =? 255) && (Z.land (octet (s6_addr a) 1) 15 =? n).
Definition is_multicast_global : address_v6 -> bool := multicast_scope 14.
Definition is_multicast_link_local : address_v6 -> bool := multicast_scope 2.
Definition is_multicast_node_local : address_v6 -> bool := multicast_scope 1.
Definition is_multicast_org_local : address_v6 -> bool := multicast_scope 8.
Definition is_multicast_site_local : address_v6 -> bool := multicast_scope 5.
Definition equal (a b : address_v6) : bool :=
  match memcmp (s6_addr a) (s6_addr b) with Eq => scope_id_ a =? scope_id_ b | _ => false end.
Definition less (a b : address_v6) : bool :=
  match memcmp (s6_addr a) (s6_addr b) with Lt => true | Gt => false | Eq => scope_id_ a <? scope_id_ b end.
Definition loopback : address_v6 := AddressV6 (replicate 15 0 ++ [1]) 0.
Definition to_text (a : address_v6) : res string :=
  match inet_ntop AF_INET6 (to_bytes a) max_addr_v6_str_len (scope_id_ a) with
  | (Some s, _) => Ok s
  | (None, ec) => Throw (system_error (default SocketOps.invalid_argument ec))
  end.
(** [make_address_v6(str, ec)]; the scope becomes a [uint_least32_t]. *)
Definition make (str : string) : address_v6 * error_code :=
  match inet_pton AF_INET6 str with
  | (Some (bytes, scope_id), ec) => (of_bytes bytes (scope_id `mod` 2 ^ 32), ec)
  | (None, ec) => (any_v6, ec)
  end.

(** [make_address_v4(v4_mapped, a)] and [make_address_v6(v4_mapped, a)]; [None] is
    [bad_address_cast]. *)
Definition unmap_v4 (a : address_v6) : option address_v4 :=
  if is_v4_mapped a then Some (V4.of_bytes [octet (to_bytes a) 12; octet (to_bytes a) 13; octet (to_bytes a) 14; octet (to_bytes a) 15])
  else None.
Definition map_v4 (a : address_v4) : address_v6 :=
  let b := V4.to_bytes a in of_bytes (replicate 10 0 ++ [255; 255; octet b 0; octet b 1; octet b 2; octet b 3]) 0.
End v6.
End V6.

(** ** [address] *)

Inductive kind := ipv4 | ipv6.

#[export] Instance kind_eq_dec : EqDecision kind.
Proof. solve_decision. Defined.

(** An object of class [address] holds one of each kind; [type_] says which is meant. *)
Record address := Addr { type_ : kind; ipv4_address_ : address_v4; ipv6_address_ : address_v6 }.

#[export] Instance address_eq_dec : EqDecision address.
Proof. solve_decision. Defined.

Section address.
  Context `{AddressSystem}.

Definition no_address : address := Addr ipv4 any_v4 any_v6.
Definition of_v4 (a : address_v4) : address := Addr ipv4 a any_v6.
Definition of_v6 (a : address_v6) : address := Addr ipv6 any_v4 a.
Definition is_v4 (a : address) : bool := bool_decide (type_ a = ipv4).
Definition is_v6 (a : address) : bool := bool_decide (type_ a = ipv6).
(** The assignments, to the object [a]. *)
Definition assign (other a : address) : address := Addr (type_ other) (ipv4_address_ other) (ipv6_address_ other).
Definition assign_v4 (x : address_v4) (a : address) : address := Addr ipv4 x any_v6.
Definition assign_v6 (x : address_v6) (a : address) : address := Addr ipv6 any_v4 x.
(** [None]: [bad_address_cast]. *)
Definition to_v4 (a : address) : option address_v4 := if bool_decide (type_ a <> ipv4) then None else Some (ipv4_address_ a).
Definition to_v6 (a : address) : option address_v6 := if bool_decide (type_ a <> ipv6) then None else Some (ipv6_address_ a).
Definition to_text (a : address) : res string :=
  if bool_decide (type_ a = ipv6) then V6.to_text (ipv6_address_ a) else V4.to_text (ipv4_address_ a).
Definition is_loopback (a : address) : bool :=
  if bool_decide (type_ a = ipv4) then V4.is_loopback (ipv4_address_ a) else V6.is_loopback (ipv6_address_ a).
Definition is_unspecified (a : address) : bool :=
  if bool_decide (type_ a = ipv4) then V4.is_unspecified (ipv4_address_ a) else V6.is_unspecified (ipv6_address_ a).
Definition is_multicast (a : address) : bool :=
  if bool_decide (type_ a = ipv4) then V4.is_multicast (ipv4_address_ a) else V6.is_multicast (ipv6_address_ a).
Definition equal (a b : address) : bool :=
  if bool_decide (type_ a <> type_ b) then false
  else if bool_decide (type_ a = ipv6) then V6.equal (ipv6_address_ a) (ipv6_address_ b)
  else V4.equal (ipv4_address_ a) (ipv4_address_ b).
Definition kind_index (k : kind) : Z := match k with ipv4 => 0 | ipv6 => 1 end.
Definition less (a b : address) : bool :=
  if kind_index (type_ a) <? kind_index (type_ b) then true
  else if kind_index (type_ b) <? kind_index (type_ a) then false
  else if bool_decide (type_ a = ipv6) then V6.less (ipv6_address_ a) (ipv6_address_ b)
  else V4.less (ipv4_address_ a) (ipv4_address_ b).

(** [make_address(str, ec)] and [make_address(str)]. *)
Definition make_ec (str : string) : address * error_code :=
  let '(v6, ec) := V6.make str in
  if negb (ec_set ec) then (of_v6 v6, ec)
  else
    let '(v4, ec) := V4.make str in
    if negb (ec_set ec) then (of_v4 v4, ec) else (no_address, ec).
Definition make_address (str : string) : res address :=
  match make_ec (c_str str) with
  | (a, None) => Ok a
  | (_, Some e) => Throw (system_error e)
  end.

(** ** [ip::detail::endpoint] *)

(** The union of the socket addresses, by [sa_family]. *)
Inductive data_union :=
  | Sockaddr4 (sin_port sin_addr : Z)
  | Sockaddr6 (sin6_port sin6_flowinfo : Z) (sin6_addr : list Z) (sin6_scope_id : Z).

Definition new_endpoint : data_union := Sockaddr4 0 0.
Definition endpoint_of_family (af : family) (port_num : Z) : data_union :=
  match af with
  | AF_INET => Sockaddr4 (host_to_network_short port_num) 0
  | AF_INET6 => Sockaddr6 (host_to_network_short port_num) 0 (replicate 16 0) 0
  end.
Definition endpoint_of (addr : address) (port_num : Z) : data_union :=
  if is_v4 addr then
    Sockaddr4 (host_to_network_short port_num) (host_to_network_long (V4.to_uint (ipv4_address_ addr)))
  else
    Sockaddr6 (host_to_network_short port_num) 0 (V6.to_bytes (ipv6_address_ addr)) (scope_id_ (ipv6_address_ addr)).
Definition endpoint_is_v4 (e : data_union) : bool := match e with Sockaddr4 _ _ => true | _ => false end.
Definition endpoint_size (e : data_union) : Z := if endpoint_is_v4 e then 16 else 28.
(** [sizeof(sockaddr_storage_type)] is [128]. *)
Definition resize (new_size : Z) : res unit :=
  if 128 <? new_size then Throw (system_error SocketOps.invalid_argument) else Ok tt.
Definition port (e : data_union) : Z :=
  match e with Sockaddr4 p _ => network_to_host_short p | Sockaddr6 p _ _ _ => network_to_host_short p end.
Definition set_port (port_num : Z) (e : data_union) : data_union :=
  match e with
  | Sockaddr4 _ a => Sockaddr4 (host_to_network_short port_num) a
  | Sockaddr6 _ f a s => Sockaddr6 (host_to_network_short port_num) f a s
  end.
Definition endpoint_address (e : data_union) : address :=
  match e with
  | Sockaddr4 _ a => of_v4 (V4.of_uint (network_to_host_long a))
  | Sockaddr6 _ _ a s => of_v6 (V6.of_bytes a s)
  end.
Definition set_address (addr : address) (e : data_union) : data_union := endpoint_of addr (port e).
Definition endpoint_equal (e1 e2 : data_union) : bool :=
  equal (endpoint_address e1) (endpoint_address e2) && (port e1 =? port e2).
Definition endpoint_less (e1 e2 : data_union) : bool :=
  if less (endpoint_address e1) (endpoint_address e2) then true
  else if negb (equal (endpoint_address e1) (endpoint_address e2)) then false
  else port e1 <? port e2.
Definition endpoint_text (e : data_union) : res string :=
  let? a := to_text (endpoint_address e) in
  Ok ((if endpoint_is_v4 e then a else "[" +:+ a +:+ "]") +:+ ":" +:+ to_string (port e)).
End address.

(** ** [ssl::host_name_verification] *)

(** The certificate of a verification under way. *)
Class VerifyContext := {
  error_depth : Z;
  check_ip_asc : string -> Z;
  check_host : string -> Z;
}.

Definition host_name_verification `{AddressSystem} `{VerifyContext} (host_ : string) (preverified : bool) : bool :=
  if negb preverified then false
  else if 0 <? error_depth then true
  else
    let '(_, ec) := make_ec (c_str host_) in
    if negb (ec_set ec) then check_ip_asc (c_str host_) =? 1 else check_host host_ =? 1.

(** ** Memory and networks *)

Definition wf_bytes (n : nat) (b : list Z) : Prop := length b = n /\ Forall (fun x => 0 <= x < 256) b.

Lemma le_bytes_wf n x : wf_bytes n (le_bytes n x).
Proof.
  split.
  - revert x. induction n as [|n IH]; intros x; cbn; [done|]. by rewrite IH.
  - revert x. induction n as [|n IH]; intros x; cbn; [done|]. constructor; [apply Z.mod_pos_bound; lia|apply IH].
Qed.
Lemma wf_rev n b : wf_bytes n b -> wf_bytes n (rev b).
Proof. intros [Hl Hb]. split; [by rewrite length_rev|]. by apply Forall_rev. Qed.
Lemma of_le_bytes n x : 0 <= x < 256 ^ Z.of_nat n -> of_le (le_bytes n x) = x.
Proof.
  revert x. induction n as [|n IH]; intros x Hx; cbn [le_bytes of_le]; [cbn in Hx; lia|].
  rewrite Nat2Z.inj_succ, Z.pow_succ_r in Hx by lia.
  rewrite IH; [pose proof (Z.div_mod x 256); lia|].
  split; [apply Z.div_pos; lia|]. apply Z.div_lt_upper_bound; lia.
Qed.
Lemma of_le_range n b : wf_bytes n b -> 0 <= of_le b < 256 ^ Z.of_nat n.
Proof.
  intros [Hl Hb]. revert n Hl. induction Hb as [|x b Hx Hb IH]; intros n Hl; subst n; cbn [length of_le]; [cbn; lia|].
  specialize (IH _ eq_refl). rewrite Nat2Z.inj_succ, Z.pow_succ_r by lia. lia.
Qed.
Lemma le_bytes_of n b : wf_bytes n b -> le_bytes n (of_le b) = b.
Proof.
  intros [Hl Hb]. revert n Hl. induction Hb as [|x b Hx Hb IH]; intros n Hl; subst n; cbn [length of_le le_bytes]; [done|].
  rewrite (Z.mul_comm 256), Z.mod_add, Z.div_add, Z.mod_small, Z.div_small, Z.add_0_l, IH by (done || lia). done.
Qed.
Lemma of_le_app a b : of_le (a ++ b) = of_le a + 256 ^ Z.of_nat (length a) * of_le b.
Proof.
  induction a as [|x a IH]; cbn [app of_le length]; [lia|]. rewrite IH, Nat2Z.inj_succ, Z.pow_succ_r by lia. lia.
Qed.

(** The value of bytes in network order. *)
Definition of_be (b : list Z) : Z := of_le (rev b).
Arguments of_be _ : simpl never.

Lemma of_be_cons x b : of_be (x :: b) = of_be b + 256 ^ Z.of_nat (length b) * x.
Proof. unfold of_be. cbn [rev]. rewrite of_le_app, length_rev. cbn [of_le]. lia. Qed.
Lemma of_be_range n b : wf_bytes n b -> 0 <= of_be b < 256 ^ Z.of_nat n.
Proof. intros Hb. by apply of_le_range, wf_rev. Qed.
Lemma of_be_inj n a b : wf_bytes n a -> wf_bytes n b -> of_be a = of_be b -> a = b.
Proof.
  intros Ha Hb He. apply (f_equal (le_bytes n)) in He. unfold of_be in He. rewrite !le_bytes_of in He by by apply wf_rev.
  by rewrite <- (rev_involutive a), He, rev_involutive.
Qed.
(** [memcmp] compares in network order. *)
Lemma memcmp_be n a b : wf_bytes n a -> wf_bytes n b -> memcmp a b = (of_be a ?= of_be b).
Proof.
  revert a b. induction n as [|n IH]; intros [|x a] [|y b] [Hla Ha] [Hlb Hb]; try done.
  injection Hla as Hla. injection Hlb as Hlb. inversion Ha as [|? ? Hx Ha']. inversion Hb as [|? ? Hy Hb']. subst.
  assert (wf_bytes (length a) a) as Hwa by done. assert (wf_bytes (length a) b) as Hwb by by split.
  pose proof (of_be_range _ _ Hwa) as Hra. pose proof (of_be_range _ _ Hwb) as Hrb.
  cbn [memcmp]. rewrite !of_be_cons, Hlb, (IH a b Hwa Hwb). set (p := 256 ^ Z.of_nat (length a)) in *.
  destruct (Z.compare_spec x y) as [->|Hlt|Hgt]; symmetry.
  - destruct (Z.compare_spec (of_be a) (of_be b)); [apply Z.compare_eq_iff|apply Z.compare_lt_iff|apply Z.compare_gt_iff]; lia.
  - apply Z.compare_lt_iff. nia.
  - apply Z.compare_gt_iff. nia.
Qed.

Section networks.
  Context `{AddressSystem}.

Lemma of_to_memory n x : 0 <= x < 256 ^ Z.of_nat n -> of_memory (to_memory n x) = x.
Proof. intros Hx. unfold of_memory, to_memory. destruct little_endian; rewrite ?rev_involutive; by apply of_le_bytes. Qed.
Lemma to_of_memory n b : wf_bytes n b -> to_memory n (of_memory b) = b.
Proof.
  intros Hb. unfold of_memory, to_memory. destruct little_endian; rewrite le_bytes_of; rewrite ?rev_involutive; try done. by apply wf_rev.
Qed.
Lemma to_memory_wf n x : wf_bytes n (to_memory n x).
Proof. unfold to_memory. destruct little_endian; [|apply wf_rev]; apply le_bytes_wf. Qed.
Lemma of_memory_range n b : wf_bytes n b -> 0 <= of_memory b < 256 ^ Z.of_nat n.
Proof. intros Hb. unfold of_memory. destruct little_endian; [|apply wf_rev in Hb]; by apply of_le_range. Qed.
(** An integer in network order lies in memory with the most significant byte first,
    whatever the order of the machine. *)
Lemma network_memory n x : to_memory n (host_to_network n x) = rev (le_bytes n x).
Proof. apply to_of_memory, wf_rev, le_bytes_wf. Qed.
Lemma network_to_host_network n x : 0 <= x < 256 ^ Z.of_nat n -> network_to_host n (host_to_network n x) = x.
Proof. intros Hx. unfold network_to_host. by rewrite network_memory, rev_involutive, of_le_bytes. Qed.
Lemma host_to_network_host n x : 0 <= x < 256 ^ Z.of_nat n -> host_to_network n (network_to_host n x) = x.
Proof.
  intros Hx. unfold host_to_network, network_to_host. rewrite le_bytes_of by apply wf_rev, to_memory_wf.
  by rewrite rev_involutive, of_to_memory.
Qed.
Lemma host_to_network_range n x : 0 <= host_to_network n x < 256 ^ Z.of_nat n.
Proof. apply of_memory_range, wf_rev, le_bytes_wf. Qed.
Lemma network_to_host_range n x : 0 <= network_to_host n x < 256 ^ Z.of_nat n.
Proof. apply of_le_range, wf_rev, to_memory_wf. Qed.
End networks.

(** ** Well-formed addresses *)

Definition u16 (x : Z) : Prop := 0 <= x < 2 ^ 16.
Definition u32 (x : Z) : Prop := 0 <= x < 2 ^ 32.
Definition wf_v4 (a : address_v4) : Prop := u32 (s_addr a).
Definition wf_v6 (a : address_v6) : Prop := wf_bytes 16 (s6_addr a) /\ u32 (scope_id_ a).
(** The member that is not meant is as new. *)
Record wf_address (a : address) : Prop := {
  wa_v4 : wf_v4 (ipv4_address_ a);
  wa_v6 : wf_v6 (ipv6_address_ a);
  wa_other : match type_ a with ipv4 => ipv6_address_ a = any_v6 | ipv6 => ipv4_address_ a = any_v4 end;
}.
Definition wf_endpoint (e : data_union) : Prop :=
  match e with
  | Sockaddr4 p a => u16 p /\ u32 a
  | Sockaddr6 p f a s => u16 p /\ u32 f /\ wf_bytes 16 a /\ u32 s
  end.

(** What the system promises of its conversions. *)
Class AddressSystemOk (S : AddressSystem) := {
  pton_bytes af s b : sys_inet_pton af s = Some b -> wf_bytes (match af with AF_INET => 4 | AF_INET6 => 16 end) b;
  nametoindex_range s : u32 (sys_if_nametoindex s);
}.

Section well_formed.
  Context `{S : AddressSystem}.

Lemma wf_any_v4 : wf_v4 any_v4.
Proof. unfold wf_v4, u32. cbn. lia. Qed.
Lemma wf_any_v6 : wf_v6 any_v6.
Proof. split; [|unfold u32; cbn; lia]. split; [done|]. cbn. repeat constructor; lia. Qed.
Lemma wf_of_v4 x : wf_v4 x -> wf_address (of_v4 x).
Proof. intros Hx. split; [done|apply wf_any_v6|done]. Qed.
Lemma wf_of_v6 x : wf_v6 x -> wf_address (of_v6 x).
Proof. intros Hx. split; [apply wf_any_v4|done|done]. Qed.
Lemma wf_no_address : wf_address no_address.
Proof. apply wf_of_v4, wf_any_v4. Qed.
Lemma wf_v4_bytes b : wf_bytes 4 b -> wf_v4 (V4.of_bytes b).
Proof. apply of_memory_range. Qed.
Lemma wf_v4_uint n : wf_v4 (V4.of_uint n).
Proof. apply (host_to_network_range 4). Qed.
Lemma v4_make_eq s : V4.make s =
  match sys_inet_pton AF_INET s with Some b => (V4.of_bytes b, None) | None => (any_v4, Some SocketOps.invalid_argument) end.
Proof. unfold V4.make, inet_pton. rewrite bool_decide_false by done. by destruct (sys_inet_pton AF_INET s). Qed.
Lemma wf_v4_make `{!AddressSystemOk S} s : wf_v4 (V4.make s).1.
Proof.
  rewrite v4_make_eq. destruct (sys_inet_pton AF_INET s) as [b|] eqn:Hs; [|apply wf_any_v4].
  apply wf_v4_bytes. by apply (pton_bytes AF_INET s).
Qed.
Lemma wf_v6_make `{!AddressSystemOk S} s : wf_v6 (V6.make s).1.
Proof.
  unfold V6.make, inet_pton. rewrite bool_decide_true by done. destruct (split_percent s) as [a name]. destruct (match name with Some _ => _ | None => _ end); [apply wf_any_v6|].
  destruct (sys_inet_pton AF_INET6 a) as [b|] eqn:Hs; [|apply wf_any_v6]. split; [by apply (pton_bytes AF_INET6 a)|].
  apply Z.mod_pos_bound. lia.
Qed.
Lemma wf_make_ec `{!AddressSystemOk S} s : wf_address (make_ec s).1.
Proof.
  unfold make_ec. pose proof (wf_v6_make s) as H6. destruct (V6.make s) as [v6 ec]. destruct (negb (ec_set ec)); [by apply wf_of_v6|].
  pose proof (wf_v4_make s) as H4. destruct (V4.make s) as [v4 ec']. destruct (negb (ec_set ec')); [by apply wf_of_v4|apply wf_no_address].
Qed.
Lemma wf_make_address `{!AddressSystemOk S} s a : make_address s = Ok a -> wf_address a.
Proof. unfold make_address. pose proof (wf_make_ec (c_str s)) as Hw. destruct (make_ec (c_str s)) as [b [e|]]; [done|]. by intros [= <-]. Qed.
Lemma wf_endpoint_address e : wf_endpoint e -> wf_address (endpoint_address e).
Proof. destruct e as [p a|p f a s]; cbn; [intros _; apply wf_of_v4, wf_v4_uint|]. intros (_ & _ & Ha & Hs). by apply wf_of_v6. Qed.

(** *** Comparisons *)

Lemma v4_equal_spec a b : V4.equal a b = bool_decide (a = b).
Proof.
  unfold V4.equal. destruct a as [x], b as [y]. cbn. destruct (Z.eqb_spec x y) as [->|Hne]; [by rewrite bool_decide_true|].
  rewrite bool_decide_false; [done|]. by intros [=].
Qed.
Lemma v6_equal_spec a b : wf_v6 a -> wf_v6 b -> V6.equal a b = bool_decide (a = b).
Proof.
  intros [Ha _] [Hb _]. unfold V6.equal. rewrite (memcmp_be 16) by done.
  destruct a as [x s], b as [y t]. cbn in *. destruct (Z.compare_spec (of_be x) (of_be y)) as [He|Hlt|Hgt].
  - apply (of_be_inj 16) in He as ->; [|done..]. destruct (Z.eqb_spec s t) as [->|Hne]; [by rewrite bool_decide_true|].
    rewrite bool_decide_false; [done|]. by intros [=].
  - rewrite bool_decide_false; [done|]. intros [= -> _]. lia.
  - rewrite bool_decide_false; [done|]. intros [= -> _]. lia.
Qed.
Lemma equal_spec a b : wf_address a -> wf_address b -> equal a b = bool_decide (a = b).
Proof.
  intros [_ H6a Hoa] [_ H6b Hob]. unfold equal. destruct a as [[] x4 x6], b as [[] y4 y6]; cbn in *; subst.
  - rewrite v4_equal_spec. apply bool_decide_ext. split; [by intros ->|by intros [= ->]].
  - symmetry. by apply bool_decide_false.
  - symmetry. by apply bool_decide_false.
  - rewrite v6_equal_spec by done. apply bool_decide_ext. split; [by intros ->|by intros [= ->]].
Qed.

(** *** Objects of class [address] *)

(** What can become of an object: the constructors, the assignments, the parser, and the
    address of an endpoint. *)
Inductive built : address -> Prop :=
  | built_new : built no_address
  | built_v4 x : wf_v4 x -> built (of_v4 x)
  | built_v6 x : wf_v6 x -> built (of_v6 x)
  | built_assign other a : built other -> built a -> built (assign other a)
  | built_assign_v4 x a : wf_v4 x -> built a -> built (assign_v4 x a)
  | built_assign_v6 x a : wf_v6 x -> built a -> built (assign_v6 x a)
  | built_make s a : make_address s = Ok a -> built a
  | built_endpoint e : wf_endpoint e -> built (endpoint_address e).

Lemma built_wf `{!AddressSystemOk S} a : built a -> wf_address a.
Proof.
  induction 1; [apply wf_no_address|by apply wf_of_v4|by apply wf_of_v6| |by apply wf_of_v4|by apply wf_of_v6
    |by apply (wf_make_address s)|by apply wf_endpoint_address].
  by destruct other.
Qed.
Lemma is_v4_spec a : is_v4 a = match type_ a with ipv4 => true | ipv6 => false end.
Proof. unfold is_v4. by destruct (type_ a). Qed.
Lemma is_v6_spec a : is_v6 a = match type_ a with ipv4 => false | ipv6 => true end.
Proof. unfold is_v6. by destruct (type_ a). Qed.
Lemma to_v4_spec a : to_v4 a = match type_ a with ipv4 => Some (ipv4_address_ a) | ipv6 => None end.
Proof. unfold to_v4. by destruct (type_ a). Qed.
Lemma to_v6_spec a : to_v6 a = match type_ a with ipv4 => None | ipv6 => Some (ipv6_address_ a) end.
Proof. unfold to_v6. by destruct (type_ a). Qed.
End well_formed.

(** C37: an object of class [address] is well typed for all its life: whatever constructors,
    assignments, parses and endpoints made it, its numbers are in range, it is of exactly one
    kind, the member of the other kind is as new, and the conversion to a kind succeeds
    exactly for that kind - so [==], which looks only at the member that is meant, is
    equality of the objects, and of what they convert to. *)
Theorem address_well_typed `{S : AddressSystem, !AddressSystemOk S} (a b : address) : built a -> built b ->
  wf_address a /\ is_v6 a = negb (is_v4 a) /\ (is_Some (to_v4 a) <-> is_v4 a = true) /\ (is_Some (to_v6 a) <-> is_v6 a = true) /\
  (equal a b = true <-> a = b) /\ (a = b <-> to_v4 a = to_v4 b /\ to_v6 a = to_v6 b).
Proof.
  intros Ha%built_wf Hb%built_wf. rewrite !to_v4_spec, !to_v6_spec, is_v4_spec, is_v6_spec, equal_spec, bool_decide_eq_true by done.
  destruct Ha as [H4a H6a Ha], Hb as [_ _ Hb], a as [[] x4 x6], b as [[] y4 y6]; cbn in *; subst;
    (split; [by split|]); (split; [done|]); (split; [by split|]); (split; [by split|]); (split; [done|]);
    (split; [intros Heq; split; congruence|intros [? ?]; congruence]).
Qed.

(** ** Endpoints as the program sees them *)

#[export] Existing Instances Endpoint.ip_address_eq_dec Endpoint.endpoint_eq_dec.

Section abstraction.
  Context `{S : AddressSystem}.

Definition abs_address (a : address) : Endpoint.ip_address :=
  match type_ a with
  | ipv4 => Endpoint.address_v4 (V4.to_uint (ipv4_address_ a))
  | ipv6 => Endpoint.address_v6 (of_be (s6_addr (ipv6_address_ a))) (scope_id_ (ipv6_address_ a))
  end.
Definition conc_address (x : Endpoint.ip_address) : address :=
  match x with
  | Endpoint.address_v4 bits => of_v4 (V4.of_uint bits)
  | Endpoint.address_v6 bits scope => of_v6 (V6.of_bytes (rev (le_bytes 16 bits)) scope)
  end.
Definition abs_endpoint (e : data_union) : Endpoint.endpoint_t :=
  Endpoint.Endpoint (abs_address (endpoint_address e)) (port e).

(** The text conversions that [Endpoint] leaves to a class. *)
#[export] Instance asio_addresses : Endpoint.AddressText := {|
  Endpoint.make_address s := let? a := make_address s in Ok (abs_address a);
  Endpoint.address_to_string x := to_text (conc_address x);
|}.

(** The order of addresses: first the kind, then the number, then the scope. *)
Definition spec_less (x y : Endpoint.ip_address) : bool :=
  match x, y with
  | Endpoint.address_v4 m, Endpoint.address_v4 n => m <? n
  | Endpoint.address_v4 _, Endpoint.address_v6 _ _ => true
  | Endpoint.address_v6 _ _, Endpoint.address_v4 _ => false
  | Endpoint.address_v6 m s, Endpoint.address_v6 n t => (m <? n) || ((m =? n) && (s <? t))
  end.
Definition spec_endpoint_less (x y : Endpoint.endpoint_t) : bool :=
  spec_less (Endpoint.ep_address x) (Endpoint.ep_address y) ||
  (bool_decide (Endpoint.ep_address x = Endpoint.ep_address y) && (Endpoint.ep_port x <? Endpoint.ep_port y)).

Lemma v4_uint_inj a b : wf_v4 a -> wf_v4 b -> V4.to_uint a = V4.to_uint b -> a = b.
Proof.
  intros Ha Hb He. apply (f_equal host_to_network_long) in He. unfold V4.to_uint, host_to_network_long, network_to_host_long in He.
  rewrite !(host_to_network_host 4) in He by done. destruct a, b. cbn in He. by rewrite He.
Qed.
Lemma v4_of_to_uint a : wf_v4 a -> V4.of_uint (V4.to_uint a) = a.
Proof.
  intros Ha. destruct a as [n]. unfold V4.of_uint, V4.to_uint, host_to_network_long, network_to_host_long. cbn [s_addr].
  by rewrite (host_to_network_host 4).
Qed.
Lemma abs_inj a b : wf_address a -> wf_address b -> abs_address a = abs_address b -> a = b.
Proof.
  intros [H4a [H6a _] Ha] [H4b [H6b _] Hb]. destruct a as [[] x4 [x6 s]], b as [[] y4 [y6 t]]; cbn [type_ ipv4_address_ ipv6_address_ s6_addr scope_id_] in *; unfold abs_address;
    cbn [type_ ipv4_address_ ipv6_address_ s6_addr scope_id_]; try by intros [=].
  - intros [= He]. apply v4_uint_inj in He; [congruence|done..].
  - intros [= He Hs]. apply (of_be_inj 16) in He; [congruence|done..].
Qed.
Lemma conc_abs a : wf_address a -> conc_address (abs_address a) = a.
Proof.
  intros [H4 [H6 _] Ha]. destruct a as [[] x4 x6]; unfold abs_address; cbn [type_ ipv4_address_ ipv6_address_ conc_address] in *; rewrite Ha.
  - unfold of_v4. by rewrite v4_of_to_uint.
  - unfold of_v6, V6.of_bytes, of_be. rewrite le_bytes_of, rev_involutive by by apply wf_rev. by destruct x6.
Qed.
Lemma equal_abs a b : wf_address a -> wf_address b -> equal a b = bool_decide (abs_address a = abs_address b).
Proof.
  intros Ha Hb. rewrite equal_spec by done. apply bool_decide_ext. split; [by intros ->|by apply abs_inj].
Qed.
Lemma less_abs a b : wf_address a -> wf_address b -> less a b = spec_less (abs_address a) (abs_address b).
Proof.
  intros [_ [H6a _] _] [_ [H6b _] _]. unfold less, abs_address. destruct a as [[] x4 [x6 s]], b as [[] y4 [y6 t]]; cbn in *; try done.
  unfold V6.less. cbn. rewrite (memcmp_be 16) by done. destruct (Z.compare_spec (of_be x6) (of_be y6)) as [->|Hlt|Hgt].
  - by rewrite Z.ltb_irrefl, Z.eqb_refl.
  - by apply Z.ltb_lt in Hlt as ->.
  - destruct (Z.ltb_spec (of_be x6) (of_be y6)); [lia|]. destruct (Z.eqb_spec (of_be x6) (of_be y6)); [lia|done].
Qed.

Lemma endpoint_of_wf a p : wf_address a -> wf_endpoint (endpoint_of a p).
Proof.
  intros [_ [H6 Hs] _]. unfold endpoint_of. destruct (is_v4 a); cbn.
  - split; [apply (host_to_network_range 2)|apply (host_to_network_range 4)].
  - split_and!; [apply (host_to_network_range 2)|unfold u32; lia|done..].
Qed.
Lemma endpoint_of_abs a p : wf_address a -> u16 p -> abs_endpoint (endpoint_of a p) = Endpoint.Endpoint (abs_address a) p.
Proof.
  intros [H4 _ Ha] Hp. unfold endpoint_of. rewrite is_v4_spec. destruct a as [[] x4 [x6 s]]; cbn in Ha; subst; unfold abs_endpoint; cbn.
  - f_equal; [|by apply (network_to_host_network 2)]. unfold abs_address; cbn. f_equal.
    unfold V4.to_uint at 1; cbn. unfold host_to_network_long, network_to_host_long.
    rewrite !(network_to_host_network 4); [done|apply (network_to_host_range 4)..].
  - f_equal; by apply (network_to_host_network 2).
Qed.
Lemma set_port_wf p e : wf_endpoint e -> wf_endpoint (set_port p e).
Proof. destruct e; cbn; intros He; destruct_and?; split_and?; try done; apply (host_to_network_range 2). Qed.
Lemma set_port_abs p e : u16 p -> abs_endpoint (set_port p e) = Endpoint.Endpoint (Endpoint.ep_address (abs_endpoint e)) p.
Proof. intros Hp. destruct e; unfold abs_endpoint; cbn; f_equal; by apply (network_to_host_network 2). Qed.
Lemma port_range e : u16 (port e).
Proof. destruct e; apply (network_to_host_range 2). Qed.
Lemma endpoint_of_family_abs af p : u16 p ->
  abs_endpoint (endpoint_of_family af p) = Endpoint.Endpoint (match af with AF_INET => Endpoint.any_v4 | AF_INET6 => Endpoint.any_v6 end) p.
Proof.
  intros Hp. destruct af; unfold abs_endpoint; cbn; [|f_equal; by apply (network_to_host_network 2)].
  f_equal; [|by apply (network_to_host_network 2)]. unfold abs_address, Endpoint.any_v4; cbn. f_equal. unfold V4.to_uint; cbn.
  unfold host_to_network_long, network_to_host_long. rewrite (network_to_host_network 4) by apply (network_to_host_range 4).
  unfold network_to_host, to_memory. by destruct little_endian.
Qed.
End abstraction.

(** C36: a socket address in network order is the endpoint the program means, on a machine of
    either byte order: building one from an address and a port, or from a family, and
    changing its port or its address, do to the bytes what they say of the endpoint; the
    accessors read it back; [==] is equality of endpoints, and [<] orders them by kind,
    number, scope and port. *)
Theorem endpoint_refines `{S : AddressSystem} (a : address) (p : Z) (af : family) (e e' : data_union) :
  wf_address a -> u16 p -> wf_endpoint e -> wf_endpoint e' ->
  (abs_endpoint (endpoint_of a p) = Endpoint.Endpoint (abs_address a) p /\ wf_endpoint (endpoint_of a p)) /\
  abs_endpoint (endpoint_of_family af p) = Endpoint.Endpoint (match af with AF_INET => Endpoint.any_v4 | AF_INET6 => Endpoint.any_v6 end) p /\
  (abs_endpoint (set_port p e) = Endpoint.Endpoint (Endpoint.ep_address (abs_endpoint e)) p /\ wf_endpoint (set_port p e)) /\
  (abs_endpoint (set_address a e) = Endpoint.Endpoint (abs_address a) (Endpoint.ep_port (abs_endpoint e)) /\ wf_endpoint (set_address a e)) /\
  (endpoint_address (endpoint_of a p) = a /\ port (endpoint_of a p) = p) /\
  endpoint_equal e e' = bool_decide (abs_endpoint e = abs_endpoint e') /\
  endpoint_less e e' = spec_endpoint_less (abs_endpoint e) (abs_endpoint e').
Proof.
  intros Ha Hp He He'. pose proof (wf_endpoint_address e He) as Hae. pose proof (wf_endpoint_address e' He') as Hae'.
  assert (abs_endpoint (endpoint_of a p) = Endpoint.Endpoint (abs_address a) p) as Hof by by apply endpoint_of_abs.
  assert (wf_endpoint (endpoint_of a p)) as Hwf by by apply endpoint_of_wf.
  split_and!; [done|done|by apply endpoint_of_family_abs|by apply set_port_abs|by apply set_port_wf
    |apply endpoint_of_abs; [done|apply port_range]|by apply endpoint_of_wf| | | |].
  - injection Hof as Hof _. apply abs_inj; [by apply wf_endpoint_address|done|exact Hof].
  - by injection Hof.
  - unfold endpoint_equal. rewrite equal_abs by done. apply eq_bool_prop_intro.
    rewrite andb_True, !bool_decide_spec, Is_true_true, Z.eqb_eq. unfold abs_endpoint. split; [by intros [-> ->]|by intros [= -> ->]].
  - unfold endpoint_less, spec_endpoint_less. rewrite less_abs, equal_abs by done. cbn.
    destruct (spec_less _ _); [done|]. by destruct (bool_decide _).
Qed.

(** ** Text *)

Fixpoint free_of (c : Ascii.ascii) (s : string) : bool :=
  match s with EmptyString => true | String d s => negb (Ascii.eqb d c) && free_of c s end.
Definition NUL : Ascii.ascii := Ascii.ascii_of_nat 0.

Lemma free_of_app c s t : free_of c (s +:+ t) = free_of c s && free_of c t.
Proof. induction s as [|d s IH]; [done|]. rewrite string_app_cons. cbn. by rewrite IH, andb_assoc. Qed.
Lemma c_str_id s : free_of NUL s = true -> c_str s = s.
Proof.
  induction s as [|d s IH]; [done|]. cbn. change (Ascii.ascii_of_nat 0) with NUL. intros [Hd Hs]%andb_prop.
  apply negb_true_iff in Hd. by rewrite Hd, IH.
Qed.
Lemma split_percent_plain s : free_of "%" s = true -> split_percent s = (s, None).
Proof. induction s as [|d s IH]; [done|]. cbn. intros [Hd Hs]%andb_prop. apply negb_true_iff in Hd. by rewrite Hd, IH. Qed.
Lemma split_percent_app s t : free_of "%" s = true -> split_percent (s +:+ String "%" t) = (s, Some t).
Proof.
  induction s as [|d s IH]; [done|]. rewrite string_app_cons. cbn. intros [Hd Hs]%andb_prop. apply negb_true_iff in Hd. by rewrite Hd, IH.
Qed.

Definition digit (d : Z) : Ascii.ascii := Ascii.ascii_of_nat (Z.to_nat d + 48).

Lemma digit_code d : 0 <= d < 10 -> Z.of_nat (Ascii.nat_of_ascii (digit d)) = d + 48.
Proof. intros Hd. unfold digit. rewrite Ascii.nat_ascii_embedding by lia. lia. Qed.
Lemma digit_val d : 0 <= d < 10 -> dec_val (digit d) = Some d.
Proof.
  intros Hd. unfold dec_val. rewrite digit_code by done. destruct (Z.leb_spec 48 (d + 48)), (Z.leb_spec (d + 48) 57); try lia. cbn. f_equal. lia.
Qed.
Lemma dec_digits_S fuel n acc : dec_digits (S fuel) n acc =
  if n / 10 =? 0 then String (digit (n `mod` 10)) acc else dec_digits fuel (n / 10) (String (digit (n `mod` 10)) acc).
Proof. done. Qed.

(** Decimal digits read back, in front of anything. *)
Lemma dec_run_digits fuel n acc : 0 <= n < 10 ^ Z.of_nat fuel -> (0 < fuel)%nat -> forall a, exists k,
  dec_run (dec_digits fuel n acc) a = dec_run acc (10 ^ k * a + n) /\ 0 <= k.
Proof.
  revert n acc. induction fuel as [|fuel IH]; intros n acc Hn Hf a; [lia|]. rewrite dec_digits_S.
  pose proof (Z.mod_pos_bound n 10 ltac:(lia)) as Hm. pose proof (Z.div_mod n 10 ltac:(lia)) as Hdm.
  destruct (Z.eqb_spec (n / 10) 0) as [Hz|Hnz].
  - exists 1. cbn [dec_run]. rewrite digit_val by done. split; [f_equal; lia|lia].
  - rewrite Nat2Z.inj_succ, Z.pow_succ_r in Hn by lia.
    assert (0 <= n / 10 < 10 ^ Z.of_nat fuel) as Hq by (split; [apply Z.div_pos; lia|apply Z.div_lt_upper_bound; lia]).
    assert (0 < fuel)%nat as Hf'. { destruct fuel; [cbn in Hq; lia|lia]. }
    destruct (IH (n / 10) (String (digit (n `mod` 10)) acc) Hq Hf' a) as (k & -> & Hk). exists (k + 1).
    cbn [dec_run]. rewrite digit_val by done. split; [|lia]. f_equal. rewrite Z.pow_add_r by lia. lia.
Qed.
Lemma dec_digits_length fuel k n acc : 0 <= n < 10 ^ Z.of_nat k -> (0 < k)%nat ->
  (String.length (dec_digits fuel n acc) <= k + String.length acc)%nat.
Proof.
  revert k n acc. induction fuel as [|fuel IH]; intros k n acc Hn Hk; [cbn; lia|]. rewrite dec_digits_S.
  destruct (Z.eqb_spec (n / 10) 0) as [Hz|Hnz]; [cbn; lia|]. destruct k as [|k]; [lia|].
  rewrite Nat2Z.inj_succ, Z.pow_succ_r in Hn by lia.
  assert (0 <= n / 10 < 10 ^ Z.of_nat k) as Hq by (split; [apply Z.div_pos; lia|apply Z.div_lt_upper_bound; lia]).
  assert (0 < k)%nat as Hk'. { destruct k; [cbn in Hq; lia|lia]. }
  specialize (IH k (n / 10) (String (digit (n `mod` 10)) acc) Hq Hk'). cbn in IH. lia.
Qed.
Lemma dec_digits_free c fuel n acc : (forall d, 0 <= d < 10 -> digit d <> c) -> free_of c acc = true -> free_of c (dec_digits fuel n acc) = true.
Proof.
  intros Hc. revert n acc. induction fuel as [|fuel IH]; intros n acc Hacc; [done|]. rewrite dec_digits_S.
  assert (free_of c (String (digit (n `mod` 10)) acc) = true) as Hd.
  { cbn. rewrite Hacc, andb_true_r. apply negb_true_iff, Ascii.eqb_neq, Hc, Z.mod_pos_bound. lia. }
  destruct (_ =? 0); [done|]. by apply IH.
Qed.
(** The first character is a digit. *)
Lemma dec_digits_head fuel n acc : (0 < fuel)%nat -> exists d s, 0 <= d < 10 /\ dec_digits fuel n acc = String (digit d) s.
Proof.
  revert n acc. induction fuel as [|fuel IH]; intros n acc Hf; [lia|]. rewrite dec_digits_S.
  pose proof (Z.mod_pos_bound n 10 ltac:(lia)) as Hm.
  destruct (_ =? 0); [by exists (n `mod` 10), acc|]. destruct fuel as [|fuel]; [by exists (n `mod` 10), acc|]. apply IH. lia.
Qed.
Lemma digit_other d c : 0 <= d < 10 -> ~ (48 <= Z.of_nat (Ascii.nat_of_ascii c) <= 57) -> digit d <> c.
Proof. intros Hd Hc <-. apply Hc. rewrite digit_code by done. lia. Qed.
Lemma skip_space_digit d s : 0 <= d < 10 -> take_sign (skip_space (String (digit d) s)) = (false, String (digit d) s).
Proof.
  intros Hd. assert (is_space (digit d) = false) as Hs.
  { unfold is_space. pose proof (digit_code d Hd) as Hc. set (n := Ascii.nat_of_ascii (digit d)) in *.
    destruct (Nat.leb_spec 9 n), (Nat.leb_spec n 13), (Nat.eqb_spec n 32); try lia; done. }
  cbn [skip_space]. rewrite Hs.
  destruct (decide (d = 0)) as [->|]; [done|]. destruct (decide (d = 1)) as [->|]; [done|]. destruct (decide (d = 2)) as [->|]; [done|].
  destruct (decide (d = 3)) as [->|]; [done|]. destruct (decide (d = 4)) as [->|]; [done|]. destruct (decide (d = 5)) as [->|]; [done|].
  destruct (decide (d = 6)) as [->|]; [done|]. destruct (decide (d = 7)) as [->|]; [done|]. destruct (decide (d = 8)) as [->|]; [done|].
  assert (d = 9) as -> by lia. done.
Qed.
Lemma scope_digits_length n : u32 n -> (String.length (to_string n) <= 10)%nat.
Proof.
  unfold u32. intros Hn. apply (dec_digits_length 20 10 n ""); [|lia]. change (10 ^ Z.of_nat 10) with 10000000000. lia.
Qed.
Lemma scope_digits_eq n : u32 n -> scope_digits n = to_string n.
Proof. intros Hn. unfold scope_digits. apply substring_0. pose proof (scope_digits_length n Hn). lia. Qed.
(** [atoi] reads what [snprintf] wrote; above [INT_MAX] it wraps, and so does the scope. *)
Lemma atoi_to_string n : u32 n -> (atoi (to_string n) `mod` 2 ^ 64) `mod` 2 ^ 32 = n.
Proof.
  intros Hn. unfold u32 in Hn. unfold atoi, to_string. destruct (dec_digits_head 20 n "" ltac:(lia)) as (d & s & Hd & Heq).
  rewrite Heq, skip_space_digit, <- Heq by done.
  destruct (dec_run_digits 20 n "" ltac:(lia) ltac:(lia) 0) as (k & -> & _). cbn [dec_run]. rewrite Z.mul_0_r, Z.add_0_l.
  rewrite Z.min_r, Z.max_r by lia. unfold to_int.
  rewrite <- Znumtheory.Zmod_div_mod by (lia || (exists (2 ^ 32); lia)).
  rewrite Zminus_mod_idemp_l. replace (n + 2 ^ 31 - 2 ^ 31) with n by lia. by apply Z.mod_small.
Qed.

(** What the system documents of the texts: an address reads back; texts hold no ['%'] and
    no NUL and fit where they are written; the text of an IPv4 address is not that of an
    IPv6 address; the name of an interface leads back to it. *)
Class AddressTextOk (S : AddressSystem) := {
  text_system_ok :: AddressSystemOk S;
  ntop_pton af b len s : sys_inet_ntop af b len = inl s -> sys_inet_pton af s = Some b;
  ntop_plain af b len s : sys_inet_ntop af b len = inl s -> free_of NUL s = true /\ free_of "%" s = true;
  ntop_length af b len s : sys_inet_ntop af b len = inl s ->
    Z.of_nat (String.length s) < match af with AF_INET => 16 | AF_INET6 => 46 end;
  ntop_families b len s : sys_inet_ntop AF_INET b len = inl s -> sys_inet_pton AF_INET6 s = None;
  ifname_index i name : sys_if_indextoname i = Some name ->
    sys_if_nametoindex name = i /\ free_of NUL name = true /\ Z.of_nat (String.length name) < 16;
}.

Section round_trip.
  Context `{S : AddressSystem, !AddressTextOk S}.

(** No interface bears the number of the scope as its name. *)
Definition unnamed (a : address_v6) : Prop :=
  linked (s6_addr a) = true -> sys_if_indextoname (scope_id_ a) = None -> sys_if_nametoindex (to_string (scope_id_ a)) = 0.

Lemma digits_plain n : free_of NUL (to_string n) = true.
Proof. apply dec_digits_free; [|done]. intros d Hd. apply digit_other; [done|]. change (Z.of_nat (Ascii.nat_of_ascii NUL)) with 0. lia. Qed.
Lemma scope_name_plain b n : u32 n -> free_of NUL (scope_name b n) = true /\ Z.of_nat (String.length (scope_name b n)) < 16.
Proof.
  intros Hn. unfold scope_name. rewrite scope_digits_eq by done. pose proof (scope_digits_length n Hn) as Hl. pose proof (digits_plain n) as Hd.
  destruct (linked b); [|split; [done|lia]]. destruct (sys_if_indextoname n) as [name|] eqn:Hname; [|split; [done|lia]].
  by destruct (ifname_index n name Hname) as (_ & ? & ?).
Qed.
(** The scope reads back. *)
Lemma scope_reads a : u32 (scope_id_ a) -> scope_id_ a <> 0 -> unnamed a ->
  scope_index (s6_addr a) (scope_name (s6_addr a) (scope_id_ a)) `mod` 2 ^ 32 = scope_id_ a.
Proof.
  intros Hs Hnz Hun. unfold scope_index, scope_name, unnamed in *. rewrite scope_digits_eq by done.
  destruct (linked (s6_addr a)); [|by rewrite Z.eqb_refl, atoi_to_string].
  destruct (sys_if_indextoname (scope_id_ a)) as [name|] eqn:Hname.
  - destruct (ifname_index _ _ Hname) as (-> & _ & _). destruct (Z.eqb_spec (scope_id_ a) 0); [done|]. by apply Z.mod_small.
  - by rewrite Hun, Z.eqb_refl, atoi_to_string.
Qed.
Lemma v6_reads a s : wf_v6 a -> unnamed a -> V6.to_text a = Ok s ->
  V6.make s = (a, None) /\ free_of NUL s = true /\ Z.of_nat (String.length s) < max_addr_v6_str_len.
Proof.
  intros [Hb Hs] Hun. unfold V6.to_text, inet_ntop, V6.to_bytes. rewrite bool_decide_true by done.
  destruct (sys_inet_ntop AF_INET6 (s6_addr a) max_addr_v6_str_len) as [t|e] eqn:Ht; [|done].
  destruct (ntop_plain _ _ _ _ Ht) as [Hnul Hpct]. pose proof (ntop_length _ _ _ _ Ht) as Hlen.
  apply ntop_pton in Ht. unfold V6.make, inet_pton. rewrite bool_decide_true by done.
  destruct (Z.eqb_spec (scope_id_ a) 0) as [Hz|Hnz]; cbn [andb negb]; intros [= <-].
  - rewrite split_percent_plain, Ht by done. unfold V6.of_bytes. rewrite Z.mod_0_l by lia.
    split; [|split; [done|unfold max_addr_v6_str_len; lia]]. destruct a as [b sc]. cbn in *. by rewrite Hz.
  - rewrite split_percent_app by done. destruct (Z.ltb_spec max_addr_v6_str_len (Z.of_nat (String.length t))) as [Hlt|_]; [unfold max_addr_v6_str_len in Hlt; lia|].
    rewrite Ht, scope_reads by done. destruct (scope_name_plain (s6_addr a) (scope_id_ a) Hs) as [Hn Hl].
    split; [by destruct a|]. split; [by rewrite free_of_app, Hnul|]. rewrite string_length_app. cbn [String.length]. unfold max_addr_v6_str_len. lia.
Qed.
Lemma v4_reads a s : wf_v4 a -> V4.to_text a = Ok s ->
  V6.make s = (any_v6, Some SocketOps.invalid_argument) /\ V4.make s = (a, None) /\ free_of NUL s = true /\
  Z.of_nat (String.length s) < max_addr_v4_str_len.
Proof.
  intros Ha. unfold V4.to_text, inet_ntop. rewrite bool_decide_false by done. cbn [andb].
  destruct (sys_inet_ntop AF_INET (V4.to_bytes a) max_addr_v4_str_len) as [t|e] eqn:Ht; [|done]. intros [= <-].
  destruct (ntop_plain _ _ _ _ Ht) as [Hnul Hpct]. pose proof (ntop_length _ _ _ _ Ht) as Hlen. pose proof (ntop_families _ _ _ Ht) as H6.
  apply ntop_pton in Ht. split_and!; [| |done|done].
  - unfold V6.make, inet_pton. by rewrite bool_decide_true, split_percent_plain, H6 by done.
  - rewrite v4_make_eq, Ht. unfold V4.of_bytes, V4.to_bytes. rewrite of_to_memory by done. by destruct a.
Qed.
Lemma address_text_reads a s : wf_address a -> unnamed (ipv6_address_ a) -> to_text a = Ok s ->
  make_ec s = (a, None) /\ free_of NUL s = true /\
  Z.of_nat (String.length s) < match type_ a with ipv4 => max_addr_v4_str_len | ipv6 => max_addr_v6_str_len end.
Proof.
  intros [H4 H6 Ho] Hun Hs. unfold to_text in Hs. unfold make_ec. destruct a as [[] x4 x6]; cbn [type_ ipv4_address_ ipv6_address_] in *; subst.
  - rewrite bool_decide_false in Hs by done. by destruct (v4_reads x4 s H4 Hs) as (-> & -> & Hn & Hl).
  - rewrite bool_decide_true in Hs by done. by destruct (v6_reads x6 s H6 Hun Hs) as (-> & Hn & Hl).
Qed.
End round_trip.

(** The text of an address reads back as the address, scope and interface name included,
    unless an interface bears the number of an unknown scope as its name; the text never
    outgrows the buffer that [to_string] writes it into, so what a script gets from
    [ep.address] and gives to [endpoint] is the same address. *)
Theorem address_text_round_trip `{S : AddressSystem, !AddressTextOk S} (a : address) (s : string) :
  wf_address a -> unnamed (ipv6_address_ a) -> to_text a = Ok s ->
  make_address s = Ok a /\
  Z.of_nat (String.length s) < match type_ a with ipv4 => max_addr_v4_str_len | ipv6 => max_addr_v6_str_len end /\
  @Endpoint.address_to_string asio_addresses (abs_address a) = Ok s /\
  @Endpoint.make_address asio_addresses s = Ok (abs_address a).
Proof.
  intros Ha Hun Hs. cbn [Endpoint.address_to_string Endpoint.make_address asio_addresses]. rewrite conc_abs by done.
  destruct (address_text_reads a s Ha Hun Hs) as (Hm & Hn & Hl).
  assert (make_address s = Ok a) as -> by (unfold make_address; by rewrite c_str_id, Hm). done.
Qed.

(** A host that is the text of an address is looked up among the addresses of the
    certificate, never among its names; anything the parser refuses, among its names; and a
    certificate that did not verify is never accepted. *)
Lemma host_of_address `{S : AddressSystem, !AddressTextOk S, VerifyContext} (a : address) (host : string) (preverified : bool) :
  wf_address a -> unnamed (ipv6_address_ a) -> to_text a = Ok host ->
  host_name_verification host preverified = preverified && ((0 <? error_depth) || (check_ip_asc host =? 1)).
Proof.
  intros Ha Hun Hs. destruct (address_text_reads a host Ha Hun Hs) as (Hm & Hn & _).
  unfold host_name_verification. rewrite c_str_id, Hm by done. destruct preverified; [|done]. by destruct (0 <? error_depth).
Qed.
Lemma host_of_name `{S : AddressSystem, VerifyContext} (host : string) (preverified : bool) : ec_set (make_ec (c_str host)).2 = true ->
  host_name_verification host preverified = preverified && ((0 <? error_depth) || (check_host host =? 1)).
Proof.
  unfold host_name_verification. destruct (make_ec (c_str host)) as [a ec]. cbn [snd]. intros ->. destruct preverified; [|done].
  by destruct (0 <? error_depth).
Qed.

(** ** An example system *)

Definition lab_v4 : list Z := [127; 0; 0; 1].
Definition lab_v6 : list Z := [254; 128] ++ replicate 13 0 ++ [1].
#[local] Instance lab_system : AddressSystem := {|
  little_endian := true;
  sys_inet_ntop af b _ :=
    if bool_decide (af = AF_INET /\ b = lab_v4) then inl "127.0.0.1"%string
    else if bool_decide (af = AF_INET6 /\ b = lab_v6) then inl "fe80::1"%string else inr SocketOps.no_buffer_space;
  sys_inet_pton af s :=
    if bool_decide (af = AF_INET /\ s = "127.0.0.1"%string) then Some lab_v4
    else if bool_decide (af = AF_INET6 /\ s = "fe80::1"%string) then Some lab_v6 else None;
  sys_if_indextoname i := if bool_decide (i = 2) then Some "eth0"%string else None;
  sys_if_nametoindex s := if bool_decide (s = "eth0"%string) then 2 else 0;
|}.

Lemma lab_ntop af b len s : sys_inet_ntop af b len = inl s ->
  af = AF_INET /\ b = lab_v4 /\ s = "127.0.0.1"%string \/ af = AF_INET6 /\ b = lab_v6 /\ s = "fe80::1"%string.
Proof. cbn. case_bool_decide as H1; [destruct H1; intros [= <-]; auto|]. case_bool_decide as H2; [destruct H2; intros [= <-]; auto|done]. Qed.
#[local] Instance lab_text_ok : AddressTextOk lab_system.
Proof.
  split.
  - split.
    + intros af s b. cbn. case_bool_decide as H1; [destruct H1 as [-> _]; intros [= <-]; split; [done|cbn; repeat constructor; lia]|].
      case_bool_decide as H2; [|done]. destruct H2 as [-> _]. intros [= <-]. split; [done|cbn; repeat constructor; lia].
    + intros s. unfold u32. cbn. case_bool_decide; lia.
  - by intros af b len s [(-> & -> & ->)|(-> & -> & ->)]%lab_ntop.
  - by intros af b len s [(-> & -> & ->)|(-> & -> & ->)]%lab_ntop.
  - intros af b len s [(-> & -> & ->)|(-> & -> & ->)]%lab_ntop; cbn; lia.
  - by intros b len s [(_ & -> & ->)|(? & -> & ->)]%lab_ntop.
  - intros i name. cbn. case_bool_decide as Hi; [|done]. intros [= <-]. split; [by subst|split; [done|cbn; lia]].
Qed.

Definition lab_link_local : address := of_v6 (AddressV6 lab_v6 2).
Lemma lab_wf : wf_address lab_link_local.
Proof. apply wf_of_v6. split; [split; [done|cbn; repeat constructor; lia]|unfold u32; cbn; lia]. Qed.

Lemma address_text_round_trip_witness : to_text lab_link_local = Ok "fe80::1%eth0"%string /\
  make_address "fe80::1%eth0" = Ok lab_link_local.
Proof.
  assert (to_text lab_link_local = Ok "fe80::1%eth0"%string) as Ht by reflexivity. split; [exact Ht|].
  refine (proj1 (address_text_round_trip lab_link_local "fe80::1%eth0" lab_wf _ Ht)). by intros _ [=].
Defined.
Lemma endpoint_refines_witness : abs_endpoint (endpoint_of lab_link_local 8080) = Endpoint.Endpoint (abs_address lab_link_local) 8080 /\
  endpoint_less new_endpoint (endpoint_of lab_link_local 8080) = true.
Proof.
  split; [|reflexivity].
  refine (proj1 (proj1 (endpoint_refines lab_link_local 8080 AF_INET new_endpoint new_endpoint lab_wf _ _ _))); unfold u16; cbn; unfold u16, u32; lia.
Defined.
Lemma address_well_typed_witness : is_v6 lab_link_local = true /\ is_v4 lab_link_local = false.
Proof.
  assert (built lab_link_local) as Hb by (apply built_v6, lab_wf).
  destruct (address_well_typed lab_link_local lab_link_local Hb Hb) as (_ & Hk & _). split; [reflexivity|].
  by destruct (is_v4 lab_link_local).
Defined.
