(* ===== verification/AdmissionSafety.v ===== *)
(** * The admission protocol is safe under every interleaving

    Any number of threads reserve, use and release one socket; each atomic access of
    [Admission] is one step.  The proof gives every thread a record of what it owns
    ([own]): its job in [async_jobs], the exclusive flag, a direction flag.  [safe] is a
    small ownership logic for atomic programs (rules in [act_rule]); [act_preserves]
    says each rule keeps the global invariant [shared_ok]; the class
    [AdmissionProtocolOk] is what a protocol has to prove, and the theorems about the
    threads are proved against it. *)
From S2P Require Import Prelude Atomics Admission.

(** ** Ownership *)

Record own := Own {
  o_job : bool;          (** counted in [async_jobs] *)
  o_excl : bool;         (** holds [exclusive_operation] *)
  o_read : bool;         (** holds [read_operation] *)
  o_write : bool;        (** holds [write_operation] *)
  o_admitted : bool;     (** may do I/O *)
  o_critical : bool;     (** may use the socket alone *)
}.

Definition no_own : own := Own false false false false false false.

Definition o_dir (d : io_direction) (o : own) : bool :=
  match d with dir_read => o_read o | dir_write => o_write o end.

Definition with_dir (d : io_direction) (b : bool) (o : own) : own :=
  match d with
  | dir_read => Own (o_job o) (o_excl o) b (o_write o) (o_admitted o) (o_critical o)
  | dir_write => Own (o_job o) (o_excl o) (o_read o) b (o_admitted o) (o_critical o)
  end.
Definition with_excl (b : bool) (o : own) : own :=
  Own (o_job o) b (o_read o) (o_write o) (o_admitted o) (o_critical o && b).
Definition with_job (b : bool) (o : own) : own :=
  Own b (o_excl o) (o_read o) (o_write o) (o_admitted o && b) (o_critical o).
Definition admitted_by_load (o : own) : own :=
  Own (o_job o) (o_excl o) (o_read o) (o_write o) (o_job o) (o_critical o).
Definition enter_critical (o : own) : own :=
  Own (o_job o) (o_excl o) (o_read o) (o_write o) (o_admitted o) (o_excl o).

(** What an access needs the thread to own, and what it owns after each outcome. *)
Definition act_rule (a : act) (o : own) (K : bool -> own -> Prop) : Prop :=
  match a with
  | Load Exclusive => K true o /\ K false (admitted_by_load o)
  | Load _ => K true o /\ K false o
  | Store Exclusive b => b = false /\ o_excl o = true /\ K true (with_excl false o)
  | Store (Operation d) b => b = false /\ o_dir d o = true /\ K true (with_dir d false o)
  | Store TlsEnabled _ => o_critical o = true /\ K true o
  | CompareExchange Exclusive e d =>
      e = false /\ d = true /\ o_excl o = false /\ K true (with_excl true o) /\ K false o
  | CompareExchange (Operation dir) e d =>
      e = false /\ d = true /\ o_dir dir o = false /\ K true (with_dir dir true o) /\ K false o
  | CompareExchange TlsEnabled _ _ => False
  | FetchAddJobs => o_job o = false /\ K true (with_job true o)
  | FetchSubJobs => o_job o = true /\ K true (with_job false o)
  | CompareExchangeJobs e d =>
      e = 0 /\ d = 1 /\ o_job o = false /\ o_excl o = true /\
      K true (enter_critical (with_job true o)) /\ K false o
  | JobsPositive => K true o /\ K false (enter_critical o)
  end.

Fixpoint safe {A} (p : prog A) (o : own) (Q : res A -> own -> Prop) : Prop :=
  match p with
  | Ret a => Q (Ok a) o
  | Raise e => Q (Throw e) o
  | Act a k => act_rule a o (fun b o' => safe (k b) o' Q)
  end.

(** ** The shared memory *)

Definition count (f : own -> bool) (os : list own) : nat :=
  sum_list_with (fun o => Nat.b2n (f o)) os.

Definition own_wf (o : own) : Prop :=
  (o_admitted o = true -> o_job o = true) /\ (o_critical o = true -> o_excl o = true).

Record shared_ok (os : list own) (s : atoms) : Prop := {
  so_wf : forall i o, os !! i = Some o -> own_wf o;
  so_jobs : async_jobs s = Z.of_nat (count o_job os);
  so_excl : count o_excl os = Nat.b2n (exclusive_operation s);
  so_read : count o_read os = Nat.b2n (read_operation s);
  so_write : count o_write os = Nat.b2n (write_operation s);
  so_mutex : forall i j o o', os !! i = Some o -> os !! j = Some o' ->
    o_critical o = true -> o_admitted o' = true -> False;
}.

Lemma count_cons f o os : count f (o :: os) = (Nat.b2n (f o) + count f os)%nat.
Proof. reflexivity. Qed.

Lemma count_insert f os i o o' : os !! i = Some o ->
  (count f (<[i:=o']> os) + Nat.b2n (f o) = count f os + Nat.b2n (f o'))%nat.
Proof.
  revert i. induction os as [|o1 os IH]; intros [|i] Hi; try done.
  - injection Hi as ->. change (<[0%nat:=o']> (o :: os)) with (o' :: os). rewrite !count_cons. lia.
  - specialize (IH i Hi). change (<[S i:=o']> (o1 :: os)) with (o1 :: <[i:=o']> os).
    rewrite !count_cons. lia.
Qed.

Lemma count_ge f os i o : os !! i = Some o -> (Nat.b2n (f o) <= count f os)%nat.
Proof.
  revert i. induction os as [|o1 os IH]; intros [|i] Hi; try done; rewrite count_cons.
  - injection Hi as ->. lia.
  - specialize (IH i Hi). lia.
Qed.

Lemma count_two f os i j o o' : os !! i = Some o -> os !! j = Some o' -> i <> j ->
  f o = true -> f o' = true -> (2 <= count f os)%nat.
Proof.
  revert i j. induction os as [|o1 os IH]; intros [|i] [|j] Hi Hj Hne Hf Hf';
    try done; rewrite count_cons.
  - injection Hi as ->. pose proof (count_ge f os j o' Hj). rewrite Hf, Hf' in *. cbn in *. lia.
  - injection Hj as ->. pose proof (count_ge f os i o Hi). rewrite Hf, Hf' in *. cbn in *. lia.
  - specialize (IH i j Hi Hj ltac:(lia) Hf Hf'). lia.
Qed.

Lemma count_le_length f os : (count f os <= length os)%nat.
Proof. induction os as [|o os IH]; [done|]. rewrite count_cons. destruct (f o); cbn in *; lia. Qed.

(** An owner makes its flag true. *)
Lemma excl_owner os s i o : shared_ok os s -> os !! i = Some o -> o_excl o = true ->
  exclusive_operation s = true.
Proof.
  intros Hs Hi Ho. pose proof (count_ge o_excl os i o Hi) as Hc.
  rewrite (so_excl _ _ Hs), Ho in Hc. by destruct (exclusive_operation s); cbn in *; [|lia].
Qed.

Lemma dir_owner os s i o d : shared_ok os s -> os !! i = Some o -> o_dir d o = true ->
  get_flag (Operation d) s = true.
Proof.
  intros Hs Hi Ho. pose proof (count_ge (o_dir d) os i o Hi) as Hc. rewrite Ho in Hc.
  pose proof (so_read _ _ Hs). pose proof (so_write _ _ Hs).
  destruct d; cbn [get_flag]; [destruct (read_operation s)|destruct (write_operation s)]; try done;
    change (count (o_dir dir_read) os) with (count o_read os) in *;
    change (count (o_dir dir_write) os) with (count o_write os) in *; cbn in *; lia.
Qed.

(** Nobody is critical while the exclusive flag is down. *)
Lemma not_critical os s i o : shared_ok os s -> os !! i = Some o ->
  exclusive_operation s = false -> o_critical o = false.
Proof.
  intros Hs Hi He. destruct (o_critical o) eqn:E; [|done].
  apply (so_wf _ _ Hs i) in E; [|done]. pose proof (excl_owner _ _ _ _ Hs Hi E). congruence.
Qed.

(** Nobody is admitted while no job is counted. *)
Lemma not_admitted os s i o : shared_ok os s -> os !! i = Some o ->
  async_jobs s = 0 -> o_admitted o = false.
Proof.
  intros Hs Hi Hj. destruct (o_admitted o) eqn:E; [|done].
  apply (so_wf _ _ Hs i) in E; [|done]. pose proof (count_ge o_job os i o Hi) as Hc.
  rewrite E in Hc. pose proof (so_jobs _ _ Hs). cbn in *. lia.
Qed.

(** Replacing what one thread owns, together with the memory it changed. *)
Lemma shared_update os s i o o' s' :
  shared_ok os s -> os !! i = Some o -> own_wf o' ->
  async_jobs s' + Z.b2z (o_job o) = async_jobs s + Z.b2z (o_job o') ->
  (Nat.b2n (exclusive_operation s') + Nat.b2n (o_excl o)
     = Nat.b2n (exclusive_operation s) + Nat.b2n (o_excl o'))%nat ->
  (Nat.b2n (read_operation s') + Nat.b2n (o_read o)
     = Nat.b2n (read_operation s) + Nat.b2n (o_read o'))%nat ->
  (Nat.b2n (write_operation s') + Nat.b2n (o_write o)
     = Nat.b2n (write_operation s) + Nat.b2n (o_write o'))%nat ->
  (o_critical o' = true -> o_critical o = true \/
     forall j oj, os !! j = Some oj -> o_admitted oj = false) ->
  (o_admitted o' = true -> o_admitted o = true \/
     forall j oj, os !! j = Some oj -> o_critical oj = false) ->
  (o_critical o' = true -> o_admitted o' = true -> False) ->
  shared_ok (<[i:=o']> os) s'.
Proof.
  intros Hs Hi Hwf Hj He Hr Hw Hc Ha Hca.
  pose proof (count_insert o_job os i o o' Hi). pose proof (count_insert o_excl os i o o' Hi).
  pose proof (count_insert o_read os i o o' Hi). pose proof (count_insert o_write os i o o' Hi).
  destruct Hs as [Swf Sj Se Sr Sw Sm]. split; try lia.
  - intros j oj [(-> & <- & _)|(_ & Hoj)]%list_lookup_insert_Some; [done|by eapply Swf].
  - destruct (o_job o), (o_job o'); cbn in *; lia.
  - intros j k oj ok Hoj Hok Hcj Hak.
    apply list_lookup_insert_Some in Hoj as [(-> & <- & _)|(_ & Hoj)];
    apply list_lookup_insert_Some in Hok as [(-> & <- & _)|(_ & Hok)].
    + by apply Hca.
    + destruct (Hc Hcj) as [Hco|Hno]; [by apply (Sm _ _ _ _ Hi Hok)|]. by rewrite (Hno k ok Hok) in Hak.
    + destruct (Ha Hak) as [Hao|Hno]; [by apply (Sm _ _ _ _ Hoj Hi)|]. by rewrite (Hno j oj Hoj) in Hcj.
    + by apply (Sm _ _ _ _ Hoj Hok).
Qed.

(** An access that changes what a thread owns but makes it neither admitted nor
    critical. *)
Lemma shared_update_plain os s i o o' s' :
  shared_ok os s -> os !! i = Some o -> own_wf o' ->
  async_jobs s' + Z.b2z (o_job o) = async_jobs s + Z.b2z (o_job o') ->
  (Nat.b2n (exclusive_operation s') + Nat.b2n (o_excl o)
     = Nat.b2n (exclusive_operation s) + Nat.b2n (o_excl o'))%nat ->
  (Nat.b2n (read_operation s') + Nat.b2n (o_read o)
     = Nat.b2n (read_operation s) + Nat.b2n (o_read o'))%nat ->
  (Nat.b2n (write_operation s') + Nat.b2n (o_write o)
     = Nat.b2n (write_operation s) + Nat.b2n (o_write o'))%nat ->
  (o_critical o' = true -> o_critical o = true) ->
  (o_admitted o' = true -> o_admitted o = true) ->
  shared_ok (<[i:=o']> os) s'.
Proof.
  intros Hs Hi Hwf Hj He Hr Hw Hc Ha. apply (shared_update os s i o o' s'); auto.
  intros. apply (so_mutex _ _ Hs i i o o); auto.
Qed.

(** Each access, one lemma: what it owns afterwards fits the memory afterwards. *)
Section accesses.
  Context (os : list own) (s : atoms) (i : nat) (o : own).
  Context (Hs : shared_ok os s) (Hi : os !! i = Some o).

(** The side conditions of an update, after the facts about the flags are rewritten. *)
Ltac side Hf Ho :=
  try done; unfold own_wf; cbn; rewrite ?Hf, ?Ho, ?andb_true_r, ?andb_false_r; cbn;
  intuition (congruence || lia).

Lemma own_wf_i : own_wf o.
Proof. exact (so_wf _ _ Hs i o Hi). Qed.

Lemma shared_id : shared_ok (<[i:=o]> os) s.
Proof. by rewrite list_insert_id. Qed.

Lemma admit_ok : exclusive_operation s = false -> shared_ok (<[i:=admitted_by_load o]> os) s.
Proof.
  intros E. pose proof own_wf_i as Hwf. pose proof (not_critical os s i o Hs Hi E) as Hnc.
  apply (shared_update os s i o); try done; try (cbn; lia).
  - split; cbn; [done|apply Hwf].
  - by left.
  - right. intros j oj Hoj. by apply (not_critical os s j oj).
  - cbn. congruence.
Qed.

Lemma take_dir_ok d : get_flag (Operation d) s = false -> o_dir d o = false ->
  shared_ok (<[i:=with_dir d true o]> os) (set_flag (Operation d) true s).
Proof.
  intros Hf Ho. pose proof own_wf_i as [Hw1 Hw2].
  destruct d; cbn in *; apply (shared_update_plain os s i o); side Hf Ho.
Qed.

Lemma drop_dir_ok d : o_dir d o = true ->
  shared_ok (<[i:=with_dir d false o]> os) (set_flag (Operation d) false s).
Proof.
  intros Ho. pose proof own_wf_i as [Hw1 Hw2]. pose proof (dir_owner os s i o d Hs Hi Ho) as Hf.
  destruct d; cbn in *; apply (shared_update_plain os s i o); side Hf Ho.
Qed.

Lemma take_excl_ok : exclusive_operation s = false -> o_excl o = false ->
  shared_ok (<[i:=with_excl true o]> os) (set_flag Exclusive true s).
Proof.
  intros Hf Ho. pose proof own_wf_i as [Hw1 Hw2].
  apply (shared_update_plain os s i o); side Hf Ho.
Qed.

Lemma drop_excl_ok : o_excl o = true ->
  shared_ok (<[i:=with_excl false o]> os) (set_flag Exclusive false s).
Proof.
  intros Ho. pose proof own_wf_i as [Hw1 Hw2]. pose proof (excl_owner os s i o Hs Hi Ho) as Hf.
  apply (shared_update_plain os s i o); side Hf Ho.
Qed.

Lemma fetch_add_ok : o_job o = false -> Z.of_nat (length os) < 2 ^ 64 ->
  shared_ok (<[i:=with_job true o]> os) (set_jobs (wrap64 (async_jobs s + 1)) s).
Proof.
  intros Ho Hlen. pose proof own_wf_i as [Hw1 Hw2].
  pose proof (count_insert o_job os i o (with_job true o) Hi) as Hc. rewrite Ho in Hc. cbn in Hc.
  pose proof (count_le_length o_job (<[i:=with_job true o]> os)) as Hle. rewrite length_insert in Hle.
  rewrite wrap64_small by (rewrite (so_jobs _ _ Hs); lia).
  apply (shared_update_plain os s i o); side Ho Ho.
Qed.

Lemma fetch_sub_ok : o_job o = true -> Z.of_nat (length os) < 2 ^ 64 ->
  shared_ok (<[i:=with_job false o]> os) (set_jobs (wrap64 (async_jobs s - 1)) s).
Proof.
  intros Ho Hlen. pose proof own_wf_i as [Hw1 Hw2].
  pose proof (count_ge o_job os i o Hi) as Hc. rewrite Ho in Hc. cbn in Hc.
  pose proof (count_le_length o_job os) as Hle.
  rewrite wrap64_small by (rewrite (so_jobs _ _ Hs); lia).
  apply (shared_update_plain os s i o); side Ho Ho.
Qed.

(** The two ways to become critical: no job is counted. *)
Lemma idle_no_admitted : async_jobs s = 0 -> forall j oj, os !! j = Some oj -> o_admitted oj = false.
Proof. intros Hz j oj Hoj. by apply (not_admitted os s j oj). Qed.

Lemma reserve_ok : async_jobs s = 0 -> o_job o = false -> o_excl o = true ->
  shared_ok (<[i:=enter_critical (with_job true o)]> os) (set_jobs 1 s).
Proof.
  intros Hz Ho He. pose proof (idle_no_admitted Hz) as Hna.
  apply (shared_update os s i o); try done; cbn; rewrite ?Ho, ?(Hna i o Hi); cbn; try lia; try done.
  by right.
Qed.

Lemma drained_ok : async_jobs s = 0 -> shared_ok (<[i:=enter_critical o]> os) s.
Proof.
  intros Hz. pose proof (idle_no_admitted Hz) as Hna. pose proof own_wf_i as [Hw1 Hw2].
  apply (shared_update os s i o); try done; cbn; rewrite ?(Hna i o Hi); cbn; try lia; try done.
  by right.
Qed.
End accesses.

#[export] Hint Resolve shared_id admit_ok take_dir_ok drop_dir_ok take_excl_ok drop_excl_ok
  fetch_add_ok fetch_sub_ok reserve_ok drained_ok : net.

(** The flag [tls_enabled] is no part of the invariant. *)
Lemma set_tls_ok os s b : shared_ok os s -> shared_ok os (set_flag TlsEnabled b s).
Proof. by intros [? ? ? ? ? ?]; split. Qed.

(** Every rule keeps the invariant. *)
Lemma act_preserves os s i o a K b s' :
  shared_ok os s -> os !! i = Some o -> Z.of_nat (length os) < 2 ^ 64 ->
  act_rule a o K -> run_act a s = (b, s') ->
  exists o', K b o' /\ shared_ok (<[i:=o']> os) s'.
Proof.
  intros Hs Hi Hlen Hr Ha. pose proof (shared_id os s i o Hs Hi) as Hid.
  assert (0 <= async_jobs s) as Hpos by (rewrite (so_jobs _ _ Hs); lia).
  destruct a as [f|f b'|f e d| | |e d|]; unfold run_act in Ha.
  - injection Ha as <- <-. destruct f as [| |d]; destruct Hr as [H1 H2].
    + destruct (get_flag TlsEnabled s); eauto.
    + destruct (get_flag Exclusive s) eqn:E; eauto with net.
    + destruct (get_flag (Operation d) s); eauto.
  - injection Ha as <- <-. destruct f as [| |d].
    + destruct Hr as [_ H1]. eauto using set_tls_ok.
    + destruct Hr as (-> & He & H1). eauto with net.
    + destruct Hr as (-> & He & H1). eauto with net.
  - destruct f as [| |dir]; [done| |]; destruct Hr as (-> & -> & Ho & H1 & H2).
    + destruct (get_flag Exclusive s) eqn:E; cbn in Ha; injection Ha as <- <-; eauto with net.
    + destruct (get_flag (Operation dir) s) eqn:E; cbn in Ha; injection Ha as <- <-; eauto with net.
  - destruct Hr as [Ho H1]. injection Ha as <- <-. eauto with net.
  - destruct Hr as [Ho H1]. injection Ha as <- <-. eauto with net.
  - destruct Hr as (-> & -> & Ho & He & H1 & H2).
    destruct (Z.eqb_spec (async_jobs s) 0); injection Ha as <- <-; eauto with net.
  - destruct Hr as [H1 H2]. injection Ha as <- <-.
    destruct (Z.ltb_spec 0 (async_jobs s)); [by eauto|].
    exists (enter_critical o). split; [done|]. apply drained_ok; auto. lia.
Qed.

(** ** What a protocol promises *)

(** How a request uses the socket once it is admitted. *)
Inductive role := RoleIo (d : io_direction) | RoleExclusive | RoleDrain.

(** What an admitted request owns; a draining one owns the flag alone, and the socket
    once it has seen the job count at zero. *)
Definition role_own (r : role) : own :=
  match r with
  | RoleIo dir_read => Own true false true false true false
  | RoleIo dir_write => Own true false false true true false
  | RoleExclusive => Own true true false false false true
  | RoleDrain => Own false true false false false false
  end.
#[export] Instance role_eq_dec : EqDecision role.
Proof. solve_decision. Defined.

Definition drained_own : own := Own false true false false false true.

Class AdmissionProtocol (R : Type) := {
  role_of : R -> role;
  enter : R -> prog bool;          (** [Ret true]: admitted; [Ret false] or an exception: refused *)
  leave : R -> prog unit;
}.

Definition entered (ro : role) (r : res bool) (o : own) : Prop :=
  match r with Ok true => o = role_own ro | _ => o = no_own end.
Definition left_socket (r : res unit) (o : own) : Prop := o = no_own.

Class AdmissionProtocolOk (R : Type) `{AdmissionProtocol R} := {
  enter_safe r : safe (enter r) no_own (entered (role_of r));
  leave_safe r : safe (leave r) (role_own (role_of r)) left_socket;
  leave_drained r : role_of r = RoleDrain -> safe (leave r) drained_own left_socket;
}.

(** ** Threads *)

Section threads.
  Context {R : Type} `{HR : AdmissionProtocol R}.

Inductive thread :=
  | Idle
  | Entering (r : R) (p : prog bool)
  | Holding (r : R)
  | Drained (r : R)
  | Leaving (p : prog unit).

Definition config : Type := list thread * atoms.

(** One step of one thread.  An admitted exclusive or drained thread may also switch
    [tls_enabled], as [init_ssl] and [clear_ssl] do. *)
Inductive step : config -> config -> Prop :=
  | step_start ts s i r : ts !! i = Some Idle ->
      step (ts, s) (<[i:=Entering r (enter r)]> ts, s)
  | step_enter ts s i r a k b s' : ts !! i = Some (Entering r (Act a k)) -> run_act a s = (b, s') ->
      step (ts, s) (<[i:=Entering r (k b)]> ts, s')
  | step_admitted ts s i r : ts !! i = Some (Entering r (Ret true)) ->
      step (ts, s) (<[i:=Holding r]> ts, s)
  | step_refused ts s i r : ts !! i = Some (Entering r (Ret false)) ->
      step (ts, s) (<[i:=Idle]> ts, s)
  | step_thrown ts s i r e : ts !! i = Some (Entering r (Raise e)) ->
      step (ts, s) (<[i:=Idle]> ts, s)
  | step_drained ts s i r s' : ts !! i = Some (Holding r) -> role_of r = RoleDrain ->
      run_act JobsPositive s = (false, s') -> step (ts, s) (<[i:=Drained r]> ts, s')
  | step_switch_tls ts s i r b : ts !! i = Some (Holding r) -> role_of r = RoleExclusive ->
      step (ts, s) (ts, set_flag TlsEnabled b s)
  | step_switch_tls_drained ts s i r b : ts !! i = Some (Drained r) ->
      step (ts, s) (ts, set_flag TlsEnabled b s)
  | step_release ts s i r : ts !! i = Some (Holding r) ->
      step (ts, s) (<[i:=Leaving (leave r)]> ts, s)
  | step_release_drained ts s i r : ts !! i = Some (Drained r) ->
      step (ts, s) (<[i:=Leaving (leave r)]> ts, s)
  | step_leave ts s i a k b s' : ts !! i = Some (Leaving (Act a k)) -> run_act a s = (b, s') ->
      step (ts, s) (<[i:=Leaving (k b)]> ts, s')
  | step_left ts s i : ts !! i = Some (Leaving (Ret tt)) ->
      step (ts, s) (<[i:=Idle]> ts, s).

(** [n] threads that have not begun, on a new socket. *)
Definition start (n : nat) : config := (replicate n Idle, initial_atoms).
Definition reachable (n : nat) (c : config) : Prop := rtc step (start n) c.

(** What a thread owns at each stage. *)
Definition thread_ok (t : thread) (o : own) : Prop :=
  match t with
  | Idle => o = no_own
  | Entering r p => safe p o (entered (role_of r))
  | Holding r => o = role_own (role_of r)
  | Drained r => role_of r = RoleDrain /\ o = drained_own
  | Leaving p => safe p o left_socket
  end.

Definition config_ok (c : config) : Prop :=
  exists os, Forall2 thread_ok c.1 os /\ shared_ok os c.2.

Lemma shared_start n : shared_ok (replicate n no_own) initial_atoms.
Proof.
  assert (forall f, f no_own = false -> count f (replicate n no_own) = 0%nat) as Hc.
  { intros f Hf. induction n as [|n IH]; [done|]. cbn [replicate]. rewrite count_cons, Hf. done. }
  split; cbn; rewrite ?Hc by done; try done.
  - intros i o [-> _]%lookup_replicate. done.
  - intros i j o o' [-> _]%lookup_replicate. done.
Qed.

Lemma start_ok n : config_ok (start n).
Proof.
  exists (replicate n no_own). split; [|apply shared_start]. cbn.
  apply Forall2_replicate. done.
Qed.

Section safety.
  Context `{HRok : !AdmissionProtocolOk R}.

(** Changing one thread and what it owns. *)
Lemma config_update ts os s' i t o : Forall2 thread_ok ts os -> thread_ok t o ->
  shared_ok (<[i:=o]> os) s' -> config_ok (<[i:=t]> ts, s').
Proof. intros Hts Ht Hs. exists (<[i:=o]> os). split; [by apply Forall2_insert|done]. Qed.

(** A step that touches no memory. *)
Lemma config_same ts os s i t o : Forall2 thread_ok ts os -> shared_ok os s -> os !! i = Some o ->
  thread_ok t o -> config_ok (<[i:=t]> ts, s).
Proof. intros Hts Hs Hi Ht. eapply config_update; [done..|]. by apply shared_id. Qed.

Lemma step_ok c c' : Z.of_nat (length c.1) < 2 ^ 64 -> config_ok c -> step c c' -> config_ok c'.
Proof.
  intros Hlen (os & Hts & Hs) Hstep.
  destruct Hstep as [ts s i r Hi|ts s i r a k b s' Hi Ha|ts s i r Hi|ts s i r Hi|ts s i r e Hi|
    ts s i r s' Hi Hr Ha|ts s i r b Hi Hr|ts s i r b Hi|ts s i r Hi|ts s i r Hi|
    ts s i a k b s' Hi Ha|ts s i Hi]; cbn in *;
    destruct (Forall2_lookup_l _ _ _ _ _ Hts Hi) as (o & Ho & Ht); cbn in Ht;
    rewrite (Forall2_length _ _ _ Hts) in Hlen.
  - eapply config_same; [done..|]. cbn. rewrite Ht. apply enter_safe.
  - destruct (act_preserves os s i o a _ b s' Hs Ho Hlen Ht Ha) as (o' & Hk & Hs').
    by eapply config_update.
  - by eapply config_same.
  - by eapply config_same.
  - by eapply config_same.
  - cbn in Ha. injection Ha as Hj <-. rewrite Z.ltb_ge in Hj.
    eapply config_update; [done| |apply (drained_ok os s i o Hs Ho)].
    + rewrite Ht, Hr. done.
    + pose proof (so_jobs _ _ Hs). lia.
  - exists os. split; [done|]. by apply set_tls_ok.
  - exists os. split; [done|]. by apply set_tls_ok.
  - eapply config_same; [done..|]. cbn. rewrite Ht. apply leave_safe.
  - eapply config_same; [done..|]. cbn. destruct Ht as [Hr ->]. by apply leave_drained.
  - destruct (act_preserves os s i o a _ b s' Hs Ho Hlen Ht Ha) as (o' & Hk & Hs').
    by eapply config_update.
  - by eapply config_same.
Qed.

Lemma step_length c c' : step c c' -> length c'.1 = length c.1.
Proof. destruct 1; cbn; by rewrite ?length_insert. Qed.

Lemma reachable_ok n c : Z.of_nat n < 2 ^ 64 -> reachable n c -> config_ok c /\ length c.1 = n.
Proof.
  intros Hn. unfold reachable. intros Hr.
  cut (forall c0, rtc step c0 c -> config_ok c0 -> length c0.1 = n -> config_ok c /\ length c.1 = n).
  { intros Hc. apply (Hc (start n)); [done|apply start_ok|apply length_replicate]. }
  clear Hr. induction 1 as [c0|c0 c1 c2 Hs Hrtc IH]; intros Hok Hl; [done|].
  apply IH; [|by rewrite (step_length _ _ Hs)]. eapply step_ok; [|done..]. by rewrite Hl.
Qed.
End safety.
End threads.

(** ** The theorems, for any protocol *)

Section theorems.
  Context {R : Type} `{HR : AdmissionProtocol R} `{HRok : !AdmissionProtocolOk R}.

(** Thread [t] may do I/O in direction [d]; may use the socket alone; holds the
    exclusive flag. *)
Definition does_io (d : io_direction) (t : thread) : Prop :=
  exists r, t = Holding r /\ role_of r = RoleIo d.
Definition alone (t : thread) : Prop :=
  (exists r, t = Holding r /\ role_of r = RoleExclusive) \/ (exists r, t = Drained r).
Definition holds_exclusive (t : thread) : Prop :=
  alone t \/ exists r, t = Holding r /\ role_of r = RoleDrain.

Lemma does_io_own d t o : does_io d t -> thread_ok t o -> o = role_own (RoleIo d).
Proof. intros (r & -> & Hr) Ho. cbn in Ho. by rewrite Ho, Hr. Qed.

Lemma alone_own t o : alone t -> thread_ok t o -> o_critical o = true /\ o_excl o = true.
Proof. intros [(r & -> & Hr)|(r & ->)] Ho; cbn in Ho; [by rewrite Ho, Hr|by destruct Ho as [_ ->]]. Qed.

Lemma exclusive_own t o : holds_exclusive t -> thread_ok t o -> o_excl o = true.
Proof.
  intros [Ha|(r & -> & Hr)] Ho; [by destruct (alone_own t o)|]. cbn in Ho. by rewrite Ho, Hr.
Qed.

Context (n : nat) (ts : list (@thread R)) (s : atoms).
Context (Hn : Z.of_nat n < 2 ^ 64) (Hreach : reachable n (ts, s)).

Lemma reachable_owners : exists os, Forall2 thread_ok ts os /\ shared_ok os s /\ length os = n.
Proof.
  destruct (reachable_ok n (ts, s) Hn Hreach) as [(os & Hts & Hs) Hl]. exists os. cbn in *.
  rewrite <- (Forall2_length _ _ _ Hts). done.
Qed.

Lemma io_not_alone i j d ti tj : ts !! i = Some ti -> ts !! j = Some tj ->
  does_io d ti -> alone tj -> False.
Proof.
  destruct reachable_owners as (os & Hts & Hs & _). intros Hi Hj Hio Ha.
  destruct (Forall2_lookup_l _ _ _ _ _ Hts Hi) as (oi & Hoi & Hti).
  destruct (Forall2_lookup_l _ _ _ _ _ Hts Hj) as (oj & Hoj & Htj).
  apply (so_mutex _ _ Hs j i oj oi); [done|done|by apply (alone_own tj)|].
  rewrite (does_io_own d ti oi) by done. by destruct d.
Qed.

Lemma exclusive_unique i j ti tj : ts !! i = Some ti -> ts !! j = Some tj ->
  holds_exclusive ti -> holds_exclusive tj -> i = j.
Proof.
  destruct reachable_owners as (os & Hts & Hs & _). intros Hi Hj Hxi Hxj.
  destruct (Forall2_lookup_l _ _ _ _ _ Hts Hi) as (oi & Hoi & Hti).
  destruct (Forall2_lookup_l _ _ _ _ _ Hts Hj) as (oj & Hoj & Htj).
  destruct (decide (i = j)); [done|]. exfalso.
  pose proof (count_two o_excl os i j oi oj Hoi Hoj) as Hc.
  rewrite (so_excl _ _ Hs) in Hc.
  assert (2 <= Nat.b2n (exclusive_operation s))%nat
    by (apply Hc; [done|by apply (exclusive_own ti)|by apply (exclusive_own tj)]).
  destruct (exclusive_operation s); cbn in *; lia.
Qed.

Lemma direction_unique d i j ti tj : ts !! i = Some ti -> ts !! j = Some tj ->
  does_io d ti -> does_io d tj -> i = j.
Proof.
  destruct reachable_owners as (os & Hts & Hs & _). intros Hi Hj Hxi Hxj.
  destruct (Forall2_lookup_l _ _ _ _ _ Hts Hi) as (oi & Hoi & Hti).
  destruct (Forall2_lookup_l _ _ _ _ _ Hts Hj) as (oj & Hoj & Htj).
  apply (does_io_own d ti oi) in Hti; [|done]. apply (does_io_own d tj oj) in Htj; [|done]. subst.
  destruct (decide (i = j)); [done|]. exfalso.
  pose proof (so_read _ _ Hs). pose proof (so_write _ _ Hs).
  destruct d;
    [pose proof (count_two o_read os i j _ _ Hoi Hoj ltac:(done) eq_refl eq_refl);
     destruct (read_operation s)
    |pose proof (count_two o_write os i j _ _ Hoi Hoj ltac:(done) eq_refl eq_refl);
     destruct (write_operation s)]; cbn in *; lia.
Qed.

(** All three exclusions together. *)
Lemma reservations_exclude i j ti tj : ts !! i = Some ti -> ts !! j = Some tj -> i <> j ->
  (forall d, does_io d ti -> ~ alone tj) /\
  (holds_exclusive ti -> ~ holds_exclusive tj) /\
  (forall d, does_io d ti -> ~ does_io d tj).
Proof.
  intros Hi Hj Hne. split_and!.
  - intros d Hd Ha. exact (io_not_alone i j d ti tj Hi Hj Hd Ha).
  - intros Hx Hy. exact (Hne (exclusive_unique i j ti tj Hi Hj Hx Hy)).
  - intros d Hx Hy. exact (Hne (direction_unique d i j ti tj Hi Hj Hx Hy)).
Qed.

(** The job count: the number of threads that hold a job, never wrapped. *)
Lemma jobs_bounded : 0 <= async_jobs s <= Z.of_nat n.
Proof.
  destruct reachable_owners as (os & Hts & Hs & <-).
  rewrite (so_jobs _ _ Hs). pose proof (count_le_length o_job os). lia.
Qed.

(** Once every thread is back, nothing is left reserved. *)
Lemma quiescent_clean : Forall (fun t => t = Idle) ts -> s = set_flag TlsEnabled (tls_enabled s) initial_atoms.
Proof.
  destruct reachable_owners as (os & Hts & Hs & _). intros Hidle.
  assert (forall f, f no_own = false -> count f os = 0%nat) as Hc.
  { intros f Hf. clear Hs Hreach. induction Hts as [|t o ts' os' Ht Hts IH]; [done|].
    apply Forall_cons in Hidle as [-> Hidle]. cbn in Ht. subst. rewrite count_cons, Hf. cbn. by apply IH. }
  destruct Hs as [_ Sj Se Sr Sw _]. rewrite Hc in Sj, Se, Sr, Sw by done.
  destruct s as [t e r w j]; cbn in *.
  destruct e, r, w; cbn in *; try done. by rewrite Sj.
Qed.
End theorems.

(** ** The two sockets *)

(** The reservations [network.hpp] and [network.cpp] make on a TCP socket. *)
Inductive tcp_request :=
  | TcpIo (d : io_direction)              (** [receive], [read], [send], [write], the async operations *)
  | TcpTryIo                              (** [available], [peer_closed] *)
  | TcpExclusive (active_io_error : string)   (** [connect], [accept], [close], [shutdown] *)
  | TcpHandshake                          (** [connect_ssl] *)
  | TcpDrain.                             (** [safe_shutdown] *)

#[export] Instance tcp_admission : AdmissionProtocol tcp_request := {|
  role_of := fun r => match r with
    | TcpIo d => RoleIo d
    | TcpTryIo => RoleIo dir_read
    | TcpExclusive _ | TcpHandshake => RoleExclusive
    | TcpDrain => RoleDrain
    end;
  enter := fun r => match r with
    | TcpIo d => Tcp.tcp_begin_io_job d ~;; Ret true
    | TcpTryIo => Tcp.tcp_try_begin_io_job dir_read
    | TcpExclusive msg => Tcp.tcp_begin_exclusive msg ~;; Ret true
    | TcpHandshake => Tcp.begin_tls_handshake ~;; Ret true
    | TcpDrain => Tcp.begin_draining ~;; Ret true
    end;
  leave := fun r => match r with
    | TcpIo d => Tcp.tcp_finish_io_job d
    | TcpTryIo => Tcp.tcp_finish_io_job dir_read
    | TcpExclusive _ => Tcp.tcp_end_exclusive
    | TcpHandshake => Tcp.end_tls_handshake
    | TcpDrain => Tcp.end_draining
    end |}.

#[export] Instance tcp_admission_ok : AdmissionProtocolOk tcp_request.
Proof.
  split; intros []; cbn; try discriminate; try done; repeat (destruct d; cbn); unfold left_socket;
    repeat split.
Qed.

Inductive udp_request :=
  | UdpIo (d : io_direction)              (** [receive_from], [send_to], the async operations *)
  | UdpTryIo                              (** [available] *)
  | UdpClose.                             (** [close], [safe_close] *)

#[export] Instance udp_admission : AdmissionProtocol udp_request := {|
  role_of := fun r => match r with
    | UdpIo d => RoleIo d
    | UdpTryIo => RoleIo dir_read
    | UdpClose => RoleExclusive
    end;
  enter := fun r => match r with
    | UdpIo d => Udp.udp_begin_io_job d ~;; Ret true
    | UdpTryIo => Udp.udp_try_begin_io_job dir_read
    | UdpClose => Udp.begin_exclusive_close ~;; Ret true
    end;
  leave := fun r => match r with
    | UdpIo d => Udp.udp_finish_io_job d
    | UdpTryIo => Udp.udp_finish_io_job dir_read
    | UdpClose => Udp.end_exclusive_close
    end |}.

#[export] Instance udp_admission_ok : AdmissionProtocolOk udp_request.
Proof.
  split; intros []; cbn; try discriminate; try done; repeat (destruct d; cbn); unfold left_socket;
    repeat split.
Qed.

(** ** An executable scheduler *)

Section scheduler.
  Context {R : Type} `{HR : AdmissionProtocol R}.

Inductive choice :=
  | Begin (i : nat) (r : R)      (** thread [i] makes request [r] *)
  | Go (i : nat)                 (** thread [i] goes on with what it is doing *)
  | SeeDrained (i : nat)
  | Release (i : nat).

Definition step_fun (ch : choice) (c : @config R) : option (@config R) :=
  let '(ts, s) := c in
  match ch with
  | Begin i r =>
      match ts !! i with Some Idle => Some (<[i:=Entering r (enter r)]> ts, s) | _ => None end
  | Go i =>
      match ts !! i with
      | Some (Entering r (Act a k)) =>
          let '(b, s') := run_act a s in Some (<[i:=Entering r (k b)]> ts, s')
      | Some (Entering r (Ret true)) => Some (<[i:=Holding r]> ts, s)
      | Some (Entering r _) => Some (<[i:=Idle]> ts, s)
      | Some (Leaving (Act a k)) =>
          let '(b, s') := run_act a s in Some (<[i:=Leaving (k b)]> ts, s')
      | Some (Leaving (Ret tt)) => Some (<[i:=Idle]> ts, s)
      | _ => None
      end
  | SeeDrained i =>
      match ts !! i with
      | Some (Holding r) =>
          if bool_decide (role_of r = RoleDrain) then
            match run_act JobsPositive s with
            | (false, s') => Some (<[i:=Drained r]> ts, s')
            | _ => None
            end
          else None
      | _ => None
      end
  | Release i =>
      match ts !! i with
      | Some (Holding r) | Some (Drained r) => Some (<[i:=Leaving (leave r)]> ts, s)
      | _ => None
      end
  end.

Fixpoint schedule (chs : list choice) (c : @config R) : option (@config R) :=
  match chs with
  | [] => Some c
  | ch :: chs => match step_fun ch c with Some c' => schedule chs c' | None => None end
  end.

Lemma step_fun_sound ch c c' : step_fun ch c = Some c' -> step c c'.
Proof.
  destruct c as [ts s]. destruct ch as [i r|i|i|i]; unfold step_fun;
    destruct (ts !! i) as [[|r' p|r'|r'|p]|] eqn:Hi; try done.
  - intros [= <-]. by constructor.
  - destruct p as [[]|e|a k]; [intros [= <-]; by econstructor..|].
    destruct (run_act a s) as [b s'] eqn:Ha. intros [= <-]. by econstructor.
  - destruct p as [[]|e|a k]; [intros [= <-]; by econstructor|done|].
    destruct (run_act a s) as [b s'] eqn:Ha. intros [= <-]. by econstructor.
  - case_bool_decide; [|done]. destruct (run_act JobsPositive s) as [[] s'] eqn:Ha; [done|].
    intros [= <-]. by econstructor.
  - intros [= <-]. by constructor.
  - intros [= <-]. by constructor.
Qed.

Lemma schedule_reachable n chs c : schedule chs (start n) = Some c -> reachable n c.
Proof.
  unfold reachable. generalize (@start R n). induction chs as [|ch chs IH]; cbn; intros c0.
  - intros [= ->]. apply rtc_refl.
  - destruct (step_fun ch c0) as [c1|] eqn:E; [|done]. intros Hs.
    eapply rtc_l; [by eapply step_fun_sound|by apply IH].
Qed.
End scheduler.

(** ** Properties of the sockets *)

(** C1: reservations of a TCP socket exclude each other, under every interleaving of the
    atomic accesses of any number of threads (fewer than 2^64).  A thread doing I/O and a
    thread that uses the socket alone (connecting, accepting, closing, handshaking, or
    shutting down after it saw the job count at zero) never coexist; at most one thread
    holds the exclusive flag; at most one thread reads and at most one writes. *)
Theorem tcp_reservations_exclude n ts s i j ti tj :
  Z.of_nat n < 2 ^ 64 -> @reachable tcp_request _ n (ts, s) ->
  ts !! i = Some ti -> ts !! j = Some tj -> i <> j ->
  (forall d, does_io d ti -> ~ alone tj) /\
  (holds_exclusive ti -> ~ holds_exclusive tj) /\
  (forall d, does_io d ti -> ~ does_io d tj).
Proof. intros Hn Hr. exact (reservations_exclude n ts s Hn Hr i j ti tj). Qed.

(** The same for a UDP socket, where closing is the only exclusive operation. *)
Theorem udp_reservations_exclude n ts s i j ti tj :
  Z.of_nat n < 2 ^ 64 -> @reachable udp_request _ n (ts, s) ->
  ts !! i = Some ti -> ts !! j = Some tj -> i <> j ->
  (forall d, does_io d ti -> ~ alone tj) /\
  (holds_exclusive ti -> ~ holds_exclusive tj) /\
  (forall d, does_io d ti -> ~ does_io d tj).
Proof. intros Hn Hr. exact (reservations_exclude n ts s Hn Hr i j ti tj). Qed.

(** No reservation leaks.  [async_jobs] always lies between zero and the number of
    threads, so its decrements never wrap; and once every thread has returned, whatever
    mixture of admissions and refusals went before, the memory admits any request again
    (a handshake only while TLS is off). *)
Theorem tcp_no_leak n ts s (r : tcp_request) :
  Z.of_nat n < 2 ^ 64 -> @reachable tcp_request _ n (ts, s) ->
  0 <= async_jobs s <= Z.of_nat n /\
  (Forall (fun t => t = Idle) ts -> (r = TcpHandshake -> tls_enabled s = false) ->
   fst (exec (enter r) s) = Ok true).
Proof.
  intros Hn Hr. split; [by apply (jobs_bounded n ts s)|]. intros Hidle Htls.
  rewrite (quiescent_clean n ts s Hn Hr Hidle).
  destruct r as [d| | | |]; [destruct d|..]; cbn; try done. by rewrite Htls.
Qed.

(** An admission is all or nothing, and is undone exactly by its release.  Alone on
    the memory, a refused request leaves every member as it found it, and an admitted one
    followed by its release restores them. *)
Theorem tcp_admission_balanced (r : tcp_request) s :
  0 <= async_jobs s < 2 ^ 64 - 1 ->
  match exec (enter r) s with
  | (Ok true, s') => exec (leave r) s' = (Ok tt, s)
  | (_, s') => s' = s
  end.
Proof.
  intros Hj. destruct s as [t e rd wr j]. cbn in Hj.
  assert (wrap64 (wrap64 (j + 1) - 1) = j) as Hw.
  { rewrite (wrap64_small (j + 1)) by lia. rewrite wrap64_small by lia. lia. }
  destruct r as [d| |msg| |]; [destruct d|..]; destruct t, e, rd, wr; cbn -[Z.eqb wrap64 Z.add Z.sub];
    unfold set_jobs; cbn -[Z.eqb wrap64 Z.add Z.sub]; rewrite ?Hw; try done.
  all: destruct (Z.eqb_spec j 0) as [E|E]; cbn; rewrite ?E; done.
Qed.

(** ** Witnesses *)

Definition go (i k : nat) : list (@choice tcp_request) := replicate k (Go i).
Definition udp_go (i k : nat) : list (@choice udp_request) := replicate k (Go i).

(** Two threads whose accesses alternate end up reading and writing side by side. *)
Definition full_duplex : list (@choice tcp_request) :=
  [Begin 0 (TcpIo dir_read); Begin 1 (TcpIo dir_write)]
    ++ mjoin (replicate 4 [Go 0%nat; Go 1%nat]) ++ [Go 0%nat; Go 1%nat].

Definition full_duplex_end : @config tcp_request :=
  ([Holding (TcpIo dir_read); Holding (TcpIo dir_write)], Atoms false false true true 2).

Lemma full_duplex_reachable : reachable 2 full_duplex_end.
Proof. apply (schedule_reachable 2 full_duplex). reflexivity. Qed.

Lemma tcp_reservations_exclude_witness :
  does_io dir_read (@Holding tcp_request (TcpIo dir_read)) /\
  ~ alone (@Holding tcp_request (TcpIo dir_write)).
Proof.
  assert (does_io dir_read (@Holding tcp_request (TcpIo dir_read))) as Hd by (by eexists).
  split; [exact Hd|].
  refine (proj1 (tcp_reservations_exclude 2 _ _ 0 1 _ _ _ full_duplex_reachable _ _ _) dir_read Hd);
    [lia|reflexivity|reflexivity|discriminate].
Defined.

Definition udp_closed_end : @config udp_request :=
  ([Holding UdpClose; Idle], Atoms false true false false 1).

Lemma udp_closed_reachable : reachable 2 udp_closed_end.
Proof.
  apply (schedule_reachable 2 ([Begin 1 (UdpIo dir_read)] ++ udp_go 1 5 ++ [Release 1] ++ udp_go 1 3
    ++ [Begin 0 UdpClose] ++ udp_go 0 3)). reflexivity.
Qed.

Lemma udp_reservations_exclude_witness :
  holds_exclusive (@Holding udp_request UdpClose) /\ ~ holds_exclusive (@Idle udp_request).
Proof.
  assert (holds_exclusive (@Holding udp_request UdpClose)) as Hd by (left; left; by eexists).
  split; [exact Hd|].
  refine (proj1 (proj2 (udp_reservations_exclude 2 _ _ 0 1 _ _ _ udp_closed_reachable _ _ _)) Hd);
    [lia|reflexivity|reflexivity|discriminate].
Defined.

(** A read is refused while another thread closes; both are back at the end. *)
Lemma refused_reachable : @reachable tcp_request _ 2 ([Idle; Idle], initial_atoms).
Proof.
  apply (schedule_reachable 2 ([Begin 0 (TcpExclusive "")] ++ go 0 3
    ++ [Begin 1 (TcpIo dir_read)] ++ go 1 4 ++ [Release 0] ++ go 0 3)). reflexivity.
Qed.

Lemma tcp_no_leak_witness : fst (exec (enter (TcpIo dir_read)) initial_atoms) = Ok true.
Proof.
  refine (proj2 (tcp_no_leak 2 _ _ (TcpIo dir_read) _ refused_reachable) _ _);
    [lia|repeat constructor|discriminate].
Defined.

Lemma tcp_admission_balanced_witness :
  exec (leave (TcpIo dir_read)) (Atoms false false true true 2) = (Ok tt, Atoms false false false true 1).
Proof.
  assert (0 <= 1 < 2 ^ 64 - 1) as Hj by lia.
  pose proof (tcp_admission_balanced (TcpIo dir_read) (Atoms false false false true 1) Hj) as Hb.
  vm_compute in Hb. vm_compute. exact Hb.
Defined.
