(* ===== verification/Streambuf.v ===== *)
(** * [asio::streambuf]: the byte buffer inside an asynchronous state

    Models [include/asio/basic_streambuf.hpp] over the get and put areas of
    [std::streambuf]: the pointers are offsets into the vector.  The abstract value of a
    buffer is the queue of bytes between [gptr] and [pptr] ([contents]); the theorems
    show that [prepare], [commit], [consume] and character output act on that queue. *)
From S2P Require Import Prelude.
Open Scope nat_scope.

Record streambuf := Streambuf {
  buffer_ : list ascii;
  gptr : nat;
  egptr : nat;
  pptr : nat;
  epptr : nat;
  max_size_ : Z;
}.

(** [static_cast<int>(n)] of a [std::size_t]. *)
Definition to_int (n : nat) : Z := ((Z.of_nat n + 2 ^ 31) `mod` 2 ^ 32 - 2 ^ 31)%Z.

Lemma to_int_small n : (Z.of_nat n < 2 ^ 31)%Z -> to_int n = Z.of_nat n.
Proof. intros Hn. unfold to_int. rewrite Z.mod_small; lia. Qed.

(** [setg(&buffer_[0], g, e)]: [eback] is always the start of the buffer. *)
Definition setg (g e : nat) (sb : streambuf) : streambuf :=
  Streambuf (buffer_ sb) g e (pptr sb) (epptr sb) (max_size_ sb).
Definition setp (p e : nat) (sb : streambuf) : streambuf :=
  Streambuf (buffer_ sb) (gptr sb) (egptr sb) p e (max_size_ sb).
Definition pbump (n : Z) (sb : streambuf) : streambuf :=
  setp (Z.to_nat (Z.of_nat (pptr sb) + n)) (epptr sb) sb.
Definition gbump (n : Z) (sb : streambuf) : streambuf :=
  setg (Z.to_nat (Z.of_nat (gptr sb) + n)) (egptr sb) sb.
Definition set_buffer (b : list ascii) (sb : streambuf) : streambuf :=
  Streambuf b (gptr sb) (egptr sb) (pptr sb) (epptr sb) (max_size_ sb).

(** [std::vector<char>::resize] *)
Definition resize (n : nat) (b : list ascii) : list ascii := take n b ++ replicate (n - length b) zero.

(** [std::memmove(&buffer_[0], &buffer_[0] + from, n)] *)
Definition move_to_start (from n : nat) (b : list ascii) : list ascii :=
  take n (drop from b) ++ drop n b.

Definition buffer_delta : nat := 128.

(** The constructor, with its default [maximum_size]. *)
Definition new_streambuf (maximum_size : Z) : streambuf :=
  let pend := Z.to_nat (Z.min maximum_size (Z.of_nat buffer_delta)) in
  Streambuf (replicate (Nat.max pend 1) zero) 0 0 0 pend maximum_size.
Definition default_streambuf : streambuf := new_streambuf size_max.

Definition size (sb : streambuf) : nat := pptr sb - gptr sb.

(** The bytes of [data()]. *)
Definition data (sb : streambuf) : list ascii := take (size sb) (drop (gptr sb) (buffer_ sb)).

Definition reserve (n : nat) : M streambuf unit := fun sb =>
  let gnext := gptr sb in
  let pnext := pptr sb in
  let pend := epptr sb in
  (* Check if there is already enough space in the put area. *)
  if n <=? pend - pnext then (Ok tt, sb)
  else
    (* Shift existing contents of get area to start of buffer. *)
    let '(sb1, pnext) :=
      if 0 <? gnext then (set_buffer (move_to_start gnext (pnext - gnext) (buffer_ sb)) sb, pnext - gnext)
      else (sb, pnext) in
    (* Ensure buffer is large enough to hold at least the specified size. *)
    if pend - pnext <? n then
      if (Z.of_nat n <=? max_size_ sb)%Z && (Z.of_nat pnext <=? max_size_ sb - Z.of_nat n)%Z then
        let pend := pnext + n in
        let sb2 := set_buffer (resize (Nat.max pend 1) (buffer_ sb1)) sb1 in
        (Ok tt, setp pnext pend (setg 0 pnext sb2))
      else (Throw (length_error "asio::streambuf too long"), sb1)
    else (Ok tt, setp pnext pend (setg 0 pnext sb1)).

(** [prepare(n)]: the offset of the writable region; its size is [n]. *)
Definition prepare (n : nat) : M streambuf nat :=
  reserve n ;;; gets pptr.

Definition commit (n : nat) (sb : streambuf) : streambuf :=
  let n := Nat.min n (epptr sb - pptr sb) in
  let sb := pbump (to_int n) sb in
  setg (gptr sb) (pptr sb) sb.

Definition consume (n : nat) (sb : streambuf) : streambuf :=
  let sb := if egptr sb <? pptr sb then setg (gptr sb) (pptr sb) sb else sb in
  let n := if pptr sb <? gptr sb + n then pptr sb - gptr sb else n in
  gbump (to_int n) sb.

(** [underflow()]: the next character, or [eof]. *)
Definition underflow : M streambuf (option ascii) := fun sb =>
  if gptr sb <? pptr sb then (Ok (buffer_ sb !! gptr sb), setg (gptr sb) (pptr sb) sb)
  else (Ok None, sb).

(** [*pptr() = c; pbump(1)] *)
Definition put_char (c : ascii) (sb : streambuf) : streambuf :=
  pbump 1 (set_buffer (<[pptr sb := c]> (buffer_ sb)) sb).

(** [overflow(c)] of a character that is not [eof]. *)
Definition overflow (c : ascii) : M streambuf ascii :=
  full <-- gets (fun sb => pptr sb =? epptr sb) ;;
  (if (full : bool) then
     buffer_size <-- gets size ;;
     max <-- gets max_size_ ;;
     if (Z.of_nat buffer_size <? max)%Z && (max - Z.of_nat buffer_size <? Z.of_nat buffer_delta)%Z
     then reserve (Z.to_nat (max - Z.of_nat buffer_size))
     else reserve buffer_delta
   else ret tt) ;;;
  modify (put_char c) ;;;
  ret c.

(** [std::streambuf::sputc]: store in the put area, or [overflow]. *)
Definition sputc (c : ascii) : M streambuf unit := fun sb =>
  if pptr sb <? epptr sb then (Ok tt, put_char c sb)
  else (overflow c ;;; ret tt) sb.

(** [os.write(data, size)] *)
Fixpoint sputn (s : list ascii) : M streambuf unit :=
  match s with
  | [] => ret tt
  | c :: s => sputc c ;;; sputn s
  end.

(** A transfer writes [bytes] at the start of the prepared region. *)
Definition fill (at_ : nat) (bytes : list ascii) (sb : streambuf) : streambuf :=
  set_buffer (take at_ (buffer_ sb) ++ bytes ++ drop (at_ + length bytes) (buffer_ sb)) sb.

(** ** Well-formedness *)

Record streambuf_wf (sb : streambuf) : Prop := {
  wf_get : gptr sb <= pptr sb;
  wf_eget : egptr sb <= pptr sb;
  wf_put : pptr sb <= epptr sb;
  wf_end : epptr sb <= length (buffer_ sb);
  wf_max : (Z.of_nat (epptr sb) <= max_size_ sb)%Z;
}.

Abbreviation contents := data.

Lemma contents_length sb : streambuf_wf sb -> length (contents sb) = size sb.
Proof. intros [? ? ? ? ?]. unfold data, size. rewrite length_take, length_drop. lia. Qed.

Lemma new_streambuf_wf m : (0 <= m)%Z -> streambuf_wf (new_streambuf m).
Proof. intros Hm. split; cbn -[buffer_delta]; rewrite ?length_replicate; unfold buffer_delta; lia. Qed.

Lemma new_streambuf_empty m : contents (new_streambuf m) = [].
Proof. done. Qed.

(** ** The areas after each operation *)

Lemma take_resize n m b : n <= length b -> n <= m -> take n (resize m b) = take n b.
Proof.
  intros Hb Hm. unfold resize. rewrite take_app_le by (rewrite length_take; lia).
  rewrite take_take. f_equal. lia.
Qed.

Lemma length_resize m b : length (resize m b) = m.
Proof. unfold resize. rewrite length_app, length_take, length_replicate. lia. Qed.

Lemma length_move from n b : from + n <= length b -> length (move_to_start from n b) = length b.
Proof. intros H. unfold move_to_start. rewrite length_app, length_take, !length_drop. lia. Qed.

Lemma take_move from n b : from + n <= length b ->
  take n (move_to_start from n b) = take n (drop from b).
Proof.
  intros H. unfold move_to_start. rewrite take_app_le by (rewrite length_take, length_drop; lia).
  rewrite take_take. f_equal. lia.
Qed.

(** A buffer whose get area starts at [0]. *)
Lemma wf_shifted b p e m : p <= e -> e <= length b -> (Z.of_nat e <= m)%Z ->
  streambuf_wf (Streambuf b 0 p p e m).
Proof. by split; cbn; lia. Qed.

Lemma contents_shifted b p e m : contents (Streambuf b 0 p p e m) = take p b.
Proof. unfold data, size. cbn. by rewrite Nat.sub_0_r. Qed.

Lemma reserve_spec n sb : streambuf_wf sb ->
  match reserve n sb with
  | (Ok tt, sb') => streambuf_wf sb' /\ contents sb' = contents sb /\ size sb' = size sb /\
      n <= epptr sb' - pptr sb' /\ max_size_ sb' = max_size_ sb
  | (Throw e, _) => e = length_error "asio::streambuf too long" /\
      (max_size_ sb < Z.of_nat (size sb) + Z.of_nat n)%Z
  end.
Proof.
  intros Hwf. pose proof Hwf as [Hg He Hp Hl Hm]. unfold reserve, size.
  destruct (Nat.leb_spec n (epptr sb - pptr sb)); [by repeat split|].
  assert (forall b p, p = pptr sb - gptr sb -> take p b = contents sb -> length b = length (buffer_ sb) ->
    match
      (if epptr sb - p <? n then
         if (Z.of_nat n <=? max_size_ sb)%Z && (Z.of_nat p <=? max_size_ sb - Z.of_nat n)%Z then
           (Ok tt, Streambuf (resize (Nat.max (p + n) 1) b) 0 p p (p + n) (max_size_ sb))
         else (Throw (length_error "asio::streambuf too long"), sb)
       else (Ok tt, Streambuf b 0 p p (epptr sb) (max_size_ sb)))
    with
    | (Ok tt, sb') => streambuf_wf sb' /\ contents sb' = contents sb /\
        pptr sb' - gptr sb' = pptr sb - gptr sb /\
        n <= epptr sb' - pptr sb' /\ max_size_ sb' = max_size_ sb
    | (Throw e, _) => e = length_error "asio::streambuf too long" /\
        (max_size_ sb < Z.of_nat (pptr sb - gptr sb) + Z.of_nat n)%Z
    end) as Hcore.
  { intros b p Hpp Htake Hlb. destruct (Nat.ltb_spec (epptr sb - p) n) as [Hlt|Hge].
    - destruct (Z.leb_spec (Z.of_nat n) (max_size_ sb)); cbn [andb]; [|by split; [done|lia]].
      destruct (Z.leb_spec (Z.of_nat p) (max_size_ sb - Z.of_nat n)); [|by split; [done|lia]].
      split_and!; [apply wf_shifted; rewrite ?length_resize; lia|
        by rewrite contents_shifted, take_resize by lia|cbn; lia..|done].
    - split_and!; [apply wf_shifted; lia|by rewrite contents_shifted|cbn; lia..|done]. }
  destruct (Nat.ltb_spec 0 (gptr sb)) as [Hpos|Hzero].
  - specialize (Hcore (move_to_start (gptr sb) (pptr sb - gptr sb) (buffer_ sb)) (pptr sb - gptr sb) eq_refl).
    rewrite take_move, length_move in Hcore by lia. specialize (Hcore eq_refl eq_refl).
    destruct (epptr sb - (pptr sb - gptr sb) <? n); [|exact Hcore]. by destruct (_ && _).
  - specialize (Hcore (buffer_ sb) (pptr sb) ltac:(lia)).
    assert (take (pptr sb) (buffer_ sb) = contents sb) as Hc.
    { unfold data, size. assert (gptr sb = 0) as -> by lia. by rewrite Nat.sub_0_r. }
    specialize (Hcore Hc eq_refl).
    destruct (epptr sb - pptr sb <? n); [|exact Hcore]. by destruct (_ && _).
Qed.

(** A transfer into the prepared region leaves the readable bytes alone. *)
Lemma fill_spec bytes sb : streambuf_wf sb -> length bytes <= epptr sb - pptr sb ->
  streambuf_wf (fill (pptr sb) bytes sb) /\ contents (fill (pptr sb) bytes sb) = contents sb /\
  take (length bytes) (drop (pptr sb) (buffer_ (fill (pptr sb) bytes sb))) = bytes.
Proof.
  intros [Hg He Hp Hl Hm] Hb. split_and!.
  - split; cbn; try done. rewrite !length_app, length_take, length_drop. lia.
  - unfold data, size, fill. cbn. rewrite drop_app_le by (rewrite length_take; lia).
    rewrite take_app_le by (rewrite length_drop, length_take; lia).
    rewrite !take_drop_commute, take_take. do 2 f_equal. lia.
  - cbn. rewrite drop_app_ge by (rewrite length_take; lia).
    rewrite length_take. replace (pptr sb - _) with 0 by lia.
    by rewrite drop_0, take_app_length.
Qed.

(** A further transfer, behind the bytes that are there. *)
Lemma fill_more bytes more sb : streambuf_wf sb -> length bytes + length more <= epptr sb - pptr sb ->
  take (length bytes) (drop (pptr sb) (buffer_ sb)) = bytes ->
  let sb' := fill (pptr sb + length bytes) more sb in
  streambuf_wf sb' /\ contents sb' = contents sb /\
  take (length (bytes ++ more)) (drop (pptr sb') (buffer_ sb')) = bytes ++ more.
Proof.
  intros [Hg He Hp Hl Hm] Hb Htake. cbn. split_and!.
  - split; cbn; try done. rewrite !length_app, length_take, length_drop. lia.
  - unfold data, size, fill. cbn. rewrite drop_app_le by (rewrite length_take; lia).
    rewrite take_app_le by (rewrite length_drop, length_take; lia).
    rewrite !take_drop_commute, take_take. do 2 f_equal. lia.
  - rewrite drop_app_le by (rewrite length_take; lia).
    rewrite skipn_firstn_comm. replace (pptr sb + length bytes - pptr sb) with (length bytes) by lia.
    rewrite Htake, app_assoc. by rewrite take_app_length.
Qed.

(** Publishing [bytes] already stored after [pptr]. *)
Lemma commit_spec bytes sb : streambuf_wf sb -> length bytes <= epptr sb - pptr sb ->
  (Z.of_nat (length bytes) < 2 ^ 31)%Z ->
  take (length bytes) (drop (pptr sb) (buffer_ sb)) = bytes ->
  streambuf_wf (commit (length bytes) sb) /\
  contents (commit (length bytes) sb) = contents sb ++ bytes /\
  max_size_ (commit (length bytes) sb) = max_size_ sb.
Proof.
  intros [Hg He Hp Hl Hm] Hb Hint Htake. unfold commit.
  rewrite Nat.min_l, to_int_small by lia. unfold pbump, setp, setg; cbn.
  replace (Z.to_nat _) with (pptr sb + length bytes) by lia. split_and!; [split; cbn; lia| |done].
  unfold data, size; cbn.
  replace (pptr sb + length bytes - gptr sb) with ((pptr sb - gptr sb) + length bytes) by lia.
  rewrite <- Htake at 2.
  rewrite <- (take_drop (pptr sb - gptr sb) (drop (gptr sb) (buffer_ sb))) at 1.
  rewrite take_app_ge by (rewrite length_take, length_drop; lia). f_equal.
  rewrite drop_drop, length_take, length_drop. f_equal; [lia|]. f_equal. lia.
Qed.

Lemma consume_spec n sb : streambuf_wf sb -> (Z.of_nat (Nat.min n (size sb)) < 2 ^ 31)%Z ->
  streambuf_wf (consume n sb) /\ contents (consume n sb) = drop n (contents sb) /\
  max_size_ (consume n sb) = max_size_ sb.
Proof.
  intros [Hg He Hp Hl Hm] Hint. unfold size in Hint.
  assert (forall m e, m = Nat.min n (pptr sb - gptr sb) -> e <= pptr sb ->
    streambuf_wf (gbump (to_int m) (setg (gptr sb) e sb)) /\
    contents (gbump (to_int m) (setg (gptr sb) e sb)) = drop n (contents sb)) as Hcore.
  { intros m e Hmin Hle. rewrite to_int_small by lia. unfold gbump, setg; cbn.
    replace (Z.to_nat _) with (gptr sb + m) by lia.
    split; [split; cbn; lia|]. unfold data, size; cbn. rewrite skipn_firstn_comm, drop_drop.
    destruct (decide (n <= pptr sb - gptr sb)).
    - f_equal; [lia|f_equal; lia].
    - replace (pptr sb - _) with 0 by lia. replace (pptr sb - gptr sb - n) with 0 by lia. done. }
  assert (forall e, e <= pptr sb ->
    streambuf_wf (gbump (to_int (if pptr sb <? gptr sb + n then pptr sb - gptr sb else n)) (setg (gptr sb) e sb)) /\
    contents (gbump (to_int (if pptr sb <? gptr sb + n then pptr sb - gptr sb else n)) (setg (gptr sb) e sb))
      = drop n (contents sb)) as Hcore2.
  { intros e Hle. apply Hcore; [|done]. destruct (Nat.ltb_spec (pptr sb) (gptr sb + n)); lia. }
  unfold consume. destruct (egptr sb <? pptr sb).
  - destruct (Hcore2 (pptr sb) ltac:(lia)). by split_and!.
  - destruct sb as [b g e p ep m]. destruct (Hcore2 e He). by split_and!.
Qed.

(** Storing one character where there is room. *)
Lemma put_char_spec c sb : streambuf_wf sb -> pptr sb < epptr sb ->
  streambuf_wf (put_char c sb) /\ contents (put_char c sb) = contents sb ++ [c] /\
  max_size_ (put_char c sb) = max_size_ sb.
Proof.
  intros [Hg He Hp Hl Hm] Hlt. unfold put_char, pbump, setp, set_buffer; cbn.
  replace (Z.to_nat _) with (S (pptr sb)) by lia.
  split_and!; [split; cbn; rewrite ?length_insert; lia| |done].
  unfold data, size; cbn. rewrite Nat.sub_succ_l by lia.
  rewrite (take_S_r _ _ c).
  - f_equal. rewrite drop_insert_ge, take_insert_ge by lia. done.
  - rewrite lookup_drop. replace (gptr sb + (pptr sb - gptr sb)) with (pptr sb) by lia.
    apply list_lookup_insert_eq. lia.
Qed.

(** A character is stored unless the buffer holds [max_size()] of them. *)
Lemma sputc_spec c sb : streambuf_wf sb -> (Z.of_nat (size sb) < max_size_ sb)%Z ->
  exists sb', sputc c sb = (Ok tt, sb') /\ streambuf_wf sb' /\ contents sb' = contents sb ++ [c] /\
    max_size_ sb' = max_size_ sb.
Proof.
  intros Hwf Hroom. pose proof Hwf as [Hg He Hp Hl Hm].
  unfold sputc. destruct (Nat.ltb_spec (pptr sb) (epptr sb)) as [Hlt|Hfull].
  { eexists; split; [done|]. by apply put_char_spec. }
  assert (exists n, 1 <= n /\ (Z.of_nat (size sb) + Z.of_nat n <= max_size_ sb)%Z /\
    overflow c sb = (reserve n ;;; modify (put_char c) ;;; ret c) sb) as (n & Hn & Hfit & Heq).
  { unfold overflow, bind, gets. rewrite (proj2 (Nat.eqb_eq (pptr sb) (epptr sb))) by lia.
    rewrite (proj2 (Z.ltb_lt _ _) Hroom); cbn [andb].
    destruct (Z.ltb_spec (max_size_ sb - Z.of_nat (size sb)) (Z.of_nat buffer_delta)).
    - exists (Z.to_nat (max_size_ sb - Z.of_nat (size sb))). split_and!; [lia|lia|done].
    - exists buffer_delta. unfold buffer_delta in *. split_and!; [lia|lia|done]. }
  unfold bind at 1. rewrite Heq. unfold bind, modify, ret.
  pose proof (reserve_spec n sb Hwf) as Hres. destruct (reserve n sb) as [[[]|e] sb'].
  - destruct Hres as (Hwf' & Hc & Hs & Hroom' & Hmax).
    destruct (put_char_spec c sb' Hwf' ltac:(lia)) as (? & Hc' & Hm').
    eexists; split; [done|]. split; [done|]. by rewrite Hc', Hm', Hc, Hmax.
  - lia.
Qed.

(** ** Composite operations *)

(** What a read operation does with the buffer: prepare [n] bytes, let the stream store
    [bytes] there, commit them. *)
Definition transfer (n : nat) (bytes : list ascii) : M streambuf unit :=
  at_ <-- prepare n ;;
  modify (fill at_ bytes) ;;;
  modify (commit (length bytes)).

Lemma transfer_spec n bytes sb : streambuf_wf sb -> length bytes <= n ->
  (Z.of_nat (length bytes) < 2 ^ 31)%Z -> (Z.of_nat (size sb) + Z.of_nat n <= max_size_ sb)%Z ->
  exists sb', transfer n bytes sb = (Ok tt, sb') /\ streambuf_wf sb' /\
    contents sb' = contents sb ++ bytes /\ max_size_ sb' = max_size_ sb.
Proof.
  intros Hwf Hle Hint Hroom. unfold transfer, prepare, bind, gets, modify.
  pose proof (reserve_spec n sb Hwf) as Hres. destruct (reserve n sb) as [[[]|e] sb1]; [|lia].
  destruct Hres as (Hwf1 & Hc1 & Hs1 & Hn1 & Hm1).
  destruct (fill_spec bytes sb1 Hwf1 ltac:(lia)) as (Hwf2 & Hc2 & Htake).
  destruct (commit_spec bytes (fill (pptr sb1) bytes sb1) Hwf2 ltac:(cbn; lia) Hint Htake)
    as (Hwf3 & Hc3 & Hm3).
  eexists; split; [done|]. split_and!; [done| |by rewrite Hm3].
  by rewrite Hc3, Hc2, Hc1.
Qed.

Lemma sputn_spec s sb : streambuf_wf sb ->
  (Z.of_nat (size sb) + Z.of_nat (length s) <= max_size_ sb)%Z ->
  exists sb', sputn s sb = (Ok tt, sb') /\ streambuf_wf sb' /\ contents sb' = contents sb ++ s /\
    max_size_ sb' = max_size_ sb.
Proof.
  revert sb. induction s as [|c s IH]; intros sb Hwf Hroom; cbn [length] in Hroom.
  { exists sb. by rewrite app_nil_r. }
  destruct (sputc_spec c sb Hwf ltac:(lia)) as (sb1 & He1 & Hwf1 & Hc1 & Hm1).
  destruct (IH sb1 Hwf1) as (sb2 & He2 & Hwf2 & Hc2 & Hm2).
  { rewrite Hm1, <- (contents_length sb1) by done. rewrite Hc1, length_app, contents_length by done.
    cbn. lia. }
  exists sb2. cbn. unfold bind. rewrite He1, He2. split_and!; [done..| |by rewrite Hm2].
  by rewrite Hc2, Hc1, <- app_assoc.
Qed.

#[export] Hint Resolve new_streambuf_wf : net.

(** ** Refinement: the buffer is a queue of bytes *)

Inductive buf_op :=
  | Transfer (n : nat) (bytes : list ascii)
  | Consume (n : nat)
  | Write (bytes : list ascii).

Definition run_op (o : buf_op) : M streambuf unit :=
  match o with
  | Transfer n bytes => transfer n bytes
  | Consume n => modify (consume n)
  | Write bytes => sputn bytes
  end.
Fixpoint run_ops (os : list buf_op) : M streambuf unit :=
  match os with
  | [] => ret tt
  | o :: os => run_op o ;;; run_ops os
  end.

(** The specification. *)
Definition queue_op (o : buf_op) (q : list ascii) : list ascii :=
  match o with
  | Transfer _ bytes | Write bytes => q ++ bytes
  | Consume n => drop n q
  end.

(** What an operation may ask of a buffer that holds [q] and at most [max]: no transfer stores
    more than it prepared, what is committed or consumed at once fits the [int] it is cast
    to, and what is held and prepared stays within [max]. *)
Definition op_fits (max : Z) (q : list ascii) (o : buf_op) : bool :=
  match o with
  | Transfer n bytes =>
      (length bytes <=? n) && (Z.of_nat (length bytes) <? 2 ^ 31)%Z && (Z.of_nat (length q) + Z.of_nat n <=? max)%Z
  | Consume n => (Z.of_nat (Nat.min n (length q)) <? 2 ^ 31)%Z
  | Write bytes => (Z.of_nat (length q) + Z.of_nat (length bytes) <=? max)%Z
  end.
Fixpoint ops_fit (max : Z) (q : list ascii) (os : list buf_op) : bool :=
  match os with [] => true | o :: os => op_fits max q o && ops_fit max (queue_op o q) os end.

Lemma run_op_spec o sb : streambuf_wf sb -> op_fits (max_size_ sb) (contents sb) o = true ->
  exists sb', run_op o sb = (Ok tt, sb') /\ streambuf_wf sb' /\ contents sb' = queue_op o (contents sb) /\ max_size_ sb' = max_size_ sb.
Proof.
  intros Hwf Hfit. pose proof (contents_length sb Hwf) as Hlen. destruct o as [n bytes|n|bytes]; cbn [op_fits run_op queue_op] in *.
  - apply andb_prop in Hfit as [[Hle%Nat.leb_le Hint%Z.ltb_lt]%andb_prop Hroom%Z.leb_le]. apply transfer_spec; [done|done|done|lia].
  - apply Z.ltb_lt in Hfit. eexists. split; [done|]. apply consume_spec; [done|lia].
  - apply Z.leb_le in Hfit. apply sputn_spec; [done|lia].
Qed.
Lemma run_ops_spec os sb : streambuf_wf sb -> ops_fit (max_size_ sb) (contents sb) os = true ->
  exists sb', run_ops os sb = (Ok tt, sb') /\ streambuf_wf sb' /\
    contents sb' = foldl (flip queue_op) (contents sb) os /\ max_size_ sb' = max_size_ sb.
Proof.
  revert sb. induction os as [|o os IH]; intros sb Hwf Hfit; [by exists sb|]. cbn [ops_fit] in Hfit.
  apply andb_prop in Hfit as [Ho Hos]. destruct (run_op_spec o sb Hwf Ho) as (sb1 & He1 & Hwf1 & Hc1 & Hm1).
  destruct (IH sb1 Hwf1) as (sb2 & He2 & Hwf2 & Hc2 & Hm2); [by rewrite Hc1, Hm1|].
  exists sb2. cbn. unfold bind. rewrite He1, He2. split_and!; [done..|by rewrite Hc2, Hc1|congruence].
Qed.

(** ** Properties *)

(** C28: the get/put-area implementation of [asio::streambuf] refines a FIFO queue of
    bytes.  On a fresh buffer of any maximum size, a sequence of prepare/commit transfers,
    [consume]s and stream writes, of any length and total, runs without throwing, leaves the
    areas well formed, and [data()] is what the same sequence leaves in the queue - as long
    as each operation fits: it commits or consumes fewer than 2^31 bytes at once (the code
    casts the count to [int]), and what is held and asked for stays within [max_size()].
    Where a [prepare] asks for more than that, it throws [std::length_error]. *)
Theorem streambuf_refines_queue (max : Z) (os : list buf_op) (Hmax : (0 <= max)%Z) (Hfits : ops_fit max [] os = true) :
  exists sb, run_ops os (new_streambuf max) = (Ok tt, sb) /\ streambuf_wf sb /\
    data sb = foldl (fun q o => queue_op o q) [] os /\
    forall n bytes, (max < Z.of_nat (length (data sb)) + Z.of_nat n)%Z ->
      (transfer n bytes sb).1 = Throw (length_error "asio::streambuf too long").
Proof.
  destruct (run_ops_spec os (new_streambuf max) (new_streambuf_wf max Hmax) Hfits) as (sb & He & Hwf & Hc & Hm).
  exists sb. split_and!; [done..|]. intros n bytes Hn. rewrite contents_length in Hn by done. unfold transfer, prepare, bind, gets.
  pose proof (reserve_spec n sb Hwf) as Hres. destruct (reserve n sb) as [[[]|e] sb']; [|by destruct Hres as [-> _]].
  destruct Hres as (Hwf' & _ & Hs & Hroom & Hm'). destruct Hwf' as [Hg _ Hput _ Hend]. unfold size in Hs. rewrite Hm', Hm in Hend.
  cbn in Hend. unfold size in *. lia.
Qed.

Lemma streambuf_refines_queue_witness :
  exists sb, run_ops [Transfer 512 ["a"; "b"; "c"]; Consume 2; Write ["d"]; Consume 1]%char
    default_streambuf = (Ok tt, sb) /\ streambuf_wf sb /\ data sb = ["d"%char].
Proof.
  destruct (streambuf_refines_queue size_max [Transfer 512 ["a"; "b"; "c"]; Consume 2; Write ["d"]; Consume 1]%char)
    as (sb & He & Hwf & Hd & _); [vm_compute; discriminate|vm_compute; reflexivity|].
  exists sb. split; [exact He|]. split; [exact Hwf|exact Hd].
Defined.

(** [prepare(n)] throws [std::length_error] exactly when the readable bytes and the
    requested room together exceed [max_size()]; otherwise the bytes are untouched and
    the put area has room for [n] more. *)
Theorem prepare_exact (n : nat) (sb : streambuf) (Hwf : streambuf_wf sb) :
  if (Z.of_nat (size sb) + Z.of_nat n <=? max_size_ sb)%Z then
    exists sb', prepare n sb = (Ok (pptr sb'), sb') /\ streambuf_wf sb' /\ data sb' = data sb /\
      n <= epptr sb' - pptr sb'
  else exists sb', prepare n sb = (Throw (length_error "asio::streambuf too long"), sb').
Proof.
  pose proof (reserve_spec n sb Hwf) as Hres. pose proof Hwf as [Hg He Hp Hl Hm].
  unfold prepare, bind, gets. destruct (reserve n sb) as [[[]|e] sb'].
  - destruct Hres as (Hwf' & Hc & Hs & Hn & Hmax). destruct Hwf' as [Hg' He' Hp' Hl' Hm'].
    destruct (Z.leb_spec (Z.of_nat (size sb) + Z.of_nat n) (max_size_ sb)) as [|Hlt].
    + exists sb'. by split_and!.
    + exfalso. unfold size in *. rewrite Hmax in Hm'.
      assert (pptr sb' <= pptr sb' + gptr sb') by lia.
      destruct sb as [b g e p ep m], sb' as [b' g' e' p' ep' m']. cbn in *. lia.
  - destruct Hres as [-> Hlt]. destruct (Z.leb_spec (Z.of_nat (size sb) + Z.of_nat n) (max_size_ sb)); [lia|].
    by exists sb'.
Qed.
Lemma prepare_exact_witness :
  exists sb', prepare 9 (new_streambuf 8) = (Throw (length_error "asio::streambuf too long"), sb').
Proof. apply (prepare_exact 9 (new_streambuf 8)). apply new_streambuf_wf. lia. Defined.
