(* ===== verification/ReadUntil.v ===== *)
(** * [asio::async_read_until]: the delimiter search of a composed read

    Models [detail::partial_search], the synchronous [read_until] and
    [detail::read_until_delim_string_op_v1] of [include/asio/impl/read_until.hpp]: the
    operation that [async_read_until] of [network.cpp] starts.  The search resumes where
    the previous one stopped; the theorems show it agrees with a search of the whole
    buffer. *)
From S2P Require Import Prelude Streambuf.
Open Scope nat_scope.

(** ** [partial_search] *)

Inductive match_result := FullMatch | PartialMatch | Mismatch.

(** The inner loop: [test_iter1] runs over [l], [test_iter2] over [delim]; [moved] is
    [test_iter2 != first2]. *)
Fixpoint match_at (l delim : list ascii) (moved : bool) : match_result :=
  match delim with
  | [] => FullMatch
  | d :: delim' =>
      match l with
      | [] => if moved then PartialMatch else Mismatch
      | c :: l' => if decide (c = d) then match_at l' delim' true else Mismatch
      end
  end.

(** The result iterator is an offset; [length l] is [last1]. *)
Fixpoint partial_search (l delim : list ascii) : nat * bool :=
  match l with
  | [] => (0, false)
  | _ :: l' =>
      match match_at l delim false with
      | FullMatch => (0, true)
      | PartialMatch => (0, false)
      | Mismatch => let '(i, full) := partial_search l' delim in (S i, full)
      end
  end.

(** ** The asynchronous operation *)

Definition not_found_pos : Z := size_max.

(** The members of [read_until_delim_string_op_v1] that change. *)
Record until_op := UntilOp { delim_ : list ascii; search_position_ : Z }.

Definition new_until_op (delim : list ascii) : until_op := UntilOp delim 0.

(** The size of the next read; [cap] is the capacity the vector has at the call. *)
Definition read_size (cap : nat) (sb : streambuf) : nat :=
  Z.to_nat (Z.min (Z.max 512 (Z.of_nat (cap - size sb))) (Z.min 65536 (max_size_ sb - Z.of_nat (size sb)))).

(** The block that searches [data()]: the new [search_position_] and [bytes_to_read]. *)
Definition until_search (cap : nat) (op : until_op) (sb : streambuf) : until_op * nat :=
  let first := Z.to_nat (search_position_ op) in
  let '(i, full) := partial_search (drop first (data sb)) (delim_ op) in
  let found := first + i in
  if (found <? size sb) && full then
    (UntilOp (delim_ op) (Z.of_nat (found + length (delim_ op))), 0)
  else if (Z.of_nat (size sb) =? max_size_ sb)%Z then
    (UntilOp (delim_ op) not_found_pos, 0)
  else
    (UntilOp (delim_ op) (Z.of_nat (if found <? size sb then found else size sb)),
     read_size cap sb).

(** One call of [operator()]: the operation suspends in [async_read_some] of [n] bytes
    stored at [at_], or calls its handler. *)
Inductive until_outcome :=
  | ReadSome (op : until_op) (at_ n : nat)
  | Handler (ec : error_code) (n : Z).

Definition until_finish (op : until_op) (ec : error_code) : until_outcome :=
  let nf := (search_position_ op =? not_found_pos)%Z in
  Handler (if nf then Some not_found else ec) (if ec_set ec || nf then 0%Z else search_position_ op).

(** The head of the loop body. *)
Definition until_iterate (cap : nat) (start : bool) (ec : error_code) (op : until_op)
    : M streambuf until_outcome := fun sb =>
  let '(op, bytes_to_read) := until_search cap op sb in
  if negb start && (bytes_to_read =? 0) then ret (until_finish op ec) sb
  else (at_ <-- prepare bytes_to_read ;; ret (ReadSome op at_ bytes_to_read)) sb.

Definition until_start (cap : nat) (op : until_op) : M streambuf until_outcome :=
  until_iterate cap true None op.

(** The call made when the read completes. *)
Definition until_resume (cap : nat) (op : until_op) (ec : error_code) (bytes_transferred : nat)
    (cancelled : bool) : M streambuf until_outcome :=
  modify (commit bytes_transferred) ;;;
  if ec_set ec || (bytes_transferred =? 0) then ret (until_finish op ec)
  else if (cancelled : bool) then ret (until_finish op (Some operation_aborted))
  else until_iterate cap false ec op.

(** ** Driving the operation

    What the stream answers to one [async_read_some]: it stores at most the bytes asked
    for.  The run stops when the answers do. *)
Record read_event := ReadEvent {
  ev_bytes : list ascii;
  ev_error : error_code;
  ev_cancelled : bool;
  ev_capacity : nat;              (** of the vector, when the handler runs *)
}.

Inductive until_result := Pending (op : until_op) | Completed (ec : error_code) (n : Z).

Fixpoint until_drive (evs : list read_event) (o : until_outcome) : M streambuf until_result :=
  match o, evs with
  | Handler ec n, _ => ret (Completed ec n)
  | ReadSome op _ _, [] => ret (Pending op)
  | ReadSome op at_ n, ev :: evs =>
      let bytes := take n (ev_bytes ev) in
      modify (fill at_ bytes) ;;;
      o <-- until_resume (ev_capacity ev) op (ev_error ev) (length bytes) (ev_cancelled ev) ;;
      until_drive evs o
  end.

Definition async_read_until_run (cap : nat) (delim : list ascii) (evs : list read_event)
    : M streambuf until_result :=
  o <-- until_start cap (new_until_op delim) ;; until_drive evs o.

(** ** The synchronous function *)

(** One iteration of [for (;;)]: [Some] is a [return]. *)
Definition sync_search (delim : list ascii) (pos : nat) (sb : streambuf) : nat + nat :=
  let '(i, full) := partial_search (drop pos (data sb)) delim in
  let found := pos + i in
  if found <? size sb then
    if full then inl (found + length delim) else inr found
  else inr (size sb).

(** [read_until(s, b, delim, ec)] on the answers of [read_some]; [None] when they run out. *)
Fixpoint read_until_sync (cap : nat) (delim : list ascii) (evs : list read_event) (pos : nat)
    : M streambuf (option (error_code * nat)) := fun sb =>
  match sync_search delim pos sb with
  | inl n => (Ok (Some (None, n)), sb)
  | inr pos =>
      if (Z.of_nat (size sb) =? max_size_ sb)%Z then (Ok (Some (Some not_found, 0)), sb)
      else
        match evs with
        | [] => (Ok None, sb)
        | ev :: evs =>
            let n := read_size cap sb in
            (at_ <-- prepare n ;;
             let bytes := take n (ev_bytes ev) in
             modify (fill at_ bytes) ;;;
             modify (commit (length bytes)) ;;;
             if ec_set (ev_error ev) then ret (Some (ev_error ev, 0))
             else read_until_sync (ev_capacity ev) delim evs pos) sb
        end
  end.

(** ** Reference: the first occurrence *)

Fixpoint find_first (delim l : list ascii) : option nat :=
  if decide (delim `prefix_of` l) then Some 0
  else match l with
       | [] => None
       | _ :: l' => S <$> find_first delim l'
       end.

Lemma find_first_None delim l :
  find_first delim l = None <-> forall j, ~ delim `prefix_of` drop j l.
Proof.
  induction l as [|c l IH]; cbn.
  - case_decide as Hd; [|by split; [intros _ j; rewrite drop_nil|]].
    split; [done|]. intros Hall. by destruct (Hall 0).
  - case_decide as Hd.
    + split; [done|]. intros Hall. by destruct (Hall 0).
    + rewrite fmap_None, IH. split; [intros Hall [|j]; [done|apply Hall]|intros Hall j; apply (Hall (S j))].
Qed.

Lemma find_first_Some delim l i :
  find_first delim l = Some i <->
  delim `prefix_of` drop i l /\ forall j, j < i -> ~ delim `prefix_of` drop j l.
Proof.
  revert i. induction l as [|c l IH]; intros i; cbn.
  - case_decide as Hd; rewrite ?drop_nil; [|by split; [|intros []]].
    split; [intros [= <-]; split; [done|lia]|].
    intros [_ Hmin]. destruct i; [done|]. exfalso. by apply (Hmin 0 ltac:(lia)).
  - case_decide as Hd.
    + split; [intros [= <-]; split; [done|lia]|].
      intros [_ Hmin]. destruct i; [done|]. exfalso. by apply (Hmin 0 ltac:(lia)).
    + rewrite fmap_Some. split.
      * intros (i' & Hi & ->). apply IH in Hi as [Ho Hmin]. split; [done|].
        intros [|j] Hj; [done|]. apply (Hmin j). lia.
      * intros [Ho Hmin]. destruct i as [|i]; [done|]. exists i. split; [|done]. apply IH.
        split; [done|]. intros j Hj. apply (Hmin (S j)). lia.
Qed.

(** ** [partial_search] against the reference *)

Lemma match_at_full l delim moved :
  match_at l delim moved = FullMatch <-> delim `prefix_of` l.
Proof.
  revert l moved. induction delim as [|d delim IH]; intros [|c l] moved; cbn.
  - split; [intros; apply prefix_nil|done].
  - split; [intros; apply prefix_nil|done].
  - split; [by destruct moved|intros H; by apply prefix_nil_not in H].
  - case_decide as Hd.
    + subst d. rewrite IH. split; [apply prefix_cons|apply prefix_cons_inv_2].
    + split; [done|]. intros H. by apply prefix_cons_inv_1 in H.
Qed.

Lemma match_at_partial l delim moved :
  match_at l delim moved = PartialMatch -> length l < length delim.
Proof.
  revert l moved. induction delim as [|d delim IH]; intros [|c l] moved; cbn; try done; try lia.
  case_decide; [|done]. intros H1%IH. lia.
Qed.

(** A mismatch stays one when more bytes arrive. *)
Lemma match_at_mismatch l delim moved ext :
  match_at l delim moved = Mismatch -> moved = true \/ l <> [] -> ~ delim `prefix_of` l ++ ext.
Proof.
  revert l moved. induction delim as [|d delim IH]; intros [|c l] moved; cbn; try done.
  - intros ? [->|]; done.
  - case_decide as Hd.
    + subst d. intros Hm _ Hp%prefix_cons_inv_2. eapply IH; [done|by left|done].
    + intros _ _ Hp%prefix_cons_inv_1. done.
Qed.

(** No occurrence of [delim] starts before [p], whatever bytes follow [l]. *)
Definition excluded (delim l : list ascii) (p : nat) : Prop :=
  forall j ext, j < p -> ~ delim `prefix_of` drop j (l ++ ext).

Lemma partial_search_spec delim l i full : delim <> [] -> partial_search l delim = (i, full) ->
  i <= length l /\ excluded delim l i /\
  (if full then i < length l /\ delim `prefix_of` drop i l
   else forall j, ~ delim `prefix_of` drop j l).
Proof.
  intros Hne. revert i full. induction l as [|c l IH]; intros i full; cbn [partial_search].
  { intros [= <- <-]. split_and!; [cbn; lia|intros j ext; lia|].
    intros j. rewrite drop_nil. intros H%prefix_nil_inv. done. }
  destruct (match_at (c :: l) delim false) eqn:Hm.
  - intros [= <- <-]. apply match_at_full in Hm. cbn. split_and!; [lia|intros j ext; lia|lia|done].
  - intros [= <- <-]. apply match_at_partial in Hm. split_and!; [lia|intros j ext; lia|].
    intros j Hp%prefix_length. rewrite length_drop in Hp. lia.
  - destruct (partial_search l delim) as [i' full'] eqn:Hps. intros [= <- <-].
    destruct (IH _ _ eq_refl) as (Hle & Hex & Hres). cbn [length]. split_and!; [lia| |].
    + intros [|j] ext Hj; [by eapply match_at_mismatch; eauto|]. cbn. apply Hex. lia.
    + destruct full'; [split; [lia|by destruct Hres]|]. intros [|j]; [|apply Hres].
      rewrite drop_0. rewrite <- (app_nil_r (c :: l)). by eapply match_at_mismatch; eauto.
Qed.

(** Searching from an excluded position finds what a search of everything finds. *)
Lemma search_from delim l p i full : delim <> [] -> p <= length l -> excluded delim l p ->
  partial_search (drop p l) delim = (i, full) ->
  p + i <= length l /\ excluded delim l (p + i) /\
  (if full then p + i < length l /\ find_first delim l = Some (p + i)
   else find_first delim l = None).
Proof.
  intros Hne Hp Hex Hps. apply partial_search_spec in Hps as (Hle & Hex' & Hres); [|done].
  rewrite length_drop in Hle, Hres.
  assert (excluded delim l (p + i)) as Hexc.
  { intros j ext Hj. destruct (decide (j < p)); [by apply Hex|].
    specialize (Hex' (j - p) ext ltac:(lia)).
    rewrite <- drop_app_le, drop_drop in Hex' by lia. by replace (p + (j - p)) with j in Hex' by lia. }
  split_and!; [lia|done|]. destruct full.
  - destruct Hres as [Hlt Hocc]. split; [lia|]. apply find_first_Some. rewrite drop_drop in Hocc.
    split; [done|]. intros j Hj. rewrite <- (app_nil_r l). by apply Hexc.
  - apply find_first_None. intros j. destruct (decide (j < p)).
    + rewrite <- (app_nil_r l). by apply Hex.
    + specialize (Hres (j - p)). rewrite drop_drop in Hres. by replace (p + (j - p)) with j in Hres by lia.
Qed.

Lemma excluded_app delim l p ext : excluded delim l p -> excluded delim (l ++ ext) p.
Proof. intros Hex j ext' Hj. rewrite <- app_assoc. by apply Hex. Qed.
#[export] Hint Resolve excluded_app : net.

(** ** The operation against the reference *)

Definition spec_result : Type := option (error_code * Z) * list ascii.

(** What the operation answers once [delim] is not in the bytes [q] it has: it looks
    again after each read, and an error or a cancellation wins over a match; [max] bytes
    without one are an error. *)
Fixpoint until_spec_loop (max : Z) (delim q : list ascii) (evs : list read_event) : spec_result :=
  match evs with
  | [] => (None, q)
  | ev :: evs =>
      let q := q ++ ev_bytes ev in
      if ec_set (ev_error ev) then (Some (ev_error ev, 0%Z), q)
      else if ev_cancelled ev then (Some (Some operation_aborted, 0%Z), q)
      else match find_first delim q with
           | Some i => (Some (None, Z.of_nat (i + length delim)), q)
           | None =>
               if (Z.of_nat (length q) =? max)%Z then (Some (Some not_found, 0%Z), q)
               else until_spec_loop max delim q evs
           end
  end.

(** When it is there already, or there is no room for it, one read of no bytes still comes
    first. *)
Definition until_spec (max : Z) (delim q : list ascii) (evs : list read_event) : spec_result :=
  match find_first delim q, evs with
  | None, _ =>
      if (Z.of_nat (length q) =? max)%Z then (match evs with [] => None | _ => Some (Some not_found, 0%Z) end, q)
      else until_spec_loop max delim q evs
  | Some i, [] => (None, q)
  | Some i, ev :: _ =>
      (Some (ev_error ev, if ec_set (ev_error ev) then 0%Z else Z.of_nat (i + length delim)), q)
  end.

(** The bytes a read may store when [q] are held, in a vector of capacity [cap]. *)
Definition read_limit (max : Z) (cap q : nat) : nat :=
  Z.to_nat (Z.min (Z.max 512 (Z.of_nat (cap - q))) (Z.min 65536 (max - Z.of_nat q))).
(** The stream stores something unless it reports an error, and never more than it was asked
    for. *)
Fixpoint events_ok (max : Z) (cap q : nat) (evs : list read_event) : bool :=
  match evs with
  | [] => true
  | ev :: evs =>
      (length (ev_bytes ev) <=? read_limit max cap q) && (ec_set (ev_error ev) || negb (length (ev_bytes ev) =? 0)) &&
      events_ok max (ev_capacity ev) (q + length (ev_bytes ev)) evs
  end.
Definition received (evs : list read_event) : nat := sum_list_with (fun ev => length (ev_bytes ev)) evs.

Definition agrees (r : until_result) (s : option (error_code * Z)) : Prop :=
  match r, s with
  | Pending _, None => True
  | Completed ec n, Some (ec', n') => ec = ec' /\ n = n'
  | _, _ => False
  end.

(** The position is where an occurrence may still start. *)
Definition op_inv (op : until_op) (delim l : list ascii) (p : nat) : Prop :=
  op = UntilOp delim (Z.of_nat p) /\ p <= length l /\ excluded delim l p.

(** A position is never the one that stands for "not found". *)
Definition sb_ok (sb : streambuf) (more : nat) : Prop :=
  streambuf_wf sb /\ (Z.of_nat (size sb + more) < size_max)%Z.
Definition full (sb : streambuf) : bool := (Z.of_nat (size sb) =? max_size_ sb)%Z.

Lemma size_within sb : streambuf_wf sb -> (Z.of_nat (size sb) <= max_size_ sb)%Z.
Proof. intros [Hg _ Hp _ Hm]. unfold size. lia. Qed.
Lemma read_size_limit cap sb : read_size cap sb = read_limit (max_size_ sb) cap (size sb).
Proof. done. Qed.
Lemma read_size_fits cap sb : streambuf_wf sb -> full sb = false ->
  0 < read_size cap sb /\ (Z.of_nat (read_size cap sb) <= 65536)%Z /\ (Z.of_nat (size sb) + Z.of_nat (read_size cap sb) <= max_size_ sb)%Z.
Proof. intros Hwf Hf%Z.eqb_neq. pose proof (size_within sb Hwf). unfold read_size. lia. Qed.

Lemma until_search_spec cap op delim sb p : delim <> [] -> streambuf_wf sb ->
  op_inv op delim (data sb) p ->
  match find_first delim (data sb) with
  | Some i => until_search cap op sb = (UntilOp delim (Z.of_nat (i + length delim)), 0)
  | None =>
      if full sb then until_search cap op sb = (UntilOp delim not_found_pos, 0)
      else exists p', until_search cap op sb = (UntilOp delim (Z.of_nat p'), read_size cap sb) /\
        op_inv (UntilOp delim (Z.of_nat p')) delim (data sb) p'
  end.
Proof.
  intros Hne Hwf (-> & Hp & Hex). unfold until_search; cbn [delim_ search_position_]. rewrite Nat2Z.id.
  pose proof (contents_length sb Hwf) as Hlen. destruct (partial_search (drop p (data sb)) delim) as [i found] eqn:Hps.
  destruct (search_from _ _ _ _ _ Hne Hp Hex Hps) as (Hle & Hex' & Hres). fold (full sb). destruct found.
  - destruct Hres as [Hlt ->]. rewrite (proj2 (Nat.ltb_lt _ _)) by lia. done.
  - rewrite Hres, andb_false_r. destruct (full sb); [done|]. eexists. split; [done|].
    split; [done|]. destruct (Nat.ltb_spec (p + i) (size sb)); [done|].
    replace (size sb) with (p + i) by lia. done.
Qed.

Lemma until_finish_spec delim p ec : (Z.of_nat p < size_max)%Z ->
  until_finish (UntilOp delim (Z.of_nat p)) ec = Handler ec (if ec_set ec then 0%Z else Z.of_nat p).
Proof.
  intros Hp. unfold until_finish; cbn [search_position_].
  assert ((Z.of_nat p =? not_found_pos)%Z = false) as -> by (apply Z.eqb_neq; unfold not_found_pos; lia).
  by rewrite orb_false_r.
Qed.
Lemma until_not_found delim ec : until_finish (UntilOp delim not_found_pos) ec = Handler (Some not_found) 0.
Proof. unfold until_finish; cbn [search_position_]. rewrite Z.eqb_refl. by rewrite orb_true_r. Qed.
(** Where an occurrence ends. *)
Lemma found_within delim sb more i : sb_ok sb more -> delim <> [] -> find_first delim (data sb) = Some i ->
  (Z.of_nat (i + length delim) < size_max)%Z.
Proof.
  intros [Hwf Hint] Hne [Hocc%prefix_length _]%find_first_Some. rewrite length_drop, contents_length in Hocc by done.
  destruct delim; [done|]. cbn [length] in *. lia.
Qed.

Lemma prepare_ok n sb more : sb_ok sb more -> (Z.of_nat (size sb) + Z.of_nat n <= max_size_ sb)%Z ->
  exists sb', prepare n sb = (Ok (pptr sb'), sb') /\ sb_ok sb' more /\ data sb' = data sb /\
    size sb' = size sb /\ max_size_ sb' = max_size_ sb /\ n <= epptr sb' - pptr sb'.
Proof.
  intros (Hwf & Hint) Hn. pose proof (reserve_spec n sb Hwf) as Hres. unfold prepare, bind, gets.
  destruct (reserve n sb) as [[[]|e] sb']; [|lia]. destruct Hres as (? & ? & Hs & ? & ?).
  exists sb'. split_and!; [done| |done..]. split; [done|by rewrite Hs].
Qed.

Lemma until_iterate_spec cap start op delim sb p more : delim <> [] -> sb_ok sb more ->
  op_inv op delim (data sb) p ->
  exists o sb', until_iterate cap start None op sb = (Ok o, sb') /\ sb_ok sb' more /\
    data sb' = data sb /\ size sb' = size sb /\ max_size_ sb' = max_size_ sb /\
    match find_first delim (data sb) with
    | Some i => let op := UntilOp delim (Z.of_nat (i + length delim)) in
        o = if (start : bool) then ReadSome op (pptr sb') 0 else Handler None (Z.of_nat (i + length delim))
    | None =>
        if full sb then
          o = if (start : bool) then ReadSome (UntilOp delim not_found_pos) (pptr sb') 0 else Handler (Some not_found) 0
        else exists p', o = ReadSome (UntilOp delim (Z.of_nat p')) (pptr sb') (read_size cap sb) /\
          read_size cap sb <= epptr sb' - pptr sb' /\ op_inv (UntilOp delim (Z.of_nat p')) delim (data sb) p'
    end.
Proof.
  intros Hne Hok Hinv. pose proof Hok as (Hwf & Hint). pose proof (until_search_spec cap op delim sb p Hne Hwf Hinv) as Hs.
  unfold until_iterate. pose proof (fun n => prepare_ok n sb more Hok) as Hprep. pose proof (size_within sb Hwf) as Hin.
  destruct (Hprep 0 ltac:(lia)) as (sb0 & He0 & Hok0 & Hd0 & Hs0 & Hm0 & _).
  destruct (find_first delim (data sb)) as [i|] eqn:Hf.
  - rewrite Hs. destruct start; cbn [negb andb Nat.eqb].
    + eexists _, sb0. unfold bind. rewrite He0. by split_and!.
    + eexists _, sb. split_and!; [done..|]. by rewrite until_finish_spec by by apply (found_within delim sb more).
  - destruct (full sb) eqn:Hfull.
    + rewrite Hs. destruct start; cbn [negb andb Nat.eqb].
      * eexists _, sb0. unfold bind. rewrite He0. by split_and!.
      * eexists _, sb. split_and!; [done..|]. apply until_not_found.
    + destruct Hs as (p' & -> & Hinv'). destruct (read_size_fits cap sb Hwf Hfull) as (Hpos & _ & Hfit).
      destruct (Hprep _ Hfit) as (sb' & He & Hok' & Hd & Hsz & Hm & Hroom).
      rewrite (proj2 (Nat.eqb_neq (read_size cap sb) 0)), andb_false_r by lia.
      eexists _, sb'. unfold bind. rewrite He. split_and!; [done..|]. by eexists.
Qed.

(** Storing and committing an answer. *)
Lemma store_spec bytes sb more : sb_ok sb (length bytes + more) -> (Z.of_nat (length bytes) < 2 ^ 31)%Z ->
  length bytes <= epptr sb - pptr sb ->
  let sb' := commit (length bytes) (fill (pptr sb) bytes sb) in
  sb_ok sb' more /\ data sb' = data sb ++ bytes /\ size sb' = size sb + length bytes /\ max_size_ sb' = max_size_ sb.
Proof.
  intros (Hwf & Hint) Hint32 Hroom sb'. destruct (fill_spec bytes sb Hwf Hroom) as (Hwf1 & Hc1 & Ht).
  destruct (commit_spec bytes (fill (pptr sb) bytes sb) Hwf1 Hroom Hint32 Ht) as (Hwf2 & Hc2 & Hm2). fold sb' in Hwf2, Hc2, Hm2.
  assert (size sb' = size sb + length bytes) as Hs.
  { rewrite <- !contents_length by done. by rewrite Hc2, Hc1, length_app. }
  split_and!; [split; [done|rewrite Hs; lia]|by rewrite Hc2, Hc1|done|done].
Qed.

(** An answer is no more than was asked for, which fits. *)
Lemma event_within max cap q ev evs : events_ok max cap q (ev :: evs) = true ->
  length (ev_bytes ev) <= read_limit max cap q /\ (Z.of_nat (length (ev_bytes ev)) < 2 ^ 31)%Z /\
  (ec_set (ev_error ev) = false -> (length (ev_bytes ev) =? 0) = false) /\
  events_ok max (ev_capacity ev) (q + length (ev_bytes ev)) evs = true.
Proof.
  cbn [events_ok]. intros [[Hl%Nat.leb_le Hne]%andb_prop Hevs]%andb_prop. split_and!; [done| | |done].
  - unfold read_limit in Hl. lia.
  - intros Hec. rewrite Hec in Hne. by apply negb_true_iff.
Qed.

Lemma until_drive_spec evs cap delim sb n p : delim <> [] -> events_ok (max_size_ sb) cap (size sb) evs = true ->
  sb_ok sb (received evs) -> n = read_limit (max_size_ sb) cap (size sb) -> n <= epptr sb - pptr sb ->
  op_inv (UntilOp delim (Z.of_nat p)) delim (data sb) p ->
  exists r sb', until_drive evs (ReadSome (UntilOp delim (Z.of_nat p)) (pptr sb) n) sb = (Ok r, sb') /\
    agrees r (until_spec_loop (max_size_ sb) delim (data sb) evs).1 /\
    data sb' = (until_spec_loop (max_size_ sb) delim (data sb) evs).2.
Proof.
  intros Hne. revert cap sb n p. induction evs as [|ev evs IH];
    intros cap sb n p Hevs Hok Hn Hroom Hinv; cbn [until_drive until_spec_loop].
  { by eexists _, _. }
  destruct (event_within _ _ _ _ _ Hevs) as (Hlen & Hint32 & Hev & Hevs'). rewrite take_ge by lia.
  change (received (ev :: evs)) with (length (ev_bytes ev) + received evs) in Hok.
  destruct (store_spec (ev_bytes ev) sb _ Hok Hint32 ltac:(lia)) as (Hok1 & Hd1 & Hs1 & Hm1).
  set (sb1 := commit _ _) in *. cbn zeta. unfold bind at 1, modify at 1.
  unfold until_resume, bind at 1 2, modify at 1. fold sb1.
  destruct Hinv as (_ & Hp & Hex). pose proof Hok1 as (Hwf1 & Hint1).
  pose proof (contents_length sb1 Hwf1) as Hl. rewrite Hd1, length_app in Hl.
  assert (Z.of_nat p < size_max)%Z as Hpmax by lia.
  destruct (ec_set (ev_error ev)) eqn:Hec; cbn [orb] in *.
  { unfold ret at 1. rewrite until_finish_spec, Hec by done. destruct evs; by eexists _, _. }
  rewrite Hev by done. destruct (ev_cancelled ev).
  { unfold ret at 1. rewrite until_finish_spec by done. destruct evs; by eexists _, _. }
  assert (op_inv (UntilOp delim (Z.of_nat p)) delim (data sb1) p) as Hinv1.
  { rewrite Hd1. split_and!; [done|rewrite length_app; lia|auto with net]. }
  destruct (ev_error ev); [done|].
  destruct (until_iterate_spec (ev_capacity ev) false _ delim sb1 p _ Hne Hok1 Hinv1)
    as (o & sb2 & -> & Hok2 & Hd2 & Hs2 & Hm2 & Hres).
  rewrite <- Hd1.
  assert ((Z.of_nat (length (data sb1)) =? max_size_ sb)%Z = full sb1) as -> by (unfold full; by rewrite contents_length, Hm1).
  destruct (find_first delim (data sb1)) as [i|] eqn:Hf.
  - rewrite Hres. destruct evs; by eexists _, _.
  - destruct (full sb1); [rewrite Hres; destruct evs; by eexists _, _|].
    destruct Hres as (p' & -> & Hroom' & Hinv'). rewrite <- Hd2, <- Hm1, <- Hm2.
    apply (IH (ev_capacity ev)); rewrite ?Hd2, ?Hs2, ?Hm2, ?Hs1, ?Hm1; try done. rewrite <- Hs1, <- Hm1. apply read_size_limit.
Qed.

(** ** The synchronous function against the reference *)

Definition sync_agrees (r : option (error_code * nat)) (s : option (error_code * Z)) : Prop :=
  prod_map id Z.of_nat <$> r = s.

Lemma read_until_sync_spec evs cap delim sb p : delim <> [] ->
  events_ok (max_size_ sb) cap (size sb) evs = true -> forallb (fun ev => negb (ev_cancelled ev)) evs = true ->
  sb_ok sb (received evs) -> p <= length (data sb) -> excluded delim (data sb) p ->
  exists r sb', read_until_sync cap delim evs p sb = (Ok r, sb') /\
    match find_first delim (data sb) with
    | Some i => r = Some (None, i + length delim) /\ sb' = sb
    | None =>
        if full sb then r = Some (Some not_found, 0) /\ sb' = sb
        else sync_agrees r (until_spec_loop (max_size_ sb) delim (data sb) evs).1 /\
          data sb' = (until_spec_loop (max_size_ sb) delim (data sb) evs).2
    end.
Proof.
  intros Hne. revert cap sb p. induction evs as [|ev evs IH]; intros cap sb p Hevs Hcancel Hok Hp Hex.
  all: pose proof Hok as (Hwf & Hint);
    pose proof (contents_length sb Hwf) as Hlen; cbn [read_until_sync]; unfold sync_search;
    destruct (partial_search (drop p (data sb)) delim) as [i found] eqn:Hps;
    destruct (search_from _ _ _ _ _ Hne Hp Hex Hps) as (Hle & Hex' & Hres); fold (full sb).
  all: destruct found; [destruct Hres as [Hlt ->]; rewrite (proj2 (Nat.ltb_lt _ _)) by lia; by eexists _, _|].
  all: rewrite Hres.
  { destruct (p + i <? size sb); destruct (full sb); by eexists _, _. }
  assert (exists q, (if p + i <? size sb then inr (p + i) else inr (size sb)) = inr q :> nat + nat /\
    q <= length (data sb) /\ excluded delim (data sb) q) as (q & -> & Hq & Hexq).
  { destruct (Nat.ltb_spec (p + i) (size sb)); [by exists (p + i)|].
    exists (size sb). replace (size sb) with (p + i) by lia. split_and!; [done|lia|done]. }
  destruct (full sb) eqn:Hfull; [by eexists _, _|].
  destruct (event_within _ _ _ _ _ Hevs) as (Hl5 & Hint32 & Hev & Hevs').
  cbn [forallb] in Hcancel. apply andb_prop in Hcancel as [Hc%negb_true_iff Hcancel].
  change (received (ev :: evs)) with (length (ev_bytes ev) + received evs) in Hok.
  destruct (read_size_fits cap sb Hwf Hfull) as (_ & _ & Hfit). rewrite <- read_size_limit in Hl5.
  destruct (prepare_ok (read_size cap sb) sb _ Hok Hfit) as (sb1 & Hprep & Hok1 & Hd1 & Hs1 & Hm1 & Hroom).
  destruct (store_spec (ev_bytes ev) sb1 _ Hok1 Hint32 ltac:(lia)) as (Hok2 & Hd2 & Hs2 & Hm2).
  unfold bind at 1. rewrite Hprep. cbn zeta. rewrite take_ge by lia.
  unfold bind, modify. cbn [until_spec_loop]. rewrite Hc.
  destruct (ec_set (ev_error ev)) eqn:Hec.
  { eexists _, _. rewrite Hd2, Hd1. by split_and!. }
  set (sb2 := commit _ _) in *. rewrite Hd1 in Hd2. rewrite <- Hd2.
  assert ((Z.of_nat (length (data sb2)) =? max_size_ sb)%Z = full sb2) as -> by (unfold full; by rewrite contents_length, Hm2, Hm1 by apply Hok2).
  destruct (IH (ev_capacity ev) sb2 q) as (r & sb' & He & Hr); [by rewrite Hs2, Hs1, Hm2, Hm1|done|done|rewrite Hd2, length_app; lia|rewrite Hd2; auto with net|].
  exists r, sb'. split; [done|]. rewrite Hm2, Hm1 in Hr. destruct (find_first delim (data sb2)); [by destruct Hr as [-> ->]|].
  destruct (full sb2); [by destruct Hr as [-> ->]|done].
Qed.

(** *** The whole operation *)

Lemma async_run_spec (cap : nat) (delim : list ascii) (evs : list read_event) (sb : streambuf)
  (Hne : delim <> []) (Hwf : streambuf_wf sb) (Hevs : events_ok (max_size_ sb) cap (size sb) evs = true)
  (Hroom : (Z.of_nat (size sb + received evs) < size_max)%Z) :
  exists r sb', async_read_until_run cap delim evs sb = (Ok r, sb') /\
    agrees r (until_spec (max_size_ sb) delim (data sb) evs).1 /\ data sb' = (until_spec (max_size_ sb) delim (data sb) evs).2.
Proof.
  assert (sb_ok sb (received evs)) as Hok by done. unfold async_read_until_run, until_start, bind, until_spec.
  destruct (until_iterate_spec cap true (new_until_op delim) delim sb 0 _ Hne Hok)
    as (o & sb1 & -> & Hok1 & Hd1 & Hs1 & Hm1 & Hres).
  { split_and!; [done|lia|intros j ext; lia]. }
  assert ((Z.of_nat (length (data sb)) =? max_size_ sb)%Z = full sb) as -> by (unfold full; by rewrite contents_length).
  assert (forall op ev (evs' : list read_event), exists sb', until_drive (ev :: evs') (ReadSome op (pptr sb1) 0) sb1 =
      until_drive evs' (until_finish op (ev_error ev)) sb' /\ data sb' = data sb1) as Hzero.
  { intros op ev evs'. cbn [until_drive]. rewrite take_0. cbn [length]. cbn zeta. eexists. split.
    - unfold bind, modify, until_resume, ret. rewrite orb_true_r. reflexivity.
    - assert (sb_ok sb1 (length (A := ascii) [] + 0)) as Hok0 by (destruct Hok1; split; [done|cbn; lia]).
      destruct (store_spec [] sb1 0 Hok0 ltac:(done) ltac:(cbn; lia)) as (_ & Hd & _). rewrite app_nil_r in Hd. exact Hd. }
  destruct (find_first delim (data sb)) as [i|] eqn:Hf.
  - rewrite Hres. destruct evs as [|ev evs]; [by eexists _, _|].
    destruct (Hzero (UntilOp delim (Z.of_nat (i + length delim))) ev evs) as (sb2 & -> & Hd2).
    rewrite until_finish_spec by by apply (found_within delim sb (received (ev :: evs))). eexists _, sb2. split; [by destruct evs|].
    split; [by destruct (ev_error ev)|]. by rewrite Hd2, Hd1.
  - destruct (full sb) eqn:Hfull.
    + rewrite Hres. destruct evs as [|ev evs]; [by eexists _, _|].
      destruct (Hzero (UntilOp delim not_found_pos) ev evs) as (sb2 & -> & Hd2).
      rewrite until_not_found. eexists _, sb2. split; [by destruct evs|]. split; [done|]. by rewrite Hd2, Hd1.
    + destruct Hres as (p' & -> & Hroom' & Hinv). rewrite <- Hd1, <- Hm1.
      apply (until_drive_spec evs cap); rewrite ?Hd1, ?Hs1, ?Hm1; done.
Qed.

(** ** Properties *)

(** [detail::partial_search] returns [(i, true)] exactly for the first occurrence [i]
    of a non-empty delimiter, and otherwise [(i, false)] where no occurrence can start
    before [i] even when more bytes follow. *)
Theorem partial_search_correct (l delim : list ascii) (Hne : delim <> []) :
  match partial_search l delim with
  | (i, true) => find_first delim l = Some i
  | (i, false) => find_first delim l = None /\ i <= length l /\
      forall ext j, find_first delim (l ++ ext) = Some j -> i <= j
  end.
Proof.
  destruct (partial_search l delim) as [i full] eqn:Hps.
  destruct (search_from delim l 0 i full Hne ltac:(lia)) as (Hle & Hex & Hres); [intros j ext; lia|done|].
  destruct full; [by destruct Hres|]. split_and!; [done|done|].
  intros ext j [Hocc _]%find_first_Some. destruct (decide (i <= j)); [done|].
  destruct (Hex j ext ltac:(lia) Hocc).
Qed.
Lemma partial_search_correct_witness :
  find_first ["b"; "c"]%char ["a"; "b"; "b"; "c"]%char = Some 2.
Proof. apply (partial_search_correct ["a"; "b"; "b"; "c"]%char ["b"; "c"]%char). discriminate. Defined.

Definition sample_event (s : list ascii) : read_event := ReadEvent s None false 0.

(** The synchronous [read_until] and the asynchronous operation agree: on a buffer
    that does not yet hold the pattern and is not full, the same answers of the stream give
    the same error code, the same count and the same buffered bytes. *)
Theorem read_until_sync_async (cap : nat) (delim : list ascii) (evs : list read_event) (sb : streambuf)
  (Hne : delim <> []) (Hwf : streambuf_wf sb) (Hmax : (Z.of_nat (size sb) < max_size_ sb)%Z)
  (Hnew : find_first delim (data sb) = None)
  (Hevs : events_ok (max_size_ sb) cap (size sb) evs = true) (Hcancel : forallb (fun ev => negb (ev_cancelled ev)) evs = true)
  (Hroom : (Z.of_nat (size sb + received evs) < size_max)%Z) :
  exists r sb1 r' sb2, read_until_sync cap delim evs 0 sb = (Ok r, sb1) /\
    async_read_until_run cap delim evs sb = (Ok r', sb2) /\ data sb1 = data sb2 /\
    agrees r' (prod_map id Z.of_nat <$> r).
Proof.
  assert (sb_ok sb (received evs)) as Hok by done. assert (full sb = false) as Hfull by (apply Z.eqb_neq; lia).
  assert (excluded delim (data sb) 0) as Hex by (intros j ext; lia).
  destruct (read_until_sync_spec evs cap delim sb 0 Hne Hevs Hcancel Hok ltac:(lia) Hex) as (r & sb1 & He & Hr).
  rewrite Hnew, Hfull in Hr. destruct Hr as [Hr Hd].
  destruct (async_run_spec cap delim evs sb Hne Hwf Hevs Hroom) as (r' & sb2 & He2 & Ha & Hd2).
  unfold until_spec in Ha, Hd2. rewrite Hnew, contents_length in Ha, Hd2 by done. fold (full sb) in Ha, Hd2. rewrite Hfull in Ha, Hd2.
  exists r, sb1, r', sb2. split_and!; [done|done|congruence|]. by rewrite Hr.
Qed.
Lemma read_until_sync_async_witness :
  exists r sb1 r' sb2, read_until_sync 0 ["d"]%char [sample_event ["a"; "d"]%char] 0 default_streambuf = (Ok r, sb1) /\
    async_read_until_run 0 ["d"]%char [sample_event ["a"; "d"]%char] default_streambuf = (Ok r', sb2) /\
    data sb1 = data sb2 /\ agrees r' (prod_map id Z.of_nat <$> r).
Proof.
  apply (read_until_sync_async 0 ["d"]%char [sample_event ["a"; "d"]%char] default_streambuf);
    [discriminate|apply new_streambuf_wf; discriminate|reflexivity..].
Defined.
