(* ===== verification/Transfer.v ===== *)
(** * [asio::read], [asio::write] and their asynchronous operations

    Models the loops of [include/asio/impl/read.hpp] and [impl/write.hpp] over
    [detail/consuming_buffers.hpp] (one buffer, which is all the program passes) with the
    completion condition [transfer_all_t].  The stream is a parameter: [some_io offset n]
    is one [read_some] or [write_some] on the [n] bytes at [offset] of the buffer. *)
From S2P Require Import Prelude.
Open Scope nat_scope.

(** ** [detail::consuming_single_buffer] *)

Record consuming := Consuming { buffer_size : nat; total_consumed : nat }.

Definition new_consuming (size : nat) : consuming := Consuming size 0.
Definition consuming_empty (c : consuming) : bool := buffer_size c <=? total_consumed c.

(** [asio::buffer(buffer_ + total_consumed_, max_size)]: an offset and a length. *)
Definition prepare (max_size : Z) (c : consuming) : nat * nat :=
  let off := Nat.min (total_consumed c) (buffer_size c) in
  (off, Z.to_nat (Z.min (Z.of_nat (buffer_size c - off)) max_size)).
Definition consume (n : nat) (c : consuming) : consuming :=
  Consuming (buffer_size c) (total_consumed c + n).

(** ** The completion condition *)

Definition default_max_transfer_size : Z := 65536.
Definition transfer_all (ec : error_code) (bytes_transferred : nat) : Z :=
  if ec_set ec then 0%Z else default_max_transfer_size.
Definition check_for_completion (ec : error_code) (total_transferred : nat) : Z :=
  transfer_all ec total_transferred.

Section device.
  Context {S : Type} (some_io : nat -> nat -> S -> (nat * error_code) * S).

(** ** The synchronous loops *)

(** [while (!tmp.empty()) ...]; [None] when the fuel runs out. *)
Fixpoint transfer_loop (fuel : nat) (c : consuming) (ec : error_code) (s : S)
    : option (error_code * nat * S) :=
  match fuel with
  | 0 => None
  | Datatypes.S fuel =>
      if consuming_empty c then Some (ec, total_consumed c, s)
      else
        let max_size := transfer_all ec (total_consumed c) in
        if (max_size =? 0)%Z then Some (ec, total_consumed c, s)
        else
          let '(off, n) := prepare max_size c in
          let '((k, ec), s) := some_io off n s in
          transfer_loop fuel (consume k c) ec s
  end.

Definition read_buffer_seq (fuel size : nat) (s : S) : option (error_code * nat * S) :=
  transfer_loop fuel (new_consuming size) None s.
Definition write (fuel size : nat) (s : S) : option (error_code * nat * S) :=
  transfer_loop fuel (new_consuming size) None s.

(** ** The asynchronous operations *)

Inductive op_outcome :=
  | SomeIo (c : consuming) (off n : nat)
  | OpHandler (ec : error_code) (n : nat).

Definition op_issue (c : consuming) (max_size : Z) : op_outcome :=
  let '(off, n) := prepare max_size c in SomeIo c off n.

(** [operator()] with [start == 1]. *)
Definition op_start (size : nat) : op_outcome :=
  let c := new_consuming size in op_issue c (check_for_completion None (total_consumed c)).

(** [operator()] when the stream's operation completes. *)
Definition op_resume (c : consuming) (ec : error_code) (bytes_transferred : nat) (cancelled : bool)
    : op_outcome :=
  let c := consume bytes_transferred c in
  if (negb (ec_set ec) && (bytes_transferred =? 0)) || consuming_empty c then
    OpHandler ec (total_consumed c)
  else
    let max_size := check_for_completion ec (total_consumed c) in
    if (max_size =? 0)%Z then OpHandler ec (total_consumed c)
    else if cancelled then OpHandler (Some operation_aborted) (total_consumed c)
    else op_issue c max_size.

Definition read_op_call : consuming -> error_code -> nat -> bool -> op_outcome := op_resume.
Definition write_op_call : consuming -> error_code -> nat -> bool -> op_outcome := op_resume.

(** The operation run against the device, without cancellation. *)
Fixpoint op_drive (fuel : nat) (o : op_outcome) (s : S) : option (error_code * nat * S) :=
  match o with
  | OpHandler ec n => Some (ec, n, s)
  | SomeIo c off n =>
      match fuel with
      | 0 => None
      | Datatypes.S fuel =>
          let '((k, ec), s) := some_io off n s in
          op_drive fuel (op_resume c ec k false) s
      end
  end.

Definition async_transfer (fuel size : nat) (s : S) : option (error_code * nat * S) :=
  op_drive fuel (op_start size) s.

(** ** What the loops rely on: given a part of the buffer, a stream transfers no more
    than that, and something unless it reports an error. *)
Definition progresses (size : nat) : Prop := forall off n s, off + n <= size ->
  (some_io off n s).1.1 <= n /\
  (0 < n -> (some_io off n s).1.1 = 0 -> ec_set (some_io off n s).1.2 = true).

Context (size : nat).
Hypothesis Hdev : progresses size.

Lemma prepare_spec total : total < size ->
  exists n, prepare default_max_transfer_size (Consuming size total) = (total, n) /\ 0 < n <= size - total.
Proof.
  clear Hdev some_io.
  intros H. unfold prepare, default_max_transfer_size. cbn [buffer_size total_consumed].
  rewrite Nat.min_l by lia. eexists. split; [done|]. lia.
Qed.

(** One step of the loop when bytes are missing and no error is set. *)
Lemma loop_step fuel total s : total < size ->
  exists n k ec s', some_io total n s = ((k, ec), s') /\ k <= n <= size - total /\
    (k = 0 -> ec_set ec = true) /\
    prepare default_max_transfer_size (Consuming size total) = (total, n) /\
    transfer_loop (Datatypes.S fuel) (Consuming size total) None s
      = transfer_loop fuel (Consuming size (total + k)) ec s'.
Proof.
  intros H. destruct (prepare_spec total H) as (n & Hp & Hn).
  destruct (Hdev total n s ltac:(lia)) as [Hle Hpos].
  destruct (some_io total n s) as [[k ec] s'] eqn:He. cbn in Hle, Hpos.
  exists n, k, ec, s'. split_and!; [done|done|lia|intros; apply Hpos; lia|done|].
  cbn [transfer_loop]. unfold consuming_empty. cbn [buffer_size total_consumed].
  rewrite (proj2 (Nat.leb_gt _ _) H). cbn [transfer_all ec_set].
  change (default_max_transfer_size =? 0)%Z with false. cbn iota. by rewrite Hp, He.
Qed.

(** The loop stops at once on an error or a full buffer. *)
Lemma loop_stop fuel total ec s : ec_set ec = true \/ size <= total ->
  transfer_loop (Datatypes.S fuel) (Consuming size total) ec s = Some (ec, total, s).
Proof.
  intros H. cbn [transfer_loop]. unfold consuming_empty. cbn [buffer_size total_consumed].
  destruct (Nat.leb_spec size total); [done|]. destruct H as [H|]; [|lia].
  unfold transfer_all. by rewrite H.
Qed.

Lemma transfer_loop_spec fuel total s : total <= size -> size - total < fuel ->
  exists ec k s', transfer_loop fuel (Consuming size total) None s = Some (ec, k, s') /\
    total <= k <= size /\ (ec = None -> k = size).
Proof.
  revert total s. induction fuel as [|fuel IH]; intros total s Hle Hfuel; [lia|].
  destruct (decide (size <= total)) as [Hfull|Hroom].
  { exists None, total, s. split; [apply loop_stop; auto|lia]. }
  destruct (loop_step fuel total s ltac:(lia)) as (n & k & ec & s' & He & Hk & Hpos & _ & ->).
  destruct ec as [e|].
  - destruct fuel as [|fuel]; [lia|]. exists (Some e), (total + k), s'.
    split; [apply loop_stop; by left|]. split; [lia|done].
  - destruct (IH (total + k) s') as (ec & k' & s'' & Hr & Hk' & Hd); [lia| |].
    + destruct k; [by specialize (Hpos eq_refl)|]. lia.
    + exists ec, k', s''. split; [done|]. split; [lia|done].
Qed.

(** The two drivers agree step by step. *)
Lemma drive_loop fuel total s : total < size -> size - total < fuel ->
  op_drive fuel (op_issue (Consuming size total) default_max_transfer_size) s
  = transfer_loop fuel (Consuming size total) None s.
Proof.
  revert total s. induction fuel as [|fuel IH]; intros total s Hlt Hfuel; [lia|].
  destruct (loop_step fuel total s Hlt) as (n & k & ec & s' & He & Hk & Hpos & Hp & ->).
  unfold op_issue. rewrite Hp. cbn [op_drive]. rewrite He. unfold op_resume, consume, consuming_empty.
  cbn [buffer_size total_consumed]. destruct fuel as [|fuel]; [lia|].
  destruct ec as [e|].
  - rewrite loop_stop by by left. cbn [ec_set negb andb orb check_for_completion transfer_all].
    by destruct (size <=? total + k).
  - destruct k as [|k]; [by specialize (Hpos eq_refl)|]. cbn [ec_set negb andb orb Nat.eqb].
    destruct (Nat.leb_spec size (total + Datatypes.S k)); [by rewrite loop_stop by by right|].
    unfold check_for_completion, transfer_all. cbn [ec_set].
    change (default_max_transfer_size =? 0)%Z with false. cbn iota. apply IH; lia.
Qed.

(** What a resumed operation decides, by what the stream transferred. *)
Lemma op_resume_spec total k ec : total + k <= size ->
  match op_resume (Consuming size total) ec k false with
  | OpHandler e n => e = ec /\ n = total + k /\ (ec = None -> k = 0 \/ total + k = size)
  | SomeIo c off n => c = Consuming size (total + k) /\ off = total + k /\ 0 < n /\ off + n <= size
  end.
Proof.
  clear Hdev some_io.
  intros Hle. unfold op_resume, consume, consuming_empty. cbn [buffer_size total_consumed].
  destruct ec as [e|]; cbn [ec_set negb andb orb check_for_completion transfer_all].
  { by destruct (_ <=? _). }
  destruct k as [|k]; cbn [Nat.eqb orb]; [by auto|].
  destruct (Nat.leb_spec size (total + Datatypes.S k)); [split_and!; [done|done|lia]|].
  unfold check_for_completion, transfer_all. cbn [ec_set].
  change (default_max_transfer_size =? 0)%Z with false. cbn iota. unfold op_issue.
  destruct (prepare_spec (total + Datatypes.S k) ltac:(lia)) as (n & -> & Hn). split_and!; [done|done|lia|lia].
Qed.
(** The first transfer of an operation. *)
Lemma op_start_spec : exists n, op_start size = SomeIo (Consuming size 0) 0 n /\ n <= size /\ (0 < n \/ size = 0).
Proof.
  clear Hdev some_io.
  unfold op_start, op_issue, new_consuming, check_for_completion, transfer_all; cbn [ec_set total_consumed].
  destruct (decide (size = 0)) as [->|Hne]; [exists 0; split_and!; [done|lia|by right]|].
  destruct (prepare_spec 0 ltac:(lia)) as (n & -> & Hn). exists n. split_and!; [done|lia|by left; lia].
Qed.
End device.

(** ** A byte channel

    The buffer, the bytes on the wire, and a schedule that says how much each call
    transfers and what it reports; a finished schedule is the end of the stream. *)
Record channel := Channel {
  memory : list ascii;
  wire : list ascii;
  schedule : list (nat * error_code);
}.

(** How much the next call moves: at least one byte unless it fails, at most the [n] asked
    for. *)
Definition next_move (n : nat) (sch : list (nat * error_code)) : nat * error_code * list (nat * error_code) :=
  match sch with
  | [] => (0, Some eof, [])
  | (k, ec) :: sch => (Nat.min n (if ec_set ec then k else Nat.max k 1), ec, sch)
  end.

(** [read_some]: the next bytes of the wire go to the buffer. *)
Definition channel_read_some (off n : nat) (ch : channel) : (nat * error_code) * channel :=
  let '(k, ec, sch) := next_move n (schedule ch) in
  ((k, ec), Channel (take off (memory ch) ++ take k (wire ch) ++ drop (off + k) (memory ch))
                    (drop k (wire ch)) sch).

(** [write_some]: the next bytes of the buffer go to the wire. *)
Definition channel_write_some (off n : nat) (ch : channel) : (nat * error_code) * channel :=
  let '(k, ec, sch) := next_move n (schedule ch) in
  ((k, ec), Channel (memory ch) (wire ch ++ take k (drop off (memory ch))) sch).

Lemma next_move_progress n sch k ec sch' : next_move n sch = (k, ec, sch') ->
  k <= n /\ (0 < n -> k = 0 -> ec_set ec = true).
Proof. destruct sch as [|[k' [e|]] sch]; cbn; intros [= <- <- <-]; split; (lia || done). Qed.

Lemma channel_read_progresses size : progresses channel_read_some size.
Proof.
  intros off n ch _. unfold channel_read_some.
  destruct (next_move n (schedule ch)) as [[k ec] sch] eqn:He. by eapply next_move_progress.
Qed.
Lemma channel_write_progresses size : progresses channel_write_some size.
Proof.
  intros off n ch _. unfold channel_write_some.
  destruct (next_move n (schedule ch)) as [[k ec] sch] eqn:He. by eapply next_move_progress.
Qed.
#[export] Hint Resolve channel_read_progresses channel_write_progresses : net.

(** The invariant of a read: what arrived is in the buffer, in order. *)
Definition read_inv (ch0 ch : channel) (total : nat) : Prop :=
  memory ch = take total (wire ch0) ++ drop total (memory ch0) /\ wire ch = drop total (wire ch0).
(** The invariant of a write. *)
Definition write_inv (ch0 ch : channel) (total : nat) : Prop :=
  memory ch = memory ch0 /\ wire ch = wire ch0 ++ take total (memory ch0).

Lemma read_step ch0 ch total n k ec ch' : total + n <= length (wire ch0) ->
  read_inv ch0 ch total -> channel_read_some total n ch = ((k, ec), ch') -> k <= n ->
  read_inv ch0 ch' (total + k).
Proof.
  intros Hw [Hm Hwire]. unfold channel_read_some.
  destruct (next_move n (schedule ch)) as [[k' ec'] sch]. intros [= -> -> <-] Hk.
  unfold read_inv; cbn. rewrite Hm, Hwire, drop_drop. split; [|done].
  rewrite take_app_le by (rewrite length_take; lia). rewrite take_take, Nat.min_id.
  rewrite drop_app_ge by (rewrite length_take; lia). rewrite length_take, drop_drop.
  rewrite app_assoc. f_equal; [|f_equal; lia].
  by rewrite <- (take_take_drop (wire ch0) total k).
Qed.

Lemma write_step ch0 ch total n k ec ch' : write_inv ch0 ch total ->
  channel_write_some total n ch = ((k, ec), ch') -> write_inv ch0 ch' (total + k).
Proof.
  intros [Hm Hwire]. unfold channel_write_some.
  destruct (next_move n (schedule ch)) as [[k' ec'] sch]. intros [= -> -> <-].
  unfold write_inv; cbn. rewrite Hm, Hwire, <- app_assoc. split; [done|]. f_equal.
  by rewrite <- (take_take_drop (memory ch0) total k).
Qed.

(** An invariant every call preserves holds of the result. *)
Lemma loop_invariant {S} (some_io : nat -> nat -> S -> (nat * error_code) * S) (I : S -> nat -> Prop)
    fuel size total s ec k s' : progresses some_io size ->
  (forall s total n k ec s', total + n <= size -> I s total -> some_io total n s = ((k, ec), s') ->
    k <= n -> I s' (total + k)) ->
  total <= size -> I s total ->
  transfer_loop some_io fuel (Consuming size total) None s = Some (ec, k, s') -> I s' k.
Proof.
  intros Hdev Hstep. revert total s. induction fuel as [|fuel IH]; intros total s Hle HI; [done|].
  destruct (decide (size <= total)) as [Hfull|Hroom].
  { rewrite loop_stop by by right. by intros [= <- <- <-]. }
  destruct (loop_step some_io size Hdev fuel total s ltac:(lia)) as (n & k1 & ec1 & s1 & He & Hk & Hpos & _ & ->).
  assert (I s1 (total + k1)) as HI1 by (eapply Hstep; [..|exact He|]; [lia|done|lia]).
  destruct ec1 as [e|]; [|apply IH; [lia|done]].
  destruct fuel as [|fuel]; [done|]. rewrite loop_stop by by left. by intros [= <- <- <-].
Qed.

(** The error of the result is that of a call, or none. *)
Lemma loop_error {S} (some_io : nat -> nat -> S -> (nat * error_code) * S) (P : error_code -> Prop) fuel c ec0 s ec k s' :
  (forall off n s, P (some_io off n s).1.2) -> P ec0 ->
  transfer_loop some_io fuel c ec0 s = Some (ec, k, s') -> P ec.
Proof.
  intros Hio. revert c ec0 s. induction fuel as [|fuel IH]; intros c ec0 s H0; cbn [transfer_loop]; [done|].
  destruct (consuming_empty c); [by intros [= <- _ _]|]. case_match; [by intros [= <- _ _]|].
  destruct (prepare _ c) as [off n]. pose proof (Hio off n s) as H1.
  destruct (some_io off n s) as [[k1 ec1] s1]. by apply IH.
Qed.

(** ** Properties *)

(** On any stream that makes progress, [asio::read] and [asio::write] of [size] bytes
    end within [size + 1] iterations, never transfer more than [size] bytes, and without
    an error transfer all of them. *)
Theorem transfer_exact (S : Type) (some_io : nat -> nat -> S -> (nat * error_code) * S)
  (size fuel : nat) (s : S) (Hdev : progresses some_io size) (Hfuel : size < fuel) :
  exists ec k s', read_buffer_seq some_io fuel size s = Some (ec, k, s') /\
    write some_io fuel size s = Some (ec, k, s') /\ k <= size /\ (ec = None -> k = size).
Proof.
  destruct (transfer_loop_spec some_io size Hdev fuel 0 s ltac:(lia) ltac:(lia)) as (ec & k & s' & He & Hk & Hd).
  exists ec, k, s'. split_and!; [done|done|lia|done].
Qed.
Definition sample_channel : channel :=
  Channel ["_"; "_"; "_"]%char ["a"; "b"; "c"; "d"]%char [(2, None); (5, None)].
Lemma transfer_exact_witness :
  exists ec k s', read_buffer_seq channel_read_some 4 3 sample_channel = Some (ec, k, s') /\
    write channel_read_some 4 3 sample_channel = Some (ec, k, s') /\ k <= 3 /\ (ec = None -> k = 3).
Proof. apply (transfer_exact channel channel_read_some 3 4 sample_channel (channel_read_progresses 3)). lia. Defined.

(** [asio::read] puts the first [k] bytes of the stream at the start of the buffer,
    leaves the rest of the buffer alone and takes exactly these bytes off the stream;
    [asio::write] appends the first [k] bytes of the buffer to the stream, where [k] is
    the count they return: no byte is lost, repeated or reordered, however the stream
    splits the transfer. *)
Theorem transfer_bytes (fuel size : nat) (ch ch' : channel) (ec : error_code) (k : nat)
  (Hwire : size <= length (wire ch)) :
  (read_buffer_seq channel_read_some fuel size ch = Some (ec, k, ch') ->
     memory ch' = take k (wire ch) ++ drop k (memory ch) /\ wire ch' = drop k (wire ch)) /\
  (write channel_write_some fuel size ch = Some (ec, k, ch') ->
     memory ch' = memory ch /\ wire ch' = wire ch ++ take k (memory ch)).
Proof.
  split; intros Hr.
  - eapply (loop_invariant channel_read_some (read_inv ch)); [auto with net| |..|exact Hr]; [|lia|done].
    intros s total n k1 ec1 s1 Hn HI He Hk. eapply read_step; [|done..]. lia.
  - eapply (loop_invariant channel_write_some (write_inv ch)); [auto with net| |..|exact Hr]; [|lia|].
    + intros s total n k1 ec1 s1 Hn HI He Hk. by eapply write_step.
    + split; [done|]. by rewrite take_0, app_nil_r.
Qed.
Lemma transfer_bytes_witness :
  exists ch', read_buffer_seq channel_read_some 4 3 sample_channel = Some (None, 3, ch') /\
    memory ch' = ["a"; "b"; "c"]%char.
Proof.
  eexists. split; [reflexivity|].
  match goal with |- memory ?ch' = _ =>
    destruct (proj1 (transfer_bytes 4 3 sample_channel ch' None 3 ltac:(cbn; lia)) eq_refl) as [Hm _] end.
  exact Hm.
Defined.

(** The asynchronous operations ([read_op], [write_op]) transfer what the synchronous
    functions do: on a non-empty buffer and a stream that makes progress they give the same
    error code, count and final state. *)
Theorem async_transfer_agrees (S : Type) (some_io : nat -> nat -> S -> (nat * error_code) * S)
  (size fuel : nat) (s : S) (Hdev : progresses some_io size) (Hsize : 0 < size) (Hfuel : size < fuel) :
  async_transfer some_io fuel size s = read_buffer_seq some_io fuel size s /\
  async_transfer some_io fuel size s = write some_io fuel size s.
Proof.
  assert (async_transfer some_io fuel size s = transfer_loop some_io fuel (Consuming size 0) None s) as H.
  { by apply drive_loop; [|lia..]. }
  by rewrite H.
Qed.
Lemma async_transfer_agrees_witness :
  async_transfer channel_write_some 4 3 sample_channel = read_buffer_seq channel_write_some 4 3 sample_channel /\
  async_transfer channel_write_some 4 3 sample_channel = write channel_write_some 4 3 sample_channel.
Proof.
  apply (async_transfer_agrees channel channel_write_some 3 4 sample_channel (channel_write_progresses 3)); lia.
Defined.
