(* ===== verification/TcpSocket.v ===== *)
(** * [cs_impl::network::tcp::socket] of [network.hpp]

    A socket is its atomic members ([Atomics]), its TLS context and stream and its trust
    report; the transport and OpenSSL stand behind [SocketExternal].  Every member function
    is run alone here ([atomically] executes the reservation programs of [Admission]); how
    the reservations interleave is the subject of [AdmissionSafety]. *)
From S2P Require Import Prelude TlsOptions TrustStore Atomics Admission Reservations Endpoint.
From S2P Require Transfer.
Export Admission.Tcp.

(** The calls on [asio::ip::tcp::socket], [acceptor] and [asio::ssl::stream]. *)
Class SocketExternal (T : TrustExternal) := {
  raw : Type;
  acceptor : Type;
  sock_option : Type;
  raw_is_open : raw -> W -> bool;
  raw_connect : raw -> endpoint_t -> W -> res unit * W;
  raw_close : raw -> W -> res unit * W;
  raw_accept : acceptor -> raw -> W -> res unit * W;
  raw_set_option : raw -> sock_option -> W -> res unit * W;
  raw_available : raw -> W -> res Z * W;
  raw_non_blocking : raw -> bool -> W -> error_code * W;
  raw_peek : raw -> W -> (Z * error_code) * W;
  raw_read_some : raw -> nat -> W -> (list ascii * error_code) * W;
  raw_write_some : raw -> list ascii -> W -> (nat * error_code) * W;
  raw_shutdown : raw -> W -> error_code * W;
  raw_local_endpoint : raw -> W -> res endpoint_t;
  raw_remote_endpoint : raw -> W -> res endpoint_t;
  stream_new : raw -> ctx -> W -> res stream * W;
  stream_handshake : stream -> W -> res unit * W;
  stream_shutdown : stream -> W -> error_code * W;
  stream_read_some : stream -> nat -> W -> (list ascii * error_code) * W;
  stream_write_some : stream -> list ascii -> W -> (nat * error_code) * W;
}.

(** What a read or write call of the stream promises: no more than it is given, and
    something unless it reports an error. *)
Definition read_call_ok {T : Type} (f : nat -> T -> (list ascii * error_code) * T) : Prop :=
  forall n w, (length (f n w).1.1 <= n)%nat /\ ((0 < n)%nat -> (f n w).1.1 = [] -> ec_set (f n w).1.2 = true).
Definition write_call_ok {T : Type} (f : list ascii -> T -> (nat * error_code) * T) : Prop :=
  forall b w, ((f b w).1.1 <= length b)%nat /\ (b <> [] -> (f b w).1.1 = 0%nat -> ec_set (f b w).1.2 = true).

Class SocketExternalOk (T : TrustExternal) (N : SocketExternal T) := {
  raw_read_ok : forall r, read_call_ok (raw_read_some r);
  raw_write_ok : forall r, write_call_ok (raw_write_some r);
  stream_read_ok : forall s, read_call_ok (stream_read_some s);
  stream_write_ok : forall s, write_call_ok (stream_write_some s);
}.

Record tcp_socket `{SocketExternal} := TcpSocket {
  tcp_atoms : atoms;
  sock : raw;
  tls_ctx : option ctx;
  tls_stream : option stream;
  last_tls_trust_report : string;
}.
Arguments TcpSocket {_ _} _ _ _ _ _.

(** The socket and the process it lives in. *)
Record tcp_state `{SocketExternal} := TcpState { self : tcp_socket; proc : process }.
Arguments TcpState {_ _} _ _.

Lemma write_call_progresses {T : Type} (b : list ascii) (f : list ascii -> T -> (nat * error_code) * T) : write_call_ok f ->
  Transfer.progresses (fun off n => f (take n (drop off b))) (length b).
Proof.
  intros Hf off n w Hn. destruct (Hf (take n (drop off b)) w) as [Hle Hpos].
  assert (length (take n (drop off b)) = n) as Hl by (rewrite length_take, length_drop; lia).
  rewrite Hl in Hle. split; [done|]. intros Hn0. apply Hpos. intros Hnil. rewrite Hnil in Hl. cbn in Hl. lia.
Qed.

Section tcp.
  Context `{T : TrustExternal} {N : SocketExternal T} `{ErrorText} (plat : platform).

(** [socket()] on a fresh transport handle. *)
Definition tcp_socket_new (r : raw) : tcp_socket := TcpSocket initial_atoms r None None unset_report.

Definition set_tls (c : option ctx) (s : option stream) (sk : tcp_socket) : tcp_socket :=
  TcpSocket (tcp_atoms sk) (sock sk) c s (last_tls_trust_report sk).
Definition set_atoms (a : atoms) (sk : tcp_socket) : tcp_socket :=
  TcpSocket a (sock sk) (tls_ctx sk) (tls_stream sk) (last_tls_trust_report sk).
Definition set_report (r : string) (sk : tcp_socket) : tcp_socket :=
  TcpSocket (tcp_atoms sk) (sock sk) (tls_ctx sk) (tls_stream sk) r.
Definition on_self (f : tcp_socket -> tcp_socket) (st : tcp_state) : tcp_state :=
  TcpState (f (self st)) (proc st).

(** Lifting reservation programs, process operations and external calls. *)
Definition atomically {A} (p : prog A) : M tcp_state A := fun st =>
  let '(r, a) := exec p (tcp_atoms (self st)) in (r, on_self (set_atoms a) st).
Definition in_process {A} (m : M process A) : M tcp_state A := fun st =>
  let '(r, p) := m (proc st) in (r, TcpState (self st) p).
Definition call {A} (f : W -> res A * W) : M tcp_state A := in_process (ext f).
Definition call_val {A} (f : W -> A * W) : M tcp_state A := in_process (ext_val f).
Definition observe {A} (f : W -> A) : M tcp_state A := gets (fun st => f (world (proc st))).

(** The destructor of a guard runs a program that does not throw. *)
Definition release (p : prog unit) (st : tcp_state) : tcp_state := (atomically p st).2.

Definition scoped_exclusive_operation {A} (active_io_error : string) (m : M tcp_state A) : M tcp_state A :=
  atomically (tcp_begin_exclusive active_io_error) ;;;
  finally m (release tcp_end_exclusive).
Definition scoped_io_job {A} (d : io_direction) (m : M tcp_state A) : M tcp_state A :=
  atomically (tcp_begin_io_job d) ;;;
  finally m (release (tcp_finish_io_job d)).

(** [asio::detail::throw_error] *)
Definition throw_error {S} (ec : error_code) : M S unit :=
  match ec with Some e => throw (system_error e) | None => ret tt end.

(** ** TLS set-up *)

Definition publish_report (report : string) : M tcp_state unit :=
  modify (on_self (set_report report)) ;;;
  in_process (set_last_tls_trust_report report).

Definition init_ssl (host : string) (options : ssl_options) : M tcp_state unit :=
  r <-- gets (fun st => sock (self st)) ;;
  is_open <-- observe (raw_is_open r) ;;
  if negb is_open then throw (runtime_error "TCP socket is not connected.")
  else
    enabled <-- gets (fun st => bool_decide (is_Some (tls_stream (self st)))) ;;
    if (enabled : bool) then throw (runtime_error "TLS has already been enabled on this socket.")
    else if verify_host options && negb (verify_peer options) then
      throw (runtime_error "TLS host verification requires peer verification.")
    else
      new_ctx <-- call ctx_new ;;
      try_catch
        (report <-- in_process (configure_client_context plat new_ctx options) ;;
         publish_report report)
        (fun e =>
           publish_report ("trust_mode=error; loaded=(none); failed=" +:+ what e) ;;;
           throw e) ;;;
      new_stream <-- call (stream_new r new_ctx) ;;
      in_process (configure_client_stream new_stream host options) ;;;
      modify (on_self (set_tls (Some new_ctx) (Some new_stream))) ;;;
      atomically (access (Store TlsEnabled true)) ;;;
      ret tt.

Definition clear_ssl (clear_report : bool) : M tcp_state unit :=
  atomically (access (Store TlsEnabled false)) ;;;
  modify (on_self (set_tls None None)) ;;;
  if clear_report then modify (on_self (set_report unset_report)) else ret tt.

Definition prepare_ssl : string -> ssl_options -> M tcp_state unit := init_ssl.
Definition reset_ssl : M tcp_state unit := clear_ssl false.

Definition get_tls_raw : M tcp_state stream :=
  s <-- gets (fun st => tls_stream (self st)) ;;
  match s with
  | Some s => ret s
  | None => throw (runtime_error "TLS is not enabled on this socket.")
  end.

Definition get_ssl_trust_report : M tcp_state string := gets (fun st => last_tls_trust_report (self st)).
Definition is_ssl : M tcp_state bool := atomically (access (Load TlsEnabled)).

(** ** Exclusive operations *)

Definition connect (ep : endpoint_t) : M tcp_state unit :=
  scoped_exclusive_operation "Cannot connect while socket I/O is pending."
    (r <-- gets (fun st => sock (self st)) ;; call (raw_connect r ep)).

Definition connect_ssl (host : string) (options : ssl_options) : M tcp_state unit :=
  atomically begin_tls_handshake ;;;
  try_catch (prepare_ssl host options)
    (fun e => atomically end_tls_handshake ;;; throw e) ;;;
  try_catch (s <-- get_tls_raw ;; call (stream_handshake s))
    (fun e => clear_ssl false ;;; atomically end_tls_handshake ;;; throw e) ;;;
  atomically end_tls_handshake.

(** [if (tls_stream) { tls_stream->shutdown(ec); clear_ssl(); }] *)
Definition shutdown_tls : M tcp_state unit :=
  s <-- gets (fun st => tls_stream (self st)) ;;
  match s with
  | Some s => call_val (stream_shutdown s) ;;; clear_ssl true
  | None => ret tt
  end.

Definition close : M tcp_state unit :=
  scoped_exclusive_operation
    "close() called with async operations still in flight. Use safe_shutdown() instead."
    (shutdown_tls ;;;
     r <-- gets (fun st => sock (self st)) ;; call (raw_close r)).

Definition accept (a : acceptor) : M tcp_state unit :=
  scoped_exclusive_operation "Cannot accept into a socket while socket I/O is pending."
    (r <-- gets (fun st => sock (self st)) ;; call (raw_accept a r)).

Definition shutdown : M tcp_state unit :=
  scoped_exclusive_operation
    "shutdown() called with async operations still in flight. Use safe_shutdown() instead."
    (shutdown_tls ;;;
     r <-- gets (fun st => sock (self st)) ;;
     ec <-- call_val (raw_shutdown r) ;;
     if ec_set ec && negb (ec_is ec not_connected) then throw_error ec else ret tt).

(** ** Queries *)

Definition is_open : M tcp_state bool :=
  r <-- gets (fun st => sock (self st)) ;; observe (raw_is_open r).
Definition set_option (o : sock_option) : M tcp_state unit :=
  r <-- gets (fun st => sock (self st)) ;; call (raw_set_option r o).
Definition local_endpoint : M tcp_state endpoint_t :=
  r <-- gets (fun st => sock (self st)) ;; call (fun w => (raw_local_endpoint r w, w)).
Definition remote_endpoint : M tcp_state endpoint_t :=
  r <-- gets (fun st => sock (self st)) ;; call (fun w => (raw_remote_endpoint r w, w)).

Definition available : M tcp_state Z :=
  ok <-- atomically (tcp_try_begin_io_job dir_read) ;;
  if negb ok then ret 0
  else
    finally
      (tls <-- is_ssl ;;
       if (tls : bool) then ret 0
       else r <-- gets (fun st => sock (self st)) ;; call (raw_available r))
      (release (tcp_finish_io_job dir_read)).

(** [closed] as computed between the reservation and its release. *)
Definition probe_closed : M tcp_state bool :=
  r <-- gets (fun st => sock (self st)) ;;
  is_open <-- observe (raw_is_open r) ;;
  if negb is_open then ret true
  else
    ec <-- call_val (raw_non_blocking r true) ;;
    if ec_set ec then ret false
    else
      p <-- call_val (raw_peek r) ;;
      call_val (raw_non_blocking r false) ;;;
      ret ((p.1 =? 0) && negb (ec_is p.2 would_block) && negb (ec_is p.2 try_again)).

Definition peer_closed : M tcp_state bool :=
  ok <-- atomically (tcp_try_begin_io_job dir_read) ;;
  if negb ok then ret false
  else
    closed <-- probe_closed ;;
    atomically (tcp_finish_io_job dir_read) ;;;
    ret closed.

(** ** Reads and writes *)

(** The stream a read or write goes to. *)
Definition read_some_fn (sk : tcp_socket) : nat -> W -> (list ascii * error_code) * W :=
  match tls_stream sk with Some s => stream_read_some s | None => raw_read_some (sock sk) end.
Definition write_some_fn (sk : tcp_socket) : list ascii -> W -> (nat * error_code) * W :=
  match tls_stream sk with Some s => stream_write_some s | None => raw_write_some (sock sk) end.

(** One [read_some] into the buffer, one [write_some] from it, as [Transfer] wants them. *)
Definition read_device (f : nat -> W -> (list ascii * error_code) * W) (off n : nat)
    (s : list ascii * W) : (nat * error_code) * (list ascii * W) :=
  let '((bytes, ec), w) := f n s.2 in
  ((length bytes, ec), (take off s.1 ++ bytes ++ drop (off + length bytes) s.1, w)).
Definition write_device (b : list ascii) (f : list ascii -> W -> (nat * error_code) * W) (off n : nat)
    (w : W) : (nat * error_code) * W :=
  f (take n (drop off b)) w.

(** The throwing [asio::read] and [asio::write]; the fuel is the bound
    [transfer_exact] proves. *)
Definition out_of_fuel : exn := runtime_error "the stream makes no progress".

Definition asio_read (f : nat -> W -> (list ascii * error_code) * W) (buff : list ascii)
    : W -> res (list ascii * nat) * W := fun w =>
  match Transfer.read_buffer_seq (read_device f) (S (length buff)) (length buff) (buff, w) with
  | Some (None, n, (buff, w)) => (Ok (buff, n), w)
  | Some (Some e, _, (_, w)) => (Throw (system_error e), w)
  | None => (Throw out_of_fuel, w)
  end.
Definition asio_write (f : list ascii -> W -> (nat * error_code) * W) (b : list ascii)
    : W -> res nat * W := fun w =>
  match Transfer.write (write_device b f) (S (length b)) (length b) w with
  | Some (None, n, w) => (Ok n, w)
  | Some (Some e, _, w) => (Throw (system_error e), w)
  | None => (Throw out_of_fuel, w)
  end.

(** [std::vector<char> buff(n)] *)
Definition zeroed (n : nat) : list ascii := replicate n zero.

Definition receive (maximum : nat) : M tcp_state (list ascii) :=
  scoped_io_job dir_read
    (f <-- gets (fun st => read_some_fn (self st)) ;;
     r <-- call_val (f maximum) ;;
     throw_error r.2 ;;;
     ret r.1).

Definition read (size : nat) : M tcp_state (list ascii) :=
  scoped_io_job dir_read
    (f <-- gets (fun st => read_some_fn (self st)) ;;
     r <-- call (asio_read f (zeroed size)) ;;
     ret (take r.2 r.1)).

Definition send (s : list ascii) : M tcp_state nat :=
  scoped_io_job dir_write
    (f <-- gets (fun st => write_some_fn (self st)) ;;
     r <-- call_val (f s) ;;
     throw_error r.2 ;;;
     ret r.1).

Definition write (s : list ascii) : M tcp_state unit :=
  scoped_io_job dir_write
    (f <-- gets (fun st => write_some_fn (self st)) ;;
     call (asio_write f s) ;;;
     ret tt).
End tcp.

(** The refusals of [Reservations] with the texts of this class. *)
Abbreviation exclusive_refusal := (Reservations.exclusive_refusal texts).
Abbreviation io_refusal := (Reservations.io_refusal texts).

Lemma tcp_begin_exclusive_exec msg a : exec (tcp_begin_exclusive msg) a =
  match exclusive_refusal msg a with Some e => (Throw e, a) | None => (Ok tt, reserve_exclusive a) end.
Proof. apply Reservations.begin_exclusive_exec. Qed.
Lemma tcp_begin_io_exec d a : jobs_ok a -> exec (tcp_begin_io_job d) a =
  match io_refusal d a with Some e => (Throw e, a) | None => (Ok tt, reserve_io d a) end.
Proof. apply Reservations.begin_io_exec. Qed.
Lemma tcp_try_begin_io_exec d a : jobs_ok a -> exec (tcp_try_begin_io_job d) a =
  match io_refusal d a with Some _ => (Ok false, a) | None => (Ok true, reserve_io d a) end.
Proof. apply Reservations.try_begin_io_exec. Qed.
Lemma tcp_end_exclusive_exec a b msg : exclusive_refusal msg a = None -> resv b = resv (reserve_exclusive a) ->
  exists c, exec tcp_end_exclusive b = (Ok tt, c) /\ resv c = resv a /\ tls_enabled c = tls_enabled b.
Proof. apply Reservations.end_exclusive_exec. Qed.
Lemma tcp_finish_io_exec d a b : jobs_ok a -> io_refusal d a = None -> resv b = resv (reserve_io d a) ->
  exists c, exec (tcp_finish_io_job d) b = (Ok tt, c) /\ resv c = resv a /\ tls_enabled c = tls_enabled b.
Proof. apply Reservations.finish_io_exec. Qed.

Section invariant.
  Context `{T : TrustExternal} {N : SocketExternal T} `{ErrorText} (plat : platform).
  #[local] Abbreviation tcp_state := (@tcp_state T N).

(** ** The invariant of a socket *)

(** A TLS stream, its context and the flag the other threads read come together. *)
Record tcp_wf (sk : tcp_socket) : Prop := {
  wf_flag : tls_enabled (tcp_atoms sk) = bool_decide (is_Some (tls_stream sk));
  wf_ctx : is_Some (tls_ctx sk) <-> is_Some (tls_stream sk);
  wf_jobs : jobs_ok (tcp_atoms sk);
}.

Lemma new_wf r : tcp_wf (tcp_socket_new r).
Proof. split; cbn; [done|by split; intros []|done]. Qed.

(** What a piece of a member function preserves: the invariant and the reservations. *)
Definition keeps {A} (m : M tcp_state A) : Prop := forall st, tcp_wf (self st) ->
  tcp_wf (self (m st).2) /\ resv (tcp_atoms (self (m st).2)) = resv (tcp_atoms (self st)).

Lemma keeps_ret {A} (a : A) : keeps (ret a). Proof. done. Qed.
Lemma keeps_throw {A} e : keeps (@throw tcp_state A e). Proof. done. Qed.
Lemma keeps_gets {A} (f : tcp_state -> A) : keeps (gets f). Proof. done. Qed.

Lemma keeps_bind {A B} (m : M tcp_state A) (k : A -> M tcp_state B) :
  keeps m -> (forall a, keeps (k a)) -> keeps (bind m k).
Proof.
  intros Hm Hk st Hwf. unfold bind. destruct (Hm st Hwf) as [Hw Hr].
  destruct (m st) as [[a|e] st1]; cbn in *; [|done].
  destruct (Hk a st1 Hw) as [Hw2 Hr2]. split; [done|congruence].
Qed.

Lemma keeps_try {A} (m : M tcp_state A) (h : exn -> M tcp_state A) :
  keeps m -> (forall e, keeps (h e)) -> keeps (try_catch m h).
Proof.
  intros Hm Hh st Hwf. unfold try_catch. destruct (Hm st Hwf) as [Hw Hr].
  destruct (m st) as [[a|e] st1]; cbn in *; [done|].
  destruct (Hh e st1 Hw) as [Hw2 Hr2]. split; [done|congruence].
Qed.

Lemma keeps_process {A} (m : M process A) : keeps (in_process m).
Proof. intros st Hwf. unfold in_process. by destruct (m (proc st)). Qed.
Lemma keeps_throw_error ec : keeps (throw_error ec).
Proof. by destruct ec. Qed.
Lemma keeps_report r : keeps (modify (on_self (set_report r))).
Proof. intros st [? ? ?]. by split. Qed.
Lemma keeps_is_ssl : keeps is_ssl.
Proof. intros st Hwf. by destruct st as [[] p]. Qed.

Lemma keeps_if {A} (b : bool) (m n : M tcp_state A) : keeps m -> keeps n -> keeps (if b then m else n).
Proof. by destruct b. Qed.

Lemma keeps_clear b : keeps (clear_ssl b).
Proof.
  intros [[a r c s rep] p] [Hf Hc Hj]. cbn in *. destruct a, b; cbn in *; (split; [split; cbn in *|done]);
    try done; by split; intros [].
Qed.

Lemma keeps_publish r : keeps (publish_report r).
Proof. apply keeps_bind; [apply keeps_report|intros; apply keeps_process]. Qed.

(** Enabling TLS: the stream, its context and the flag. *)
Lemma keeps_install c s :
  keeps (modify (on_self (set_tls (Some c) (Some s))) ;;; atomically (access (Store TlsEnabled true)) ;;; ret tt).
Proof.
  intros [[a r c' s' rep] p] [Hf Hc Hj]. cbn in *. destruct a; cbn in *. by split; [split; cbn|].
Qed.

Lemma keeps_init_ssl host options : keeps (init_ssl plat host options).
Proof.
  unfold init_ssl.
  repeat first [ apply keeps_install | apply keeps_bind | apply keeps_if | apply keeps_try
               | apply keeps_ret | apply keeps_throw | apply keeps_gets | apply keeps_process
               | apply keeps_publish | intros ? ].
Qed.

(** A guarded operation releases on every way out. *)
Lemma keeps_exclusive {A} msg (m : M tcp_state A) : keeps m -> keeps (scoped_exclusive_operation msg m).
Proof.
  intros Hm st Hwf. unfold scoped_exclusive_operation, bind, finally, atomically.
  rewrite tcp_begin_exclusive_exec. destruct (exclusive_refusal msg (tcp_atoms (self st))) as [e|] eqn:Er.
  { destruct st as [[] ?]. by cbn in *. }
  set (st1 := on_self (set_atoms (reserve_exclusive (tcp_atoms (self st)))) st).
  assert (tcp_wf (self st1)) as Hwf1.
  { destruct Hwf as [Hf Hc Hj]. destruct st as [[[] r c s rep] p]; cbn in *. split; cbn; done. }
  destruct (Hm st1 Hwf1) as [Hw2 Hr2]. destruct (m st1) as [r st2]; cbn [snd] in *.
  destruct (tcp_end_exclusive_exec _ (tcp_atoms (self st2)) msg Er Hr2) as (c & He & Hc & Ht).
  unfold release, atomically. rewrite He. cbn. split; [|done].
  destruct Hw2 as [Hf2 Hc2 Hj2]. split; cbn; [by rewrite Ht|done|].
  eapply resv_jobs; [symmetry; exact Hc|apply Hwf].
Qed.

Lemma finish_keeps d st st2 : tcp_wf (self st) -> io_refusal d (tcp_atoms (self st)) = None ->
  tcp_wf (self st2) -> resv (tcp_atoms (self st2)) = resv (reserve_io d (tcp_atoms (self st))) ->
  tcp_wf (self (release (tcp_finish_io_job d) st2)) /\
  resv (tcp_atoms (self (release (tcp_finish_io_job d) st2))) = resv (tcp_atoms (self st)).
Proof.
  intros Hwf Er [Hf2 Hc2 Hj2] Hr2.
  destruct (tcp_finish_io_exec d _ (tcp_atoms (self st2)) (wf_jobs _ Hwf) Er Hr2) as (c & He & Hc & Ht).
  unfold release, atomically. rewrite He. cbn. split; [|done]. split; cbn; [by rewrite Ht|done|].
  eapply resv_jobs; [symmetry; exact Hc|apply Hwf].
Qed.

Lemma reserve_io_wf d st : tcp_wf (self st) ->
  tcp_wf (self (on_self (set_atoms (reserve_io d (tcp_atoms (self st)))) st)).
Proof.
  intros [Hf Hc Hj]. destruct st as [[[] r c s rep] p]; cbn in *.
  split; cbn -[wrap64]; [by destruct d|done|]. unfold jobs_ok. destruct d; apply wrap64_range.
Qed.

Lemma keeps_io_job {A} d (m : M tcp_state A) : keeps m -> keeps (scoped_io_job d m).
Proof.
  intros Hm st Hwf. unfold scoped_io_job, bind, finally, atomically.
  rewrite tcp_begin_io_exec by apply Hwf. destruct (io_refusal d (tcp_atoms (self st))) as [e|] eqn:Er.
  { destruct st as [[] ?]. by cbn in *. }
  pose proof (reserve_io_wf d st Hwf) as Hwf1. set (st1 := on_self _ st) in *.
  destruct (Hm st1 Hwf1) as [Hw2 Hr2]. destruct (m st1) as [r st2]; cbn [snd] in *.
  by apply finish_keeps.
Qed.

(** The same for the operations that only try. *)
Lemma keeps_try_io_job {A} d (a : A) (m : M tcp_state A) : keeps m ->
  keeps (ok <-- atomically (tcp_try_begin_io_job d) ;;
         if negb ok then ret a else finally m (release (tcp_finish_io_job d))).
Proof.
  intros Hm st Hwf. unfold bind, atomically.
  rewrite tcp_try_begin_io_exec by apply Hwf. destruct (io_refusal d (tcp_atoms (self st))) as [e|] eqn:Er.
  { destruct st as [[] ?]. by cbn in *. }
  pose proof (reserve_io_wf d st Hwf) as Hwf1. set (st1 := on_self _ st) in *. cbn [negb].
  unfold finally. destruct (Hm st1 Hwf1) as [Hw2 Hr2]. destruct (m st1) as [r st2]; cbn [snd] in *.
  by apply finish_keeps.
Qed.

Lemma probe_closed_ok st : exists b st', probe_closed st = (Ok b, st') /\ self st' = self st.
Proof.
  unfold probe_closed, observe, call_val, in_process, ext_val. munfold.
  destruct (raw_is_open (sock (self st)) (world (proc st))); cbn; [|by eexists _, _].
  destruct (raw_non_blocking _ _ _) as [ec w]; cbn. destruct ec; cbn; [by eexists _, _|].
  destruct (raw_peek _ _) as [p w']; cbn. destruct (raw_non_blocking _ _ w'); cbn. by eexists _, _.
Qed.

Lemma keeps_probe : keeps probe_closed.
Proof. intros st Hwf. destruct (probe_closed_ok st) as (b & st' & -> & Hs). cbn. by rewrite Hs. Qed.

Lemma peer_closed_scoped st : peer_closed st =
  (ok <-- atomically (tcp_try_begin_io_job dir_read) ;;
   if negb ok then ret false else finally probe_closed (release (tcp_finish_io_job dir_read))) st.
Proof.
  unfold peer_closed, bind. destruct (atomically _ st) as [[[]|e] st1]; cbn [negb]; [|done..].
  unfold finally. destruct (probe_closed_ok st1) as (b & st2 & -> & _). done.
Qed.

(** The body of [connect_ssl] between the reservation and its release. *)
Definition handshake_body (host : string) (options : ssl_options) : M tcp_state unit :=
  prepare_ssl plat host options ;;;
  try_catch (s <-- get_tls_raw ;; call (stream_handshake s)) (fun e => clear_ssl false ;;; throw e).

Lemma connect_ssl_scoped host options st : connect_ssl plat host options st =
  if tls_enabled (tcp_atoms (self st))
  then (Throw (runtime_error "TLS has already been enabled on this socket."), st)
  else scoped_exclusive_operation "Cannot enable TLS while asynchronous operations are pending."
         (handshake_body host options) st.
Proof.
  unfold connect_ssl, handshake_body, scoped_exclusive_operation, begin_tls_handshake, end_tls_handshake.
  munfold. unfold atomically at 1. cbn [exec prog_bind access run_act get_flag].
  destruct (tls_enabled (tcp_atoms (self st))); [by destruct st as [[] ?]|].
  change (exec _ (tcp_atoms (self st))) with
    (exec (tcp_begin_exclusive "Cannot enable TLS while asynchronous operations are pending.") (tcp_atoms (self st))).
  unfold atomically at 4.
  destruct (exec (tcp_begin_exclusive _) _) as [[[]|e] a]; [|done].
  destruct (prepare_ssl plat host options _) as [[[]|e] st1]; [|done].
  destruct (get_tls_raw st1) as [[s|e] st2]; [destruct (call (stream_handshake s) st2) as [[[]|e] st3]; [done|]|].
  all: unfold clear_ssl; munfold; done.
Qed.

Lemma keeps_get_tls_raw : keeps get_tls_raw.
Proof. intros st Hwf. unfold get_tls_raw. munfold. by destruct (tls_stream (self st)). Qed.

Ltac keeps := repeat first
  [ apply keeps_exclusive | apply keeps_io_job | apply keeps_try_io_job
  | apply keeps_init_ssl | apply keeps_clear | apply keeps_publish | apply keeps_get_tls_raw
  | apply keeps_probe | apply keeps_is_ssl | apply keeps_process | apply keeps_throw_error
  | apply keeps_bind | apply keeps_if | apply keeps_try | apply keeps_ret | apply keeps_throw
  | apply keeps_gets | intros ? ].

Lemma keeps_connect_ssl host options : keeps (connect_ssl plat host options).
Proof.
  intros st Hwf. rewrite connect_ssl_scoped. destruct (tls_enabled _); [done|].
  revert st Hwf. unfold handshake_body. keeps.
Qed.

Lemma keeps_shutdown_tls : keeps shutdown_tls.
Proof.
  apply keeps_bind; [apply keeps_gets|]. intros [s|]; keeps.
Qed.

Lemma keeps_peer_closed : keeps peer_closed.
Proof. intros st Hwf. rewrite peer_closed_scoped. revert st Hwf. keeps. Qed.

(** ** Every public operation *)

Inductive tcp_call :=
  | CConnect (ep : endpoint_t)
  | CConnectSsl (host : string) (options : ssl_options)
  | CClose
  | CAccept (a : acceptor)
  | CShutdown
  | CSetOption (o : sock_option)
  | CAvailable
  | CPeerClosed
  | CReceive (maximum : nat)
  | CRead (size : nat)
  | CSend (s : list ascii)
  | CWrite (s : list ascii)
  | CIsOpen
  | CLocalEndpoint
  | CRemoteEndpoint.

Inductive tcp_value :=
  | VUnit
  | VBool (b : bool)
  | VSize (n : Z)
  | VBytes (s : list ascii)
  | VEndpoint (ep : endpoint_t).

Definition returning {A} (m : M tcp_state A) (f : A -> tcp_value) : M tcp_state tcp_value :=
  x <-- m ;; ret (f x).
Definition unit_value (_ : unit) : tcp_value := VUnit.

Definition run_call (c : tcp_call) : M tcp_state tcp_value :=
  match c with
  | CConnect ep => returning (connect ep) unit_value
  | CConnectSsl host options => returning (connect_ssl plat host options) unit_value
  | CClose => returning close unit_value
  | CAccept a => returning (accept a) unit_value
  | CShutdown => returning shutdown unit_value
  | CSetOption o => returning (set_option o) unit_value
  | CAvailable => returning available VSize
  | CPeerClosed => returning peer_closed VBool
  | CReceive maximum => returning (receive maximum) VBytes
  | CRead size => returning (read size) VBytes
  | CSend s => returning (send s) (fun n => VSize (Z.of_nat n))
  | CWrite s => returning (write s) unit_value
  | CIsOpen => returning is_open VBool
  | CLocalEndpoint => returning local_endpoint VEndpoint
  | CRemoteEndpoint => returning remote_endpoint VEndpoint
  end.

(** A script that calls them in turn and catches what they throw. *)
Fixpoint run_calls (cs : list tcp_call) (st : tcp_state) : list (res tcp_value) * tcp_state :=
  match cs with
  | [] => ([], st)
  | c :: cs =>
      let '(r, st) := run_call c st in
      let '(rs, st) := run_calls cs st in (r :: rs, st)
  end.

Lemma keeps_call c : keeps (run_call c).
Proof.
  destruct c; cbn [run_call]; unfold returning;
    (apply keeps_bind; [|intros; apply keeps_ret]).
  - unfold connect. keeps.
  - apply keeps_connect_ssl.
  - unfold close. apply keeps_exclusive, keeps_bind; [apply keeps_shutdown_tls|]. keeps.
  - unfold accept. keeps.
  - unfold shutdown. apply keeps_exclusive, keeps_bind; [apply keeps_shutdown_tls|]. keeps.
  - unfold set_option. keeps.
  - unfold available. keeps.
  - apply keeps_peer_closed.
  - unfold receive. keeps.
  - unfold read. keeps.
  - unfold send. keeps.
  - unfold write. keeps.
  - unfold is_open, observe. keeps.
  - unfold local_endpoint. keeps.
  - unfold remote_endpoint. keeps.
Qed.

Lemma keeps_calls cs st : tcp_wf (self st) ->
  tcp_wf (self (run_calls cs st).2) /\
  resv (tcp_atoms (self (run_calls cs st).2)) = resv (tcp_atoms (self st)).
Proof.
  revert st. induction cs as [|c cs IH]; intros st Hwf; [done|]. cbn.
  destruct (keeps_call c st Hwf) as [Hw Hr]. destruct (run_call c st) as [r st1]; cbn in *.
  destruct (IH st1 Hw) as [Hw2 Hr2]. destruct (run_calls cs st1); cbn in *. split; [done|congruence].
Qed.

(** ** What TLS set-up leaves behind *)

(** Everything but the report. *)
Definition same_socket (sk sk' : tcp_socket) : Prop := set_report "" sk' = set_report "" sk.
Definition quiet {A} (m : M tcp_state A) : Prop := forall st, same_socket (self st) (self (m st).2).

Lemma quiet_bind {A B} (m : M tcp_state A) (k : A -> M tcp_state B) :
  quiet m -> (forall a, quiet (k a)) -> quiet (bind m k).
Proof.
  unfold quiet, same_socket, bind. intros Hm Hk st. specialize (Hm st).
  destruct (m st) as [[a|e] st1]; cbn in *; [|done]. by rewrite Hk.
Qed.
Lemma quiet_try {A} (m : M tcp_state A) (h : exn -> M tcp_state A) :
  quiet m -> (forall e, quiet (h e)) -> quiet (try_catch m h).
Proof.
  unfold quiet, same_socket, try_catch. intros Hm Hh st. specialize (Hm st).
  destruct (m st) as [[a|e] st1]; cbn in *; [done|]. by rewrite Hh.
Qed.
Lemma quiet_process {A} (m : M process A) : quiet (in_process m).
Proof. intros st. unfold in_process. by destruct (m (proc st)). Qed.
Lemma quiet_modify r : quiet (modify (on_self (set_report r))).
Proof. done. Qed.
Lemma quiet_gets {A} (f : tcp_state -> A) : quiet (gets f).
Proof. done. Qed.
Lemma quiet_throw {A} e : quiet (@throw tcp_state A e).
Proof. done. Qed.

(** Success installs a stream; failure changes nothing but the report. *)
Definition installs {A} (m : M tcp_state A) : Prop := forall st,
  match m st with
  | (Ok _, st') => is_Some (tls_stream (self st'))
  | (Throw _, st') => same_socket (self st) (self st')
  end.

Lemma installs_bind {A B} (m : M tcp_state A) (k : A -> M tcp_state B) :
  quiet m -> (forall a, installs (k a)) -> installs (bind m k).
Proof.
  unfold quiet, installs, bind. intros Hm Hk st. specialize (Hm st).
  destruct (m st) as [[a|e] st1]; cbn in *; [|done]. specialize (Hk a st1).
  destruct (k a st1) as [[]]; [done|]. unfold same_socket in *. congruence.
Qed.
Lemma installs_if {A} (b : bool) (m n : M tcp_state A) : installs m -> installs n -> installs (if b then m else n).
Proof. by destruct b. Qed.
Lemma installs_throw {A} e : installs (@throw tcp_state A e).
Proof. done. Qed.
Lemma installs_end c s : installs
  (modify (on_self (set_tls (Some c) (Some s))) ;;; atomically (access (Store TlsEnabled true)) ;;; ret tt).
Proof. intros st. by eexists. Qed.

Lemma init_ssl_installs host options : installs (init_ssl plat host options).
Proof.
  unfold init_ssl, publish_report.
  repeat first [ apply installs_end | apply installs_bind | apply installs_if | apply installs_throw
    | apply quiet_process | apply quiet_modify | apply quiet_gets | apply quiet_throw
    | apply quiet_try | apply quiet_bind | intros ? ].
Qed.

Lemma handshake_body_outcome host options st : tcp_wf (self st) -> tls_enabled (tcp_atoms (self st)) = false ->
  match handshake_body host options st with
  | (Ok _, st') => is_Some (tls_stream (self st'))
  | (Throw _, st') => tls_stream (self st') = None
  end.
Proof.
  intros Hwf Hf. assert (tls_stream (self st) = None) as Hnone.
  { rewrite (wf_flag _ Hwf) in Hf. apply bool_decide_eq_false, eq_None_not_Some in Hf. done. }
  unfold handshake_body, prepare_ssl, bind, try_catch.
  pose proof (init_ssl_installs host options st) as Hi.
  destruct (init_ssl plat host options st) as [[[]|e] st1].
  - unfold get_tls_raw. munfold. destruct (tls_stream (self st1)) as [s|] eqn:Es; [|by destruct Hi].
    unfold call, in_process, ext. destruct (stream_handshake s _) as [[[]|e] w]; [by cbn; rewrite Es|].
    unfold clear_ssl. by munfold.
  - unfold same_socket in Hi. apply (f_equal tls_stream) in Hi. by cbn in Hi; rewrite Hi.
Qed.

(** ** Reads and writes of a stream that makes progress *)

Lemma read_device_progresses f size : read_call_ok f -> Transfer.progresses (read_device f) size.
Proof.
  intros Hf off n [b w] _. unfold read_device. destruct (Hf n w) as [Hle Hpos]. cbn.
  destruct (f n w) as [[bytes ec] w']; cbn in *. split; [done|]. intros Hn H0. apply Hpos; [done|].
  by apply nil_length_inv.
Qed.
Lemma write_device_progresses b f : write_call_ok f ->
  Transfer.progresses (write_device b f) (length b).
Proof. apply write_call_progresses. Qed.

Lemma asio_read_spec f b w : read_call_ok f ->
  match asio_read f b w with
  | (Ok (b', n), _) => n = length b /\ length b' = length b
  | (Throw e, _) => exists c, e = system_error c
  end.
Proof.
  intros Hf. unfold asio_read, Transfer.read_buffer_seq, Transfer.new_consuming.
  pose proof (read_device_progresses f (length b) Hf) as Hdev.
  destruct (Transfer.transfer_loop_spec (read_device f) (length b) Hdev (S (length b)) 0 (b, w)
    ltac:(lia) ltac:(lia)) as (ec & n & [b' w'] & He & Hn & Hall).
  rewrite He. destruct ec as [e|]; [by eexists|]. split; [by apply Hall|].
  refine (Transfer.loop_invariant (read_device f) (fun s _ => length s.1 = length b) (S (length b)) (length b) 0
    (b, w) None n (b', w') Hdev _ _ _ He); [|lia|done].
  intros [b1 w1] total k n' ec' [b2 w2] Hle Hlen. unfold read_device; cbn in *.
  destruct (f k w1) as [[bytes ec1] w3]. intros [= <- <- <- <-] Hk.
  rewrite !length_app, length_take, length_drop. lia.
Qed.

#[local] Open Scope nat_scope.
(** Calls of [read_some] that together take [left] bytes off a stream, or stop with an error:
    the bytes in the order they came.  Each asks for no more than is missing. *)
Inductive reads (f : nat -> W -> (list ascii * error_code) * W) : nat -> W -> list ascii -> error_code -> W -> Prop :=
  | reads_all w : reads f 0 w [] None w
  | reads_some n left w b w1 bs ec w' : 0 < n <= left -> f n w = ((b, None), w1) ->
      reads f (left - length b) w1 bs ec w' -> reads f left w (b ++ bs) ec w'
  | reads_fail n left w b e w1 : 0 < n <= left -> f n w = ((b, Some e), w1) -> reads f left w b (Some e) w1.
(** Calls of [write_some] on what is left of [data]; how many bytes they took. *)
Inductive writes (f : list ascii -> W -> (nat * error_code) * W) : list ascii -> W -> nat -> error_code -> W -> Prop :=
  | writes_all w : writes f [] w 0 None w
  | writes_some n data w k w1 m ec w' : 0 < n <= length data -> f (take n data) w = ((k, None), w1) ->
      writes f (drop k data) w1 m ec w' -> writes f data w (k + m) ec w'
  | writes_fail n data w k e w1 : 0 < n <= length data -> f (take n data) w = ((k, Some e), w1) ->
      writes f data w k (Some e) w1.

Lemma reads_length f left w b ec w' : read_call_ok f -> reads f left w b ec w' ->
  length b <= left /\ (ec = None -> length b = left).
Proof.
  intros Hf. induction 1 as [|n left w b w1 bs ec w' Hn He _ [IHle IH]|n left w b e w1 Hn He]; [done| |].
  - destruct (Hf n w) as [Hle _]. rewrite He in Hle. cbn in Hle. rewrite length_app. split; [lia|]. intros Hec. rewrite IH by done. lia.
  - destruct (Hf n w) as [Hle _]. rewrite He in Hle. cbn in Hle. split; [lia|done].
Qed.
Lemma writes_length f data w k ec w' : write_call_ok f -> writes f data w k ec w' ->
  k <= length data /\ (ec = None -> k = length data).
Proof.
  intros Hf. induction 1 as [|n data w k w1 m ec w' Hn He _ [IHle IH]|n data w k e w1 Hn He]; [done| |].
  - destruct (Hf (take n data) w) as [Hle _]. rewrite He, length_take in Hle. cbn in Hle. rewrite length_drop in *. split; [lia|].
    intros Hec. rewrite IH by done. lia.
  - destruct (Hf (take n data) w) as [Hle _]. rewrite He, length_take in Hle. cbn in Hle. split; [lia|done].
Qed.

Lemma read_loop f size fuel total b w ec k b' w' : read_call_ok f -> length b = size -> total <= size ->
  Transfer.transfer_loop (read_device f) fuel (Transfer.Consuming size total) None (b, w) = Some (ec, k, (b', w')) ->
  exists bs, reads f (size - total) w bs ec w' /\ k = total + length bs /\ length b' = size /\ take k b' = take total b ++ bs.
Proof.
  intros Hf. revert total b w. induction fuel as [|fuel IH]; intros total b w Hb Hle; [done|].
  destruct (decide (size <= total)) as [Hfull|Hroom].
  { rewrite Transfer.loop_stop by by right. intros [= <- <- <- <-]. assert (total = size) as -> by lia. exists [].
    rewrite Nat.sub_diag, app_nil_r. cbn. split_and!; [constructor|lia|done|done]. }
  destruct (Transfer.loop_step (read_device f) size (read_device_progresses f size Hf) fuel total (b, w) ltac:(lia))
    as (n & k1 & ec1 & [b1 w1] & He & Hk & _ & Hp & ->).
  assert (0 < n <= size - total) as Hn by (destruct (Transfer.prepare_spec size total ltac:(lia)) as (n' & Hp' & Hn'); rewrite Hp in Hp'; by injection Hp' as ->).
  unfold read_device in He. cbn [fst snd] in He. destruct (f n w) as [[bytes ec2] w2] eqn:Hfn. injection He as <- <- <- <-.
  set (b1 := take total b ++ bytes ++ drop (total + length bytes) b).
  assert (length b1 = size) as Hb1 by (unfold b1; rewrite !length_app, length_take, length_drop; lia).
  assert (take (total + length bytes) b1 = take total b ++ bytes) as Ht1.
  { unfold b1. rewrite app_assoc. rewrite take_app_le by (rewrite length_app, length_take; lia).
    rewrite take_ge; [done|rewrite length_app, length_take; lia]. }
  destruct ec2 as [e|].
  - destruct fuel as [|fuel]; [done|]. rewrite Transfer.loop_stop by by left. intros [= <- <- <- <-].
    exists bytes. split_and!; [|done|done|done]. by apply (reads_fail f n).
  - intros Hloop. destruct (IH (total + length bytes) b1 w2 Hb1 ltac:(lia) Hloop) as (bs & Hr & -> & Hl & Ht).
    exists (bytes ++ bs). rewrite length_app. split_and!; [|lia|done|].
    + apply (reads_some f n _ _ _ w2); [lia|done|]. by replace (size - total - length bytes) with (size - (total + length bytes)) by lia.
    + by rewrite Ht, Ht1, <- app_assoc.
Qed.
Lemma write_loop b f fuel total w ec k w' : write_call_ok f -> total <= length b ->
  Transfer.transfer_loop (write_device b f) fuel (Transfer.Consuming (length b) total) None w = Some (ec, k, w') ->
  exists m, writes f (drop total b) w m ec w' /\ k = total + m.
Proof.
  intros Hf. revert total w. induction fuel as [|fuel IH]; intros total w Hle; [done|].
  destruct (decide (length b <= total)) as [Hfull|Hroom].
  { rewrite Transfer.loop_stop by by right. intros [= <- <- <-]. exists 0. rewrite drop_ge by lia. split; [constructor|lia]. }
  destruct (Transfer.loop_step (write_device b f) (length b) (write_device_progresses b f Hf) fuel total w ltac:(lia))
    as (n & k1 & ec1 & w1 & He & Hk & _ & Hp & ->). unfold write_device in He.
  assert (0 < n <= length b - total) as Hn by (destruct (Transfer.prepare_spec (length b) total ltac:(lia)) as (n' & Hp' & Hn'); rewrite Hp in Hp'; by injection Hp' as ->).
  destruct ec1 as [e|].
  - destruct fuel as [|fuel]; [done|]. rewrite Transfer.loop_stop by by left. intros [= <- <- <-].
    exists k1. split; [|done]. apply (writes_fail f n); [rewrite length_drop; lia|done].
  - intros Hloop. destruct (IH (total + k1) w1 ltac:(lia) Hloop) as (m & Hw & ->). exists (k1 + m).
    split; [|lia]. apply (writes_some f n _ _ _ w1); [rewrite length_drop; lia|done|]. by rewrite drop_drop.
Qed.

Lemma asio_read_reads f size w : read_call_ok f ->
  exists bs ec, reads f size w bs ec (asio_read f (zeroed size) w).2 /\
    match (asio_read f (zeroed size) w).1, ec with
    | Ok (b, n), None => take n b = bs
    | Throw e, Some c => e = system_error c
    | _, _ => False
    end.
Proof.
  intros Hf. unfold asio_read, Transfer.read_buffer_seq, Transfer.new_consuming. assert (length (zeroed size) = size) as Hz by apply length_replicate.
  rewrite Hz. destruct (Transfer.transfer_loop_spec (read_device f) size (read_device_progresses f size Hf) (S size) 0 (zeroed size, w)
    ltac:(lia) ltac:(lia)) as (ec & n & [b' w'] & He & _). rewrite He.
  destruct (read_loop f size _ 0 _ w ec n b' w' Hf Hz ltac:(lia) He) as (bs & Hr & -> & _ & Ht). rewrite Nat.sub_0_r in Hr.
  exists bs, ec. by destruct ec.
Qed.
Lemma asio_write_writes f b w : write_call_ok f ->
  exists k ec, writes f b w k ec (asio_write f b w).2 /\
    match (asio_write f b w).1, ec with
    | Ok n, None => n = k
    | Throw e, Some c => e = system_error c
    | _, _ => False
    end.
Proof.
  intros Hf. unfold asio_write, Transfer.write, Transfer.new_consuming.
  destruct (Transfer.transfer_loop_spec (write_device b f) (length b) (write_device_progresses b f Hf)
    (S (length b)) 0 w ltac:(lia) ltac:(lia)) as (ec & n & w' & He & _). rewrite He.
  destruct (write_loop b f _ 0 w ec n w' Hf ltac:(lia) He) as (k & Hw & ->). exists k, ec. by destruct ec.
Qed.

#[local] Close Scope nat_scope.

(** When an operation is refused, and what the caller sees. *)
Definition refusal (c : tcp_call) (a : atoms) : option (res tcp_value) :=
  match c with
  | CConnect _ => Throw <$> exclusive_refusal "Cannot connect while socket I/O is pending." a
  | CConnectSsl _ _ =>
      if tls_enabled a then Some (Throw (runtime_error "TLS has already been enabled on this socket."))
      else Throw <$> exclusive_refusal "Cannot enable TLS while asynchronous operations are pending." a
  | CClose => Throw <$> exclusive_refusal
      "close() called with async operations still in flight. Use safe_shutdown() instead." a
  | CAccept _ => Throw <$> exclusive_refusal "Cannot accept into a socket while socket I/O is pending." a
  | CShutdown => Throw <$> exclusive_refusal
      "shutdown() called with async operations still in flight. Use safe_shutdown() instead." a
  | CAvailable => (fun _ => Ok (VSize 0)) <$> io_refusal dir_read a
  | CPeerClosed => (fun _ => Ok (VBool false)) <$> io_refusal dir_read a
  | CReceive _ | CRead _ => Throw <$> io_refusal dir_read a
  | CSend _ | CWrite _ => Throw <$> io_refusal dir_write a
  | CSetOption _ | CIsOpen | CLocalEndpoint | CRemoteEndpoint => None
  end.

Lemma restored st : on_self (set_atoms (tcp_atoms (self st))) st = st.
Proof. by destruct st as [[] ?]. Qed.

Lemma scoped_exclusive_refused {A} msg (m : M tcp_state A) st e :
  exclusive_refusal msg (tcp_atoms (self st)) = Some e -> scoped_exclusive_operation msg m st = (Throw e, st).
Proof.
  intros He. unfold scoped_exclusive_operation, bind, atomically.
  by rewrite tcp_begin_exclusive_exec, He, restored.
Qed.
Lemma scoped_io_refused {A} d (m : M tcp_state A) st e : jobs_ok (tcp_atoms (self st)) ->
  io_refusal d (tcp_atoms (self st)) = Some e -> scoped_io_job d m st = (Throw e, st).
Proof.
  intros Hj He. unfold scoped_io_job, bind, atomically. by rewrite tcp_begin_io_exec, He, restored.
Qed.
Lemma try_io_refused {A} d (a : A) (m : M tcp_state A) st e : jobs_ok (tcp_atoms (self st)) ->
  io_refusal d (tcp_atoms (self st)) = Some e ->
  (ok <-- atomically (tcp_try_begin_io_job d) ;;
   if negb ok then ret a else m) st = (Ok a, st).
Proof.
  intros Hj He. unfold bind, atomically. by rewrite tcp_try_begin_io_exec, He, restored.
Qed.

(** ** Properties *)

(** C2: no operation of a TCP socket leaks its reservation or leaves TLS half set up.
    Whatever sequence of public operations runs on a new socket, whatever the transport,
    OpenSSL and the trust store answer and however many of them throw, afterwards no
    operation is reserved, [async_jobs] is zero, and [tls_enabled], the TLS stream and its
    context are all present or all absent. *)
Theorem tcp_calls_release (r : raw) (p : process) (cs : list tcp_call) :
  let sk := self (run_calls cs (TcpState (tcp_socket_new r) p)).2 in
  tcp_wf sk /\ tcp_atoms sk = set_flag TlsEnabled (bool_decide (is_Some (tls_stream sk))) initial_atoms.
Proof.
  destruct (keeps_calls cs (TcpState (tcp_socket_new r) p) (new_wf r)) as [Hw Hr].
  cbn zeta. split; [done|]. rewrite <- (wf_flag _ Hw). apply resv_tls; [done|done].
Qed.

(** A refused operation does nothing.  When the reservations of the socket do not
    admit a call, it answers as [refusal] says (the error of the conflict, [0] for
    [available], [false] for [peer_closed]), and neither the socket nor the world (the
    transport, OpenSSL, the trust report) changes. *)
Theorem tcp_refused_untouched (c : tcp_call) (st : tcp_state) (r : res tcp_value)
  (Hj : jobs_ok (tcp_atoms (self st))) (Hr : refusal c (tcp_atoms (self st)) = Some r) :
  run_call c st = (r, st).
Proof.
  destruct c; cbn [run_call refusal] in *; unfold returning, bind; try done.
  2: { rewrite connect_ssl_scoped. destruct (tls_enabled _); [by simplify_eq|].
       apply fmap_Some in Hr as (e & He & ->). by erewrite scoped_exclusive_refused. }
  all: apply fmap_Some in Hr as (e & He & ->).
  all: try (unfold connect, close, accept, shutdown; by erewrite scoped_exclusive_refused).
  all: try (unfold receive, read, send, write; by erewrite scoped_io_refused).
  - unfold available. by erewrite try_io_refused.
  - rewrite peer_closed_scoped. by erewrite try_io_refused.
Qed.

(** C24: [connect_ssl] is all or nothing.  It either returns with TLS enabled on a stream
    the handshake was run on, or throws and leaves the socket as it was but for the trust
    report: a socket that had no TLS has none, one that had it keeps it.  Either way the
    reservation is released. *)
Theorem connect_ssl_outcome (host : string) (options : ssl_options) (st : tcp_state) (Hwf : tcp_wf (self st)) :
  match connect_ssl plat host options st with
  | (Ok _, st') => tcp_wf (self st') /\ resv (tcp_atoms (self st')) = resv (tcp_atoms (self st)) /\
      tls_enabled (tcp_atoms (self st')) = true
  | (Throw _, st') => tcp_wf (self st') /\ tcp_atoms (self st') = tcp_atoms (self st) /\
      tls_stream (self st') = tls_stream (self st)
  end.
Proof.
  destruct (keeps_connect_ssl host options st Hwf) as [Hw Hr].
  rewrite connect_ssl_scoped in *. destruct (tls_enabled (tcp_atoms (self st))) eqn:Ht; [done|].
  set (msg := "Cannot enable TLS while asynchronous operations are pending.") in *.
  destruct (exclusive_refusal msg (tcp_atoms (self st))) as [e|] eqn:Er.
  { by rewrite (scoped_exclusive_refused msg _ st e Er). }
  unfold scoped_exclusive_operation, bind, finally, atomically in *.
  rewrite tcp_begin_exclusive_exec, Er in *. set (st1 := on_self _ st) in *.
  assert (tcp_wf (self st1)) as Hwf1.
  { destruct Hwf as [Hf Hc Hj]. destruct st as [[[] r c s rep] p]; cbn in *. by split. }
  pose proof (handshake_body_outcome host options st1 Hwf1 Ht) as Hout.
  destruct (handshake_body host options st1) as [[[]|e] st2]; cbn [fst snd] in *.
  - split_and!; [done..|]. rewrite (wf_flag _ Hw). apply bool_decide_eq_true. exact Hout.
  - assert (tls_stream (self (release tcp_end_exclusive st2)) = None) as Hn by exact Hout.
    assert (tls_stream (self st) = None) as Hn0.
    { pose proof (wf_flag _ Hwf) as Hf. rewrite Ht in Hf. symmetry in Hf.
      apply bool_decide_eq_false, eq_None_not_Some in Hf. done. }
    split_and!; [done| |by rewrite Hn, Hn0].
    apply resv_tls; [done|]. by rewrite (wf_flag _ Hw), Hn, Ht.
Qed.

(** C25: [read] and [write] on a TCP socket transfer everything or throw the transport's error.
    Refused, they throw the refusal and change nothing.  Admitted, on transports that make
    progress: [read(size)] makes calls of [read_some] and returns their bytes, in order,
    [size] of them, or throws the error of the call that failed; [write] makes calls of
    [write_some] on the successive rests of its argument and returns when they have taken all
    of it, or throws the error of the call that failed.  The stream is left where these calls
    left it. *)
Theorem tcp_read_write_exact `{!SocketExternalOk T N} (size : nat) (s : list ascii) (st : tcp_state)
  (Hj : jobs_ok (tcp_atoms (self st))) :
  match io_refusal dir_read (tcp_atoms (self st)) with
  | Some e => read size st = (Throw e, st)
  | None => exists b ec, reads (read_some_fn (self st)) size (world (proc st)) b ec (world (proc (read size st).2)) /\
      (ec = None -> length b = size) /\ (read size st).1 = match ec with None => Ok b | Some e => Throw (system_error e) end
  end /\
  match io_refusal dir_write (tcp_atoms (self st)) with
  | Some e => write s st = (Throw e, st)
  | None => exists k ec, writes (write_some_fn (self st)) s (world (proc st)) k ec (world (proc (write s st).2)) /\
      (ec = None -> k = length s) /\ (write s st).1 = match ec with None => Ok tt | Some e => Throw (system_error e) end
  end.
Proof.
  assert (on_self (set_atoms (tcp_atoms (self st))) st = st) as Hsame by (by destruct st as [[] p]).
  unfold read, write, scoped_io_job, bind, finally, atomically, gets.
  rewrite !tcp_begin_io_exec by done. unfold call, in_process, ext. split.
  - destruct (io_refusal dir_read _) as [e|]; [by rewrite Hsame|].
    assert (read_call_ok (read_some_fn (self st))) as Hf.
    { unfold read_some_fn. destruct (tls_stream _); [apply stream_read_ok|apply raw_read_ok]. }
    destruct (asio_read_reads (read_some_fn (self st)) size (world (proc st)) Hf) as (b & ec & Hr & Hres).
    exists b, ec. cbn. change (read_some_fn (self _)) with (read_some_fn (self st)).
    destruct (asio_read _ _ _) as [[[b' n]|e] w]; cbn in *; destruct ec as [c|]; try done; subst; split_and!; try done.
    apply (reads_length _ _ _ _ _ _ Hf Hr).
  - destruct (io_refusal dir_write _) as [e|]; [by rewrite Hsame|].
    assert (write_call_ok (write_some_fn (self st))) as Hf.
    { unfold write_some_fn. destruct (tls_stream _); [apply stream_write_ok|apply raw_write_ok]. }
    destruct (asio_write_writes (write_some_fn (self st)) s (world (proc st)) Hf) as (k & ec & Hw & Hres).
    exists k, ec. cbn. change (write_some_fn (self _)) with (write_some_fn (self st)).
    destruct (asio_write _ _ _) as [[n|e] w]; cbn in *; destruct ec as [c|]; try done; subst; split_and!; try done.
    apply (writes_length _ _ _ _ _ _ Hf Hw).
Qed.

Lemma slot_configure_stream s host options p :
  TrustStore.last_tls_trust_report_slot (configure_client_stream s host options p).2
  = TrustStore.last_tls_trust_report_slot p.
Proof.
  unfold configure_client_stream, bind, ext_val, ext.
  repeat (cbn; case_match; simplify_eq/=; try done).
Qed.

(** [init_ssl] reports what the trust set-up did.  On an open socket without TLS and
    with consistent options, the socket's trust report and the thread's last report are
    both the text [configure_client_context] returned, or [trust_mode=error] with the text
    of the exception it threw, whatever happens afterwards; and when it threw, the same
    exception reaches the caller and no TLS stream exists. *)
Theorem init_ssl_report (host : string) (options : ssl_options) (st : tcp_state) (c : ctx) (w : W)
  (Hopen : raw_is_open (sock (self st)) (world (proc st)) = true)
  (Hno : tls_stream (self st) = None)
  (Hopt : verify_host options && negb (verify_peer options) = false)
  (Hctx : ctx_new (world (proc st)) = (Ok c, w)) :
  let rep := (configure_client_context plat c options (set_world w (proc st))).1 in
  let text := match rep with
              | Ok report => report
              | Throw e => "trust_mode=error; loaded=(none); failed=" +:+ what e
              end in
  let '(r, st') := init_ssl plat host options st in
  last_tls_trust_report (self st') = text /\
  TrustStore.last_tls_trust_report_slot (proc st') = text /\
  (forall e, rep = Throw e -> r = Throw e /\ tls_stream (self st') = None).
Proof.
  unfold init_ssl, observe, bind, gets, call, in_process, try_catch, publish_report, modify, ext, throw.
  cbn. rewrite Hopen. cbn. rewrite Hno. cbn. rewrite Hopt, Hctx. cbn.
  destruct (configure_client_context plat c options (set_world w (proc st))) as [[report|e] p]; cbn.
  - destruct (stream_new (sock (self st)) c (world p)) as [[s|e] w1]; cbn; [|done].
    match goal with |- context [configure_client_stream s host options ?q] =>
      pose proof (slot_configure_stream s host options q) as Hs;
      destruct (configure_client_stream s host options q) as [[[]|e] p2] end; cbn in *; done.
  - split_and!; [done..|]. intros e' [= ->]. done.
Qed.

(** [shutdown] on an idle socket ends TLS and the connection.  It throws exactly when
    the transport's shutdown reports an error other than [not_connected], and in every
    case TLS is off afterwards. *)
Theorem shutdown_result (st : tcp_state) (Hwf : tcp_wf (self st))
  (Hidle : resv (tcp_atoms (self st)) = (false, false, false, 0)) :
  let w := match tls_stream (self st) with
           | Some s => (stream_shutdown s (world (proc st))).2
           | None => world (proc st)
           end in
  let ec := (raw_shutdown (sock (self st)) w).1 in
  let '(r, st') := shutdown st in
  r = match ec with
      | None | Some not_connected => Ok tt
      | Some e => Throw (system_error e)
      end /\
  tls_enabled (tcp_atoms (self st')) = false /\ tls_stream (self st') = None.
Proof.
  destruct st as [[[t e rd wr j] r c s rep] p]; cbn in Hidle; injection Hidle as -> -> -> ->.
  destruct Hwf as [Hf Hc Hj]; cbn in *. unfold shutdown, scoped_exclusive_operation, shutdown_tls.
  munfold. cbn. destruct s as [s|]; cbn in *; subst.
  - unfold call_val, in_process, ext_val; cbn. destruct (stream_shutdown s (world p)) as [ec1 w1]; cbn.
    destruct (raw_shutdown r w1) as [[[]|] w2]; cbn; done.
  - unfold call_val, in_process, ext_val; cbn.
    destruct (raw_shutdown r (world p)) as [[[]|] w2]; cbn; done.
Qed.
End invariant.

(** ** A concrete transport

    A loopback on the host of [TrustStore]: handles are numbers, every call succeeds,
    reads give ["x"]s three at a time. *)
Definition loop_read (n : nat) (h : @W host_trust) : (list ascii * error_code) * @W host_trust :=
  ((replicate (Nat.min n 3) "x"%char, None), h).
Definition loop_write (b : list ascii) (h : @W host_trust) : (nat * error_code) * @W host_trust :=
  ((Nat.min (length b) 3, None), h).
Definition loop_endpoint : endpoint_t := Endpoint (address_v4 2130706433) 80.

Definition loopback : SocketExternal host_trust := {|
  raw := nat;
  acceptor := unit;
  sock_option := unit;
  raw_is_open := fun _ _ => true;
  raw_connect := fun _ _ h => (Ok tt, h);
  raw_close := fun _ h => (Ok tt, h);
  raw_accept := fun _ _ h => (Ok tt, h);
  raw_set_option := fun _ _ h => (Ok tt, h);
  raw_available := fun _ h => (Ok 3, h);
  raw_non_blocking := fun _ _ h => (None, h);
  raw_peek := fun _ h => ((1, None), h);
  raw_read_some := fun _ => loop_read;
  raw_write_some := fun _ => loop_write;
  raw_shutdown := fun _ h => (Some not_connected, h);
  raw_local_endpoint := fun _ _ => Ok loop_endpoint;
  raw_remote_endpoint := fun _ _ => Ok loop_endpoint;
  stream_new := fun _ _ h => (Ok tt : res (@stream host_trust), h);
  stream_handshake := fun _ h => (Ok tt, h);
  stream_shutdown := fun _ h => (None, h);
  stream_read_some := fun _ => loop_read;
  stream_write_some := fun _ => loop_write |}.

Lemma loop_read_ok : read_call_ok loop_read.
Proof.
  intros n w. unfold loop_read. cbn. rewrite length_replicate. split; [lia|].
  intros Hn. destruct n; [lia|done].
Qed.
Lemma loop_write_ok : write_call_ok loop_write.
Proof. intros [|c b] w; unfold loop_write; cbn [fst snd length]; (split; [lia|done || (intros; lia)]). Qed.

#[export] Instance loopback_ok : SocketExternalOk host_trust loopback.
Proof. split; intros; (apply loop_read_ok || apply loop_write_ok). Qed.

Definition loop_process : @process host_trust := @Process host_trust (Host [] [] ) None unset_report.
Definition loop_socket (a : atoms) : @tcp_state host_trust loopback :=
  @TcpState host_trust loopback (@TcpSocket host_trust loopback a 7%nat None None unset_report) loop_process.

Lemma loop_wf : tcp_wf (self (loop_socket initial_atoms)).
Proof. split; cbn; [done|by split; intros []|done]. Qed.

Lemma tcp_refused_untouched_witness :
  let st := loop_socket (Atoms false false true false 1) in
  @run_call host_trust loopback plain_error_text linux (@CReceive host_trust loopback 4) st =
    (Throw (runtime_error "Another read operation is already pending on this socket."), st).
Proof.
  apply (@tcp_refused_untouched host_trust loopback plain_error_text linux (@CReceive host_trust loopback 4)
    (loop_socket (Atoms false false true false 1))); [split; cbn; lia|reflexivity].
Defined.

Lemma connect_ssl_outcome_witness :
  let st := loop_socket initial_atoms in
  match @connect_ssl host_trust loopback plain_error_text linux "h" default_ssl_options st with
  | (Ok _, st') => tcp_wf (self st') /\ resv (tcp_atoms (self st')) = resv (tcp_atoms (self st)) /\
      tls_enabled (tcp_atoms (self st')) = true
  | (Throw _, st') => tcp_wf (self st') /\ tcp_atoms (self st') = tcp_atoms (self st) /\
      tls_stream (self st') = tls_stream (self st)
  end.
Proof.
  apply (@connect_ssl_outcome host_trust loopback plain_error_text linux "h" default_ssl_options
    (loop_socket initial_atoms) loop_wf).
Defined.

Lemma tcp_read_write_exact_witness :
  let st := loop_socket initial_atoms in
  exists b ec, reads (read_some_fn (self st)) 8%nat (world (proc st)) b ec (world (proc (read 8 st).2)) /\
    (ec = None -> length b = 8%nat) /\ (read 8 st).1 = match ec with None => Ok b | Some e => Throw (system_error e) end.
Proof.
  apply (@tcp_read_write_exact host_trust loopback loopback_ok 8%nat ["a"]%char (loop_socket initial_atoms)).
  split; cbn; lia.
Defined.

Lemma init_ssl_report_witness :
  let rep := (@configure_client_context host_trust plain_error_text linux tt default_ssl_options
                (@set_world host_trust (Host [] []) loop_process)).1 in
  let text := match rep with
              | Ok report => report
              | Throw e => "trust_mode=error; loaded=(none); failed=" +:+ @what plain_error_text e
              end in
  let '(r, st') := @init_ssl host_trust loopback plain_error_text linux "h" default_ssl_options
                     (loop_socket initial_atoms) in
  last_tls_trust_report (self st') = text /\
  TrustStore.last_tls_trust_report_slot (proc st') = text /\
  (forall e, rep = Throw e -> r = Throw e /\ tls_stream (self st') = None).
Proof.
  apply (@init_ssl_report host_trust loopback plain_error_text linux "h" default_ssl_options
    (loop_socket initial_atoms) tt (Host [] [])); reflexivity.
Defined.

Lemma shutdown_result_witness :
  (shutdown (loop_socket initial_atoms)).1 = Ok tt.
Proof.
  exact (proj1 (@shutdown_result host_trust loopback (loop_socket initial_atoms) loop_wf eq_refl)).
Defined.
