(* ===== verification/UdpSocket.v ===== *)
(** * [cs_impl::network::udp::socket] of [network.hpp]

    The transport stands behind [UdpExternal].  As for TCP, the member functions are run
    alone; [udp_reservations_exclude] covers their interleaving. *)
From S2P Require Import Prelude Atomics Admission Reservations Endpoint.
Import Admission.Udp.

Class UdpExternal := {
  UW : Type;                                (** the world *)
  uraw : Type;
  usock_option : Type;
  udp_raw_is_open : uraw -> UW -> bool;
  udp_raw_open_v4 : uraw -> UW -> res unit * UW;
  udp_raw_open_v6 : uraw -> UW -> res unit * UW;
  udp_raw_bind : uraw -> endpoint_t -> UW -> res unit * UW;
  udp_raw_connect : uraw -> endpoint_t -> UW -> res unit * UW;
  udp_raw_close : uraw -> UW -> res unit * UW;
  udp_raw_set_option : uraw -> usock_option -> UW -> res unit * UW;
  udp_raw_available : uraw -> UW -> res Z * UW;
  (** [receive_from] on a buffer of [n] bytes: what was stored, and the sender *)
  udp_raw_receive_from : uraw -> nat -> UW -> res (list ascii * endpoint_t) * UW;
  udp_raw_send_to : uraw -> list ascii -> endpoint_t -> UW -> res nat * UW;
  udp_raw_local_endpoint : uraw -> UW -> res endpoint_t;
  udp_raw_remote_endpoint : uraw -> UW -> res endpoint_t;
}.

Record udp_socket `{UdpExternal} := UdpSocket { udp_atoms : atoms; udp_sock : uraw }.
Arguments UdpSocket {_} _ _.
Record udp_state `{UdpExternal} := UdpState { udp_self : udp_socket; udp_world : UW }.
Arguments UdpState {_} _ _.

Abbreviation exclusive_refusal := (Reservations.exclusive_refusal texts).
Abbreviation io_refusal := (Reservations.io_refusal texts).
Definition close_error : string :=
  "close() called with async operations still in flight. Use safe_close() instead.".

Section udp.
  Context `{U : UdpExternal}.
  #[local] Abbreviation udp_state := (@udp_state U).

Definition udp_socket_new (r : uraw) : udp_socket := UdpSocket initial_atoms r.
Definition set_udp_atoms (a : atoms) (st : udp_state) : udp_state :=
  UdpState (UdpSocket a (udp_sock (udp_self st))) (udp_world st).

Definition udp_atomically {A} (p : prog A) : M udp_state A := fun st =>
  let '(r, a) := exec p (udp_atoms (udp_self st)) in (r, set_udp_atoms a st).
(** A call on the transport. *)
Definition udp_call {A} (f : uraw -> UW -> res A * UW) : M udp_state A := fun st =>
  let '(r, w) := f (udp_sock (udp_self st)) (udp_world st) in (r, UdpState (udp_self st) w).
Definition udp_release (p : prog unit) (st : udp_state) : udp_state := (udp_atomically p st).2.

Definition scoped_exclusive_close {A} (m : M udp_state A) : M udp_state A :=
  udp_atomically begin_exclusive_close ;;; finally m (udp_release end_exclusive_close).
Definition udp_scoped_io_job {A} (d : io_direction) (m : M udp_state A) : M udp_state A :=
  udp_atomically (udp_begin_io_job d) ;;; finally m (udp_release (udp_finish_io_job d)).

Definition open_v4 : M udp_state unit := udp_call udp_raw_open_v4.
Definition open_v6 : M udp_state unit := udp_call udp_raw_open_v6.
Definition udp_bind (ep : endpoint_t) : M udp_state unit := udp_call (fun r => udp_raw_bind r ep).
Definition udp_connect (ep : endpoint_t) : M udp_state unit := udp_call (fun r => udp_raw_connect r ep).
Definition udp_close : M udp_state unit := scoped_exclusive_close (udp_call udp_raw_close).
Definition udp_is_open : M udp_state bool :=
  gets (fun st => udp_raw_is_open (udp_sock (udp_self st)) (udp_world st)).
Definition udp_set_option (o : usock_option) : M udp_state unit :=
  udp_call (fun r => udp_raw_set_option r o).

Definition udp_available : M udp_state Z :=
  ok <-- udp_atomically (udp_try_begin_io_job dir_read) ;;
  if negb ok then ret 0
  else finally (udp_call udp_raw_available) (udp_release (udp_finish_io_job dir_read)).

Definition receive_from (maximum : nat) : M udp_state (list ascii * endpoint_t) :=
  udp_scoped_io_job dir_read (udp_call (fun r => udp_raw_receive_from r maximum)).
Definition send_to (s : list ascii) (ep : endpoint_t) : M udp_state unit :=
  udp_scoped_io_job dir_write (udp_call (fun r => udp_raw_send_to r s ep) ;;; ret tt).
Definition udp_local_endpoint : M udp_state endpoint_t :=
  udp_call (fun r w => (udp_raw_local_endpoint r w, w)).
Definition udp_remote_endpoint : M udp_state endpoint_t :=
  udp_call (fun r w => (udp_raw_remote_endpoint r w, w)).

(** ** Every public operation *)

Inductive udp_call_t :=
  | UOpenV4 | UOpenV6
  | UBind (ep : endpoint_t)
  | UConnect (ep : endpoint_t)
  | UClose
  | USetOption (o : usock_option)
  | UAvailable
  | UReceiveFrom (maximum : nat)
  | USendTo (s : list ascii) (ep : endpoint_t)
  | UIsOpen | ULocalEndpoint | URemoteEndpoint.

Inductive udp_value :=
  | UVUnit
  | UVBool (b : bool)
  | UVSize (n : Z)
  | UVDatagram (d : list ascii * endpoint_t)
  | UVEndpoint (ep : endpoint_t).

Definition udp_returning {A} (m : M udp_state A) (f : A -> udp_value) : M udp_state udp_value :=
  x <-- m ;; ret (f x).
Definition uunit (_ : unit) : udp_value := UVUnit.

Definition run_udp_call (c : udp_call_t) : M udp_state udp_value :=
  match c with
  | UOpenV4 => udp_returning open_v4 uunit
  | UOpenV6 => udp_returning open_v6 uunit
  | UBind ep => udp_returning (udp_bind ep) uunit
  | UConnect ep => udp_returning (udp_connect ep) uunit
  | UClose => udp_returning udp_close uunit
  | USetOption o => udp_returning (udp_set_option o) uunit
  | UAvailable => udp_returning udp_available UVSize
  | UReceiveFrom maximum => udp_returning (receive_from maximum) UVDatagram
  | USendTo s ep => udp_returning (send_to s ep) uunit
  | UIsOpen => udp_returning udp_is_open UVBool
  | ULocalEndpoint => udp_returning udp_local_endpoint UVEndpoint
  | URemoteEndpoint => udp_returning udp_remote_endpoint UVEndpoint
  end.

Fixpoint run_udp_calls (cs : list udp_call_t) (st : udp_state) : list (res udp_value) * udp_state :=
  match cs with
  | [] => ([], st)
  | c :: cs =>
      let '(r, st) := run_udp_call c st in
      let '(rs, st) := run_udp_calls cs st in (r :: rs, st)
  end.

(** What [udp_available] and the others answer when the reservations do not admit them. *)
Definition udp_refusal (c : udp_call_t) (a : atoms) : option (res udp_value) :=
  match c with
  | UClose => Throw <$> exclusive_refusal close_error a
  | UAvailable => (fun _ => Ok (UVSize 0)) <$> io_refusal dir_read a
  | UReceiveFrom _ => Throw <$> io_refusal dir_read a
  | USendTo _ _ => Throw <$> io_refusal dir_write a
  | _ => None
  end.

(** ** Every operation keeps the atomic members *)

Definition ukeeps {A} (m : M udp_state A) : Prop := forall st,
  jobs_ok (udp_atoms (udp_self st)) -> udp_atoms (udp_self (m st).2) = udp_atoms (udp_self st).

Lemma ukeeps_call {A} (f : uraw -> UW -> res A * UW) : ukeeps (udp_call f).
Proof. intros st Hj. unfold udp_call. by destruct (f _ _). Qed.
Lemma ukeeps_ret {A} (a : A) : ukeeps (ret a).
Proof. done. Qed.
Lemma ukeeps_gets {A} (f : udp_state -> A) : ukeeps (gets f).
Proof. done. Qed.
Lemma ukeeps_bind {A B} (m : M udp_state A) (k : A -> M udp_state B) :
  ukeeps m -> (forall a, ukeeps (k a)) -> ukeeps (bind m k).
Proof.
  intros Hm Hk st Hj. unfold bind. specialize (Hm st Hj).
  destruct (m st) as [[a|e] st1]; cbn in *; [|done]. by rewrite Hk; rewrite Hm.
Qed.

Lemma uset_id st : set_udp_atoms (udp_atoms (udp_self st)) st = st.
Proof. by destruct st as [[] ?]. Qed.

Lemma begin_close_exec a : exec begin_exclusive_close a =
  match exclusive_refusal close_error a with
  | Some e => (Throw e, a) | None => (Ok tt, reserve_exclusive a) end.
Proof. apply begin_exclusive_exec. Qed.

Lemma ukeeps_close {A} (m : M udp_state A) : ukeeps m -> ukeeps (scoped_exclusive_close m).
Proof.
  intros Hm st Hj. unfold scoped_exclusive_close, bind, finally, udp_atomically.
  rewrite begin_close_exec. destruct (exclusive_refusal _ _) as [e|] eqn:Er; [by rewrite uset_id|].
  set (st1 := set_udp_atoms _ st). assert (jobs_ok (udp_atoms (udp_self st1))) as Hj1 by done.
  specialize (Hm st1 Hj1). destruct (m st1) as [r st2]; cbn [snd] in *.
  destruct (end_exclusive_exec texts _ (udp_atoms (udp_self st2)) _ Er) as (c & He & Hc & Ht); [by rewrite Hm|].
  unfold udp_release, udp_atomically, end_exclusive_close. rewrite He. cbn.
  apply resv_tls; [done|]. by rewrite Ht, Hm.
Qed.

Lemma reserve_jobs d a : jobs_ok (reserve_io d a).
Proof. unfold jobs_ok. destruct d; apply wrap64_range. Qed.
Lemma reserve_tls d a : tls_enabled (reserve_io d a) = tls_enabled a.
Proof. by destruct d. Qed.

(** What follows an admission. *)
Lemma udp_finish {A} d (m : M udp_state A) st : ukeeps m -> jobs_ok (udp_atoms (udp_self st)) ->
  io_refusal d (udp_atoms (udp_self st)) = None ->
  udp_atoms (udp_self (finally m (udp_release (udp_finish_io_job d))
     (set_udp_atoms (reserve_io d (udp_atoms (udp_self st))) st)).2) = udp_atoms (udp_self st).
Proof.
  intros Hm Hj Er. set (st1 := set_udp_atoms _ st).
  specialize (Hm st1 (reserve_jobs d _)). unfold finally. destruct (m st1) as [r st2]; cbn [snd] in *.
  destruct (finish_io_exec texts d _ (udp_atoms (udp_self st2)) Hj Er) as (c & He & Hc & Ht); [by rewrite Hm|].
  unfold udp_release, udp_atomically, udp_finish_io_job. rewrite He. cbn.
  apply resv_tls; [done|]. rewrite Ht, Hm. apply reserve_tls.
Qed.

Lemma ukeeps_io_job {A} d (m : M udp_state A) : ukeeps m -> ukeeps (udp_scoped_io_job d m).
Proof.
  intros Hm st Hj. unfold udp_scoped_io_job, bind, udp_atomically, udp_begin_io_job.
  rewrite begin_io_exec by done. destruct (io_refusal _ _) as [e|] eqn:Er; [by rewrite uset_id|].
  by apply udp_finish.
Qed.

Lemma ukeeps_try {A} (a : A) (m : M udp_state A) : ukeeps m ->
  ukeeps (ok <-- udp_atomically (udp_try_begin_io_job dir_read) ;;
          if negb ok then ret a else finally m (udp_release (udp_finish_io_job dir_read))).
Proof.
  intros Hm st Hj. unfold bind, udp_atomically, udp_try_begin_io_job.
  rewrite (try_begin_io_exec texts) by done.
  destruct (io_refusal _ _) as [e|] eqn:Er; cbn [negb]; [by rewrite uset_id|]. by apply udp_finish.
Qed.

Lemma ukeeps_run c : ukeeps (run_udp_call c).
Proof.
  destruct c; cbn [run_udp_call]; unfold udp_returning; (apply ukeeps_bind; [|intros; apply ukeeps_ret]);
    try apply ukeeps_call; try apply ukeeps_gets.
  - apply ukeeps_close, ukeeps_call.
  - apply ukeeps_try, ukeeps_call.
  - apply ukeeps_io_job, ukeeps_call.
  - apply ukeeps_io_job, ukeeps_bind; [apply ukeeps_call|intros; apply ukeeps_ret].
Qed.

(** ** Properties *)

(** No operation of a UDP socket leaks its reservation: whatever sequence of public
    operations runs on a socket whose atomic members are [a], and however many throw, the
    members are [a] again afterwards. *)
Theorem udp_calls_release (cs : list udp_call_t) (st : udp_state) (Hj : jobs_ok (udp_atoms (udp_self st))) :
  udp_atoms (udp_self (run_udp_calls cs st).2) = udp_atoms (udp_self st).
Proof.
  revert st Hj. induction cs as [|c cs IH]; intros st Hj; [done|]. cbn.
  pose proof (ukeeps_run c st Hj) as Hc. destruct (run_udp_call c st) as [r st1]; cbn in *.
  specialize (IH st1). rewrite Hc in IH. specialize (IH Hj).
  by destruct (run_udp_calls cs st1).
Qed.

(** A refused operation of a UDP socket answers as [udp_refusal] says and changes
    neither the socket nor the world. *)
Theorem udp_refused_untouched (c : udp_call_t) (st : udp_state) (r : res udp_value)
  (Hj : jobs_ok (udp_atoms (udp_self st))) (Hr : udp_refusal c (udp_atoms (udp_self st)) = Some r) :
  run_udp_call c st = (r, st).
Proof.
  destruct c; cbn in Hr; try done; apply fmap_Some in Hr as (e & He & ->); cbn [run_udp_call];
    unfold udp_returning, udp_close, udp_available, receive_from, send_to, scoped_exclusive_close,
      udp_scoped_io_job, bind, udp_atomically, udp_begin_io_job, udp_try_begin_io_job.
  - by rewrite begin_close_exec, He, uset_id.
  - by rewrite (try_begin_io_exec texts), He by done; cbn [negb]; rewrite uset_id.
  - by rewrite begin_io_exec, He, uset_id by done.
  - by rewrite begin_io_exec, He, uset_id by done.
Qed.
End udp.

(** ** A concrete transport: the world counts the datagrams sent. *)
Definition udp_toy : UdpExternal := {|
  UW := nat;
  uraw := unit;
  usock_option := unit;
  udp_raw_is_open := fun _ _ => true;
  udp_raw_open_v4 := fun _ w => (Ok tt, w);
  udp_raw_open_v6 := fun _ w => (Ok tt, w);
  udp_raw_bind := fun _ _ w => (Ok tt, w);
  udp_raw_connect := fun _ _ w => (Ok tt, w);
  udp_raw_close := fun _ w => (Ok tt, w);
  udp_raw_set_option := fun _ _ w => (Ok tt, w);
  udp_raw_available := fun _ w => (Ok 5, w);
  udp_raw_receive_from := fun _ n w => (Throw (system_error would_block), w);
  udp_raw_send_to := fun _ b _ w => (Ok (length b), S w);
  udp_raw_local_endpoint := fun _ _ => Throw (system_error not_connected);
  udp_raw_remote_endpoint := fun _ _ => Throw (system_error not_connected) |}.

Definition udp_toy_state (a : atoms) : @udp_state udp_toy :=
  @UdpState udp_toy (@UdpSocket udp_toy a tt) 0%nat.

Lemma udp_calls_release_witness :
  udp_atoms (udp_self (run_udp_calls [UReceiveFrom 9; USendTo ["a"%char] (Endpoint any_v4 1); UClose]
    (udp_toy_state initial_atoms)).2) = initial_atoms.
Proof.
  apply (@udp_calls_release udp_toy [UReceiveFrom 9; USendTo ["a"%char] (Endpoint any_v4 1); UClose]
    (udp_toy_state initial_atoms)). split; cbn; lia.
Defined.

Lemma udp_refused_untouched_witness :
  let st := udp_toy_state (Atoms false true false false 1) in
  @run_udp_call udp_toy (USendTo ["a"%char] (Endpoint any_v4 1)) st =
    (Throw (runtime_error "Cannot start UDP I/O while close is pending."), st).
Proof.
  apply (@udp_refused_untouched udp_toy (USendTo ["a"%char] (Endpoint any_v4 1))
    (udp_toy_state (Atoms false true false false 1))); [split; cbn; lia|reflexivity].
Defined.
