(* ===== verification/Cni.v ===== *)
(** * The script interface of the blocking sockets: the wrappers of [network.cpp]

    The functions of the namespaces [tcp], [tcp::socket], [udp] and [udp::socket] check
    their arguments, call the socket classes and turn every C++ exception into a script
    exception ([lang_error]).  Name resolution, acceptors and the socket option objects
    belong to the system: [CniTcp] and [CniUdp]. *)
From S2P Require Import Prelude FixedHex Endpoint TlsOptions TrustStore Atomics Admission Reservations.
From S2P Require TcpSocket UdpSocket.
Import TcpSocket.

(** [try { m } catch (const std::exception &e) { throw lang_error(e.what()); }] *)
Definition translate `{ErrorText} {S A} (m : M S A) : M S A :=
  try_catch m (fun e => throw (lang_error (what e))).

(** A check that does not look at the state. *)
Definition lift_res {S A} (r : res A) : M S A := fun s => (r, s).

Class CniTcp (T : TrustExternal) (N : SocketExternal T) := {
  tcp_reuse_address : bool -> sock_option;
  tcp_no_delay : bool -> sock_option;
  tcp_keep_alive : bool -> sock_option;
  acceptor_new : endpoint_t -> W -> res acceptor * W;
  tcp_resolver_resolve : string -> string -> W -> res (list endpoint_t) * W;
  asio_host_name : W -> res string * W;
}.

Section cni_tcp.
  Context `{T : TrustExternal} {N : SocketExternal T} `{C : !CniTcp T N} `{ErrorText} `{CovVar}
    `{NetworkConfig} `{CovNumber} (plat : platform).
  #[local] Abbreviation tcp_state := (@TcpSocket.tcp_state T N).

Definition host_name : M process string := ext asio_host_name.
Definition get_last_global_ssl_trust_report : M process string := get_last_tls_trust_report.

Definition cni_acceptor (ep : endpoint_t) : M process acceptor := translate (ext (acceptor_new ep)).
Definition cni_tcp_resolve (host service : string) : M process (list endpoint_t) :=
  translate (ext (tcp_resolver_resolve host service)).

Definition cni_connect (ep : endpoint_t) : M tcp_state unit := translate (TcpSocket.connect ep).
Definition cni_connect_ssl (host : string) (options : var) : M tcp_state unit :=
  translate (o <-- lift_res (parse_ssl_options options) ;; TcpSocket.connect_ssl plat host o).
Definition cni_accept (a : acceptor) : M tcp_state unit := translate (TcpSocket.accept a).
Definition cni_close : M tcp_state unit := translate TcpSocket.close.
Definition cni_is_open : M tcp_state bool := TcpSocket.is_open.
Definition cni_is_ssl : M tcp_state bool := TcpSocket.is_ssl.
Definition cni_get_ssl_trust_report : M tcp_state string := TcpSocket.get_ssl_trust_report.
Definition set_opt_reuse_address (value : bool) : M tcp_state unit :=
  TcpSocket.set_option (tcp_reuse_address value).
Definition set_opt_no_delay (value : bool) : M tcp_state unit :=
  TcpSocket.set_option (tcp_no_delay value).
Definition set_opt_keep_alive (value : bool) : M tcp_state unit :=
  TcpSocket.set_option (tcp_keep_alive value).
Definition cni_available : M tcp_state Z := translate TcpSocket.available.
Definition cni_peer_closed : M tcp_state bool := TcpSocket.peer_closed.

Definition cni_receive (max : number) : M tcp_state (list ascii) :=
  size <-- lift_res (checked_io_buffer_size max) ;;
  translate (TcpSocket.receive (Z.to_nat size)).
Definition cni_read (size : number) : M tcp_state (list ascii) :=
  checked_size <-- lift_res (checked_io_buffer_size size) ;;
  translate (TcpSocket.read (Z.to_nat checked_size)).
Definition cni_send (str : list ascii) : M tcp_state nat := translate (TcpSocket.send str).
Definition cni_write (str : list ascii) : M tcp_state unit := translate (TcpSocket.write str).
Definition cni_shutdown : M tcp_state unit := translate TcpSocket.shutdown.
Definition cni_local_endpoint : M tcp_state endpoint_t := translate TcpSocket.local_endpoint.
Definition cni_remote_endpoint : M tcp_state endpoint_t := translate TcpSocket.remote_endpoint.
End cni_tcp.

Class CniUdp (U : UdpSocket.UdpExternal) := {
  udp_reuse_address : bool -> UdpSocket.usock_option;
  udp_broadcast : bool -> UdpSocket.usock_option;
  udp_resolver_resolve : string -> string -> UdpSocket.UW -> res (list endpoint_t) * UdpSocket.UW;
}.

Section cni_udp.
  Context `{U : UdpSocket.UdpExternal} `{C : !CniUdp U} `{ErrorText} `{NetworkConfig} `{CovNumber}.
  #[local] Abbreviation udp_state := (@UdpSocket.udp_state U).

Definition cni_udp_resolve (host service : string) : M UdpSocket.UW (list endpoint_t) :=
  translate (udp_resolver_resolve host service).
Definition cni_open_v4 : M udp_state unit := translate UdpSocket.open_v4.
Definition cni_open_v6 : M udp_state unit := translate UdpSocket.open_v6.
Definition cni_bind (ep : endpoint_t) : M udp_state unit := translate (UdpSocket.udp_bind ep).
Definition cni_udp_connect (ep : endpoint_t) : M udp_state unit := translate (UdpSocket.udp_connect ep).
Definition cni_udp_close : M udp_state unit := translate UdpSocket.udp_close.
Definition cni_udp_is_open : M udp_state bool := UdpSocket.udp_is_open.
Definition udp_set_opt_reuse_address (value : bool) : M udp_state unit :=
  UdpSocket.udp_set_option (udp_reuse_address value).
Definition udp_set_opt_broadcast (value : bool) : M udp_state unit :=
  UdpSocket.udp_set_option (udp_broadcast value).
Definition cni_udp_available : M udp_state Z := translate UdpSocket.udp_available.

(** [ep] is an output argument: it changes only when a datagram was received. *)
Definition cni_receive_from (max : number) (ep : endpoint_t) : M udp_state (list ascii * endpoint_t) :=
  size <-- lift_res (checked_io_buffer_size max) ;;
  translate (UdpSocket.receive_from (Z.to_nat size)).
Definition cni_send_to (str : list ascii) (ep : endpoint_t) : M udp_state unit :=
  translate (UdpSocket.send_to str ep).
Definition cni_udp_local_endpoint : M udp_state endpoint_t := translate UdpSocket.udp_local_endpoint.
Definition cni_udp_remote_endpoint : M udp_state endpoint_t := translate UdpSocket.udp_remote_endpoint.
End cni_udp.

(** ** Properties *)

Lemma translate_spec `{ErrorText} {S A} (m : M S A) s :
  translate m s = match m s with
                  | (Ok a, s') => (Ok a, s')
                  | (Throw e, s') => (Throw (lang_error (what e)), s')
                  end.
Proof. unfold translate, try_catch. by destruct (m s) as [[]]. Qed.

Section properties.
  Context `{T : TrustExternal} {N : SocketExternal T} `{!SocketExternalOk T N} `{ErrorText}
    `{NetworkConfig} `{!NetworkConfigOk _} `{Num : CovNumber} `{!CovNumberOk Num}.

(** The script's [sock.read(size)] end to end.  A size that is not positive or exceeds
    the configured limit is refused as a script error before the socket is touched; a busy
    socket answers with the conflict as a script error and nothing changes; otherwise the
    call returns exactly [size] bytes (its integer part) or the transport's error, as a
    script error. *)
Theorem cni_read_correct (size : number) (st : @tcp_state T N) (Hj : jobs_ok (tcp_atoms (self st))) :
  match checked_io_buffer_size size with
  | Throw e => cni_read size st = (Throw e, st) /\ exists s, e = lang_error s
  | Ok n =>
      match TcpSocket.io_refusal dir_read (tcp_atoms (self st)) with
      | Some e => cni_read size st = (Throw (lang_error (what e)), st)
      | None =>
          match (cni_read size st).1 with
          | Ok b => Z.of_nat (length b) = n
          | Throw e => exists c, e = lang_error (system_error_what c)
          end
      end
  end.
Proof.
  unfold cni_read, bind, lift_res.
  destruct (checked_io_buffer_size size) as [n|e] eqn:Hsize.
  - rewrite translate_spec. destruct (TcpSocket.io_refusal _ _) as [e|] eqn:Er.
    { unfold TcpSocket.read. by rewrite (TcpSocket.scoped_io_refused dir_read _ st e Hj Er). }
    unfold read, scoped_io_job, bind, finally, atomically, gets.
    rewrite tcp_begin_io_exec, Er by done. unfold call, in_process, ext. cbn.
    change (read_some_fn _) with (read_some_fn (self st)).
    assert (read_call_ok (read_some_fn (self st))) as Hf.
    { unfold read_some_fn. destruct (tls_stream _); [apply stream_read_ok|apply raw_read_ok]. }
    pose proof (asio_read_spec (read_some_fn (self st)) (zeroed (Z.to_nat n)) (world (proc st)) Hf) as Ha.
    assert (0 <= n) as Hn.
    { unfold checked_io_buffer_size in Hsize. repeat case_match; simplify_eq; apply wrap64_range. }
    destruct (asio_read _ _ _) as [[[b k]|e] w]; cbn.
    + destruct Ha as [-> Hl]. unfold zeroed in *. rewrite length_replicate in *. rewrite length_take. lia.
    + destruct Ha as [c ->]. by exists c.
  - split; [done|]. unfold checked_io_buffer_size in Hsize.
    repeat case_match; simplify_eq; by eexists.
Qed.
End properties.

Lemma cni_read_correct_witness :
  match (@cni_read host_trust loopback plain_error_text default_config int_number 8 (loop_socket initial_atoms)).1 with
  | Ok b => Z.of_nat (length b) = 8
  | Throw e => exists c, e = lang_error (@system_error_what plain_error_text c)
  end.
Proof.
  apply (@cni_read_correct host_trust loopback loopback_ok plain_error_text default_config int_number 8
    (loop_socket initial_atoms)). split; cbn; lia.
Defined.
