(* ===== verification/Resolver.v ===== *)
(** * Name resolution: [tcp::resolve] and [udp::resolve] of [network.hpp] and [network.cpp],
    down to the system's [getaddrinfo]

    [ip/basic_resolver.hpp], [ip/basic_resolver_query.hpp], [detail/resolver_service.hpp],
    the conversions of [detail/impl/socket_ops.ipp], the results and their iterators
    ([ip/basic_resolver_results.hpp], [ip/basic_resolver_iterator.hpp]).  The nodes of the
    list that [getaddrinfo] returns hold socket addresses as bytes; the list is memory to be
    freed.  An access outside of a vector or through a null pointer is [None]. *)
From S2P Require Import Prelude Address Cni.
From S2P Require Endpoint SocketOps.
Open Scope Z_scope.

(** ** Numbers of Linux *)

Definition EAI_BADFLAGS : Z := -1.
Definition EAI_NONAME : Z := -2.
Definition EAI_AGAIN : Z := -3.
Definition EAI_FAIL : Z := -4.
Definition EAI_NODATA : Z := -5.
Definition EAI_FAMILY : Z := -6.
Definition EAI_SOCKTYPE : Z := -7.
Definition EAI_SERVICE : Z := -8.
Definition EAI_ADDRFAMILY : Z := -9.
Definition EAI_MEMORY : Z := -10.
Definition EAI_SYSTEM : Z := -11.
Definition AF_UNSPEC_ : Z := 0.
Definition AF_INET_ : Z := 2.
Definition AF_INET6_ : Z := 10.

(** [asio::error] *)
Definition host_not_found : error := netdb_error 1.
Definition host_not_found_try_again : error := netdb_error 2.
Definition no_recovery : error := netdb_error 3.
Definition service_not_found : error := addrinfo_error EAI_SERVICE.
Definition socket_type_not_supported : error := addrinfo_error EAI_SOCKTYPE.
Definition no_memory : error := other_error 12.
Definition address_family_not_supported : error := other_error 97.

(** ** The query *)

(** [ip::tcp], [ip::udp]: the type and the protocol of an endpoint's [protocol()]. *)
Inductive protocol := tcp | udp.
Definition protocol_type (p : protocol) : Z := match p with tcp => 1 | udp => 2 end.
Definition protocol_protocol (p : protocol) : Z := match p with tcp => 6 | udp => 17 end.

Record hints := Hints { ai_flags : Z; hint_family : Z; ai_socktype : Z; ai_protocol : Z }.
Record query := Query { hints_ : hints; host_name_ : string; service_name_ : string }.
Definition basic_resolver_query (p : protocol) (host service : string) (resolve_flags : Z) : query :=
  Query (Hints resolve_flags AF_UNSPEC_ (protocol_type p) (protocol_protocol p)) host service.

(** ** [getaddrinfo] *)

(** A node; the list is the chain of [ai_next]. *)
Record addrinfo := AddrInfo { ai_family : Z; ai_addrlen : Z; ai_addr : list Z; ai_canonname : option string }.

(** The system's [getaddrinfo]: what it returns, [errno] after it, and the list it made, [[]]
    for the null pointer. *)
Class ResolverSystem := {
  RW : Type;
  sys_getaddrinfo : option string -> option string -> hints -> RW -> Z * Z * list addrinfo * RW;
}.

(** [errno] as an error of the system category. *)
Definition system_category (errno : Z) : error_code := if errno =? 0 then None else Some (other_error errno).
Definition translate_addrinfo_error (error errno : Z) : error_code :=
  if error =? 0 then None
  else if error =? EAI_AGAIN then Some host_not_found_try_again
  else if error =? EAI_BADFLAGS then Some SocketOps.invalid_argument
  else if error =? EAI_FAIL then Some no_recovery
  else if error =? EAI_FAMILY then Some address_family_not_supported
  else if error =? EAI_MEMORY then Some no_memory
  else if (error =? EAI_NONAME) || (error =? EAI_ADDRFAMILY) || (error =? EAI_NODATA) then Some host_not_found
  else if error =? EAI_SERVICE then Some service_not_found
  else if error =? EAI_SOCKTYPE then Some socket_type_not_supported
  else system_category errno.

(** A text that is not empty up to its first NUL. *)
Definition given (s : string) : option string := match c_str s with EmptyString => None | s => Some s end.

(** The system, and the lists [getaddrinfo] made that are not freed. *)
Record resolving `{ResolverSystem} := Resolving { rw : RW; lists : gmap nat (list addrinfo) }.
Arguments Resolving {_} _ _.

Section resolver.
  Context `{R : ResolverSystem} `{A : AddressSystem}.

Definition getaddrinfo (host service : string) (h : hints) (x : resolving) : option nat * error_code * resolving :=
  let '(error, errno, made, w) := sys_getaddrinfo (given host) (given service) h (rw x) in
  let ec := translate_addrinfo_error error errno in
  match made with
  | [] => (None, ec, Resolving w (lists x))
  | _ => let p := fresh (dom (lists x)) in (Some p, ec, Resolving w (<[p := made]> (lists x)))
  end.
Definition freeaddrinfo (p : nat) (x : resolving) : option resolving :=
  match lists x !! p with Some _ => Some (Resolving (rw x) (delete p (lists x))) | None => None end.

(** ** The results *)

(** The bytes of a socket address, and an endpoint whose data begins with these bytes: the
    rest of the union is zero. *)
Definition sockaddr_bytes (e : data_union) : list Z :=
  match e with
  | Sockaddr4 p a => to_memory 2 AF_INET_ ++ to_memory 2 p ++ to_memory 4 a ++ replicate 8 0
  | Sockaddr6 p f a s => to_memory 2 AF_INET6_ ++ to_memory 2 p ++ to_memory 4 f ++ a ++ to_memory 4 s
  end.
Definition memcpy_endpoint (b : list Z) : data_union :=
  let data := b ++ replicate (28 - length b) 0 in
  if of_memory (take 2 data) =? AF_INET_
  then Sockaddr4 (of_memory (take 2 (drop 2 data))) (of_memory (take 4 (drop 4 data)))
  else Sockaddr6 (of_memory (take 2 (drop 2 data))) (of_memory (take 4 (drop 4 data))) (take 16 (drop 8 data)) (of_memory (take 4 (drop 24 data))).

Record entry := Entry { endpoint_ : data_union; entry_host : string; entry_service : string }.

Definition expected_size (family : Z) : Z := if family =? AF_INET_ then 16 else 28.
Definition usable (n : addrinfo) : bool :=
  ((ai_family n =? AF_INET_) || (ai_family n =? AF_INET6_)) && (expected_size (ai_family n) <=? ai_addrlen n).

(** The loop over the nodes. *)
Fixpoint push_entries (host service : string) (address_info : list addrinfo) (values : list entry) : res (list entry) :=
  match address_info with
  | [] => Ok values
  | n :: address_info =>
      if (ai_family n =? AF_INET_) || (ai_family n =? AF_INET6_) then
        let size := expected_size (ai_family n) in
        if size <=? ai_addrlen n then
          let? _ := resize size in
          push_entries host service address_info (values ++ [Entry (memcpy_endpoint (take (Z.to_nat size) (ai_addr n))) host service])
        else push_entries host service address_info values
      else push_entries host service address_info values
  end.

(** [values_] and [index_]; the vector with its place in memory, so that pointers compare. *)
Record iterator := Iterator { values_ : option (nat * list entry); index_ : nat }.
Definition no_iterator : iterator := Iterator None 0.

(** [place]: where the vector is made. *)
Definition create (place : nat) (address_info : list addrinfo) (host_name service_name : string) : res iterator :=
  match address_info with
  | [] => Ok no_iterator
  | n :: _ =>
      let actual_host_name := default host_name (ai_canonname n) in
      let? values := push_entries actual_host_name service_name address_info [] in
      Ok (Iterator (Some (place, values)) 0)
  end.

Definition results_size (r : iterator) : nat := match values_ r with Some (_, v) => length v | None => 0 end.
Definition results_empty (r : iterator) : bool := match values_ r with Some (_, v) => bool_decide (v = []) | None => true end.
Definition results_begin (r : iterator) : iterator := Iterator (values_ r) 0.
Definition results_end (r : iterator) : iterator := no_iterator.

Definition increment (i : iterator) : option iterator :=
  match values_ i with
  | None => None
  | Some (_, v) => Some (if bool_decide (S (index_ i) = length v) then no_iterator else Iterator (values_ i) (S (index_ i)))
  end.
Definition iterator_equal (i j : iterator) : bool :=
  match values_ i, values_ j with
  | None, None => true
  | Some (p, _), Some (q, _) => if bool_decide (p <> q) then false else bool_decide (index_ i = index_ j)
  | _, _ => false
  end.
Definition dereference (i : iterator) : option entry := '(_, v) ← values_ i; v !! index_ i.

(** [for (auto &ep : results) arr.push_back(ep)], an entry converted to its endpoint. *)
Fixpoint push_all (fuel : nat) (i last : iterator) (arr : list data_union) : option (list data_union) :=
  match fuel with
  | O => None
  | S fuel =>
      if iterator_equal i last then Some arr
      else ep ← dereference i; i ← increment i; push_all fuel i last (arr ++ [endpoint_ ep])
  end.

(** ** Resolving *)

(** [resolver_service::resolve]: [auto_addrinfo] frees the list on the way out. *)
Definition service_resolve (place : nat) (qry : query) (x : resolving) : option (res iterator * error_code * resolving) :=
  let '(address_info, ec, x) := getaddrinfo (host_name_ qry) (service_name_ qry) (hints_ qry) x in
  let r := if ec_set ec then Ok no_iterator
           else create place (match address_info with Some p => default [] (lists x !! p) | None => [] end) (host_name_ qry) (service_name_ qry) in
  match address_info with
  | Some p => x ← freeaddrinfo p x; Some (r, ec, x)
  | None => Some (r, ec, x)
  end.
(** [basic_resolver::resolve] of a host and a service, without flags. *)
Definition resolver_resolve (p : protocol) (place : nat) (host service : string) (x : resolving) : option (res iterator * resolving) :=
  '(r, ec, x) ← service_resolve place (basic_resolver_query p host service 0) x;
  Some (match r, ec with Throw e, _ => Throw e | Ok r, Some e => Throw (system_error e) | Ok r, None => Ok r end, x).

(** [cs_impl::network::tcp::resolve] and [udp::resolve]. *)
Definition resolve (p : protocol) (place : nat) (host service : string) (x : resolving) : option (res (list data_union) * resolving) :=
  '(r, x) ← resolver_resolve p place host service x;
  match r with
  | Throw e => Some (Throw e, x)
  | Ok results => arr ← push_all (S (results_size results)) (results_begin results) (results_end results) []; Some (Ok arr, x)
  end.
(** [network_cs_ext::tcp::resolve] and [udp::resolve]. *)
Definition cni_resolve `{ErrorText} (p : protocol) (place : nat) (host service : string) (x : resolving) : option (res (list data_union) * resolving) :=
  '(r, x) ← resolve p place host service x;
  Some (translate (fun x => (r, x)) x).
End resolver.

(** ** What the results hold *)

Section results.
  Context `{A : AddressSystem}.

Definition node_endpoint (n : addrinfo) : data_union := memcpy_endpoint (take (Z.to_nat (expected_size (ai_family n))) (ai_addr n)).

Lemma push_entries_spec host service l v :
  push_entries host service l v = Ok (v ++ ((fun n => Entry (node_endpoint n) host service) <$> filter usable l)).
Proof.
  revert v. induction l as [|n l IH]; intros v; [by rewrite app_nil_r|]. cbn [push_entries]. rewrite filter_cons.
  assert (resize (expected_size (ai_family n)) = Ok tt) as Hsize by (unfold expected_size; by destruct (_ =? _)).
  destruct (decide (usable n)) as [Hu|Hu]; unfold usable in Hu.
  - apply Is_true_true, andb_prop in Hu as [-> ->]. rewrite Hsize. cbn [res_bind]. rewrite IH. cbn. by rewrite <- app_assoc.
  - destruct (_ || _); [|apply IH]. destruct (_ <=? _); [by destruct Hu|apply IH].
Qed.

(** From an element on, the iterator visits the rest of the vector. *)
Lemma push_all_spec fuel p v i arr : (i < length v)%nat -> (length v - i < fuel)%nat ->
  push_all fuel (Iterator (Some (p, v)) i) no_iterator arr = Some (arr ++ (endpoint_ <$> drop i v)).
Proof.
  revert i arr. induction fuel as [|fuel IH]; intros i arr Hi Hf; [lia|]. cbn [push_all iterator_equal values_ no_iterator].
  unfold dereference, increment. cbn [values_ index_ mbind option_bind]. destruct (lookup_lt_is_Some_2 v i Hi) as [ep Hep]. rewrite Hep. cbn [mbind option_bind].
  rewrite (drop_S v ep i Hep). case_bool_decide as Hlast.
  - rewrite Hlast, drop_all. by destruct fuel; [lia|].
  - rewrite IH by lia. by rewrite <- app_assoc.
Qed.

Lemma results_visited place l host service r : create place l host service = Ok r -> l = [] \/ filter usable l <> [] ->
  push_all (S (results_size r)) (results_begin r) (results_end r) [] = Some (node_endpoint <$> filter usable l).
Proof.
  unfold create. destruct l as [|n l]; [by intros [= <-]|]. rewrite push_entries_spec. cbn [res_bind app]. intros [= <-] [?|Hne]; [done|].
  unfold results_begin, results_end, results_size. cbn [values_]. set (v := _ <$> _). assert (length v = length (filter usable (n :: l))) as Hv by apply length_fmap.
  assert (0 < length v)%nat by (rewrite Hv; destruct (filter usable (n :: l)); [done|cbn; lia]).
  rewrite push_all_spec by lia. f_equal. cbn [app]. rewrite drop_0. unfold v. rewrite <- list_fmap_compose. by apply list_fmap_ext.
Qed.
(** A list of which no node is usable: the results are empty, but their first iterator is not
    the last, and the loop reads past the end of the empty vector. *)
Lemma unusable_results_fault place l host service r : create place l host service = Ok r -> l <> [] -> filter usable l = [] ->
  results_empty r = true /\ results_size r = 0%nat /\ iterator_equal (results_begin r) (results_end r) = false /\
  push_all (S (results_size r)) (results_begin r) (results_end r) [] = None.
Proof.
  unfold create. destruct l as [|n l]; [done|]. rewrite push_entries_spec. cbn [res_bind app]. intros [= <-] _ ->. done.
Qed.

(** An endpoint is read back from its bytes. *)
Lemma take_field n x rest : take n (to_memory n x ++ rest) = to_memory n x.
Proof. apply take_app_length'. by destruct (to_memory_wf n x). Qed.
Lemma drop_field n x rest : drop n (to_memory n x ++ rest) = rest.
Proof. apply drop_app_length'. by destruct (to_memory_wf n x). Qed.
Lemma memcpy_bytes e : wf_endpoint e -> memcpy_endpoint (sockaddr_bytes e) = e.
Proof.
  assert (forall n (l : list Z) k, drop (n + k) l = drop k (drop n l)) as Hd by (intros n l k; by rewrite drop_drop).
  destruct e as [p a|p f a s]; cbn [wf_endpoint sockaddr_bytes]; unfold memcpy_endpoint.
  - intros [Hp Ha]. rewrite <- !app_assoc. rewrite take_field. rewrite of_to_memory by (unfold AF_INET_; cbn; lia). cbn [Z.eqb].
    rewrite Z.eqb_refl. rewrite (Hd 2%nat _ 2%nat), !drop_field, !take_field, !of_to_memory by done. done.
  - intros (Hp & Hf & [Hal Ha] & Hs). rewrite <- !app_assoc. rewrite take_field. rewrite of_to_memory by (unfold AF_INET6_; cbn; lia).
    change (AF_INET6_ =? AF_INET_) with false. cbn iota.
    rewrite (Hd 2%nat _ 2%nat), (Hd 2%nat _ 6%nat), (Hd 2%nat _ 22%nat), !drop_field, (Hd 2%nat _ 4%nat), (Hd 2%nat _ 20%nat), !drop_field, (Hd 4%nat _ 16%nat), !drop_field.
    rewrite (take_app_length' a), (drop_app_length' a), !take_field, !of_to_memory by done. done.
Qed.
Lemma sockaddr_size e : wf_endpoint e -> Z.of_nat (length (sockaddr_bytes e)) = endpoint_size e.
Proof.
  assert (forall n x, length (to_memory n x) = n) as Hm by (intros n x; by destruct (to_memory_wf n x)).
  destruct e as [p a|p f a s]; cbn [wf_endpoint sockaddr_bytes]; rewrite !length_app, !Hm; [done|]. intros (_ & _ & [-> _] & _). done.
Qed.
End results.

(** ** What a script gets *)

(** The node holds the socket address of an endpoint. *)
Definition family_number (e : data_union) : Z := if endpoint_is_v4 e then AF_INET_ else AF_INET6_.
Definition node_holds `{AddressSystem} (n : addrinfo) (e : data_union) : Prop :=
  wf_endpoint e /\ ai_family n = family_number e /\ ai_addr n = sockaddr_bytes e /\ ai_addrlen n = endpoint_size e.

(** What the documentation of [getaddrinfo] promises: a failure makes no list; otherwise the
    nodes of the two families hold an address of their family, and there is such a node. *)
Class ResolverOk (R : ResolverSystem) (A : AddressSystem) := {
  failure_no_list host service h w error errno made w' :
    sys_getaddrinfo host service h w = (error, errno, made, w') -> error <> 0 -> made = [];
  success_addresses host service h w errno made w' :
    sys_getaddrinfo host service h w = (0, errno, made, w') ->
    Forall (fun n => ai_family n = AF_INET_ \/ ai_family n = AF_INET6_ -> exists e, node_holds n e) made /\
    exists n, n ∈ made /\ (ai_family n = AF_INET_ \/ ai_family n = AF_INET6_);
}.

Section answers.
  Context `{R : ResolverSystem} `{A : AddressSystem}.

Lemma node_holds_endpoint n e : node_holds n e -> node_endpoint n = e /\ expected_size (ai_family n) = endpoint_size e.
Proof.
  intros (He & Hf & Ha & Hl). assert (expected_size (ai_family n) = endpoint_size e) as Hs.
  { rewrite Hf. unfold expected_size, family_number, endpoint_size. by destruct (endpoint_is_v4 e). }
  split; [|done]. unfold node_endpoint. rewrite Hs, Ha, take_ge; [by apply memcpy_bytes|]. pose proof (sockaddr_size e He). lia.
Qed.
Lemma usable_family n : usable n -> ai_family n = AF_INET_ \/ ai_family n = AF_INET6_.
Proof. unfold usable. intros [Hf _]%Is_true_true%andb_prop. apply orb_prop in Hf as [Hf|Hf]; apply Z.eqb_eq in Hf; auto. Qed.
Lemma held_usable n e : node_holds n e -> usable n.
Proof.
  intros Hn. destruct (node_holds_endpoint n e Hn) as [_ Hs]. destruct Hn as (_ & Hf & _ & Hl). unfold usable. rewrite Hs, Hl, Z.leb_refl, andb_true_r.
  rewrite Hf. unfold family_number. by destruct (endpoint_is_v4 e).
Qed.
(** The endpoints of the usable nodes. *)
Lemma nodes_endpoints l : Forall (fun n => ai_family n = AF_INET_ \/ ai_family n = AF_INET6_ -> exists e, node_holds n e) l ->
  Forall2 node_holds (filter usable l) (node_endpoint <$> filter usable l).
Proof.
  intros Hl. apply Forall2_fmap_r. apply Forall_Forall2_diag. apply Forall_forall. intros n [Hu Hn]%list_elem_of_filter.
  rewrite Forall_forall in Hl. destruct (Hl n Hn (usable_family n Hu)) as [e He]. pose proof (proj1 (node_holds_endpoint n e He)) as Heq. unfold compose. by rewrite Heq.
Qed.

(** All the calls together, with or without a list. *)
Lemma cni_resolve_spec `{ErrorText} p place host service x error errno made w :
  sys_getaddrinfo (given host) (given service) (Hints 0 AF_UNSPEC_ (protocol_type p) (protocol_protocol p)) (rw x) = (error, errno, made, w) ->
  made = [] \/ filter usable made <> [] ->
  cni_resolve p place host service x =
    Some (match translate_addrinfo_error error errno with
          | Some e => Throw (lang_error (system_error_what e))
          | None => Ok (node_endpoint <$> filter usable made) end, Resolving w (lists x)).
Proof.
  intros Hs Hmade. unfold cni_resolve, resolve, resolver_resolve, service_resolve, getaddrinfo, basic_resolver_query. cbn [host_name_ service_name_ hints_].
  rewrite Hs. destruct made as [|n made].
  - cbn. by destruct (translate_addrinfo_error error errno).
  - cbv zeta beta iota. unfold freeaddrinfo. cbn [lists rw]. rewrite lookup_insert_eq. cbn [default]. unfold id.
    assert (delete (fresh (dom (lists x))) (<[fresh (dom (lists x)) := n :: made]> (lists x)) = lists x) as ->.
    { apply delete_insert_id. apply not_elem_of_dom, is_fresh. }
    destruct (translate_addrinfo_error error errno) as [e|]; cbn [mbind option_bind ec_set]; [done|].
    destruct (create place (n :: made) host service) as [r|e] eqn:Hc.
    + cbn [mbind option_bind]. rewrite (results_visited place (n :: made) host service r Hc Hmade). done.
    + unfold create in Hc. by rewrite push_entries_spec in Hc.
Qed.

(** C35: [tcp::resolve] and [udp::resolve] give a script what [getaddrinfo] found, whatever the
    host and the service: the endpoints whose addresses lie in the nodes of the two
    families, all of them, in order and byte for byte, and at least one when it succeeded;
    when it failed, a script exception with the text of the error it stands for; and the
    list is freed.  The iteration never leaves the vector. *)
Theorem resolve_answers `{ErrorText, !ResolverOk R A} p place host service x error errno made w :
  sys_getaddrinfo (given host) (given service) (Hints 0 AF_UNSPEC_ (protocol_type p) (protocol_protocol p)) (rw x) = (error, errno, made, w) ->
  exists r, cni_resolve p place host service x = Some (r, Resolving w (lists x)) /\
    match translate_addrinfo_error error errno with
    | Some e => r = Throw (lang_error (system_error_what e))
    | None => exists es, r = Ok es /\ Forall2 node_holds (filter usable made) es /\ (error = 0 -> es <> [])
    end.
Proof.
  intros Hs. destruct (decide (error = 0)) as [->|Hne].
  - destruct (success_addresses _ _ _ _ _ _ _ Hs) as [Hall (n & Hn & Hf)].
    assert (n ∈ filter usable made) as Hin.
    { apply list_elem_of_filter. split; [|done]. rewrite Forall_forall in Hall. destruct (Hall n Hn Hf) as [e He]. by eapply held_usable. }
    assert (filter usable made <> []) as Hne by (intros Hnil; rewrite Hnil in Hin; by apply not_elem_of_nil in Hin).
    eexists. split; [apply (cni_resolve_spec _ _ _ _ _ _ _ _ _ Hs); by right|]. cbn. eexists. split; [done|]. split; [by apply nodes_endpoints|].
    intros _ Hnil. by apply fmap_nil_inv in Hnil.
  - assert (made = []) as -> by by eapply failure_no_list. eexists. split; [apply (cni_resolve_spec _ _ _ _ _ _ _ _ _ Hs); by left|].
    destruct (translate_addrinfo_error error errno); [done|]. eexists. by split_and!.
Qed.
End answers.

(** ** An example system *)

#[local] Instance lab_addresses : AddressSystem := {|
  little_endian := true; sys_inet_ntop := fun _ _ _ => inr SocketOps.no_buffer_space; sys_inet_pton := fun _ _ => None;
  sys_if_indextoname := fun _ => None; sys_if_nametoindex := fun _ => 0 |}.
Definition lab_endpoint4 : data_union := Sockaddr4 36895 16777343.
Definition lab_endpoint6 : data_union := Sockaddr6 36895 0 (replicate 15 0 ++ [1]) 0.
Definition lab_node (e : data_union) : addrinfo := AddrInfo (family_number e) (endpoint_size e) (sockaddr_bytes e) None.
(** One host is known; the system sees no other name. *)
#[local] Instance lab_resolver : ResolverSystem := {|
  RW := unit;
  sys_getaddrinfo host _ _ w :=
    if bool_decide (host = Some "localhost"%string) then (0, 0, [lab_node lab_endpoint6; AddrInfo 17 20 [] None; lab_node lab_endpoint4], w)
    else (EAI_NONAME, 0, [], w) |}.
#[local] Instance lab_resolver_ok : ResolverOk lab_resolver lab_addresses.
Proof.
  split.
  - intros host service h w error errno made w'. cbn. case_bool_decide; intros [= <- <- <- <-]; done.
  - intros host service h w errno made w'. cbn. case_bool_decide; [|done]. intros [= <- <- <-]. split.
    + repeat constructor; cbn; [|intros [[=]|[=]]|]; intros _.
      * exists lab_endpoint6. unfold node_holds. cbn. split_and!; try done; unfold u16, u32; try lia. split; [done|]. repeat constructor; lia.
      * exists lab_endpoint4. unfold node_holds. cbn. split_and!; try done; unfold u16, u32; try lia.
    + exists (lab_node lab_endpoint6). split; [left|by right].
Qed.

Lemma resolve_answers_witness :
  exists r, @cni_resolve lab_resolver lab_addresses plain_error_text tcp 0 "localhost" "8080" (Resolving tt ∅) = Some (r, Resolving tt ∅) /\
    exists es, r = Ok es /\ Forall2 node_holds [lab_node lab_endpoint6; lab_node lab_endpoint4] es /\ (0 = 0 -> es <> []).
Proof.
  exact (@resolve_answers lab_resolver lab_addresses plain_error_text lab_resolver_ok tcp 0 "localhost" "8080" (Resolving tt ∅) 0 0
    [lab_node lab_endpoint6; AddrInfo 17 20 [] None; lab_node lab_endpoint4] tt eq_refl).
Defined.
Lemma lab_resolves : @cni_resolve lab_resolver lab_addresses plain_error_text tcp 0 "localhost" "8080" (Resolving tt ∅) =
  Some (Ok [lab_endpoint6; lab_endpoint4], Resolving tt ∅) /\ port lab_endpoint4 = 8080.
Proof. split; vm_compute; reflexivity. Qed.
