(* ===== verification/Scheduler.v ===== *)
(** * [asio::detail::scheduler]: the event loop under [io_context]

    Models [include/asio/detail/impl/scheduler.ipp] and [detail/scheduler.hpp] as run by one
    thread: the queue with the marker of the reactor's task, the count of outstanding work,
    the thread-private queue and count of a running handler, and [stopped_].  Mutexes,
    events and interrupts only concern other threads and are not modelled.

    The model is over a class [Reactor]: a type of operations, the environment they act
    on, what the reactor's [run] returns and what completing an operation does. *)
From S2P Require Import Prelude.

Class Reactor := {
  Op : Type;
  Env : Type;
  (** [task_->run(usec, ops)]: the operations that became ready *)
  task_run : Z -> Env -> list Op * Env;
}.

Inductive item `{Reactor} := TaskOperation | UserOperation (o : Op).

Record scheduler `{Reactor} := Scheduler {
  op_queue_ : list item;
  outstanding_work_ : Z;
  stopped_ : bool;
  shutdown_ : bool;
  task_ : bool;                      (** [task_ != 0] *)
}.
Arguments Scheduler {_} _ _ _ _ _.

Record thread_info `{Reactor} := ThreadInfo { private_outstanding_work : Z; private_op_queue : list Op }.
Arguments ThreadInfo {_} _ _.

(** The scheduler, the innermost entry of the thread's call stack, the environment. *)
Record machine `{Reactor} := Machine {
  sched : scheduler;
  this_thread : option thread_info;
  env : Env;
}.
Arguments Machine {_} _ _ _.

Section scheduler.
  Context `{R : Reactor}.

Definition new_scheduler : scheduler := Scheduler [] 0 false false false.
(** With a thread of its own, which calls [run] and counts as work ([own_thread]). *)
Definition new_own_scheduler : scheduler := Scheduler [] 1 false false false.

Definition on_sched (f : scheduler -> scheduler) (m : machine) : machine :=
  Machine (f (sched m)) (this_thread m) (env m).
Definition on_thread (f : thread_info -> thread_info) (m : machine) : machine :=
  Machine (sched m) (f <$> this_thread m) (env m).
Definition set_env (x : Env) (m : machine) : machine := Machine (sched m) (this_thread m) x.

Definition push (os : list item) (s : scheduler) : scheduler :=
  Scheduler (op_queue_ s ++ os) (outstanding_work_ s) (stopped_ s) (shutdown_ s) (task_ s).
Definition set_queue (q : list item) (s : scheduler) : scheduler :=
  Scheduler q (outstanding_work_ s) (stopped_ s) (shutdown_ s) (task_ s).
Definition add_work (n : Z) (s : scheduler) : scheduler :=
  Scheduler (op_queue_ s) (outstanding_work_ s + n) (stopped_ s) (shutdown_ s) (task_ s).
Definition set_stopped (b : bool) (s : scheduler) : scheduler :=
  Scheduler (op_queue_ s) (outstanding_work_ s) b (shutdown_ s) (task_ s).

(** ** Work and control *)

Definition stop_all_threads : scheduler -> scheduler := set_stopped true.
Definition stop : machine -> machine := on_sched stop_all_threads.
Definition stopped (m : machine) : bool := stopped_ (sched m).
Definition restart : machine -> machine := on_sched (set_stopped false).

Definition work_started : machine -> machine := on_sched (add_work 1).
Definition work_finished (m : machine) : machine :=
  let m := on_sched (add_work (-1)) m in
  if outstanding_work_ (sched m) =? 0 then stop m else m.

Definition init_task : machine -> machine := on_sched (fun s =>
  if negb (shutdown_ s) && negb (task_ s) then
    Scheduler (op_queue_ s ++ [TaskOperation]) (outstanding_work_ s) (stopped_ s) (shutdown_ s) true
  else s).

(** [one_thread_]: the concurrency hint of [asio::io_context()] is not [1]. *)
Definition one_thread_ : bool := false.

Definition post_immediate_completion (o : Op) (is_continuation : bool) (m : machine) : machine :=
  match this_thread m with
  | Some t =>
      if one_thread_ || is_continuation then
        on_thread (fun t => ThreadInfo (private_outstanding_work t + 1) (private_op_queue t ++ [o])) m
      else on_sched (push [UserOperation o]) (work_started m)
  | None => on_sched (push [UserOperation o]) (work_started m)
  end.

Definition post_deferred_completion (o : Op) (m : machine) : machine :=
  match this_thread m with
  | Some t =>
      if one_thread_ then
        on_thread (fun t => ThreadInfo (private_outstanding_work t) (private_op_queue t ++ [o])) m
      else on_sched (push [UserOperation o]) m
  | None => on_sched (push [UserOperation o]) m
  end.

(** [n] is the number of the operations. *)
Definition post_immediate_completions (n : Z) (os : list Op) (is_continuation : bool) (m : machine) : machine :=
  match this_thread m with
  | Some t =>
      if one_thread_ || is_continuation then
        on_thread (fun t => ThreadInfo (private_outstanding_work t + n) (private_op_queue t ++ os)) m
      else on_sched (push (UserOperation <$> os)) (on_sched (add_work n) m)
  | None => on_sched (push (UserOperation <$> os)) (on_sched (add_work n) m)
  end.
Definition post_deferred_completions (os : list Op) (m : machine) : machine :=
  match os with
  | [] => m
  | _ =>
      match this_thread m with
      | Some t =>
          if one_thread_ then
            on_thread (fun t => ThreadInfo (private_outstanding_work t) (private_op_queue t ++ os)) m
          else on_sched (push (UserOperation <$> os)) m
      | None => on_sched (push (UserOperation <$> os)) m
      end
  end.
(** [thread_call_stack::contains(this)] *)
Definition can_dispatch (m : machine) : bool := match this_thread m with Some _ => true | None => false end.

Definition do_dispatch (o : Op) (m : machine) : machine :=
  on_sched (push [UserOperation o]) (work_started m).

Definition compensating_work_started : machine -> machine :=
  on_thread (fun t => ThreadInfo (private_outstanding_work t + 1) (private_op_queue t)).

(** [~scheduler], when it has a thread of its own. *)
Definition set_shutdown (s : scheduler) : scheduler :=
  Scheduler (op_queue_ s) (outstanding_work_ s) (stopped_ s) true (task_ s).
Definition end_own_thread (m : machine) : machine := stop (on_sched set_shutdown m).

(** ** Running *)

(** The destructors of [task_cleanup] and [work_cleanup]. *)
Definition task_cleanup (m : machine) : machine :=
  match this_thread m with
  | None => m
  | Some t =>
      let p := private_outstanding_work t in
      let m := if 0 <? p then on_sched (add_work p) m else m in
      let m := on_sched (push (UserOperation <$> private_op_queue t)) m in
      let m := on_sched (push [TaskOperation]) m in
      Machine (sched m) (Some (ThreadInfo 0 [])) (env m)
  end.

Definition work_cleanup (m : machine) : machine :=
  match this_thread m with
  | None => m
  | Some t =>
      let p := private_outstanding_work t in
      let m := if 1 <? p then on_sched (add_work (p - 1)) m
               else if p <? 1 then work_finished m else m in
      let m := match private_op_queue t with
               | [] => m
               | os => on_sched (push (UserOperation <$> os)) m
               end in
      Machine (sched m) (Some (ThreadInfo 0 [])) (env m)
  end.

Context (complete : Op -> machine -> machine).

(** [o->complete(...)] between the pop and the end of [work_cleanup]. *)
Definition run_operation (o : Op) (rest : list item) (m : machine) : machine :=
  work_cleanup (complete o (on_sched (set_queue rest) m)).

(** [task_->run(usec, this_thread.private_op_queue)] and [task_cleanup]. *)
Definition run_task (usec : Z) (rest : list item) (m : machine) : machine :=
  let m := on_sched (set_queue rest) m in
  let '(ops, x) := task_run usec (env m) in
  task_cleanup (on_thread (fun t => ThreadInfo (private_outstanding_work t) (private_op_queue t ++ ops))
                          (set_env x m)).

(** Execute the operation at the front, if there is one. *)
Definition run_front (m : machine) : bool * machine :=
  match op_queue_ (sched m) with
  | UserOperation o :: rest => (true, run_operation o rest m)
  | _ => (false, m)
  end.

Definition do_poll_one (m : machine) : bool * machine :=
  if stopped_ (sched m) then (false, m)
  else
    match op_queue_ (sched m) with
    | TaskOperation :: rest => run_front (run_task 0 rest m)
    | _ => run_front m
    end.

(** [do_wait_one(usec)]: the same with a task that may wait; an empty queue waits for an
    event, which with one thread does not come. *)
Definition do_wait_one (usec : Z) (m : machine) : bool * machine :=
  if stopped_ (sched m) then (false, m)
  else
    match op_queue_ (sched m) with
    | TaskOperation :: rest =>
        let more_handlers := match rest with [] => false | _ => true end in
        run_front (run_task (if more_handlers then 0 else usec) rest m)
    | _ => run_front m
    end.

(** [thread_info this_thread; thread_call_stack::context ctx(this, this_thread);] around
    a body. *)
Definition enter_thread {A} (f : machine -> A * machine) (m : machine) : A * machine :=
  let '(a, m') := f (Machine (sched m) (Some (ThreadInfo 0 [])) (env m)) in
  (a, Machine (sched m') (this_thread m) (env m')).

Definition poll_one : machine -> bool * machine := fun m =>
  if outstanding_work_ (sched m) =? 0 then (false, stop m)
  else enter_thread do_poll_one m.

Definition wait_one (usec : Z) : machine -> bool * machine := fun m =>
  if outstanding_work_ (sched m) =? 0 then (false, stop m)
  else enter_thread (do_wait_one usec) m.

(** [for (; do_poll_one(...); ) ++n;], [None] when the fuel runs out. *)
Fixpoint poll_loop (fuel : nat) (n : Z) (m : machine) : option Z * machine :=
  match fuel with
  | O => (None, m)
  | S fuel =>
      match do_poll_one m with
      | (true, m) => poll_loop fuel (if n =? size_max then n else n + 1) m
      | (false, m) => (Some n, m)
      end
  end.

Definition poll (fuel : nat) : machine -> option Z * machine := fun m =>
  if outstanding_work_ (sched m) =? 0 then (Some 0, stop m)
  else enter_thread (poll_loop fuel 0) m.

(** [do_run_one]: the task may wait as long as it likes ([task_usec_] is -1 by default), and
    is run until there is an operation; [None] when the fuel runs out.  An empty queue waits
    for an event, which with one thread does not come. *)
Definition task_usec_ : Z := -1.
Fixpoint do_run_one (fuel : nat) (m : machine) : option bool * machine :=
  match fuel with
  | O => (None, m)
  | S fuel =>
      if stopped_ (sched m) then (Some false, m)
      else
        match op_queue_ (sched m) with
        | TaskOperation :: rest => do_run_one fuel (run_task (match rest with [] => task_usec_ | _ => 0 end) rest m)
        | UserOperation o :: rest => (Some true, run_operation o rest m)
        | [] => (None, m)
        end
  end.
Definition run_one (fuel : nat) : machine -> option bool * machine := fun m =>
  if outstanding_work_ (sched m) =? 0 then (Some false, stop m)
  else enter_thread (do_run_one fuel) m.

(** [for (; do_run_one(...); ) ++n;] *)
Fixpoint run_loop (fuel : nat) (n : Z) (m : machine) : option Z * machine :=
  match fuel with
  | O => (None, m)
  | S fuel =>
      match do_run_one (S fuel) m with
      | (Some true, m) => run_loop fuel (if n =? size_max then n else n + 1) m
      | (Some false, m) => (Some n, m)
      | (None, m) => (None, m)
      end
  end.
Definition run (fuel : nat) : machine -> option Z * machine := fun m =>
  if outstanding_work_ (sched m) =? 0 then (Some 0, stop m)
  else enter_thread (run_loop fuel 0) m.

(** [run_one_for]: the clock is read once per round; [ticks] are its readings relative to
    the start, and the call gives up when they reach the duration (or run out). *)
Fixpoint run_one_until (ticks : list Z) (abs_time : Z) (m : machine) : bool * machine :=
  match ticks with
  | [] => (false, m)
  | now :: ticks =>
      if now <? abs_time then
        let '(s, m) := wait_one (Z.min (abs_time - now) 1000000) m in
        if s || stopped m then (s, m) else run_one_until ticks abs_time m
      else (false, m)
  end.
End scheduler.

(** ** Counting *)

Section posting.
  Context `{R : Reactor}.

(** Several completions are as many, one after the other. *)
Lemma post_deferred_each os m : post_deferred_completions os m = foldl (fun m o => post_deferred_completion o m) m os.
Proof.
  revert m. induction os as [|o os IH]; intros m; [done|]. cbn [foldl]. rewrite <- IH. destruct m as [[q w st sh ta] th x].
  unfold post_deferred_completions, post_deferred_completion; cbn. destruct th, os; unfold on_sched, push; cbn; by rewrite <- ?app_assoc.
Qed.
Lemma post_immediate_each os c m :
  post_immediate_completions (Z.of_nat (length os)) os c m = foldl (fun m o => post_immediate_completion o c m) m os.
Proof.
  revert m. induction os as [|o os IH]; intros m; cbn [foldl length].
  - destruct m as [[q w st sh ta] [[p ops]|] x]; unfold post_immediate_completions; cbn; [destruct c|]; cbn;
      unfold on_thread, on_sched, push, add_work; cbn; by rewrite app_nil_r, Z.add_0_r.
  - rewrite <- IH. destruct m as [[q w st sh ta] [[p ops]|] x]; unfold post_immediate_completions, post_immediate_completion; cbn -[Z.of_nat]; [destruct c|];
      cbn -[Z.of_nat]; unfold on_thread, on_sched, push, add_work; cbn -[Z.of_nat]; by rewrite <- app_assoc, <- Z.add_assoc, Nat2Z.inj_succ, <- Z.add_1_l.
Qed.
End posting.

Section queues.
  Context `{R : Reactor}.

Definition as_user (i : item) : option Op :=
  match i with UserOperation o => Some o | TaskOperation => None end.
Definition user_ops (q : list item) : list Op := omap as_user q.
Definition users (q : list item) : Z := Z.of_nat (length (user_ops q)).
(** How often the marker of the task is in the queue. *)
Definition tasks (q : list item) : nat := length q - length (user_ops q).

Arguments user_ops _ : simpl never.
Lemma user_ops_user o q : user_ops (UserOperation o :: q) = o :: user_ops q.
Proof. done. Qed.
Lemma user_ops_task q : user_ops (TaskOperation :: q) = user_ops q.
Proof. done. Qed.
Lemma user_ops_app q r : user_ops (q ++ r) = user_ops q ++ user_ops r.
Proof. apply omap_app. Qed.
Lemma user_ops_users os : user_ops (UserOperation <$> os) = os.
Proof. induction os as [|o os IH]; [done|]. cbn. by rewrite user_ops_user, IH. Qed.
Lemma user_ops_le q : (length (user_ops q) <= length q)%nat.
Proof.
  induction q as [|[|o] q IH]; [done| |]; rewrite ?user_ops_user, ?user_ops_task; cbn; lia.
Qed.
Lemma tasks_app q r : tasks (q ++ r) = (tasks q + tasks r)%nat.
Proof.
  unfold tasks. rewrite user_ops_app, !length_app. pose proof (user_ops_le q). pose proof (user_ops_le r). lia.
Qed.
Lemma tasks_users os : tasks (UserOperation <$> os) = 0%nat.
Proof. unfold tasks. rewrite user_ops_users, length_fmap. lia. Qed.
Lemma tasks_cons_user o q : tasks (UserOperation o :: q) = tasks q.
Proof. done. Qed.
Lemma tasks_cons_task q : tasks (TaskOperation :: q) = S (tasks q).
Proof.
  pose proof (user_ops_le q). unfold tasks. change (user_ops (TaskOperation :: q)) with (user_ops q).
  cbn [length]. lia.
Qed.
End queues.
Arguments user_ops {_} _ : simpl never.
Arguments tasks {_} _ : simpl never.

(** What the cleanups do to the environment and the queue. *)
Section cleanups.
  Context `{R : Reactor}.

Lemma work_finished_env m : env (work_finished m) = env m.
Proof. unfold work_finished. by destruct (_ =? 0). Qed.
Lemma work_finished_queue m : op_queue_ (sched (work_finished m)) = op_queue_ (sched m).
Proof. unfold work_finished. by destruct (_ =? 0). Qed.
Lemma work_finished_thread m : this_thread (work_finished m) = this_thread m.
Proof. unfold work_finished. by destruct (_ =? 0). Qed.
Lemma work_finished_count m : outstanding_work_ (sched (work_finished m)) = outstanding_work_ (sched m) - 1.
Proof. unfold work_finished. by destruct (_ =? 0). Qed.
Lemma work_cleanup_env m : env (work_cleanup m) = env m.
Proof.
  unfold work_cleanup. destruct (this_thread m) as [[p os]|]; [|done]. cbn.
  destruct (1 <? p), (p <? 1), os; cbn; by rewrite ?work_finished_env.
Qed.
Lemma work_cleanup_thread m : is_Some (this_thread m) -> this_thread (work_cleanup m) = Some (ThreadInfo 0 []).
Proof. intros [t Ht]. unfold work_cleanup. by rewrite Ht. Qed.
Lemma work_cleanup_queue m t : this_thread m = Some t ->
  op_queue_ (sched (work_cleanup m)) = op_queue_ (sched m) ++ (UserOperation <$> private_op_queue t).
Proof.
  intros Ht. unfold work_cleanup. rewrite Ht. destruct t as [p os]. cbn.
  destruct (1 <? p), (p <? 1), os; cbn; by rewrite ?work_finished_queue, ?app_nil_r.
Qed.
Lemma run_task_env usec rest m : this_thread m = Some (ThreadInfo 0 []) ->
  env (run_task usec rest m) = (task_run usec (env m)).2 /\
  this_thread (run_task usec rest m) = Some (ThreadInfo 0 []).
Proof. intros Ht. unfold run_task; cbn. destruct (task_run usec (env m)). unfold task_cleanup; cbn. by rewrite Ht. Qed.
Lemma run_task_users usec rest m : this_thread m = Some (ThreadInfo 0 []) ->
  user_ops (op_queue_ (sched (run_task usec rest m))) = user_ops rest ++ (task_run usec (env m)).1.
Proof.
  intros Ht. unfold run_task; cbn. destruct (task_run usec (env m)) as [os x]. unfold task_cleanup; cbn.
  rewrite Ht; cbn. rewrite !user_ops_app, user_ops_users, user_ops_task. by rewrite app_nil_r.
Qed.
End cleanups.

(** A property of the environment that the reactor and the handlers keep. *)
Section env_invariant.
  Context `{R : Reactor} (complete : Op -> machine -> machine) (P : Env -> Prop).
  Hypothesis Htask : forall usec x, P x -> P (task_run usec x).2.
  Hypothesis Hcomplete : forall o m, P (env m) -> P (env (complete o m)).

Lemma run_front_env m : P (env m) -> P (env (run_front complete m).2).
Proof.
  intros Hm. unfold run_front. destruct (op_queue_ (sched m)) as [|[|o] rest]; [done..|].
  cbn. unfold run_operation. rewrite work_cleanup_env. by apply Hcomplete.
Qed.
Lemma run_task_keeps usec rest m : P (env m) -> P (env (run_task usec rest m)).
Proof.
  intros Hm. unfold run_task; cbn. pose proof (Htask usec _ Hm) as Hx. destruct (task_run usec (env m)) as [os x].
  unfold task_cleanup; cbn. destruct (this_thread m) as [t|]; cbn; [|done]. by destruct (0 <? _).
Qed.
Lemma do_poll_one_env m : P (env m) -> P (env (do_poll_one complete m).2).
Proof.
  intros Hm. unfold do_poll_one. destruct (stopped_ (sched m)); [done|].
  destruct (op_queue_ (sched m)) as [|[|o] rest]; apply run_front_env; [done| |done]. by apply run_task_keeps.
Qed.
Lemma do_wait_one_env usec m : P (env m) -> P (env (do_wait_one complete usec m).2).
Proof.
  intros Hm. unfold do_wait_one. destruct (stopped_ (sched m)); [done|].
  destruct (op_queue_ (sched m)) as [|[|o] rest]; apply run_front_env; [done| |done]. by apply run_task_keeps.
Qed.
Lemma poll_loop_env fuel n m : P (env m) -> P (env (poll_loop complete fuel n m).2).
Proof.
  revert n m. induction fuel as [|fuel IH]; intros n m Hm; [done|]. cbn.
  pose proof (do_poll_one_env m Hm). destruct (do_poll_one complete m) as [[] m1]; [by apply IH|done].
Qed.
Lemma do_run_one_env fuel m : P (env m) -> P (env (do_run_one complete fuel m).2).
Proof.
  revert m. induction fuel as [|fuel IH]; intros m Hm; [done|]. cbn. destruct (stopped_ (sched m)); [done|].
  destruct (op_queue_ (sched m)) as [|[|o] rest]; [done|apply IH; by apply run_task_keeps|].
  cbn [snd]. unfold run_operation. rewrite work_cleanup_env. by apply Hcomplete.
Qed.
Lemma run_loop_env fuel n m : P (env m) -> P (env (run_loop complete fuel n m).2).
Proof.
  revert n m. induction fuel as [|fuel IH]; intros n m Hm; [done|]. cbn [run_loop].
  pose proof (do_run_one_env (S fuel) m Hm). destruct (do_run_one complete (S fuel) m) as [[[]|] m1]; [by apply IH|done|done].
Qed.
Lemma enter_env {A} (f : machine -> A * machine) m : (forall m1, P (env m1) -> P (env (f m1).2)) ->
  P (env m) -> P (env (enter_thread f m).2).
Proof.
  intros Hf Hm. unfold enter_thread. set (m1 := Machine _ _ _). specialize (Hf m1 Hm). by destruct (f m1).
Qed.
Lemma poll_env fuel m : P (env m) -> P (env (poll complete fuel m).2).
Proof. intros Hm. unfold poll. destruct (_ =? 0); [done|]. apply enter_env; [intros; by apply poll_loop_env|done]. Qed.
Lemma run_env fuel m : P (env m) -> P (env (run complete fuel m).2).
Proof. intros Hm. unfold run. destruct (_ =? 0); [done|]. apply enter_env; [intros; by apply run_loop_env|done]. Qed.
Lemma run_one_env fuel m : P (env m) -> P (env (run_one complete fuel m).2).
Proof. intros Hm. unfold run_one. destruct (_ =? 0); [done|]. apply enter_env; [intros; by apply do_run_one_env|done]. Qed.
Lemma poll_one_env m : P (env m) -> P (env (poll_one complete m).2).
Proof. intros Hm. unfold poll_one. destruct (_ =? 0); [done|]. apply enter_env; [apply do_poll_one_env|done]. Qed.
Lemma wait_one_env usec m : P (env m) -> P (env (wait_one complete usec m).2).
Proof. intros Hm. unfold wait_one. destruct (_ =? 0); [done|]. apply enter_env; [apply do_wait_one_env|done]. Qed.
Lemma run_one_until_env ticks abs m : P (env m) -> P (env (run_one_until complete ticks abs m).2).
Proof.
  revert m. induction ticks as [|now ticks IH]; intros m Hm; [done|]. cbn. destruct (now <? abs); [|done].
  pose proof (wait_one_env (Z.min (abs - now) 1000000) m Hm). destruct (wait_one _ _ m) as [r m1].
  destruct (r || stopped m1); [done|by apply IH].
Qed.
End env_invariant.

Section accounting.
  Context `{R : Reactor} (complete : Op -> machine -> machine).
  (** What the environment holds of the scheduler's work: operations the reactor waits
      for, and work guards. *)
  Context (pending : Env -> Z).

Definition private (m : machine) : Z :=
  match this_thread m with Some t => private_outstanding_work t | None => 0 end.
Definition private_ops (m : machine) : list Op :=
  match this_thread m with Some t => private_op_queue t | None => [] end.

(** The work counted, less the work there is. *)
Definition balance (m : machine) : Z :=
  outstanding_work_ (sched m) + private m
  - (users (op_queue_ (sched m)) + Z.of_nat (length (private_ops m)) + pending (env m)).

(** The reactor hands over operations it was waiting for. *)
Definition reactor_counts : Prop := forall usec x,
  pending x = Z.of_nat (length (task_run usec x).1) + pending (task_run usec x).2.

(** A handler may start work, on the thread's own account or the scheduler's, and queue
    it; it neither ends work nor stops the scheduler, and leaves the marker alone. *)
Record handler_counts (o : Op) (m m' : machine) : Prop := {
  hc_balance : balance m' = balance m;
  hc_grows : outstanding_work_ (sched m) <= outstanding_work_ (sched m');
  hc_private : 0 <= private m';
  hc_thread : is_Some (this_thread m');
  hc_stopped : stopped_ (sched m') = stopped_ (sched m);
  hc_tasks : tasks (op_queue_ (sched m')) = tasks (op_queue_ (sched m));
}.

(** Between operations, inside [poll]. *)
Record loop_ok (m : machine) : Prop := {
  lo_thread : this_thread m = Some (ThreadInfo 0 []);
  lo_balance : balance m = 0;
  lo_tasks : tasks (op_queue_ (sched m)) = 1%nat;
  lo_stopped : stopped_ (sched m) = (outstanding_work_ (sched m) =? 0);
  lo_work : 0 <= outstanding_work_ (sched m);
}.

(** The operations ready to run. *)
Definition held (m : machine) : list Op := user_ops (op_queue_ (sched m)) ++ private_ops m.

(** An invariant of these and of the environment, kept along with the count. *)
Context (Inv : list Op -> Env -> Prop).
Definition loop_inv (m : machine) : Prop := loop_ok m /\ Inv (held m) (env m).

Hypothesis Htask : forall usec os x, Inv os x ->
  pending x = Z.of_nat (length (task_run usec x).1) + pending (task_run usec x).2 /\
  Inv (os ++ (task_run usec x).1) (task_run usec x).2.
Hypothesis Hcomplete : forall o m, this_thread m = Some (ThreadInfo 0 []) -> Inv (o :: held m) (env m) ->
  handler_counts o m (complete o m) /\ Inv (held (complete o m)) (env (complete o m)).

Lemma ready_cleanup m t : this_thread m = Some t -> held (work_cleanup m) = held m.
Proof.
  intros Ht. unfold held, private_ops. rewrite (work_cleanup_queue m t Ht), user_ops_app, user_ops_users.
  rewrite work_cleanup_thread by (by eexists). rewrite Ht. cbn. by rewrite app_nil_r.
Qed.

Lemma run_operation_kept o rest m : loop_inv m -> stopped_ (sched m) = false ->
  op_queue_ (sched m) = UserOperation o :: rest -> loop_inv (run_operation complete o rest m).
Proof.
  intros [[Ht Hb Hn Hs Hw] Hinv] Hns Hq. rewrite Hns in Hs. symmetry in Hs. apply Z.eqb_neq in Hs.
  unfold run_operation. set (m1 := on_sched (set_queue rest) m).
  assert (Inv (o :: held m1) (env m1)) as Hinv1.
  { unfold held, private_ops in Hinv |- *. cbn. rewrite Hq, Ht, user_ops_user in Hinv. by rewrite Ht. }
  destruct (Hcomplete o m1 Ht Hinv1) as [[Hb' Hg Hp [t' Ht'] Hs' Hn'] Hinv2].
  split; [|by rewrite (ready_cleanup _ _ Ht'), work_cleanup_env].
  change (outstanding_work_ (sched m1)) with (outstanding_work_ (sched m)) in Hg.
  change (stopped_ (sched m1)) with (stopped_ (sched m)) in Hs'.
  change (op_queue_ (sched m1)) with rest in Hn'.
  assert (balance m1 = 1) as Hb1.
  { unfold balance, private, private_ops, users in Hb |- *. unfold m1. cbn.
    rewrite Ht in Hb |- *. rewrite Hq, user_ops_user in Hb. cbn in *. lia. }
  destruct (complete o m1) as [s' th' x']; cbn in *. subst th'. unfold private in Hp; cbn in Hp.
  rewrite Hb1 in Hb'. unfold balance, private, private_ops in Hb'; cbn in Hb'.
  rewrite Hns in Hs'. assert (tasks rest = 1%nat) as Hrest by (rewrite Hq in Hn; exact Hn).
  rewrite Hrest in Hn'. destruct s' as [q' w' st' sh' ta']; cbn in *. subst st'.
  destruct t' as [p os]; cbn in *.
  assert (w' <> 0 /\ 0 <= w') as [Hw0 Hwp] by lia.
  assert (forall w2 st2, w2 = w' + p - 1 -> st2 = (w2 =? 0) ->
    loop_ok (Machine (Scheduler (q' ++ (UserOperation <$> os)) w2 st2 sh' ta') (Some (ThreadInfo 0 [])) x')) as Hfin.
  { intros w2 st2 -> ->. split; cbn; [done| | |done|lia].
    - unfold balance, private, private_ops, users; cbn. rewrite user_ops_app, user_ops_users, length_app.
      unfold users in Hb'. lia.
    - by rewrite tasks_app, tasks_users, Hn'. }
  unfold work_cleanup; cbn. destruct (Z.ltb_spec 1 p) as [Hp1|Hp1].
  - specialize (Hfin (w' + (p - 1)) false ltac:(lia)).
    rewrite (proj2 (Z.eqb_neq (w' + (p - 1)) 0)) in Hfin by lia. specialize (Hfin eq_refl).
    destruct os; cbn; [by rewrite app_nil_r in Hfin|done].
  - destruct (Z.ltb_spec p 1) as [Hp2|Hp2].
    + specialize (Hfin (w' - 1) (w' - 1 =? 0) ltac:(lia) eq_refl).
      unfold work_finished; cbn. change (w' + -1) with (w' - 1).
      destruct (w' - 1 =? 0); destruct os; cbn; rewrite ?app_nil_r in Hfin; done.
    + specialize (Hfin w' false ltac:(lia)).
      rewrite (proj2 (Z.eqb_neq w' 0)) in Hfin by done. specialize (Hfin eq_refl).
      destruct os; cbn; [by rewrite app_nil_r in Hfin|done].
Qed.

Lemma run_task_kept usec rest m : loop_inv m -> op_queue_ (sched m) = TaskOperation :: rest ->
  loop_inv (run_task usec rest m) /\
  exists os, op_queue_ (sched (run_task usec rest m)) = rest ++ (UserOperation <$> os) ++ [TaskOperation] /\
    outstanding_work_ (sched (run_task usec rest m)) = outstanding_work_ (sched m) /\
    stopped_ (sched (run_task usec rest m)) = stopped_ (sched m).
Proof.
  intros [[Ht Hb Hn Hs Hw] Hinv] Hq. destruct (Htask usec _ _ Hinv) as [Hx Hinv1].
  pose proof (run_task_users usec rest m Ht) as Hu. destruct (run_task_env usec rest m Ht) as [He Ht1].
  assert (held (run_task usec rest m) = held m ++ (task_run usec (env m)).1) as Hheld.
  { unfold held, private_ops. rewrite Hu, Ht1, Ht, Hq, user_ops_task. cbn. by rewrite !app_nil_r. }
  assert (Inv (held (run_task usec rest m)) (env (run_task usec rest m))) as Hinv2 by (by rewrite Hheld, He).
  clear Hu He Ht1 Hheld Hinv Hinv1.
  unfold run_task in *; cbn in *.
  destruct (task_run usec (env m)) as [ops x]; cbn in *. unfold task_cleanup in *; cbn in *. rewrite Ht in *; cbn in *.
  assert (tasks rest = 0%nat) as Hrest by (rewrite Hq, tasks_cons_task in Hn; lia).
  split; [split; [split; cbn|exact Hinv2]|].
  - done.
  - unfold balance, private, private_ops, users in *; cbn. rewrite Ht, Hq in Hb; cbn in Hb.
    rewrite !user_ops_app, user_ops_users, !length_app, user_ops_task. rewrite user_ops_task in Hb.
    change (user_ops []) with (@nil Op). cbn. lia.
  - rewrite <- app_assoc. by rewrite !tasks_app, tasks_users, Hrest.
  - done.
  - done.
  - exists ops. by rewrite <- app_assoc.
Qed.

Lemma do_poll_one_kept m : loop_inv m ->
  loop_inv (do_poll_one complete m).2 /\
  ((do_poll_one complete m).1 = false -> stopped_ (sched (do_poll_one complete m).2) = false ->
     op_queue_ (sched (do_poll_one complete m).2) = [TaskOperation]).
Proof.
  intros Hok. unfold do_poll_one. destruct (stopped_ (sched m)) eqn:Hst; [cbn; split; [done|by rewrite Hst]|].
  destruct (op_queue_ (sched m)) as [|[|o] rest] eqn:Hq.
  - destruct Hok as [[_ _ Hn _ _] _]. by rewrite Hq in Hn.
  - destruct (run_task_kept 0 rest m Hok Hq) as (Hok1 & os & Hq1 & Hw1 & Hs1).
    set (m1 := run_task 0 rest m) in *. unfold run_front.
    destruct (op_queue_ (sched m1)) as [|[|o] rest1] eqn:Hq'.
    + split; [done|]. exfalso. apply (f_equal length) in Hq1. rewrite !length_app in Hq1. cbn in Hq1. lia.
    + split; [done|]. intros _ _. cbn. rewrite Hq'. f_equal.
      pose proof (lo_tasks _ (proj1 Hok)) as Hn0. rewrite Hq, tasks_cons_task in Hn0.
      destruct rest as [|i rest]; [destruct os; cbn in Hq1; by simplify_eq|].
      cbn in Hq1. simplify_eq. rewrite tasks_cons_task in Hn0. lia.
    + split; [|done]. by apply run_operation_kept; rewrite ?Hs1.
  - unfold run_front. rewrite Hq. split; [|done]. by apply run_operation_kept.
Qed.

Lemma do_wait_one_kept usec m : loop_inv m -> loop_inv (do_wait_one complete usec m).2.
Proof.
  intros Hok. unfold do_wait_one. destruct (stopped_ (sched m)) eqn:Hst; [done|].
  assert (forall m1, loop_inv m1 -> stopped_ (sched m1) = false -> loop_inv (run_front complete m1).2) as Hfront.
  { intros m1 Hok1 Hs1. unfold run_front. destruct (op_queue_ (sched m1)) as [|[|o] rest] eqn:Hq; [done..|].
    by apply run_operation_kept. }
  destruct (op_queue_ (sched m)) as [|[|o] rest] eqn:Hq; [by apply Hfront| |by apply Hfront].
  destruct (run_task_kept (match rest with [] => usec | _ => 0 end) rest m Hok Hq) as (Hok1 & os & _ & _ & Hs1).
  replace (if match rest with [] => false | _ => true end then 0 else usec)
    with (match rest with [] => usec | _ => 0 end) by (by destruct rest).
  apply Hfront; [done|by rewrite Hs1].
Qed.

Lemma do_run_one_kept fuel m : loop_inv m -> loop_inv (do_run_one complete fuel m).2 /\
  ((do_run_one complete fuel m).1 = Some false -> stopped_ (sched (do_run_one complete fuel m).2) = true).
Proof.
  revert m. induction fuel as [|fuel IH]; intros m Hok; [done|]. cbn.
  destruct (stopped_ (sched m)) eqn:Hst; [done|]. destruct (op_queue_ (sched m)) as [|[|o] rest] eqn:Hq; [done| |].
  - apply IH. by apply (run_task_kept (match rest with [] => task_usec_ | _ => 0 end) rest m Hok Hq).
  - split; [|done]. by apply run_operation_kept.
Qed.
Lemma run_loop_kept fuel n m : loop_inv m -> loop_inv (run_loop complete fuel n m).2 /\
  forall k, (run_loop complete fuel n m).1 = Some k -> stopped_ (sched (run_loop complete fuel n m).2) = true.
Proof.
  revert n m. induction fuel as [|fuel IH]; intros n m Hok; [done|]. cbn [run_loop].
  destruct (do_run_one_kept (S fuel) m Hok) as [Hok1 Hst]. destruct (do_run_one complete (S fuel) m) as [[[]|] m1]; cbn [fst snd] in *.
  - by apply IH.
  - split; [done|]. intros k _. by apply Hst.
  - done.
Qed.

Lemma poll_loop_kept fuel n m : loop_inv m ->
  loop_inv (poll_loop complete fuel n m).2 /\
  forall k, (poll_loop complete fuel n m).1 = Some k ->
    stopped_ (sched (poll_loop complete fuel n m).2) = false ->
    op_queue_ (sched (poll_loop complete fuel n m).2) = [TaskOperation].
Proof.
  revert n m. induction fuel as [|fuel IH]; intros n m Hok; [done|]. cbn.
  destruct (do_poll_one_kept m Hok) as [Hok1 Hq1]. destruct (do_poll_one complete m) as [[] m1]; cbn in *.
  - by apply IH.
  - split; [done|]. intros k _ Hs. by apply Hq1.
Qed.
End accounting.

(** Without an invariant. *)
Section counting.
  Context `{R : Reactor} (complete : Op -> machine -> machine) (pending : Env -> Z).
  Hypothesis Htask : reactor_counts pending.
  Hypothesis Hcomplete : forall o m, this_thread m = Some (ThreadInfo 0 []) -> handler_counts pending o m (complete o m).

Lemma do_poll_one_ok m : loop_ok pending m -> loop_ok pending (do_poll_one complete m).2.
Proof. intros Hok. apply (do_poll_one_kept complete pending (fun _ _ => True)); auto. by split. Qed.
Lemma do_wait_one_ok usec m : loop_ok pending m -> loop_ok pending (do_wait_one complete usec m).2.
Proof. intros Hok. apply (do_wait_one_kept complete pending (fun _ _ => True)); auto. by split. Qed.
Lemma poll_loop_ok fuel n m : loop_ok pending m ->
  loop_ok pending (poll_loop complete fuel n m).2 /\
  forall k, (poll_loop complete fuel n m).1 = Some k ->
    stopped_ (sched (poll_loop complete fuel n m).2) = false ->
    op_queue_ (sched (poll_loop complete fuel n m).2) = [TaskOperation].
Proof.
  intros Hok. destruct (poll_loop_kept complete pending (fun _ _ => True)) with (fuel := fuel) (n := n) (m := m)
    as [[Hok1 _] Hq]; auto. by split.
Qed.
End counting.

(** ** The loop of [poll] ends

    when the reactor has finitely many operations to hand over and handlers queue none. *)
Section ending.
  Context `{R : Reactor} (complete : Op -> machine -> machine) (left : Env -> nat).
  Hypothesis Htask : forall usec x, (length (task_run usec x).1 + left (task_run usec x).2 <= left x)%nat.
  Hypothesis Hcomplete : forall o m, this_thread m = Some (ThreadInfo 0 []) ->
    op_queue_ (sched (complete o m)) = op_queue_ (sched m) /\
    (exists p, this_thread (complete o m) = Some (ThreadInfo p [])) /\
    (left (env (complete o m)) <= left (env m))%nat.

(** The operations that can still run. *)
Definition to_run (m : machine) : nat := (length (user_ops (op_queue_ (sched m))) + left (env m))%nat.

Lemma run_operation_to_run o rest m : this_thread m = Some (ThreadInfo 0 []) ->
  op_queue_ (sched m) = UserOperation o :: rest ->
  this_thread (run_operation complete o rest m) = Some (ThreadInfo 0 []) /\
  (S (to_run (run_operation complete o rest m)) <= to_run m)%nat.
Proof.
  intros Ht Hq. unfold run_operation. set (m1 := on_sched (set_queue rest) m).
  destruct (Hcomplete o m1 Ht) as (Hq1 & [p Hp] & Hl). split; [apply work_cleanup_thread; by eexists|].
  unfold to_run. rewrite (work_cleanup_queue _ _ Hp), work_cleanup_env, Hq, Hq1. cbn.
  rewrite app_nil_r, user_ops_user. cbn in *. lia.
Qed.
Lemma run_task_to_run usec rest m : this_thread m = Some (ThreadInfo 0 []) ->
  op_queue_ (sched m) = TaskOperation :: rest -> (to_run (run_task usec rest m) <= to_run m)%nat.
Proof.
  intros Ht Hq. unfold to_run. rewrite run_task_users, Hq, user_ops_task, length_app by done.
  destruct (run_task_env usec rest m Ht) as [-> _]. pose proof (Htask usec (env m)). lia.
Qed.

Lemma run_front_to_run m : this_thread m = Some (ThreadInfo 0 []) ->
  let '(ran, m') := run_front complete m in
  this_thread m' = Some (ThreadInfo 0 []) /\ ((if ran then 1 else 0) + to_run m' <= to_run m)%nat.
Proof.
  intros Ht. unfold run_front. destruct (op_queue_ (sched m)) as [|[|o] rest] eqn:Hq; [done..|].
  destruct (run_operation_to_run o rest m Ht Hq). split; [done|lia].
Qed.

Lemma do_poll_one_to_run m : this_thread m = Some (ThreadInfo 0 []) ->
  let '(ran, m') := do_poll_one complete m in
  this_thread m' = Some (ThreadInfo 0 []) /\ ((if ran then 1 else 0) + to_run m' <= to_run m)%nat.
Proof.
  intros Ht. unfold do_poll_one. destruct (stopped_ (sched m)); [done|].
  destruct (op_queue_ (sched m)) as [|[|o] rest] eqn:Hq; [by apply run_front_to_run| |by apply run_front_to_run].
  pose proof (run_task_to_run 0 rest m Ht Hq) as Hle. destruct (run_task_env 0 rest m Ht) as [_ Ht1].
  pose proof (run_front_to_run _ Ht1) as Hf. destruct (run_front complete (run_task 0 rest m)) as [ran m'].
  destruct Hf. split; [done|lia].
Qed.

Lemma poll_loop_ends fuel n m : this_thread m = Some (ThreadInfo 0 []) -> (to_run m < fuel)%nat ->
  exists k, (poll_loop complete fuel n m).1 = Some k /\ k <= Z.max n (n + Z.of_nat (to_run m)).
Proof.
  revert n m. induction fuel as [|fuel IH]; intros n m Ht Hf; [lia|]. cbn.
  pose proof (do_poll_one_to_run m Ht) as H1. destruct (do_poll_one complete m) as [[] m1]; destruct H1 as [Ht1 H1].
  - destruct (IH (if n =? size_max then n else n + 1) m1 Ht1) as (k & Hk & Hle); [lia|].
    exists k. split; [done|]. destruct (n =? size_max); lia.
  - exists n. split; [done|lia].
Qed.
Lemma poll_ends fuel m : (to_run m < fuel)%nat ->
  exists k, (poll complete fuel m).1 = Some k /\ k <= Z.of_nat (to_run m).
Proof.
  intros Hf. unfold poll. destruct (outstanding_work_ (sched m) =? 0); [exists 0; split; [done|lia]|].
  unfold enter_thread. set (m1 := Machine _ _ _).
  destruct (poll_loop_ends fuel 0 m1 eq_refl Hf) as (k & Hk & Hle). exists k.
  destruct (poll_loop complete fuel 0 m1) as [r m2]. split; [done|].
  change (to_run m1) with (to_run m) in Hle. lia.
Qed.
End ending.

(** ** Handlers that only act on the environment *)

Section fifo.
  Context `{R : Reactor} (h : Op -> Env -> Env).

Definition act_on_env (o : Op) (m : machine) : machine := set_env (h o (env m)) m.

(** A machine inside [poll], with [q] queued and [w] outstanding. *)
Definition running (q : list item) (w : Z) (st : bool) (x : Env) : machine :=
  Machine (Scheduler q w st false true) (Some (ThreadInfo 0 [])) x.

Lemma run_user o rest w x :
  run_operation act_on_env o rest (running (UserOperation o :: rest) w false x)
  = running rest (w - 1) (w - 1 =? 0) (h o x).
Proof.
  unfold run_operation, act_on_env, work_cleanup, work_finished, running; cbn.
  change (w + -1) with (w - 1). by destruct (w - 1 =? 0).
Qed.

Hypothesis Hquiet : forall usec x, task_run usec x = ([], x).

Lemma poll_task rest w x :
  do_poll_one act_on_env (running (TaskOperation :: rest) w false x)
  = run_front act_on_env (running (rest ++ [TaskOperation]) w false x).
Proof.
  unfold do_poll_one, run_task, running; cbn. rewrite Hquiet. unfold task_cleanup; cbn.
  unfold push, set_queue; cbn. by rewrite app_nil_r.
Qed.

Lemma poll_loop_stopped fuel n q w x : (0 < fuel)%nat ->
  poll_loop act_on_env fuel n (running q w true x) = (Some n, running q w true x).
Proof. by destruct fuel; [lia|]. Qed.

Definition marked (a b : list Op) : list item :=
  (UserOperation <$> a) ++ TaskOperation :: (UserOperation <$> b).

Lemma poll_loop_fifo a b k n fuel x : 0 <= k -> 0 < Z.of_nat (length (a ++ b)) + k ->
  0 <= n -> n + Z.of_nat (length (a ++ b)) <= size_max -> (length (a ++ b) < fuel)%nat ->
  exists m', poll_loop act_on_env fuel n
      (running (marked a b) (Z.of_nat (length (a ++ b)) + k) false x)
    = (Some (n + Z.of_nat (length (a ++ b))), m') /\
    env m' = foldl (flip h) x (a ++ b) /\ outstanding_work_ (sched m') = k /\
    stopped_ (sched m') = (k =? 0).
Proof.
  intros Hk. remember (length (a ++ b)) as l eqn:Hl. revert a b n fuel x Hl.
  induction l as [|l IH]; intros a b n fuel x Hl Hpos Hn Hmax Hfuel.
  { symmetry in Hl. apply nil_length_inv, app_eq_nil in Hl as [-> ->]. destruct fuel as [|fuel]; [lia|].
    cbn [poll_loop]. unfold marked; cbn [fmap list_fmap app]. rewrite poll_task. cbn.
    eexists. rewrite Z.add_0_r. split; [done|]. split_and!; [done|done|]. cbn.
    symmetry. apply Z.eqb_neq. lia. }
  assert (forall o os a' b', os = a' ++ b' -> length os = l ->
    exists m', poll_loop act_on_env (Nat.pred fuel) (if n =? size_max then n else n + 1)
        (running (marked a' b') (Z.of_nat (S l) + k - 1) (Z.of_nat (S l) + k - 1 =? 0) (h o x))
      = (Some (n + Z.of_nat (S l)), m') /\
      env m' = foldl (flip h) (h o x) os /\ outstanding_work_ (sched m') = k /\
      stopped_ (sched m') = (k =? 0)) as Hnext.
  { intros o os a' b' -> Hlen. rewrite (proj2 (Z.eqb_neq n size_max)) by lia.
    replace (Z.of_nat (S l) + k - 1) with (Z.of_nat l + k) by lia.
    destruct (Z.eqb_spec (Z.of_nat l + k) 0) as [H0|H0].
    - assert (l = 0%nat) as -> by lia. assert (k = 0) as -> by lia.
      apply nil_length_inv, app_eq_nil in Hlen as [-> ->].
      rewrite poll_loop_stopped by lia. eexists. by split_and!.
    - destruct (IH a' b' (n + 1) (Nat.pred fuel) (h o x) (eq_sym Hlen)) as (m' & He & Hrest); [lia..|].
      exists m'. rewrite He. split; [|done]. do 2 f_equal. lia. }
  destruct fuel as [|fuel]; [lia|]. cbn [poll_loop Nat.pred] in *. destruct a as [|o a]; unfold marked; cbn [fmap list_fmap app].
  - destruct b as [|o b]; [done|]. rewrite poll_task. unfold run_front; cbn [sched op_queue_ running app fmap list_fmap].
    rewrite run_user. destruct (Hnext o b b [] ltac:(by rewrite app_nil_r)) as (m' & He & Hrest); [cbn in Hl; lia|].
    exists m'. split; [exact He|exact Hrest].
  - unfold do_poll_one, run_front; cbn [sched op_queue_ stopped_ running].
    rewrite run_user. destruct (Hnext o (a ++ b) a b eq_refl) as (m' & He & Hrest); [cbn in Hl; lia|].
    exists m'. split; [exact He|exact Hrest].
Qed.
End fifo.

(** ** Properties *)

(** The scheduler between calls: work and queue agree, the marker is queued once. *)
Record idle_ok `{Reactor} (pending : Env -> Z) (m : machine) : Prop := {
  io_thread : this_thread m = None;
  io_balance : balance pending m = 0;
  io_tasks : tasks (op_queue_ (sched m)) = 1%nat;
  io_work : 0 <= outstanding_work_ (sched m);
}.

(** Running inside [enter_thread]. *)
Lemma enter_idle `{R : Reactor} {A} (pending : Env -> Z) (f : machine -> A * machine) (m : machine) :
  idle_ok pending m ->
  (forall m1, loop_ok pending m1 -> loop_ok pending (f m1).2) ->
  (forall m1, stopped_ (sched m1) = true -> (f m1).2 = m1) ->
  outstanding_work_ (sched m) <> 0 -> idle_ok pending (enter_thread f m).2.
Proof.
  intros [Ht Hb Hn Hw] Hf Hstop H0. unfold enter_thread. set (m1 := Machine _ _ _).
  unfold balance, private, private_ops in Hb. rewrite Ht in Hb.
  destruct (stopped_ (sched m)) eqn:Hs.
  - pose proof (Hstop m1 Hs) as He. destruct (f m1) as [a m2]; cbn in *. subst m2.
    split; [done| |done|done]. unfold balance, private, private_ops; cbn. by rewrite Ht.
  - assert (loop_ok pending m1) as Hok1.
    { split; cbn; [done|exact Hb|done| |done]. symmetry. rewrite Hs. by apply Z.eqb_neq. }
    destruct (Hf m1 Hok1) as [Ht2 Hb2 Hn2 Hs2 Hw2]. destruct (f m1) as [a m2]; cbn in *.
    unfold balance, private, private_ops in Hb2. rewrite Ht2 in Hb2.
    split; [done| |done|done]. unfold balance, private, private_ops; cbn. by rewrite Ht.
Qed.

(** With an invariant, the calls of a program. *)
Section kept.
  Context `{R : Reactor} (complete : Op -> machine -> machine) (pending : Env -> Z) (Inv : list Op -> Env -> Prop).
  Hypothesis Htask : forall usec os x, Inv os x ->
    pending x = Z.of_nat (length (task_run usec x).1) + pending (task_run usec x).2 /\
    Inv (os ++ (task_run usec x).1) (task_run usec x).2.
  Hypothesis Hcomplete : forall o m, this_thread m = Some (ThreadInfo 0 []) -> Inv (o :: held m) (env m) ->
    handler_counts pending o m (complete o m) /\ Inv (held (complete o m)) (env (complete o m)).

Definition idle_inv (m : machine) : Prop := idle_ok pending m /\ Inv (held m) (env m).

Lemma enter_kept {A} (f : machine -> A * machine) (m : machine) : idle_inv m ->
  (forall m1, loop_inv pending Inv m1 -> loop_inv pending Inv (f m1).2) ->
  (forall m1, stopped_ (sched m1) = true -> (f m1).2 = m1) ->
  idle_inv (if outstanding_work_ (sched m) =? 0 then stop m else (enter_thread f m).2).
Proof.
  intros [[Ht Hb Hn Hw] Hinv] Hf Hstop. destruct (Z.eqb_spec (outstanding_work_ (sched m)) 0) as [H0|H0].
  { by split; [split|]. }
  unfold enter_thread. set (m1 := Machine _ _ _).
  assert (held m1 = held m) as Hh1 by (unfold held, private_ops, m1; cbn; by rewrite Ht).
  unfold balance, private, private_ops in Hb. rewrite Ht in Hb.
  destruct (stopped_ (sched m)) eqn:Hs.
  - pose proof (Hstop m1 Hs) as He. destruct (f m1) as [a m2]; cbn in *. subst m2. split; [split; cbn; [done| |done|done]|].
    + unfold balance, private, private_ops; cbn. by rewrite Ht.
    + unfold held, private_ops in *; cbn in *. by rewrite Ht in *.
  - assert (loop_inv pending Inv m1) as Hok1.
    { split; [split; cbn; [done|exact Hb|done| |done]|by rewrite Hh1]. rewrite Hs. symmetry. by apply Z.eqb_neq. }
    destruct (Hf m1 Hok1) as [[Ht2 Hb2 Hn2 Hs2 Hw2] Hinv2]. destruct (f m1) as [a m2]; cbn in *.
    unfold balance, private, private_ops in Hb2. rewrite Ht2 in Hb2. split; [split; cbn; [done| |done|done]|].
    + unfold balance, private, private_ops; cbn. by rewrite Ht.
    + unfold held, private_ops in *; cbn. by rewrite Ht, Ht2 in *.
Qed.
Lemma poll_kept fuel m : idle_inv m -> idle_inv (poll complete fuel m).2.
Proof.
  intros Hm. assert ((poll complete fuel m).2 = if outstanding_work_ (sched m) =? 0 then stop m
    else (enter_thread (poll_loop complete fuel 0) m).2) as -> by (unfold poll; by destruct (_ =? 0)).
  apply (enter_kept (poll_loop complete fuel 0) m Hm).
  - intros m1 Hm1. by apply poll_loop_kept.
  - intros m1 Hs. destruct fuel; [done|]. cbn. unfold do_poll_one. by rewrite Hs.
Qed.
Lemma run_kept fuel m : idle_inv m -> idle_inv (run complete fuel m).2.
Proof.
  intros Hm. assert ((run complete fuel m).2 = if outstanding_work_ (sched m) =? 0 then stop m
    else (enter_thread (run_loop complete fuel 0) m).2) as -> by (unfold run; by destruct (_ =? 0)).
  apply (enter_kept (run_loop complete fuel 0) m Hm).
  - intros m1 Hm1. by apply run_loop_kept.
  - intros m1 Hs. destruct fuel; [done|]. cbn. by rewrite Hs.
Qed.
Lemma run_one_kept fuel m : idle_inv m -> idle_inv (run_one complete fuel m).2.
Proof.
  intros Hm. assert ((run_one complete fuel m).2 = if outstanding_work_ (sched m) =? 0 then stop m
    else (enter_thread (do_run_one complete fuel) m).2) as -> by (unfold run_one; by destruct (_ =? 0)).
  apply (enter_kept (do_run_one complete fuel) m Hm).
  - intros m1 Hm1. by apply do_run_one_kept.
  - intros m1 Hs. destruct fuel; [done|]. cbn. by rewrite Hs.
Qed.
(** [run] on a loop that is not stopped returns when there is no work left. *)
Lemma run_finishes fuel m k : idle_inv m -> stopped_ (sched m) = false -> (run complete fuel m).1 = Some k ->
  outstanding_work_ (sched (run complete fuel m).2) = 0.
Proof.
  intros [[Ht Hb Hn Hw] Hinv] Hs. unfold run. destruct (Z.eqb_spec (outstanding_work_ (sched m)) 0) as [H0|H0]; [done|].
  unfold enter_thread. set (m1 := Machine _ _ _). intros Hk. unfold balance, private, private_ops in Hb. rewrite Ht in Hb.
  assert (loop_inv pending Inv m1) as Hok1.
  { split; [split; cbn; [done|exact Hb|done| |done]|]. { rewrite Hs. symmetry. by apply Z.eqb_neq. }
    unfold held, private_ops in *. cbn. by rewrite Ht in Hinv. }
  destruct (run_loop_kept complete pending Inv Htask Hcomplete fuel 0 m1 Hok1) as [[[_ _ _ Hst _] _] Hstop].
  destruct (run_loop complete fuel 0 m1) as [r m2]; cbn [fst snd sched outstanding_work_] in *. rewrite (Hstop k Hk) in Hst.
  symmetry in Hst. by apply Z.eqb_eq in Hst.
Qed.
Lemma poll_one_kept m : idle_inv m -> idle_inv (poll_one complete m).2.
Proof.
  intros Hm. assert ((poll_one complete m).2 = if outstanding_work_ (sched m) =? 0 then stop m
    else (enter_thread (do_poll_one complete) m).2) as -> by (unfold poll_one; by destruct (_ =? 0)).
  apply (enter_kept (do_poll_one complete) m Hm).
  - intros m1 Hm1. by apply do_poll_one_kept.
  - intros m1 Hs. unfold do_poll_one. by rewrite Hs.
Qed.
Lemma wait_one_kept usec m : idle_inv m -> idle_inv (wait_one complete usec m).2.
Proof.
  intros Hm. assert ((wait_one complete usec m).2 = if outstanding_work_ (sched m) =? 0 then stop m
    else (enter_thread (do_wait_one complete usec) m).2) as -> by (unfold wait_one; by destruct (_ =? 0)).
  apply (enter_kept (do_wait_one complete usec) m Hm).
  - intros m1 Hm1. by apply do_wait_one_kept.
  - intros m1 Hs. unfold do_wait_one. by rewrite Hs.
Qed.
End kept.

(** [poll] keeps count of the work.  As long as handlers only start work,
    [outstanding_work_] is the number of operations queued or with the reactor before and
    after the call; [poll] on a running scheduler leaves it stopped exactly when no work is
    left, and otherwise leaves nothing ready in the queue. *)
Theorem poll_accounts `{R : Reactor} (complete : Op -> machine -> machine) (pending : Env -> Z)
  (Htask : reactor_counts pending)
  (Hcomplete : forall o m, this_thread m = Some (ThreadInfo 0 []) -> handler_counts pending o m (complete o m))
  (fuel : nat) (m : machine) (n : Z) (Hok : idle_ok pending m) (Hrun : stopped m = false)
  (Hret : (poll complete fuel m).1 = Some n) :
  let m' := (poll complete fuel m).2 in
  idle_ok pending m' /\ stopped m' = (outstanding_work_ (sched m') =? 0) /\
  (stopped m' = false -> op_queue_ (sched m') = [TaskOperation] /\
     outstanding_work_ (sched m') = pending (env m')).
Proof.
  destruct Hok as [Ht Hb Hn Hw]. unfold stopped in *. unfold poll in *. destruct (outstanding_work_ (sched m) =? 0) eqn:H0.
  { cbn. split_and!; [split; cbn; done|done|done]. }
  unfold enter_thread in *. set (m1 := Machine (sched m) (Some (ThreadInfo 0 [])) (env m)) in *.
  assert (loop_ok pending m1) as Hok1.
  { unfold balance, private, private_ops in Hb. rewrite Ht in Hb.
    split; cbn; [done|exact Hb|done|by rewrite H0|done]. }
  destruct (poll_loop_ok complete pending Htask Hcomplete fuel 0 m1 Hok1) as [[Ht2 Hb2 Hn2 Hs2 Hw2] Hq2].
  destruct (poll_loop complete fuel 0 m1) as [r m2]; cbn in *.
  unfold balance, private, private_ops in Hb2. rewrite Ht2 in Hb2; cbn in Hb2.
  split_and!; [split; cbn; [done| |done|done]|done|].
  - unfold balance, private, private_ops; cbn. rewrite Ht. exact Hb2.
  - intros Hs. specialize (Hq2 n Hret Hs). split; [done|]. rewrite Hq2 in Hb2. cbn in Hb2.
    unfold users in Hb2. rewrite user_ops_task in Hb2. change (user_ops []) with (@nil Op) in Hb2. cbn in Hb2. lia.
Qed.

(** [poll] runs everything that is ready, first come first served: with handlers that
    only act on the environment and an idle reactor, it runs the queued operations in queue
    order, returns their number, and stops the scheduler exactly when no other work is
    outstanding. *)
Theorem poll_fifo `{R : Reactor} (h : Op -> Env -> Env) (Hquiet : forall usec x, task_run usec x = ([], x))
  (a b : list Op) (k : Z) (fuel : nat) (x : Env) (Hk : 0 <= k)
  (Hpos : 0 < Z.of_nat (length (a ++ b)) + k) (Hmax : Z.of_nat (length (a ++ b)) <= size_max)
  (Hfuel : (length (a ++ b) < fuel)%nat) :
  exists m', poll (act_on_env h) fuel
      (Machine (Scheduler (marked a b) (Z.of_nat (length (a ++ b)) + k) false false true) None x)
    = (Some (Z.of_nat (length (a ++ b))), m') /\
    env m' = foldl (fun x o => h o x) x (a ++ b) /\ outstanding_work_ (sched m') = k /\
    stopped m' = (k =? 0).
Proof.
  unfold poll; cbn [sched outstanding_work_].
  rewrite (proj2 (Z.eqb_neq (Z.of_nat (length (a ++ b)) + k) 0)) by lia. unfold enter_thread; cbn [sched env].
  destruct (poll_loop_fifo h Hquiet a b k 0 fuel x) as (m' & He & Henv & Hw & Hs); [lia..|].
  unfold running in He. rewrite He. eexists. split; [done|]. by split_and!.
Qed.

Lemma stop_stopped `{R : Reactor} m : stopped m = true -> stop m = m.
Proof. destruct m as [[q w st sh ta] t x]; cbn. by intros ->. Qed.
Lemma poll_stopped `{R : Reactor} complete fuel m : stopped m = true -> poll complete (S fuel) m = (Some 0, m).
Proof.
  intros Hs. unfold poll, enter_thread. rewrite (stop_stopped _ Hs). unfold stopped in Hs.
  destruct (_ =? 0); [done|]. cbn [poll_loop]. unfold do_poll_one; cbn [sched]. rewrite Hs. by destruct m.
Qed.

(** A stopped scheduler does nothing until it is restarted: [poll], [poll_one] and
    [wait_one] return zero and run no operation, whatever is queued, and so does a
    [run_one_for] of any length. *)
Theorem stopped_runs_nothing `{R : Reactor} (complete : Op -> machine -> machine) (m : machine)
  (usec abs_time : Z) (ticks : list Z) (fuel : nat) (Hstop : stopped m = true) :
  poll complete (S fuel) m = (Some 0, m) /\ poll_one complete m = (false, m) /\
  wait_one complete usec m = (false, m) /\ run_one_until complete ticks abs_time m = (false, m).
Proof.
  pose proof (stop_stopped _ Hstop) as Hst. pose proof (poll_stopped complete fuel m Hstop) as Hpoll.
  unfold stopped in Hstop.
  assert (forall usec, wait_one complete usec m = (false, m)) as Hwait.
  { intros u. unfold wait_one, enter_thread, do_wait_one. destruct (_ =? 0); [by rewrite Hst|].
    cbn [sched]. rewrite Hstop. by destruct m. }
  split_and!; [done| |done|].
  - unfold poll_one, enter_thread, do_poll_one. destruct (_ =? 0); [by rewrite Hst|].
    cbn [sched]. rewrite Hstop. by destruct m.
  - destruct ticks as [|now ticks]; [done|]. cbn. destruct (now <? abs_time); [|done].
    rewrite Hwait. cbn. unfold stopped. by rewrite Hstop.
Qed.

(** ** A concrete reactor: operations are numbers that the environment records. *)
Definition recorder : Reactor := {| Op := nat; Env := list nat; task_run := fun _ x => ([], x) |}.
Definition record_op : @Op recorder -> @Env recorder -> @Env recorder := fun o x => x ++ [o].
Definition recorder_machine (q : list nat) (w : Z) (st : bool) : @machine recorder :=
  @Machine recorder (@Scheduler recorder (@marked recorder q []) w st false true) None [].

Lemma poll_accounts_witness :
  let m' := (poll (act_on_env record_op) 9 (recorder_machine [4; 5]%nat 3 false)).2 in
  idle_ok (fun _ => 1) m' /\ stopped m' = (outstanding_work_ (sched m') =? 0) /\
  (stopped m' = false -> op_queue_ (sched m') = [TaskOperation] /\
     outstanding_work_ (sched m') = 1).
Proof.
  apply (@poll_accounts recorder (act_on_env record_op) (fun _ => 1)) with (n := 2);
    [intros usec x; reflexivity| |split; reflexivity || discriminate|reflexivity|reflexivity].
  intros o m Ht. split; cbn; rewrite ?Ht; try reflexivity; try lia; [|by eexists].
  unfold private; cbn. by rewrite Ht.
Defined.

Lemma poll_fifo_witness :
  exists m', poll (act_on_env record_op) 3 (recorder_machine [4; 5]%nat 2 false) = (Some 2, m') /\
    env m' = [4; 5]%nat /\ outstanding_work_ (sched m') = 0 /\ stopped m' = true.
Proof.
  apply (@poll_fifo recorder record_op (fun _ _ => eq_refl) [4; 5]%nat [] 0 3 []); cbn; try lia.
  vm_compute. discriminate.
Defined.

Lemma stopped_runs_nothing_witness :
  let m := recorder_machine [4]%nat 1 true in
  poll (act_on_env record_op) 1 m = (Some 0, m) /\ poll_one (act_on_env record_op) m = (false, m) /\
  wait_one (act_on_env record_op) 10 m = (false, m) /\
  run_one_until (act_on_env record_op) [0; 5] 9 m = (false, m).
Proof.
  apply (@stopped_runs_nothing recorder (act_on_env record_op) (recorder_machine [4]%nat 1 true)).
  reflexivity.
Defined.
