(* ===== verification/SchedulerThreads.v ===== *)
(** * [asio::detail::scheduler] with many threads: nobody sleeps over work

    Models what [Scheduler] leaves out: threads that run the same scheduler, its mutex, the
    event they sleep on ([detail/posix_event.hpp]) and the interruption of the task.  Code
    that holds the mutex is one step; what [pthread_cond_signal] does after the mutex is
    released is a step of its own, and so are the attempt to wake up, which may come from
    a signal, a timeout or nowhere, and the end of the task and of a handler.

    [poll], [poll_one] and [wait_one] are the calls the program makes; a thread in [poll]
    goes round, the two others run at most one handler. *)
From S2P Require Import Prelude.
From S2P Require Import Scheduler.
Open Scope Z_scope.

Inductive kind := OneShot | Round.

#[export] Instance kind_eq_dec : EqDecision kind.
Proof. solve_decision. Defined.

Section threads.
  Context `{R : Reactor}.

(** Where a thread is.  [Asleep]: in [wakeup_event_.wait_for_usec], and whether the condition
    variable has released it.  [InTask]: in [task_->run], which may block.  [Handling]: in a
    handler.  [Ending]: [work_finished] has counted the last work off and is to [stop].
    [Between]: in [poll], after a handler. *)
Inductive place :=
  | Asleep (released : bool)
  | InTask (k : kind) (may_block : bool)
  | Handling (k : kind) (info : thread_info)
  | Ending (k : kind) (info : thread_info) (stops : bool)
  | Between.

(** The scheduler; [task_interrupted_]; the event, [state_ = 2 * waiters + signalled]; signals
    that are on their way to the condition variable; the threads inside. *)
Record crowd := Crowd {
  shared : scheduler;
  task_interrupted_ : bool;
  signalled : bool;
  waiters : nat;
  transit : nat;
  threads : gmap nat place;
}.

Definition on_shared (f : scheduler -> scheduler) (x : crowd) : crowd :=
  Crowd (f (shared x)) (task_interrupted_ x) (signalled x) (waiters x) (transit x) (threads x).
Definition set_interrupted (b : bool) (x : crowd) : crowd :=
  Crowd (shared x) b (signalled x) (waiters x) (transit x) (threads x).
Definition set_signalled (b : bool) (x : crowd) : crowd :=
  Crowd (shared x) (task_interrupted_ x) b (waiters x) (transit x) (threads x).
Definition set_waiters (n : nat) (x : crowd) : crowd :=
  Crowd (shared x) (task_interrupted_ x) (signalled x) n (transit x) (threads x).
Definition set_transit (n : nat) (x : crowd) : crowd :=
  Crowd (shared x) (task_interrupted_ x) (signalled x) (waiters x) n (threads x).
Definition set_threads (f : gmap nat place) (x : crowd) : crowd :=
  Crowd (shared x) (task_interrupted_ x) (signalled x) (waiters x) (transit x) f.
Definition at_place (t : nat) (p : place) (x : crowd) : crowd := set_threads (<[t := p]> (threads x)) x.
Definition leave (t : nat) (x : crowd) : crowd := set_threads (delete t (threads x)) x.

(** ** Waking *)

(** [maybe_unlock_and_signal_one]: whether there is a waiter; the signal follows. *)
Definition maybe_signal_one (x : crowd) : bool * crowd :=
  let x := set_signalled true x in
  if (0 <? waiters x)%nat then (true, set_transit (S (transit x)) x) else (false, x).
Definition interrupt_task (x : crowd) : crowd :=
  if negb (task_interrupted_ x) && task_ (shared x) then set_interrupted true x else x.
Definition wake_one_thread (x : crowd) : crowd :=
  let '(signalled_one, x) := maybe_signal_one x in if signalled_one : bool then x else interrupt_task x.

Definition release (p : place) : place := match p with Asleep _ => Asleep true | _ => p end.
Definition stop_all_threads (x : crowd) : crowd :=
  interrupt_task (set_threads (release <$> threads x) (set_signalled true (on_shared Scheduler.stop_all_threads x))).

(** [pthread_cond_signal] releases a thread that is blocked, if there is one. *)
Definition signal (t : nat) (x : crowd) : crowd :=
  let x := set_transit (Nat.pred (transit x)) x in
  match threads x !! t with Some (Asleep false) => at_place t (Asleep true) x | _ => x end.

(** ** The sections under the mutex *)

Definition more (q : list item) : bool := match q with [] => false | _ => true end.
Definition pop (rest : list item) (x : crowd) : crowd := on_shared (set_queue rest) x.

(** From [o = op_queue_.front()] after the task to the handler. *)
Definition take_front (k : kind) (t : nat) (x : crowd) : crowd :=
  match op_queue_ (shared x) with
  | [] => leave t x
  | TaskOperation :: _ => leave t (maybe_signal_one x).2
  | UserOperation o :: rest =>
      let x := at_place t (Handling k (ThreadInfo 0 [])) (pop rest x) in
      if more rest then wake_one_thread x else x
  end.

(** [do_poll_one] up to the task or the handler. *)
Definition begin_poll (k : kind) (t : nat) (x : crowd) : crowd :=
  if stopped_ (shared x) then leave t x
  else
    match op_queue_ (shared x) with
    | TaskOperation :: rest => at_place t (InTask k false) (pop rest x)
    | _ => take_front k t x
    end.

(** The task at the front of the queue in [do_wait_one]. *)
Definition enter_task (usec : Z) (t : nat) (rest : list item) (x : crowd) : crowd :=
  let x := set_interrupted (more rest || (usec =? 0)) (pop rest x) in
  let x := if more rest then (maybe_signal_one x).2 else x in
  at_place t (InTask OneShot (negb (more rest || (usec =? 0)))) x.
(** [do_wait_one], up to the sleep, the task or the handler. *)
Definition begin_wait (usec : Z) (t : nat) (x : crowd) : crowd :=
  if stopped_ (shared x) then leave t x
  else
    match op_queue_ (shared x) with
    | [] => at_place t (Asleep false) (set_waiters (S (waiters x)) (set_signalled false x))
    | TaskOperation :: rest => enter_task usec t rest x
    | _ => take_front OneShot t x
    end.
(** [do_wait_one] from the sleep on: it waits once, and does not look at [stopped_]. *)
Definition wake_up (t : nat) (x : crowd) : crowd :=
  let x := set_waiters (Nat.pred (waiters x)) x in
  match op_queue_ (shared x) with
  | TaskOperation :: rest => enter_task 0 t rest x
  | _ => take_front OneShot t x
  end.

(** [task_cleanup] with the operations that became ready, and on. *)
Definition end_task (k : kind) (t : nat) (ops : list Op) (x : crowd) : crowd :=
  take_front k t (on_shared (fun s => push [TaskOperation] (push (UserOperation <$> ops) s)) (set_interrupted true x)).

(** [work_cleanup]: the count, which may leave the scheduler to be stopped; then the private
    queue, and back to the caller or round.  A handler that throws leaves [poll], too. *)
Definition end_handler (k : kind) (t : nat) (info : thread_info) (x : crowd) : crowd :=
  let p := private_outstanding_work info in
  let x := on_shared (add_work (if 1 <? p then p - 1 else if p <? 1 then -1 else 0)) x in
  if p <? 1 then at_place t (Ending k info (outstanding_work_ (shared x) =? 0)) x else at_place t (Ending k info false) x.
Definition cleanup (k : kind) (t : nat) (info : thread_info) (throws : bool) (x : crowd) : crowd :=
  let x := on_shared (push (UserOperation <$> private_op_queue info)) x in
  if bool_decide (k = OneShot) || throws then leave t x else at_place t Between x.

(** What a handler does, or a thread outside. *)
Definition post_shared (os : list Op) (x : crowd) : crowd := wake_one_thread (on_shared (push (UserOperation <$> os)) x).
Definition post_private (o : Op) (info : thread_info) : thread_info :=
  ThreadInfo (private_outstanding_work info + 1) (private_op_queue info ++ [o]).
Definition compensate (info : thread_info) : thread_info :=
  ThreadInfo (private_outstanding_work info + 1) (private_op_queue info).

(** ** The steps

    [work] is counted by anyone; a call that finds no outstanding work stops the scheduler
    and returns, which is [step_stop].  With [tidy], a thread that leaves after one handler
    has nothing in its private queue. *)
Inductive step (tidy : bool) : crowd -> crowd -> Prop :=
  | step_poll k t x : threads x !! t = None -> step tidy x (begin_poll k t x)
  | step_round t x : threads x !! t = Some Between -> step tidy x (begin_poll Round t x)
  | step_wait usec t x : threads x !! t = None -> step tidy x (begin_wait usec t x)
  | step_wake t released x : threads x !! t = Some (Asleep released) -> step tidy x (wake_up t x)
  | step_signal t x : (0 < transit x)%nat ->
      threads x !! t = Some (Asleep false) \/ (forall t', threads x !! t' <> Some (Asleep false)) -> step tidy x (signal t x)
  | step_task k b t ops x : threads x !! t = Some (InTask k b) -> step tidy x (end_task k t ops x)
  | step_handler k t info x : threads x !! t = Some (Handling k info) -> step tidy x (end_handler k t info x)
  | step_last k t info x : threads x !! t = Some (Ending k info true) ->
      step tidy x (at_place t (Ending k info false) (stop_all_threads x))
  | step_cleanup k t info throws x : threads x !! t = Some (Ending k info false) ->
      (k = Round /\ throws = false) \/ private_op_queue info = [] \/ tidy = false -> step tidy x (cleanup k t info throws x)
  | step_post os x : os <> [] -> step tidy x (post_shared os x)
  | step_private k t o info x : threads x !! t = Some (Handling k info) ->
      step tidy x (at_place t (Handling k (post_private o info)) x)
  | step_compensate k t info x : threads x !! t = Some (Handling k info) ->
      step tidy x (at_place t (Handling k (compensate info)) x)
  | step_work n x : step tidy x (on_shared (add_work n) x)
  | step_stop x : step tidy x (stop_all_threads x)
  | step_restart x : step tidy x (on_shared (set_stopped false) x).

(** [init_task] has queued the marker; nobody is inside. *)
Definition start : crowd := Crowd (Scheduler [TaskOperation] 0 false false true) true false 0 0 ∅.

(** ** Who rests, and who is coming *)

Definition resting (interrupted : bool) (p : place) : bool :=
  match p with Asleep released => negb released | InTask _ b => b && negb interrupted | _ => false end.
(** The thread is going to look at the queue, without waiting for anybody. *)
Definition on_way (interrupted : bool) (p : place) : bool :=
  match p with Asleep released => released | InTask _ b => negb b || interrupted | Between => true | _ => false end.
Definition rests (t : nat) (x : crowd) : Prop := exists p, threads x !! t = Some p /\ resting (task_interrupted_ x) p = true.
Definition coming (x : crowd) : Prop :=
  ((0 < transit x)%nat /\ exists t r, threads x !! t = Some (Asleep r)) \/
  exists t p, threads x !! t = Some p /\ on_way (task_interrupted_ x) p = true.

Definition asleep (p : place) : Z := match p with Asleep _ => 1 | _ => 0 end.
Definition in_task (p : place) : Z := match p with InTask _ _ => 1 | _ => 0 end.

Record sane (x : crowd) : Prop := {
  sn_task : task_ (shared x) = true;
  sn_waiters : Z.of_nat (waiters x) = map_sum asleep (threads x);
  sn_marker : Z.of_nat (tasks (op_queue_ (shared x))) + map_sum in_task (threads x) = 1;
}.
Record crowd_ok (x : crowd) : Prop := {
  co_sane : sane x;
  co_quiet : stopped_ (shared x) = true -> forall t, ~ rests t x;
  co_baton : stopped_ (shared x) = false -> op_queue_ (shared x) <> [] -> forall t, rests t x -> coming x;
}.

(** *** Counting threads *)

Lemma sum_leave w t x : map_sum w (threads (leave t x)) = map_sum w (threads x) - match threads x !! t with Some p => w p | None => 0 end.
Proof.
  cbn. destruct (threads x !! t) as [p|] eqn:Ht; [rewrite (map_sum_delete w (threads x) t p Ht); lia|].
  rewrite delete_id by done. lia.
Qed.
Lemma sum_place w t p x : w Between = 0 -> map_sum w (threads (at_place t p x)) = map_sum w (threads (leave t x)) + w p.
Proof.
  intros Hw. rewrite sum_leave. cbn. rewrite (map_sum_insert w (threads x) t p Between Hw). destruct (threads x !! t); cbn; lia.
Qed.
Lemma sum_in (w : place -> Z) f t p : (forall p, 0 <= w p) -> f !! t = Some p -> w p <= map_sum w f.
Proof.
  intros Hw Ht. rewrite (map_sum_delete w f t p Ht). enough (0 <= map_sum w (delete t f)) by lia.
  unfold map_sum. apply (map_fold_weak_ind (fun n _ => 0 <= n)); [done|]. intros i a m n _ Hn. specialize (Hw a). lia.
Qed.
Lemma sum_some (w : place -> Z) f : 0 < map_sum w f -> exists t p, f !! t = Some p /\ w p <> 0.
Proof.
  intros Hpos. destruct (decide (map_Forall (fun _ p => w p = 0) f)) as [Hz|Hn].
  - rewrite map_sum_zero in Hpos; [lia|]. intros t p Ht. by apply (Hz t).
  - apply map_not_Forall in Hn; [|apply _]. destruct Hn as (t & p & Ht & Hp). by exists t, p.
Qed.
Lemma asleep_pos p : 0 <= asleep p.
Proof. by destruct p. Qed.
Lemma in_task_pos p : 0 <= in_task p.
Proof. by destruct p. Qed.

Lemma some_asleep x : sane x -> (0 < waiters x)%nat -> exists t r, threads x !! t = Some (Asleep r).
Proof.
  intros [_ Hw _] Hpos. destruct (sum_some asleep (threads x)) as (t & p & Ht & Hp); [lia|]. destruct p; try done. by exists t, released.
Qed.
Lemma none_asleep x t r : sane x -> waiters x = 0%nat -> threads x !! t <> Some (Asleep r).
Proof.
  intros [_ Hw _] H0 Ht. pose proof (sum_in asleep (threads x) t _ asleep_pos Ht) as Hle. cbn in Hle. lia.
Qed.
Lemma none_in_task x t k b : sane x -> (0 < tasks (op_queue_ (shared x)))%nat -> threads x !! t <> Some (InTask k b).
Proof.
  intros [_ _ Hm] H0 Ht. pose proof (sum_in in_task (threads x) t _ in_task_pos Ht) as Hle. cbn in Hle. lia.
Qed.

(** *** One thread moves *)

Definition inert (p : place) : Prop := match p with Handling _ _ | Ending _ _ _ => True | _ => False end.

Lemma sane_leave t x : sane x -> (forall p, threads x !! t = Some p -> asleep p = 0 /\ in_task p = 0) -> sane (leave t x).
Proof.
  intros [Ht Hw Hm] Hp. split; [done|..]; rewrite sum_leave; destruct (threads x !! t) as [p|]; cbn; try (destruct (Hp p eq_refl)); lia.
Qed.
Lemma sane_place t p x : sane (leave t x) -> asleep p = 0 -> in_task p = 0 -> sane (at_place t p x).
Proof. intros [Ht Hw Hm] Ha Hi. split; [done|..]; rewrite sum_place by done; cbn in *; lia. Qed.
Lemma maybe_signal_cases x :
  (0 < waiters x)%nat /\ maybe_signal_one x = (true, set_transit (S (transit x)) (set_signalled true x)) \/
  waiters x = 0%nat /\ maybe_signal_one x = (false, set_signalled true x).
Proof.
  unfold maybe_signal_one. change (waiters (set_signalled true x)) with (waiters x).
  destruct (Nat.ltb_spec 0 (waiters x)); [left|right]; split; done || lia.
Qed.
Lemma wake_cases x :
  (0 < waiters x)%nat /\ wake_one_thread x = set_transit (S (transit x)) (set_signalled true x) \/
  waiters x = 0%nat /\ wake_one_thread x = interrupt_task (set_signalled true x).
Proof. unfold wake_one_thread. destruct (maybe_signal_cases x) as [[Hw ->]|[Hw ->]]; auto. Qed.
Lemma interrupt_frame x : let x' := interrupt_task x in
  threads x' = threads x /\ shared x' = shared x /\ waiters x' = waiters x /\
  task_interrupted_ x' = task_interrupted_ x || task_ (shared x).
Proof. unfold interrupt_task. destruct (task_interrupted_ x) eqn:Hi, (task_ (shared x)) eqn:Ht; cbn; by rewrite ?Hi, ?Ht. Qed.
Lemma sane_frame x x' : threads x' = threads x -> shared x' = shared x -> waiters x' = waiters x -> sane x -> sane x'.
Proof. intros Ht Hs Hw []. split; by rewrite ?Ht, ?Hs, ?Hw. Qed.
Lemma wake_frame x : let x' := wake_one_thread x in
  threads x' = threads x /\ shared x' = shared x /\ waiters x' = waiters x /\
  (task_interrupted_ x = true -> task_interrupted_ x' = true).
Proof.
  destruct (wake_cases x) as [[_ ->]|[_ ->]]; [done|]. cbn zeta.
  destruct (interrupt_frame (set_signalled true x)) as (-> & -> & -> & ->). cbn. split_and!; [done..|]. by intros ->.
Qed.
Lemma sane_wake x : sane x -> sane (wake_one_thread x).
Proof. destruct (wake_frame x) as (? & ? & ? & _). by apply sane_frame. Qed.
Lemma resting_grows i i' p : (i = true -> i' = true) -> resting i' p = true -> resting i p = true.
Proof. intros Hi. destruct p as [|k []| | |], i, i'; cbn; done || discriminate (Hi eq_refl). Qed.
Lemma wake_rests t x : rests t (wake_one_thread x) -> rests t x.
Proof.
  destruct (wake_frame x) as (Ht & _ & _ & Hi). intros (p & Hp & Hr). rewrite Ht in Hp. exists p. split; [done|]. by eapply resting_grows.
Qed.
(** Nobody rests where nobody sleeps and the task is interrupted. *)
Lemma awake x t : sane x -> waiters x = 0%nat -> task_interrupted_ x = true -> ~ rests t x.
Proof.
  intros Hx Hw Hi (p & Hp & Hr). rewrite Hi in Hr. destruct p as [r|k b| | |]; cbn in Hr; [|by rewrite andb_false_r in Hr|done..].
  by apply (none_asleep x t r Hx Hw).
Qed.
(** Whoever is told to wake somebody has done so. *)
Lemma wake_attends t x : sane x -> rests t (wake_one_thread x) -> coming (wake_one_thread x).
Proof.
  intros Hx Hr. destruct (wake_cases x) as [[Hw Heq]|[Hw Heq]]; rewrite Heq in *.
  - left. split; [cbn; lia|]. by apply (some_asleep x).
  - exfalso. destruct (interrupt_frame (set_signalled true x)) as (Ht & Hs & Hw' & Hi).
    apply (awake (interrupt_task (set_signalled true x)) t); [by apply (sane_frame x)|by rewrite Hw'| |done].
    rewrite Hi. cbn. by rewrite (sn_task _ Hx), orb_true_r.
Qed.

Lemma rests_other t t' p x : rests t (at_place t' p x) -> t <> t' -> rests t (leave t' x).
Proof.
  intros (q & Hq & Hr) Hne. cbn in Hq. rewrite lookup_insert_ne in Hq by done. exists q. split; [|done].
  cbn. by rewrite lookup_delete_ne.
Qed.
Lemma rests_self t p x : rests t (at_place t p x) -> resting (task_interrupted_ x) p = true.
Proof. intros (q & Hq & Hr). cbn in Hq. rewrite lookup_insert_eq in Hq. by simplify_eq. Qed.
Lemma coming_self t p x : on_way (task_interrupted_ x) p = true -> coming (at_place t p x).
Proof. intros Hp. right. exists t, p. split; [apply lookup_insert_eq|done]. Qed.

Definition quiet (x : crowd) : Prop := stopped_ (shared x) = true -> forall t, ~ rests t x.

Lemma quiet_place t p x : quiet (leave t x) -> resting (task_interrupted_ x) p = false -> quiet (at_place t p x).
Proof.
  intros Hq Hp Hs t' Hr. destruct (decide (t' = t)) as [->|Hne].
  - apply rests_self in Hr. congruence.
  - by apply (Hq Hs t'), (rests_other t' t p).
Qed.
Lemma quiet_wake x : quiet x -> quiet (wake_one_thread x).
Proof. destruct (wake_frame x) as (_ & Hs & _ & _). intros Hq. unfold quiet. rewrite Hs. intros Hst t Hr. by apply (Hq Hst t), wake_rests. Qed.
Lemma quiet_leave t x : quiet x -> quiet (leave t x).
Proof.
  intros Hq Hs t' (p & Hp & Hr). apply (Hq Hs t'). exists p. split; [|done]. cbn in Hp. by apply lookup_delete_Some in Hp as [_ Hp].
Qed.

(** *** The sections under the mutex *)

Lemma take_front_ok k t x : sane (leave t x) -> quiet (leave t x) -> crowd_ok (take_front k t x).
Proof.
  intros Hx Hq. unfold take_front. destruct (op_queue_ (shared x)) as [|[|o] rest] eqn:Hqueue.
  - by split.
  - destruct (maybe_signal_cases x) as [[Hw ->]|[Hw ->]]; cbn [snd]; split; [|exact Hq| | |exact Hq|].
    + by apply (sane_frame (leave t x)).
    + intros _ _ t' _. left. split; [cbn; lia|]. by apply (some_asleep (leave t x)).
    + by apply (sane_frame (leave t x)).
    + intros _ _ t' (p & Hp & Hr). exfalso. cbn in Hp, Hr. destruct p as [r|k' b| | |]; [| |done..].
      * by apply (none_asleep (leave t x) t' r Hx).
      * apply (none_in_task (leave t x) t' k' b Hx); [|done]. cbn. rewrite Hqueue, tasks_cons_task. lia.
  - set (x1 := at_place _ _ _). assert (sane x1) as Hx1.
    { apply sane_place; [|done|done]. destruct Hx as [Ht Hw Hm]. split; [done|done|]. cbn in *. by rewrite Hqueue in Hm. }
    assert (quiet x1) as Hq1 by by apply quiet_place.
    destruct rest as [|i rest]; cbn [more].
    + by split.
    + split; [by apply sane_wake|by apply quiet_wake|]. intros _ _ t'. by apply wake_attends.
Qed.
Lemma begin_poll_ok k t x : sane (leave t x) -> quiet (leave t x) -> crowd_ok (begin_poll k t x).
Proof.
  intros Hx Hq. unfold begin_poll. destruct (stopped_ (shared x)) eqn:Hs; [split; [done|done|cbn; congruence]|].
  destruct (op_queue_ (shared x)) as [|[|o] rest] eqn:Hqueue; [by apply take_front_ok| |by apply take_front_ok].
  split.
  - destruct Hx as [Ht Hw Hm]. split; [done|..]; rewrite sum_place by done; cbn in *; [lia|].
    rewrite Hqueue, tasks_cons_task in Hm. lia.
  - intros Hs'. cbn in Hs'. congruence.
  - intros _ _ t' _. by apply coming_self.
Qed.
Lemma enter_task_ok usec t rest x : sane (leave t x) -> quiet (leave t x) -> op_queue_ (shared x) = TaskOperation :: rest ->
  (stopped_ (shared x) = true -> usec = 0) -> crowd_ok (enter_task usec t rest x).
Proof.
  intros Hx Hq Hqueue Husec. unfold enter_task.
  assert (forall t' k b, t' <> t -> threads x !! t' <> Some (InTask k b)) as Hnone.
  { intros t' k b Hne Ht'. apply (none_in_task (leave t x) t' k b Hx); [cbn; rewrite Hqueue, tasks_cons_task; lia|].
    cbn. by rewrite lookup_delete_ne. }
  set (b := more rest || (usec =? 0)). set (x1 := if more rest then _ else _).
  assert (shared x1 = shared (pop rest x) /\ task_interrupted_ x1 = b /\ waiters x1 = waiters x /\ threads x1 = threads x) as (Hsh & Hi & Hw & Hth).
  { unfold x1. destruct (more rest); [|done].
    destruct (maybe_signal_cases (set_interrupted b (pop rest x))) as [[_ ->]|[_ ->]]; done. }
  split.
  - destruct Hx as [Ht Hwt Hm]. split; [cbn; by rewrite Hsh|..]; rewrite sum_place by done; rewrite sum_leave in *; cbn in *.
    + rewrite Hw, Hth. lia.
    + rewrite Hsh, Hth. cbn. rewrite Hqueue, tasks_cons_task in Hm. lia.
  - intros Hs t' Hr. cbn in Hs. rewrite Hsh in Hs. cbn in Hs. destruct (decide (t' = t)) as [->|Hne].
    + apply rests_self in Hr. rewrite Hi in Hr. cbn in Hr. unfold b in Hr. rewrite (Husec Hs), Z.eqb_refl, orb_true_r in Hr. done.
    + apply (Hq Hs t'). destruct (rests_other _ _ _ _ Hr Hne) as (p & Hp & Hrp). cbn in Hp. rewrite Hth in Hp. exists p. split; [done|].
      apply lookup_delete_Some in Hp as [_ Hp]. destruct p as [r|k' b'| | |]; [done|by destruct (Hnone t' k' b' Hne)|done..].
  - intros _ Hne t' Hr. cbn in Hne. rewrite Hsh in Hne. cbn in Hne. apply coming_self. cbn. unfold b.
    destruct rest; [done|]. by rewrite negb_involutive.
Qed.
Lemma begin_wait_ok usec t x : sane (leave t x) -> quiet (leave t x) -> crowd_ok (begin_wait usec t x).
Proof.
  intros Hx Hq. unfold begin_wait. destruct (stopped_ (shared x)) eqn:Hs; [split; [done|done|cbn; congruence]|].
  destruct (op_queue_ (shared x)) as [|[|o] rest] eqn:Hqueue.
  - split; [|cbn; congruence|cbn; by rewrite Hqueue]. destruct Hx as [Ht Hw Hm].
    split; [done|..]; rewrite sum_place by done; rewrite sum_leave in *; cbn in *; lia.
  - apply enter_task_ok; [done..|congruence].
  - by apply take_front_ok.
Qed.
Lemma wake_up_ok t r x : crowd_ok x -> threads x !! t = Some (Asleep r) -> crowd_ok (wake_up t x).
Proof.
  intros [[Ht Hw Hm] Hq _] Hr. unfold wake_up. set (x1 := set_waiters _ x).
  assert (sane (leave t x1)) as Hx1.
  { pose proof (sum_in asleep (threads x) t _ asleep_pos Hr) as Hle. cbn in Hle.
    split; [done|..]; rewrite sum_leave; cbn; rewrite Hr; cbn; lia. }
  assert (quiet (leave t x1)) as Hq1 by by apply quiet_leave.
  change (op_queue_ (shared x)) with (op_queue_ (shared x1)).
  destruct (op_queue_ (shared x1)) as [|[|o] rest] eqn:Hqueue; [by apply take_front_ok|by apply enter_task_ok|by apply take_front_ok].
Qed.
Lemma end_task_ok k b t ops x : crowd_ok x -> threads x !! t = Some (InTask k b) -> crowd_ok (end_task k t ops x).
Proof.
  intros [[Ht Hw Hm] Hq _] Hr. unfold end_task. apply take_front_ok.
  - pose proof (sum_in in_task (threads x) t _ in_task_pos Hr) as Hle. cbn in Hle.
    split; [done|..]; rewrite sum_leave; cbn; rewrite Hr; cbn; [lia|].
    rewrite !tasks_app, tasks_users. change (tasks [TaskOperation]) with 1%nat. lia.
  - intros Hs t' (p & Hp & Hrp). apply (Hq Hs t'). cbn in Hp. apply lookup_delete_Some in Hp as [_ Hp]. exists p. split; [done|].
    by apply (resting_grows _ true).
Qed.

(** *** Steps that leave the others alone *)

(** Only the thread [t] moves. *)
Record aside (t : nat) (x x' : crowd) : Prop := {
  as_threads : forall t', t' <> t -> threads x' !! t' = threads x !! t';
  as_interrupted : task_interrupted_ x' = task_interrupted_ x;
  as_transit : transit x' = transit x;
  as_queue : op_queue_ (shared x') = op_queue_ (shared x);
  as_stopped : stopped_ (shared x') = stopped_ (shared x);
}.
Lemma aside_rests t x x' : aside t x x' -> (forall p, threads x' !! t = Some p -> inert p) -> forall t', rests t' x' -> rests t' x.
Proof.
  intros [Ht Hi _ _ _] Hp t' (p & Hp' & Hr). destruct (decide (t' = t)) as [->|Hne].
  - specialize (Hp p Hp'). by destruct p.
  - exists p. by rewrite <- Ht, <- Hi.
Qed.
Lemma aside_coming t p x x' : aside t x x' -> threads x !! t = Some p -> inert p -> coming x -> coming x'.
Proof.
  intros [Ht Hi Htr _ _] Hp Hin [[Hpos (t' & r & Hr)]|(t' & q & Hq & Hw)]; [left|right].
  - rewrite Htr. split; [done|]. exists t', r. rewrite Ht; [done|]. intros ->. by simplify_eq.
  - exists t', q. rewrite Ht, Hi; [done|]. intros ->. assert (p = q) as -> by congruence. by destruct q.
Qed.
Lemma aside_ok t p x x' : crowd_ok x -> aside t x x' -> threads x !! t = Some p -> inert p ->
  (forall p', threads x' !! t = Some p' -> inert p') -> sane x' -> crowd_ok x'.
Proof.
  intros [_ Hq Hb] Ha Hp Hin Hp' Hx'. split; [done| |]; rewrite (as_stopped _ _ _ Ha).
  - intros Hs t' Hr. apply (Hq Hs t'). by apply (aside_rests t x x').
  - rewrite (as_queue _ _ _ Ha). intros Hs Hne t' Hr. apply (aside_coming t p x x' Ha Hp Hin), (Hb Hs Hne t').
    by apply (aside_rests t x x').
Qed.
Lemma inert_weight p : inert p -> asleep p = 0 /\ in_task p = 0.
Proof. by destruct p. Qed.
Lemma sane_shared f x : sane x -> task_ (f (shared x)) = task_ (shared x) ->
  tasks (op_queue_ (f (shared x))) = tasks (op_queue_ (shared x)) -> sane (on_shared f x).
Proof. intros [Ht Hw Hm] Hf Hq. split; cbn; by rewrite ?Hf, ?Hq. Qed.
Lemma sane_inert_leave t p x : sane x -> threads x !! t = Some p -> inert p -> sane (leave t x).
Proof. intros Hx Hp Hin. apply sane_leave; [done|]. intros q Hq. simplify_eq. by apply inert_weight. Qed.

(** A handler moves on; what it changes of the scheduler is the count of work. *)
Lemma move_ok t p p' n x : crowd_ok x -> threads x !! t = Some p -> inert p -> inert p' ->
  crowd_ok (at_place t p' (on_shared (add_work n) x)).
Proof.
  intros Hx Hp Hin Hin'. apply (aside_ok t p x); [done| |done|done| |].
  - split; [|done..]. intros t' Hne. cbn. by rewrite lookup_insert_ne.
  - intros p''. cbn. rewrite lookup_insert_eq. by intros [= <-].
  - apply sane_place; [|by apply inert_weight..]. apply (sane_shared (add_work n) (leave t x)); [|done..].
    by apply (sane_inert_leave t p); [apply Hx|..].
Qed.
Lemma stay_ok t p p' x : crowd_ok x -> threads x !! t = Some p -> inert p -> inert p' -> crowd_ok (at_place t p' x).
Proof.
  intros Hx Hp Hin Hin'. replace (at_place t p' x) with (at_place t p' (on_shared (add_work 0) x)); [by apply (move_ok t p)|].
  unfold at_place, set_threads, on_shared, add_work. cbn. rewrite Z.add_0_r. by destruct x as [[] ? ? ? ? ?].
Qed.
Lemma end_handler_ok k t info x : crowd_ok x -> threads x !! t = Some (Handling k info) -> crowd_ok (end_handler k t info x).
Proof. intros Hx Ht. unfold end_handler. destruct (_ <? 1); by apply (move_ok t (Handling k info)). Qed.

Lemma cleanup_ok k t info b throws x : crowd_ok x -> threads x !! t = Some (Ending k info b) ->
  (k = Round /\ throws = false) \/ private_op_queue info = [] -> crowd_ok (cleanup k t info throws x).
Proof.
  intros Hx Ht Hcase. unfold cleanup. set (x1 := on_shared _ x).
  assert (sane x1) as Hx1 by (apply sane_shared; [apply Hx|done|cbn; rewrite tasks_app, tasks_users; lia]).
  assert (sane (leave t x1)) as Hl by by apply (sane_inert_leave t (Ending k info b)).
  destruct (bool_decide (k = OneShot) || throws) eqn:Hout.
  - assert (private_op_queue info = []) as Hp.
    { destruct Hcase as [[-> ->]|Hp]; [done|exact Hp]. }
    apply (aside_ok t (Ending k info b) x); [done| |done|done| |done].
    + split; cbn; [|done|done|by rewrite Hp, app_nil_r|done]. intros t' Hne. by rewrite lookup_delete_ne.
    + intros p'. cbn. by rewrite lookup_delete_eq.
  - split; [by apply sane_place| |intros _ _ t' _; by apply coming_self].
    apply quiet_place; [|done]. apply quiet_leave. intros Hs t' (p & Hr). apply (co_quiet x Hx Hs t'). by exists p.
Qed.

(** *** Steps for everybody *)

Lemma release_sum w f : (forall p, w (release p) = w p) -> map_sum w (release <$> f) = map_sum w f.
Proof.
  intros Hw. unfold map_sum. rewrite map_fold_fmap, !map_fold_foldr. induction (map_to_list f) as [|[i p] l IH]; [done|].
  cbn. by rewrite Hw, <- IH.
Qed.
Lemma stop_all_ok x : crowd_ok x -> crowd_ok (stop_all_threads x).
Proof.
  intros [[Ht Hw Hm] _ _]. unfold stop_all_threads. set (x1 := set_threads _ _).
  destruct (interrupt_frame x1) as (Hth & Hsh & Hwt & Hi).
  assert (sane x1) as Hx1.
  { split; [done|..]; cbn; rewrite release_sum; try done; by intros []. }
  split; [by apply (sane_frame x1)| |rewrite Hsh; done].
  intros _ t (p & Hp & Hr). rewrite Hth in Hp. rewrite Hi in Hr. cbn in Hp, Hr. rewrite Ht, orb_true_r in Hr.
  apply lookup_fmap_Some in Hp as (q & <- & _). destruct q as [|k []| | |]; done.
Qed.
Lemma restart_crowd_ok x : crowd_ok x -> crowd_ok (on_shared (set_stopped false) x).
Proof.
  intros [Hx Hq Hb]. split; [by apply sane_shared|done|]. intros _ Hne t Hr. destruct (stopped_ (shared x)) eqn:Hs.
  - by destruct (Hq eq_refl t).
  - by apply (Hb eq_refl Hne t).
Qed.
Lemma work_ok n x : crowd_ok x -> crowd_ok (on_shared (add_work n) x).
Proof. intros [Hx Hq Hb]. split; [by apply sane_shared|done..]. Qed.
Lemma post_ok os x : crowd_ok x -> crowd_ok (post_shared os x).
Proof.
  intros [Hx Hq _]. unfold post_shared. set (x1 := on_shared _ x).
  assert (sane x1) as Hx1 by (apply sane_shared; [done|done|cbn; rewrite tasks_app, tasks_users; lia]).
  split; [by apply sane_wake|by apply quiet_wake|]. intros _ _ t. by apply wake_attends.
Qed.
Lemma signal_ok t x : crowd_ok x -> threads x !! t = Some (Asleep false) \/ (forall t', threads x !! t' <> Some (Asleep false)) ->
  crowd_ok (signal t x).
Proof.
  intros [Hx Hq Hb] [Ht|Hnone]; unfold signal; cbn.
  - rewrite Ht. split; [| |intros _ _ t' _; by apply coming_self].
    + destruct Hx as [Hta Hw Hm]. split; [done|..]; rewrite sum_place by done; rewrite sum_leave; cbn; rewrite Ht; cbn; lia.
    + apply quiet_place; [|done]. by apply quiet_leave.
  - set (x1 := set_transit _ x). assert (crowd_ok x1) as Hx1.
    { split; [by apply (sane_frame x)|done|]. intros Hs Hne t' Hr. destruct (Hb Hs Hne t' Hr) as [[_ (t1 & r & H1)]|Hway]; [|by right].
      right. exists t1, (Asleep r). split; [done|]. destruct r; [done|]. by destruct (Hnone t1). }
    destruct (threads x !! t) as [[[]| | | |]|] eqn:Ht; try exact Hx1. by destruct (Hnone t).
Qed.

Lemma outside_sane t x : sane x -> threads x !! t = None -> sane (leave t x).
Proof. intros Hx Ht. apply sane_leave; [done|]. intros p. by rewrite Ht. Qed.
Lemma step_crowd_ok x x' : step true x x' -> crowd_ok x -> crowd_ok x'.
Proof.
  intros Hstep Hx. destruct Hstep.
  - apply begin_poll_ok; [by apply outside_sane; [apply Hx|]|exact (quiet_leave t x (co_quiet _ Hx))].
  - apply begin_poll_ok; [|exact (quiet_leave t x (co_quiet _ Hx))]. apply sane_leave; [apply Hx|]. intros p Hp. by simplify_eq.
  - apply begin_wait_ok; [by apply outside_sane; [apply Hx|]|exact (quiet_leave t x (co_quiet _ Hx))].
  - by apply (wake_up_ok t released).
  - by apply signal_ok.
  - by apply (end_task_ok k b).
  - by apply end_handler_ok.
  - apply (stay_ok t (Ending k info true)); [by apply stop_all_ok| |done..].
    unfold stop_all_threads. destruct (interrupt_frame (set_threads (release <$> threads x)
      (set_signalled true (on_shared Scheduler.stop_all_threads x)))) as (-> & _). cbn. by rewrite lookup_fmap, H.
  - apply (cleanup_ok k t info false); [done..|]. destruct H0 as [?|[?|?]]; [by left|by right|done].
  - by apply post_ok.
  - by apply (stay_ok t (Handling k info)).
  - by apply (stay_ok t (Handling k info)).
  - by apply work_ok.
  - by apply stop_all_ok.
  - by apply restart_crowd_ok.
Qed.
Lemma start_crowd_ok : crowd_ok start.
Proof. split; [by split|done|]. intros _ _ t (p & Hp & _). change (threads start) with (∅ : gmap nat place) in Hp. by rewrite lookup_empty in Hp. Qed.
Lemma reachable_crowd_ok x : rtc (step true) start x -> crowd_ok x.
Proof.
  intros Hx. generalize start_crowd_ok. generalize dependent start. intros x0 Hx. induction Hx as [|x y z Hxy _ IH]; [done|].
  intros Hok. by eapply IH, step_crowd_ok.
Qed.

(** C14: however many threads poll and wait on one [io_context], and however the mutex, the
    signals and the interruptions interleave, provided that a thread that leaves the loop
    after one handler ([poll_one], [wait_one], or [poll] when the handler throws) leaves
    nothing in its private queue - that handler posted no continuation: while the loop is
    not stopped and an operation is queued, a thread that sleeps on the event or blocks in
    the reactor is never left alone - a signal is under way to a sleeper, or another
    thread is on its way to the queue; once the loop is stopped nobody sleeps or blocks.
    The marker of the task is in the queue or with exactly one thread. Handlers run by
    [poll] may post what they like. Without the proviso the promise fails
    ([one_shot_strands]). *)
Theorem nobody_sleeps_over_work x : rtc (step true) start x ->
  (forall t, rests t x -> stopped_ (shared x) = false /\ (op_queue_ (shared x) <> [] -> coming x)) /\
  Z.of_nat (tasks (op_queue_ (shared x))) + map_sum in_task (threads x) = 1.
Proof.
  intros [[_ _ Hm] Hq Hb]%reachable_crowd_ok. split; [|done]. intros t Hr.
  destruct (stopped_ (shared x)) eqn:Hs; [by destruct (Hq eq_refl t)|]. split; [done|]. intros Hne. by apply (Hb eq_refl Hne t).
Qed.

(** *** One handler and its continuation *)

Section stranded.
  Context (o1 o2 : Op).

(** [o1] is posted and [poll_one] takes it; another thread waits in the task, which is
    interrupted no more; [o1] posts its continuation [o2]. *)
Definition poller : crowd := end_task OneShot 0 [] (begin_poll OneShot 0 (post_shared [o1] (on_shared (add_work 1) start))).
Definition blocked : crowd := begin_wait 1000000 1 poller.
Definition stranded : crowd :=
  cleanup OneShot 0 (post_private o2 (ThreadInfo 0 [])) false
    (end_handler OneShot 0 (post_private o2 (ThreadInfo 0 []))
      (at_place 0 (Handling OneShot (post_private o2 (ThreadInfo 0 []))) blocked)).

Lemma stranded_reachable : rtc (step false) start stranded.
Proof.
  unfold stranded, blocked, poller.
  eapply rtc_l; [apply (step_work _ 1)|]. eapply rtc_l; [by apply (step_post _ [o1])|].
  eapply rtc_l; [by apply (step_poll _ OneShot 0)|]. eapply rtc_l; [by apply (step_task _ OneShot false 0 [])|].
  eapply rtc_l; [by apply (step_wait _ 1000000 1)|]. eapply rtc_l; [by apply (step_private _ OneShot 0 o2 (ThreadInfo 0 []))|].
  eapply rtc_l; [by apply (step_handler _ OneShot 0 (post_private o2 (ThreadInfo 0 [])))|].
  eapply rtc_l; [apply (step_cleanup _ OneShot 0 (post_private o2 (ThreadInfo 0 [])) false)|]; [done|by do 2 right|].
  apply rtc_refl.
Qed.
End stranded.

(** Without that proviso the promise fails: a handler run by [poll_one] posts a
    continuation, [work_cleanup] puts it into the queue and wakes nobody, and [poll_one]
    returns.  A thread that blocks in the reactor stays there with work in the queue, no
    signal under way and nobody else coming. *)
Theorem one_shot_strands (o1 o2 : Op) : exists x t, rtc (step false) start x /\ rests t x /\ stopped_ (shared x) = false /\
  op_queue_ (shared x) = [UserOperation o2] /\ outstanding_work_ (shared x) = 1 /\ ~ coming x.
Proof.
  exists (stranded o1 o2), 1%nat. split; [apply stranded_reachable|].
  assert (threads (stranded o1 o2) = {[1%nat := InTask OneShot true]}) as Ht by reflexivity.
  split_and!; [by exists (InTask OneShot true)|done..|].
  intros [[Hpos _]|(t & p & Hp & Hw)]; [by apply Nat.lt_irrefl in Hpos|]. rewrite Ht in Hp. apply lookup_singleton_Some in Hp as [_ <-]. done.
Qed.
End threads.

(** One thread is in the task, one asleep, and an operation is posted from outside. *)
#[local] Instance lab_reactor : Reactor := {| Op := unit; Env := unit; task_run _ _ := ([], tt) |}.
Definition lab_op : Op := tt.
Definition lab_crowd : crowd := post_shared [lab_op] (begin_wait 1000 1 (begin_poll OneShot 0 start)).

Lemma nobody_sleeps_over_work_witness : rests 1 lab_crowd /\ op_queue_ (shared lab_crowd) = [UserOperation lab_op] /\ coming lab_crowd.
Proof.
  assert (rtc (step true) start lab_crowd) as Hx.
  { eapply rtc_l; [by apply (step_poll _ OneShot 0)|]. eapply rtc_l; [by apply (step_wait _ 1000 1)|].
    eapply rtc_l; [by apply (step_post _ [lab_op])|]. reflexivity. }
  assert (rests 1 lab_crowd) as Hr by by exists (Asleep false).
  destruct (nobody_sleeps_over_work lab_crowd Hx) as [Hall _]. destruct (Hall 1%nat Hr) as [_ Hwork].
  split_and!; [exact Hr|reflexivity|by apply Hwork].
Defined.
