(* ===== verification/TimerQueue.v ===== *)
(** * [asio::detail::timer_queue]: the timers of the io_context

    [safe_shutdown] bounds the TLS shutdown by a [steady_timer]; the reactor keeps its
    timers in this queue ([include/asio/detail/timer_queue.hpp]): a binary heap of expiry
    times in a vector, a doubly linked list of the active timers, and in each timer the
    operations that wait on it and its place in the heap.  Timers are addresses; their
    data are in a map from addresses.  Times are integers; a [steady_timer] has no
    infinite time. *)
From S2P Require Import Prelude.
Open Scope nat_scope.

Record wait_op := WaitOp { op_id : nat; op_ec : error_code; cancellation_key_ : nat }.

Record per_timer_data := PerTimerData {
  op_queue_ : list wait_op;
  heap_index_ : Z;                   (** [no_index] outside the heap *)
  next_ : option nat;
  prev_ : option nat;
}.

Definition no_index : Z := size_max.
Definition new_timer : per_timer_data := PerTimerData [] no_index None None.

Record timer_queue := TimerQueue {
  timers_ : option nat;
  heap_ : list (Z * nat);            (** [heap_entry]: time and timer *)
  data : gmap nat per_timer_data;
}.

Definition new_timer_queue : timer_queue := TimerQueue None [] ∅.

Definition timer (q : timer_queue) (t : nat) : per_timer_data := default new_timer (data q !! t).

Definition set_ops (os : list wait_op) (d : per_timer_data) : per_timer_data :=
  PerTimerData os (heap_index_ d) (next_ d) (prev_ d).
Definition set_index (i : Z) (d : per_timer_data) : per_timer_data :=
  PerTimerData (op_queue_ d) i (next_ d) (prev_ d).
Definition set_next (n : option nat) (d : per_timer_data) : per_timer_data :=
  PerTimerData (op_queue_ d) (heap_index_ d) n (prev_ d).
Definition set_prev (p : option nat) (d : per_timer_data) : per_timer_data :=
  PerTimerData (op_queue_ d) (heap_index_ d) (next_ d) p.

Definition on_timer (t : nat) (f : per_timer_data -> per_timer_data) (q : timer_queue) : timer_queue :=
  TimerQueue (timers_ q) (heap_ q) (<[t := f (timer q t)]> (data q)).
Definition set_heap (h : list (Z * nat)) (q : timer_queue) : timer_queue := TimerQueue (timers_ q) h (data q).
Definition set_timers (t : option nat) (q : timer_queue) : timer_queue := TimerQueue t (heap_ q) (data q).

(** ** The heap *)

Definition parent (i : nat) : nat := (i - 1) / 2.
Definition time_at (q : timer_queue) (i : nat) : Z := default 0%Z (fst <$> heap_ q !! i).
Definition less (q : timer_queue) (i j : nat) : bool := (time_at q i <? time_at q j)%Z.

Definition swap_heap (i j : nat) (q : timer_queue) : timer_queue :=
  match heap_ q !! i, heap_ q !! j with
  | Some a, Some b =>
      let q := set_heap (<[j := a]> (<[i := b]> (heap_ q))) q in
      on_timer a.2 (set_index (Z.of_nat j)) (on_timer b.2 (set_index (Z.of_nat i)) q)
  | _, _ => q
  end.

(** The loops; the fuel is the index, and the size of the heap. *)
Fixpoint up_heap (fuel index : nat) (q : timer_queue) : timer_queue :=
  match fuel with
  | O => q
  | S fuel =>
      if (0 <? index) && less q index (parent index) then
        up_heap fuel (parent index) (swap_heap index (parent index) q)
      else q
  end.

Fixpoint down_heap (fuel index : nat) (q : timer_queue) : timer_queue :=
  match fuel with
  | O => q
  | S fuel =>
      let child := index * 2 + 1 in
      if child <? length (heap_ q) then
        let min_child :=
          if (child + 1 =? length (heap_ q)) || less q child (child + 1) then child else child + 1 in
        if less q index min_child then q
        else down_heap fuel min_child (swap_heap index min_child q)
      else q
  end.

Definition pop_back (q : timer_queue) : timer_queue := set_heap (take (length (heap_ q) - 1) (heap_ q)) q.

(** ** The list of active timers *)

Definition is_active (t : nat) (q : timer_queue) : bool :=
  match prev_ (timer q t) with Some _ => true | None => bool_decide (timers_ q = Some t) end.

Definition link_front (t : nat) (q : timer_queue) : timer_queue :=
  let q := on_timer t (fun d => set_prev None (set_next (timers_ q) d)) q in
  let q := match timers_ q with Some h => on_timer h (set_prev (Some t)) q | None => q end in
  set_timers (Some t) q.

Definition unlink (t : nat) (q : timer_queue) : timer_queue :=
  let q := if bool_decide (timers_ q = Some t) then set_timers (next_ (timer q t)) q else q in
  let q := match prev_ (timer q t) with
           | Some p => on_timer p (set_next (next_ (timer q t))) q
           | None => q
           end in
  let q := match next_ (timer q t) with
           | Some n => on_timer n (set_prev (prev_ (timer q t))) q
           | None => q
           end in
  on_timer t (fun d => set_prev None (set_next None d)) q.

(** ** The operations *)

(** The heap part of [remove_timer]. *)
Definition leave_heap (t : nat) (q : timer_queue) : timer_queue :=
  let index := heap_index_ (timer q t) in
  if (index <? Z.of_nat (length (heap_ q)))%Z then
    let i := Z.to_nat index in
    if i =? length (heap_ q) - 1 then pop_back (on_timer t (set_index no_index) q)
    else
      let q := swap_heap i (length (heap_ q) - 1) q in
      let q := pop_back (on_timer t (set_index no_index) q) in
      if (0 <? i) && less q i (parent i) then up_heap (S i) i q else down_heap (length (heap_ q)) i q
  else q.

Definition remove_timer (t : nat) (q : timer_queue) : timer_queue := unlink t (leave_heap t q).

(** The part of [enqueue_timer] for a timer that is not active. *)
Definition activate (time : Z) (t : nat) (q : timer_queue) : timer_queue :=
  let q := set_heap (heap_ q ++ [(time, t)]) (on_timer t (set_index (Z.of_nat (length (heap_ q)))) q) in
  link_front t (up_heap (length (heap_ q)) (length (heap_ q) - 1) q).

Definition empty (q : timer_queue) : bool := bool_decide (timers_ q = None).

(** Whether the reactor has to be interrupted: [op] is the first of the queue when it is
    the only one. *)
Definition enqueue_timer (time : Z) (t : nat) (op : wait_op) (q : timer_queue) : bool * timer_queue :=
  let q :=
    if is_active t q then q
    else activate time t q in
  let q := on_timer t (fun d => set_ops (op_queue_ d ++ [op]) d) q in
  ((heap_index_ (timer q t) =? 0)%Z && bool_decide (length (op_queue_ (timer q t)) = 1), q).

Definition finish (e : error_code) (op : wait_op) : wait_op := WaitOp (op_id op) e (cancellation_key_ op).

(** [get_ready_timers] at time [now]; the fuel is the size of the heap. *)
Fixpoint ready_loop (fuel : nat) (now : Z) (ops : list wait_op) (q : timer_queue) : list wait_op * timer_queue :=
  match fuel with
  | O => (ops, q)
  | S fuel =>
      match heap_ q with
      | [] => (ops, q)
      | (time, t) :: _ =>
          if (now <? time)%Z then (ops, q)
          else
            let ops := ops ++ (finish None <$> op_queue_ (timer q t)) in
            ready_loop fuel now ops (remove_timer t (on_timer t (set_ops []) q))
      end
  end.
Definition get_ready_timers (now : Z) (q : timer_queue) : list wait_op * timer_queue :=
  ready_loop (length (heap_ q)) now [] q.

(** The loop of [get_all_timers], which leaves the places in the heap as they are; the
    fuel is the number of active timers, each of which is in the heap. *)
Fixpoint all_loop (fuel : nat) (ops : list wait_op) (q : timer_queue) : list wait_op * timer_queue :=
  match fuel with
  | O => (ops, q)
  | S fuel =>
      match timers_ q with
      | None => (ops, q)
      | Some t =>
          let q := set_timers (next_ (timer q t)) q in
          let ops := ops ++ op_queue_ (timer q t) in
          all_loop fuel ops (on_timer t (fun d => set_prev None (set_next None (set_ops [] d))) q)
      end
  end.
Definition get_all_timers (q : timer_queue) : list wait_op * timer_queue :=
  let '(ops, q) := all_loop (length (heap_ q)) [] q in (ops, set_heap [] q).

(** [cancel_timer], of at most [max_cancelled] operations. *)
Definition cancel_timer (t max_cancelled : nat) (q : timer_queue) : list wait_op * timer_queue :=
  if is_active t q then
    let os := op_queue_ (timer q t) in
    let q := on_timer t (set_ops (drop max_cancelled os)) q in
    (finish (Some operation_aborted) <$> take max_cancelled os,
     match op_queue_ (timer q t) with [] => remove_timer t q | _ => q end)
  else ([], q).

Definition cancel_timer_by_key (t key : nat) (q : timer_queue) : list wait_op * timer_queue :=
  if is_active t q then
    let os := op_queue_ (timer q t) in
    let q := on_timer t (set_ops (filter (fun op => cancellation_key_ op <> key) os)) q in
    (finish (Some operation_aborted) <$> filter (fun op => cancellation_key_ op = key) os,
     match op_queue_ (timer q t) with [] => remove_timer t q | _ => q end)
  else ([], q).

(** [move_timer]: the operations and the place of [source] become those of [target], an
    empty timer. *)
Definition move_timer (target source : nat) (q : timer_queue) : timer_queue :=
  let q := on_timer target (fun d => set_ops (op_queue_ d ++ op_queue_ (timer q source)) d) q in
  let q := on_timer source (set_ops []) q in
  let q := on_timer target (set_index (heap_index_ (timer q source))) q in
  let q := on_timer source (set_index no_index) q in
  let index := heap_index_ (timer q target) in
  let q := if (index <? Z.of_nat (length (heap_ q)))%Z
           then set_heap (alter (fun e => (e.1, target)) (Z.to_nat index) (heap_ q)) q else q in
  let q := if bool_decide (timers_ q = Some source) then set_timers (Some target) q else q in
  let q := match prev_ (timer q source) with Some p => on_timer p (set_next (Some target)) q | None => q end in
  let q := match next_ (timer q source) with Some n => on_timer n (set_prev (Some target)) q | None => q end in
  let q := on_timer target (set_next (next_ (timer q source))) q in
  let q := on_timer target (set_prev (prev_ (timer q source))) q in
  on_timer source (fun d => set_prev None (set_next None d)) q.

(** ** Times: [detail::chrono_time_traits] for [std::chrono::steady_clock] *)

Definition time_max : Z := 2 ^ 63 - 1.
Definition time_min : Z := - 2 ^ 63.
(** A result as 64 bits hold it. *)
Definition wrap_time (x : Z) : Z := (x + 2 ^ 63) `mod` 2 ^ 64 - 2 ^ 63.
Definition add (t d : Z) : Z :=
  if (0 <=? t)%Z then if (wrap_time (time_max - t) <? d)%Z then time_max else wrap_time (t + d)
  else if (d <? wrap_time (- wrap_time (t - time_min)))%Z then time_min else wrap_time (t + d).
Definition subtract (t1 t2 : Z) : Z :=
  if (0 <=? t1)%Z then
    if (0 <=? t2)%Z then wrap_time (t1 - t2)
    else if (t2 =? time_min)%Z then time_max
    else if (wrap_time (time_max - t1) <? wrap_time (0 - t2))%Z then time_max
    else wrap_time (t1 - t2)
  else
    if (t2 <? 0)%Z then wrap_time (t1 - t2)
    else if (t1 =? time_min)%Z then time_min
    else if (wrap_time (time_max - t2) <? wrap_time (0 - t1))%Z then time_min
    else wrap_time (- wrap_time (t2 - t1)).

(** [wait_duration_usec] and [wait_duration_msec] at time [now], in nanoseconds. *)
Definition to_unit (unit d max_duration : Z) : Z :=
  if (d <=? 0)%Z then 0%Z
  else
    let n := (d / unit)%Z in
    if (n =? 0)%Z then 1%Z else if (max_duration <? n)%Z then max_duration else n.
Definition wait_duration (unit now max_duration : Z) (q : timer_queue) : Z :=
  match heap_ q with
  | [] => max_duration
  | (time, _) :: _ => to_unit unit (subtract time now) max_duration
  end.

Definition saturated (x : Z) : Z := Z.max time_min (Z.min time_max x).
Definition in_time (x : Z) : Prop := (time_min <= x <= time_max)%Z.
Lemma wrap_time_id x : in_time x -> wrap_time x = x.
Proof. unfold in_time, time_min, time_max, wrap_time. intros Hx. rewrite Z.mod_small by lia. lia. Qed.
Ltac saturate := unfold saturated, in_time, time_min, time_max in *; lia.
Lemma add_saturates t d : in_time t -> in_time d -> add t d = saturated (t + d).
Proof.
  intros Ht Hd. unfold add. destruct (Z.leb_spec 0 t).
  - rewrite wrap_time_id by saturate. destruct (Z.ltb_spec (time_max - t) d); [saturate|]. rewrite wrap_time_id; saturate.
  - rewrite (wrap_time_id (t - time_min)), wrap_time_id by saturate.
    destruct (Z.ltb_spec d (- (t - time_min))); [saturate|]. rewrite wrap_time_id; saturate.
Qed.
Lemma subtract_saturates t1 t2 : in_time t1 -> in_time t2 -> subtract t1 t2 = saturated (t1 - t2).
Proof.
  intros H1 H2. unfold subtract. destruct (Z.leb_spec 0 t1), (Z.leb_spec 0 t2), (Z.ltb_spec t2 0); try lia.
  - rewrite wrap_time_id; saturate.
  - destruct (Z.eqb_spec t2 time_min); [saturate|]. rewrite !(wrap_time_id (time_max - t1)), !(wrap_time_id (0 - t2)) by saturate.
    destruct (Z.ltb_spec (time_max - t1) (0 - t2)); [saturate|]. rewrite wrap_time_id; saturate.
  - destruct (Z.eqb_spec t1 time_min); [saturate|]. rewrite !(wrap_time_id (time_max - t2)), !(wrap_time_id (0 - t1)) by saturate.
    destruct (Z.ltb_spec (time_max - t2) (0 - t1)); [saturate|]. rewrite (wrap_time_id (t2 - t1)), wrap_time_id by saturate. saturate.
  - rewrite wrap_time_id; saturate.
Qed.

(** ** The order of the heap, as a function from positions to times *)

Lemma parent_spec i : 0 < i -> i = 2 * parent i + 1 \/ i = 2 * parent i + 2.
Proof.
  intros Hi. unfold parent. pose proof (Nat.div_mod (i - 1) 2 ltac:(lia)).
  pose proof (Nat.mod_upper_bound (i - 1) 2 ltac:(lia)). lia.
Qed.
Lemma parent_child k i : 0 < i -> parent i = k <-> i = 2 * k + 1 \/ i = 2 * k + 2.
Proof. intros Hi. pose proof (parent_spec i Hi). lia. Qed.
Lemma parent_lt i : 0 < i -> parent i < i.
Proof. intros Hi. pose proof (parent_spec i Hi). lia. Qed.

Section order.
Local Open Scope Z_scope.
Implicit Types (T : nat -> Z) (n i j k : nat).

Definition swapped (i j : nat) (T : nat -> Z) : nat -> Z := fun k =>
  if decide (k = i) then T j else if decide (k = j) then T i else T k.

Definition ordered n T : Prop := forall i, (0 < i < n)%nat -> T (parent i) <= T i.

(** Everything in order but at [k], which may be too early, resp. too late. *)
Definition early_at k n T : Prop :=
  (forall i, (0 < i < n)%nat -> i <> k -> T (parent i) <= T i) /\
  (forall i, (0 < i < n)%nat -> parent i = k -> (0 < k)%nat -> T (parent k) <= T i).
Definition late_at k n T : Prop :=
  (forall i, (0 < i < n)%nat -> parent i <> k -> T (parent i) <= T i) /\
  (forall i, (0 < i < n)%nat -> parent i = k -> (0 < k)%nat -> T (parent k) <= T i).

Ltac positions := unfold swapped; repeat case_decide; subst;
  repeat match goal with H : parent _ = _ |- _ => progress rewrite H in * end; try lia.

Lemma early_stop k n T : early_at k n T -> (k = 0%nat \/ T (parent k) <= T k) -> ordered n T.
Proof.
  intros [H1 _] H2 i Hi. destruct (decide (i = k)) as [->|Hne]; [|by apply H1].
  destruct H2; [lia|done].
Qed.

Lemma early_step k n T : (0 < k < n)%nat -> early_at k n T -> T k < T (parent k) ->
  early_at (parent k) n (swapped k (parent k) T).
Proof.
  intros Hk [H1 H2] Hlt. pose proof (parent_lt k ltac:(lia)) as Hp. split.
  - intros i Hi Hne. pose proof (parent_lt i ltac:(lia)). pose proof (H1 i Hi). pose proof (H2 i Hi). positions.
  - intros i Hi Hpar Hp0. pose proof (parent_lt i ltac:(lia)). pose proof (parent_lt (parent k) ltac:(lia)).
    pose proof (H1 i Hi). pose proof (H1 (parent k) ltac:(lia)). positions.
Qed.

Lemma late_stop k n T : late_at k n T ->
  (forall i, (0 < i < n)%nat -> parent i = k -> T k <= T i) -> ordered n T.
Proof.
  intros [H1 _] H2 i Hi. destruct (decide (parent i = k)) as [He|Hne]; [|by apply H1]. rewrite He. by apply H2.
Qed.

Lemma late_step k m n T : (0 < m < n)%nat -> parent m = k -> late_at k n T -> T m <= T k ->
  (forall i, (0 < i < n)%nat -> parent i = k -> T m <= T i) -> late_at m n (swapped k m T).
Proof.
  intros Hm Hpar [H1 H2] Hle Hmin. pose proof (parent_lt m ltac:(lia)) as Hp. rewrite Hpar in Hp. split.
  - intros i Hi Hne. pose proof (parent_lt i ltac:(lia)). pose proof (H1 i Hi). pose proof (Hmin i Hi).
    pose proof (H2 m Hm Hpar). positions.
  - intros i Hi Hpi _. pose proof (parent_lt i ltac:(lia)). pose proof (H1 i Hi). rewrite Hpar, Hpi in *. positions.
Qed.
End order.

(** ** The heap operations *)

Lemma timer_on_timer t f q t' :
  timer (on_timer t f q) t' = if decide (t = t') then f (timer q t) else timer q t'.
Proof.
  unfold timer at 1; cbn. destruct (decide (t = t')) as [<-|Hne].
  - by rewrite lookup_insert_eq.
  - by rewrite lookup_insert_ne.
Qed.

(** The entries know their places; so no timer is in the heap twice. *)
Definition indexed (q : timer_queue) : Prop := forall i e, heap_ q !! i = Some e -> heap_index_ (timer q e.2) = Z.of_nat i.

Lemma indexed_inj q i j a b : indexed q -> heap_ q !! i = Some a -> heap_ q !! j = Some b -> a.2 = b.2 -> i = j.
Proof. intros Hq Hi Hj He. apply Hq in Hi, Hj. rewrite He in Hi. lia. Qed.

(** What moving entries about leaves alone. *)
Record heap_frame (q q' : timer_queue) : Prop := {
  hf_timers : timers_ q' = timers_ q;
  hf_links : forall t, next_ (timer q' t) = next_ (timer q t) /\ prev_ (timer q' t) = prev_ (timer q t);
  hf_ops : forall t, op_queue_ (timer q' t) = op_queue_ (timer q t);
  hf_index : forall t, t ∉ (heap_ q).*2 -> heap_index_ (timer q' t) = heap_index_ (timer q t);
  hf_perm : heap_ q' ≡ₚ heap_ q;
}.

Lemma frame_refl q : heap_frame q q.
Proof. by split. Qed.
Lemma frame_trans q1 q2 q3 : heap_frame q1 q2 -> heap_frame q2 q3 -> heap_frame q1 q3.
Proof.
  intros [T1 L1 O1 I1 P1] [T2 L2 O2 I2 P2]. split.
  - congruence.
  - intros t. destruct (L1 t), (L2 t). split; congruence.
  - intros t. by rewrite O2, O1.
  - intros t Ht. rewrite I2; [by apply I1|]. by rewrite P1.
  - by rewrite P2, P1.
Qed.
Lemma frame_length q q' : heap_frame q q' -> length (heap_ q') = length (heap_ q).
Proof. intros [_ _ _ _ Hp]. by rewrite Hp. Qed.

Definition exchange {A} (i j : nat) (a b : A) (l : list A) : list A := <[j := a]> (<[i := b]> l).

Lemma exchange_perm {A} i j (a b : A) l : l !! i = Some a -> l !! j = Some b -> i <> j -> exchange i j a b l ≡ₚ l.
Proof.
  intros Hi Hj Hne. pose proof (lookup_lt_Some _ _ _ Hi). pose proof (lookup_lt_Some _ _ _ Hj).
  apply Permutation_inj. split; [unfold exchange; by rewrite !length_insert|].
  exists (fun k => if decide (k = i) then j else if decide (k = j) then i else k). split.
  - intros x y. repeat case_decide; subst; congruence.
  - intros k. unfold exchange. destruct (decide (k = j)) as [->|Hkj].
    + rewrite list_lookup_insert_eq by (by rewrite length_insert). by rewrite decide_False by done.
    + rewrite list_lookup_insert_ne by done. destruct (decide (k = i)) as [->|Hki].
      * by rewrite list_lookup_insert_eq by done.
      * by rewrite list_lookup_insert_ne.
Qed.

Lemma swap_heap_spec i j q : i < length (heap_ q) -> j < length (heap_ q) -> i <> j -> indexed q ->
  heap_frame q (swap_heap i j q) /\ indexed (swap_heap i j q) /\
  forall k, time_at (swap_heap i j q) k = swapped i j (time_at q) k.
Proof.
  intros Hi Hj Hne Hq. unfold swap_heap.
  destruct (lookup_lt_is_Some_2 _ _ Hi) as [a Ha], (lookup_lt_is_Some_2 _ _ Hj) as [b Hb]. rewrite Ha, Hb.
  assert (a.2 <> b.2) as Hab by (intros He; by apply Hne, (indexed_inj q i j a b)).
  set (q' := on_timer a.2 _ _).
  assert (forall k, heap_ q' !! k = if decide (k = j) then Some a else if decide (k = i) then Some b else heap_ q !! k) as Hl.
  { intros k. cbn. destruct (decide (k = j)) as [->|]; [by rewrite list_lookup_insert_eq by (by rewrite length_insert)|].
    rewrite list_lookup_insert_ne by done. destruct (decide (k = i)) as [->|]; [by rewrite list_lookup_insert_eq|].
    by rewrite list_lookup_insert_ne. }
  assert (forall t, heap_index_ (timer q' t) = if decide (a.2 = t) then Z.of_nat j
    else if decide (b.2 = t) then Z.of_nat i else heap_index_ (timer q t)) as Hidx.
  { intros t. unfold q'. rewrite !timer_on_timer. by repeat case_decide; subst. }
  split_and!; [split| |].
  - done.
  - intros t. unfold q'. rewrite !timer_on_timer. by repeat case_decide; subst.
  - intros t. unfold q'. rewrite !timer_on_timer. by repeat case_decide; subst.
  - intros t Ht. rewrite Hidx. rewrite !decide_False; [done|..]; intros <-; apply Ht, list_elem_of_fmap.
    + exists b. split; [done|by eapply list_elem_of_lookup_2].
    + exists a. split; [done|by eapply list_elem_of_lookup_2].
  - by apply (exchange_perm i j a b).
  - intros k e. rewrite Hl, Hidx. destruct (decide (k = j)) as [->|Hkj]; [intros [= <-]; by rewrite decide_True|].
    destruct (decide (k = i)) as [->|Hki].
    { intros [= <-]. rewrite decide_False by done. by rewrite decide_True. }
    intros Hk. rewrite !decide_False; [by apply Hq|..].
    + intros He. apply Hki. by apply (indexed_inj q k j e b) || (apply (indexed_inj q k j e b) in Hk; [lia|done..]).
    + intros He. apply Hki. by apply (indexed_inj q k i e a).
  - intros k. unfold time_at, swapped. rewrite Hl. destruct (decide (k = i)) as [->|Hki].
    + rewrite decide_False by done. by rewrite Hb.
    + destruct (decide (k = j)) as [->|]; [by rewrite Ha|done].
Qed.

Lemma early_ext k n T T' : (forall i, T' i = T i) -> early_at k n T -> early_at k n T'.
Proof. intros He [H1 H2]. split; intros i; rewrite !He; auto. Qed.
Lemma late_ext k n T T' : (forall i, T' i = T i) -> late_at k n T -> late_at k n T'.
Proof. intros He [H1 H2]. split; intros i; rewrite !He; auto. Qed.

Definition sorted_heap (q : timer_queue) : Prop := ordered (length (heap_ q)) (time_at q).

Lemma up_heap_spec fuel k q : k < fuel -> k < length (heap_ q) -> indexed q ->
  early_at k (length (heap_ q)) (time_at q) ->
  heap_frame q (up_heap fuel k q) /\ indexed (up_heap fuel k q) /\ sorted_heap (up_heap fuel k q).
Proof.
  revert k q. induction fuel as [|fuel IH]; intros k q Hf Hk Hq He; [lia|]. cbn [up_heap].
  destruct (Nat.ltb_spec 0 k) as [H0|H0]; cbn [andb].
  2: { split_and!; [apply frame_refl|done|]. apply (early_stop k); [done|left; lia]. }
  unfold less. destruct (Z.ltb_spec (time_at q k) (time_at q (parent k))) as [Hlt|Hge].
  2: { split_and!; [apply frame_refl|done|]. apply (early_stop k); [done|by right]. }
  pose proof (parent_lt k H0) as Hp.
  destruct (swap_heap_spec k (parent k) q Hk ltac:(lia) ltac:(lia) Hq) as (Hfr & Hq' & Ht).
  pose proof (frame_length _ _ Hfr) as Hlen.
  destruct (IH (parent k) (swap_heap k (parent k) q)) as (Hfr2 & Hq2 & Hs); [lia|lia|done| |].
  - rewrite Hlen. eapply early_ext; [exact Ht|]. apply early_step; [lia|done|done].
  - split_and!; [by eapply frame_trans|done|done].
Qed.

Lemma down_heap_spec fuel k q : length (heap_ q) <= k + fuel -> k < length (heap_ q) -> indexed q ->
  late_at k (length (heap_ q)) (time_at q) ->
  heap_frame q (down_heap fuel k q) /\ indexed (down_heap fuel k q) /\ sorted_heap (down_heap fuel k q).
Proof.
  revert k q. induction fuel as [|fuel IH]; intros k q Hf Hk Hq He; [lia|]. cbn [down_heap].
  destruct (Nat.ltb_spec (k * 2 + 1) (length (heap_ q))) as [Hc|Hc].
  2: { split_and!; [apply frame_refl|done|]. apply (late_stop k); [done|]. intros i Hi Hp.
       apply parent_child in Hp; lia. }
  match goal with |- context [less q k ?x] => set (m := x) end.
  assert (m < length (heap_ q) /\ parent m = k /\ k < m /\
    forall i, 0 < i < length (heap_ q) -> parent i = k -> (time_at q m <= time_at q i)%Z) as (Hm & Hpm & Hkm & Hmin).
  { unfold m, less. destruct (Nat.eqb_spec (k * 2 + 1 + 1) (length (heap_ q))) as [Hn|Hn]; cbn [orb].
    - split_and!; [done|apply parent_child; lia|lia|]. intros i Hi Hp. apply parent_child in Hp; [|lia].
      replace i with (k * 2 + 1) by lia. lia.
    - destruct (Z.ltb_spec (time_at q (k * 2 + 1)) (time_at q (k * 2 + 1 + 1))) as [Hl|Hl];
        (split_and!; [lia|apply parent_child; lia|lia|]); intros i Hi Hp; apply parent_child in Hp as [->| ->]; try lia;
        [replace (2 * k + 1) with (k * 2 + 1) by lia|replace (2 * k + 2) with (k * 2 + 1 + 1) by lia
        |replace (2 * k + 1) with (k * 2 + 1) by lia|replace (2 * k + 2) with (k * 2 + 1 + 1) by lia]; lia. }
  clearbody m. unfold less. destruct (Z.ltb_spec (time_at q k) (time_at q m)) as [Hlt|Hge].
  { split_and!; [apply frame_refl|done|]. apply (late_stop k); [done|]. intros i Hi Hp.
    specialize (Hmin i Hi Hp). lia. }
  destruct (swap_heap_spec k m q Hk Hm ltac:(lia) Hq) as (Hfr & Hq' & Ht).
  pose proof (frame_length _ _ Hfr) as Hlen.
  destruct (IH m (swap_heap k m q)) as (Hfr2 & Hq2 & Hs); [lia|lia|done| |].
  - rewrite Hlen. eapply late_ext; [exact Ht|]. apply late_step; [lia|done|done|done|done].
  - split_and!; [by eapply frame_trans|done|done].
Qed.

(** Taking timer [t] with entry [e] out of the heap. *)
Record taken (t : nat) (e : Z * nat) (q q' : timer_queue) : Prop := {
  tk_timers : timers_ q' = timers_ q;
  tk_links : forall x, next_ (timer q' x) = next_ (timer q x) /\ prev_ (timer q' x) = prev_ (timer q x);
  tk_ops : forall x, op_queue_ (timer q' x) = op_queue_ (timer q x);
  tk_gone : heap_index_ (timer q' t) = no_index;
  tk_index : forall x, x ∉ (heap_ q).*2 -> heap_index_ (timer q' x) = heap_index_ (timer q x);
  tk_perm : heap_ q ≡ₚ e :: heap_ q';
  tk_indexed : indexed q';
}.

Lemma pop_last_spec t e q n : indexed q -> heap_ q !! n = Some e -> length (heap_ q) = S n -> e.2 = t ->
  let q' := pop_back (on_timer t (set_index no_index) q) in
  taken t e q q' /\ length (heap_ q') = n /\ forall k, k < n -> time_at q' k = time_at q k.
Proof.
  intros Hq He Hn Ht q'.
  assert (heap_ q' = take n (heap_ q)) as Hh by (unfold q', pop_back; cbn; f_equal; lia).
  assert (heap_ q = heap_ q' ++ [e]) as Happ.
  { rewrite Hh. rewrite <- (take_drop n (heap_ q)) at 1. f_equal.
    rewrite (drop_S _ _ _ He). f_equal. apply drop_ge. lia. }
  assert (forall x, timer q' x = if decide (t = x) then set_index no_index (timer q t) else timer q x) as Htm.
  { intros x. apply (timer_on_timer t (set_index no_index) q x). }
  split_and!.
  - split.
    + done.
    + intros x. rewrite Htm. by case_decide; subst.
    + intros x. rewrite Htm. by case_decide; subst.
    + rewrite Htm. by rewrite decide_True.
    + intros x Hx. rewrite Htm. rewrite decide_False; [done|]. intros <-. apply Hx, list_elem_of_fmap.
      exists e. split; [done|by eapply list_elem_of_lookup_2].
    + rewrite Happ at 1. symmetry. apply Permutation_cons_append.
    + intros k e' Hk. rewrite Hh in Hk. apply lookup_take_Some in Hk as [Hk Hlt]. rewrite Htm.
      rewrite decide_False; [by apply Hq|]. rewrite <- Ht. intros Heq.
      pose proof (indexed_inj q n k e e' Hq He Hk Heq). lia.
  - rewrite Hh, length_take. lia.
  - intros k Hk. unfold time_at. rewrite Hh. by rewrite lookup_take_lt by done.
Qed.

Lemma taken_frame t e q q1 q2 : t ∉ (heap_ q1).*2 -> taken t e q q1 -> heap_frame q1 q2 -> indexed q2 ->
  taken t e q q2.
Proof.
  intros Hout [T1 L1 O1 G1 I1 P1 _] [T2 L2 O2 I2 P2] Hq. split.
  - congruence.
  - intros x. destruct (L1 x), (L2 x). split; congruence.
  - intros x. by rewrite O2, O1.
  - by rewrite I2.
  - intros x Hx. rewrite I2; [by apply I1|]. intros Hin. apply Hx. rewrite P1. by right.
  - by rewrite P1, P2.
  - done.
Qed.

Lemma frame_taken t e q q1 q2 : heap_frame q q1 -> taken t e q1 q2 -> taken t e q q2.
Proof.
  intros [T1 L1 O1 I1 P1] [T2 L2 O2 G2 I2 P2 Hq]. split; [congruence| | |done| | |done].
  - intros x. destruct (L1 x), (L2 x). split; congruence.
  - intros x. by rewrite O2, O1.
  - intros x Hx. rewrite I2; [by apply I1|]. by rewrite P1.
  - by rewrite <- P1.
Qed.

(** The last entry has taken the place [k] of the one removed. *)
Lemma replaced_early k n (T T1 : nat -> Z) : 0 < k < n -> ordered (S n) T1 ->
  (forall i, i < n -> i <> k -> T i = T1 i) -> (T k < T (parent k))%Z -> early_at k n T.
Proof.
  intros Hk Ho Heq Hlt. pose proof (parent_lt k ltac:(lia)). pose proof (Ho k ltac:(lia)) as Hok.
  rewrite (Heq (parent k)) in Hlt by lia. split.
  - intros i Hi Hne. pose proof (parent_lt i ltac:(lia)). pose proof (Ho i ltac:(lia)) as Hoi. rewrite (Heq i) by lia.
    destruct (decide (parent i = k)) as [Hp|Hp]; [rewrite Hp in *; lia|]. by rewrite (Heq (parent i)) by lia.
  - intros i Hi Hp _. pose proof (parent_lt i ltac:(lia)). pose proof (Ho i ltac:(lia)) as Hoi.
    rewrite (Heq i), (Heq (parent k)) by lia. rewrite Hp in Hoi. lia.
Qed.
Lemma replaced_late k n (T T1 : nat -> Z) : k < n -> ordered (S n) T1 ->
  (forall i, i < n -> i <> k -> T i = T1 i) -> (0 < k -> (T (parent k) <= T k)%Z) -> late_at k n T.
Proof.
  intros Hk Ho Heq Hle. split.
  - intros i Hi Hp. pose proof (parent_lt i ltac:(lia)). pose proof (Ho i ltac:(lia)) as Hoi.
    destruct (decide (i = k)) as [->|Hne]; [apply Hle; lia|]. by rewrite (Heq i), (Heq (parent i)) by lia.
  - intros i Hi Hp Hk0. pose proof (parent_lt i ltac:(lia)). pose proof (parent_lt k ltac:(lia)).
    pose proof (Ho i ltac:(lia)) as Hoi. pose proof (Ho k ltac:(lia)) as Hok.
    rewrite (Heq i), (Heq (parent k)) by lia. rewrite Hp in Hoi. lia.
Qed.

Lemma indexed_nodup q : indexed q -> NoDup (heap_ q).*2.
Proof.
  intros Hq. apply NoDup_alt. intros i j x Hi Hj. apply list_lookup_fmap_Some in Hi as (a & -> & Ha).
  apply list_lookup_fmap_Some in Hj as (b & He & Hb). by apply (indexed_inj q i j a b).
Qed.

Lemma taken_out t e q q' : e.2 = t -> indexed q -> taken t e q q' -> t ∉ (heap_ q').*2.
Proof.
  intros <- Hq Ht. pose proof (indexed_nodup q Hq) as Hn. rewrite (tk_perm _ _ _ _ Ht) in Hn.
  cbn in Hn. by apply NoDup_cons in Hn as [? _].
Qed.

Lemma leave_heap_spec i t e q : indexed q -> sorted_heap q -> heap_ q !! i = Some e -> e.2 = t ->
  taken t e q (leave_heap t q) /\ sorted_heap (leave_heap t q).
Proof.
  intros Hq Hs He Ht. pose proof (lookup_lt_Some _ _ _ He) as Hi. unfold leave_heap.
  pose proof (Hq i e He) as Hidx. rewrite Ht in Hidx. rewrite Hidx, Nat2Z.id.
  rewrite (proj2 (Z.ltb_lt _ _)) by lia. destruct (length (heap_ q)) as [|n] eqn:Hn; [lia|].
  replace (S n - 1) with n by lia. destruct (Nat.eqb_spec i n) as [->|Hne].
  { destruct (pop_last_spec t e q n Hq He Hn Ht) as (Htk & Hl & Htime). split; [done|].
    intros k Hk. rewrite Hl in Hk. pose proof (parent_lt k ltac:(lia)). rewrite !Htime by lia.
    apply Hs. lia. }
  destruct (swap_heap_spec i n q ltac:(lia) ltac:(lia) Hne Hq) as (Hfr & Hq1 & Ht1).
  pose proof (frame_length _ _ Hfr) as Hlen.
  assert (heap_ (swap_heap i n q) !! n = Some e) as He1.
  { unfold swap_heap. destruct (lookup_lt_is_Some_2 (heap_ q) n ltac:(lia)) as [b Hb]. rewrite He, Hb. cbn.
    rewrite list_lookup_insert_eq; [done|]. rewrite length_insert. lia. }
  destruct (pop_last_spec t e (swap_heap i n q) n Hq1 He1 ltac:(lia) Ht) as (Htk & Hl & Htime).
  set (q2 := pop_back _) in *. pose proof (frame_taken _ _ _ _ _ Hfr Htk) as Htk2.
  pose proof (taken_out _ _ _ _ Ht Hq Htk2) as Hout. pose proof (tk_indexed _ _ _ _ Htk2) as Hq2.
  assert (forall k, k < n -> k <> i -> time_at q2 k = time_at q k) as Hsame.
  { intros k Hk Hki. rewrite Htime, Ht1 by done. unfold swapped. rewrite decide_False by done. by rewrite decide_False by lia. }
  assert (ordered (S n) (time_at q)) as Ho by (unfold sorted_heap in Hs; by rewrite Hn in Hs).
  unfold less. destruct (Nat.ltb_spec 0 i) as [H0|H0]; cbn [andb];
    [destruct (Z.ltb_spec (time_at q2 i) (time_at q2 (parent i))) as [Hl2|Hl2]|].
  - destruct (up_heap_spec (S i) i q2) as (Hf2 & Hq3 & Hs3); [lia|lia|done| |by eauto using taken_frame].
    rewrite Hl. apply (replaced_early i n _ (time_at q)); [lia|done..].
  - destruct (down_heap_spec (length (heap_ q2)) i q2) as (Hf2 & Hq3 & Hs3); [lia|lia|done| |by eauto using taken_frame].
    rewrite Hl. apply (replaced_late i n _ (time_at q)); [lia|done|done|by intros].
  - destruct (down_heap_spec (length (heap_ q2)) i q2) as (Hf2 & Hq3 & Hs3); [lia|lia|done| |by eauto using taken_frame].
    rewrite Hl. apply (replaced_late i n _ (time_at q)); [lia|done|done|lia].
Qed.

Lemma ordered_root n T : ordered n T -> forall i, i < n -> (T 0%nat <= T i)%Z.
Proof.
  intros Ho i. induction (lt_wf i) as [i _ IH]. intros Hi. destruct (decide (i = 0)) as [->|Hne]; [lia|].
  pose proof (parent_lt i ltac:(lia)). specialize (Ho i ltac:(lia)). specialize (IH (parent i) ltac:(lia) ltac:(lia)). lia.
Qed.

Lemma heap_earliest q e h e' : sorted_heap q -> heap_ q = e :: h -> e' ∈ heap_ q -> (e.1 <= e'.1)%Z.
Proof.
  intros Hs Hh Hin. apply list_elem_of_lookup in Hin as [i Hi].
  pose proof (ordered_root _ _ Hs i (lookup_lt_Some _ _ _ Hi)) as Hle. unfold time_at in Hle.
  rewrite Hi in Hle. rewrite Hh in Hle. done.
Qed.

(** ** The list of active timers *)

(** [L] from [p] to [n]. *)
Fixpoint seg (q : timer_queue) (p : option nat) (L : list nat) (n : option nat) : Prop :=
  match L with
  | [] => True
  | t :: L => prev_ (timer q t) = p /\ next_ (timer q t) = from_option Some n (head L) /\ seg q (Some t) L n
  end.

Record listed (L : list nat) (q : timer_queue) : Prop := {
  ls_nodup : NoDup L;
  ls_head : timers_ q = head L;
  ls_seg : seg q None L None;
  ls_out : forall t, t ∉ L -> prev_ (timer q t) = None /\ next_ (timer q t) = None;
}.

Lemma seg_ext q q' p L n : (forall t, t ∈ L -> next_ (timer q' t) = next_ (timer q t) /\ prev_ (timer q' t) = prev_ (timer q t)) ->
  seg q p L n -> seg q' p L n.
Proof.
  revert p. induction L as [|t L IH]; intros p He; [done|]. cbn. intros (Hp & Hn & Hs).
  destruct (He t ltac:(left)) as [-> ->]. split_and!; [done..|]. apply IH; [|done]. intros x Hx. apply He. by right.
Qed.

Lemma seg_app q p L1 L2 n :
  seg q p (L1 ++ L2) n <-> seg q p L1 (from_option Some n (head L2)) /\ seg q (from_option Some p (last L1)) L2 n.
Proof.
  revert p. induction L1 as [|t L1 IH]; intros p; cbn [app seg]; [cbn; tauto|]. rewrite IH.
  destruct L1 as [|u L1]; cbn [head app seg last from_option]; [tauto|].
  destruct (last (u :: L1)) as [z|] eqn:Hz; [|by apply last_None in Hz]. cbn. tauto.
Qed.

Lemma listed_ext L q q' : timers_ q' = timers_ q ->
  (forall t, next_ (timer q' t) = next_ (timer q t) /\ prev_ (timer q' t) = prev_ (timer q t)) -> listed L q -> listed L q'.
Proof.
  intros Ht He [Hn Hh Hs Ho]. split; [done|congruence| |].
  - eapply seg_ext; [|done]. by intros.
  - intros t Hin. destruct (He t) as [-> ->]. by apply Ho.
Qed.

Lemma is_active_listed L q t : listed L q -> is_active t q = bool_decide (t ∈ L).
Proof.
  intros [Hn Hh Hs Ho]. unfold is_active. destruct (decide (t ∈ L)) as [Hin|Hin].
  - rewrite (bool_decide_eq_true_2 _ Hin). apply list_elem_of_split in Hin as (L1 & L2 & ->).
    apply seg_app in Hs as [_ (Hp & _ & _)]. rewrite Hp. destruct (last L1) as [z|] eqn:Hz; [done|].
    apply last_None in Hz as ->. by apply bool_decide_eq_true_2.
  - rewrite (bool_decide_eq_false_2 _ Hin). destruct (Ho t Hin) as [-> _]. apply bool_decide_eq_false_2.
    rewrite Hh. destruct L; [done|]. intros [= <-]. apply Hin. left.
Qed.

(** Changing links only. *)
Definition relinked (q q' : timer_queue) : Prop :=
  heap_ q' = heap_ q /\ forall x, op_queue_ (timer q' x) = op_queue_ (timer q x) /\ heap_index_ (timer q' x) = heap_index_ (timer q x).

Lemma link_front_spec L t q : listed L q -> t ∉ L -> listed (t :: L) (link_front t q) /\ relinked q (link_front t q).
Proof.
  intros [Hn Hh Hs Ho] Ht. unfold link_front. cbn [timers_ on_timer].
  assert (forall h, timers_ q = Some h -> h <> t) as Hne.
  { intros h. rewrite Hh. destruct L; [done|]. intros [= ->] ->. apply Ht. left. }
  set (q1 := on_timer t _ q).
  assert (forall x, timer q1 x = if decide (t = x) then set_prev None (set_next (timers_ q) (timer q t)) else timer q x) as H1
    by (intros x; apply timer_on_timer).
  set (q2 := match timers_ q with Some h => _ | None => _ end).
  assert (forall x, timer q2 x = if decide (timers_ q = Some x) then set_prev (Some t) (timer q1 x) else timer q1 x) as H2.
  { intros x. unfold q2. destruct (timers_ q) as [h|]; [|done]. rewrite timer_on_timer. by repeat case_decide; simplify_eq. }
  assert (heap_ q2 = heap_ q) as H3 by (unfold q2; by destruct (timers_ q)). clearbody q2 q1.
  split; [|split; [done|]; intros x; change (timer (set_timers (Some t) q2) x) with (timer q2 x); rewrite H2, H1;
    by repeat case_decide; subst].
  split.
  - by apply NoDup_cons.
  - done.
  - cbn [seg]. change (timer (set_timers (Some t) q2)) with (timer q2). rewrite H2, H1.
    rewrite (decide_False (P := timers_ q = Some t)) by (intros He; by apply (Hne t He)). rewrite decide_True by done.
    split_and!; [done|cbn; rewrite Hh; by destruct L|]. destruct L as [|h L]; [done|]. cbn [seg head] in *.
    apply NoDup_cons in Hn as [Hhn Hn].
    change (timer (set_timers (Some t) q2)) with (timer q2). rewrite H2, H1, Hh. rewrite decide_True by done.
    rewrite decide_False by (intros ->; apply Ht; left). destruct Hs as (_ & Hnx & Hs). split_and!; [done|done|].
    eapply seg_ext; [|exact Hs]. intros x Hx. change (timer (set_timers (Some t) q2)) with (timer q2).
    rewrite H2, H1, Hh. rewrite decide_False by (intros [= ->]; done).
    rewrite decide_False; [done|]. intros ->. apply Ht. by right.
  - intros x Hx. apply not_elem_of_cons in Hx as [Hxt Hx]. change (timer (set_timers (Some t) q2)) with (timer q2).
    rewrite H2, H1. rewrite decide_False; [rewrite decide_False by done; by apply Ho|].
    rewrite Hh. destruct L; [done|]. intros [= ->]. apply Hx. left.
Qed.

(** Under [listed], what [unlink] does to each timer. *)
Lemma unlink_timers L1 L2 t q x : listed (L1 ++ t :: L2) q ->
  timer (unlink t q) x =
    if decide (x = t) then set_prev None (set_next None (timer q t))
    else if decide (last L1 = Some x) then set_next (head L2) (timer q x)
    else if decide (head L2 = Some x) then set_prev (last L1) (timer q x)
    else timer q x.
Proof.
  intros [Hn Hh Hs Ho]. apply seg_app in Hs as [_ (Hp & Hnx & _)].
  replace (from_option Some None (last L1)) with (last L1) in Hp by (by destruct (last L1)).
  replace (from_option Some None (head L2)) with (head L2) in Hnx by (by destruct (head L2)).
  apply NoDup_app in Hn as (_ & Hd & [Ht2 _]%NoDup_cons).
  assert (forall p, last L1 = Some p -> p <> t /\ head L2 <> Some p) as HA.
  { intros p Hl. apply last_Some_elem_of in Hl. pose proof (Hd p Hl) as Hpn. apply not_elem_of_cons in Hpn as [? Hp2].
    split; [done|]. destruct L2; [done|]. intros [= ->]. apply Hp2. left. }
  assert (head L2 <> Some t) as HB by (destruct L2; [done|intros [= ->]; apply Ht2; left]).
  unfold unlink. set (q1 := if bool_decide _ then _ else q).
  assert (forall y, timer q1 y = timer q y) as H1 by (intros y; unfold q1; by destruct (bool_decide _)).
  rewrite H1, Hp. set (q2 := match last L1 with Some p => _ | None => _ end).
  assert (forall y, timer q2 y = if decide (last L1 = Some y) then set_next (head L2) (timer q y) else timer q y) as H2.
  { intros y. unfold q2. destruct (last L1) as [p|]; [|case_decide; [done|apply H1]].
    rewrite timer_on_timer, !H1, Hnx. repeat case_decide; simplify_eq; try done; apply H1. }
  assert (timer q2 t = timer q t) as Hq2.
  { rewrite H2. rewrite decide_False; [done|]. intros Hl. by destruct (HA t Hl). }
  rewrite Hq2, Hnx, Hp. rewrite timer_on_timer. set (q3 := match head L2 with Some n => _ | None => _ end).
  assert (forall y, timer q3 y = if decide (head L2 = Some y) then set_prev (last L1) (timer q2 y) else timer q2 y) as H3.
  { intros y. unfold q3. destruct (head L2) as [n|]; [|done]. rewrite timer_on_timer. repeat case_decide; simplify_eq; done. }
  rewrite !H3, Hq2. rewrite (decide_False (P := head L2 = Some t)) by done. rewrite H2.
  destruct (decide (x = t)) as [->|Hx]; [by rewrite decide_True|]. rewrite decide_False by done.
  destruct (decide (last L1 = Some x)) as [Hl|Hl]; [|done].
  rewrite decide_False; [done|]. by apply HA.
Qed.

Lemma unlink_queue t q :
  heap_ (unlink t q) = heap_ q /\ timers_ (unlink t q) = if decide (timers_ q = Some t) then next_ (timer q t) else timers_ q.
Proof.
  unfold unlink. set (q1 := if bool_decide _ then _ else q).
  assert (heap_ q1 = heap_ q /\ timers_ q1 = if decide (timers_ q = Some t) then next_ (timer q t) else timers_ q) as [H1 H2].
  { unfold q1. case_decide as Hd; [by rewrite bool_decide_eq_true_2|by rewrite bool_decide_eq_false_2]. }
  clearbody q1. set (q2 := match prev_ _ with Some p => _ | None => _ end).
  assert (heap_ q2 = heap_ q1 /\ timers_ q2 = timers_ q1) as [H3 H4] by (unfold q2; by destruct (prev_ _)).
  clearbody q2. destruct (next_ (timer q2 t)); cbn; split; congruence.
Qed.

Lemma unlink_spec L1 L2 t q : listed (L1 ++ t :: L2) q -> listed (L1 ++ L2) (unlink t q) /\ relinked q (unlink t q).
Proof.
  intros Hl. pose proof (unlink_timers L1 L2 t q) as Ht. destruct (unlink_queue t q) as [Hheap Htimers].
  split.
  2: { split; [done|]. intros x. rewrite Ht by done. by repeat case_decide; subst. }
  pose proof Hl as [Hn Hh Hs Ho]. pose proof Hn as Hn0. rewrite Permutation_app_comm in Hn0. cbn in Hn0.
  apply NoDup_cons in Hn0 as [Htn Hn0]. rewrite Permutation_app_comm in Hn0.
  assert ((t ∉ L1) /\ (t ∉ L2)) as [Ht1 Ht2] by (rewrite elem_of_app in Htn; tauto). split.
  - done.
  - rewrite Htimers, Hh. destruct L1 as [|u L1]; cbn [app head].
    + rewrite decide_True by done. destruct Hs as (_ & -> & _). by destruct L2.
    + rewrite decide_False; [done|]. intros [= ->]. apply Ht1. left.
  - apply seg_app in Hs as [Hs1 (Hp & Hnx & Hs2)]. apply seg_app. split.
    + destruct (last L1) as [z|] eqn:Hz; [|by apply last_None in Hz as ->].
      apply last_Some in Hz as [L1' ->]. apply seg_app in Hs1 as [Hs1 (Hpz & _ & _)]. apply seg_app.
      assert ((z ∉ L1') /\ z <> t) as [Hz1 Hzt].
      { apply NoDup_app in Hn as (Hn & Hd & _). apply NoDup_app in Hn as (_ & Hd2 & _). split.
        - intros Hin. apply (Hd2 z Hin). left.
        - intros ->. apply Ht1, elem_of_app. right. left. }
      split.
      * eapply seg_ext; [|exact Hs1]. intros x Hx. rewrite Ht by done.
        rewrite decide_False by (intros ->; apply Ht1, elem_of_app; by left).
        rewrite decide_False by (intros [= ->]; done). rewrite decide_False; [done|].
        apply NoDup_app in Hn as (_ & Hd & _). intros Hx2. apply (Hd x); [apply elem_of_app; by left|]. right.
        destruct L2; [done|]. injection Hx2 as ->. left.
      * cbn. rewrite Ht by done. rewrite decide_False by done. rewrite decide_True by done.
        split_and!; [done|by destruct L2|done].
    + destruct L2 as [|u L2]; [done|]. cbn [seg head] in *. destruct Hs2 as (_ & Hnu & Hs2).
      assert (last L1 <> Some u /\ u <> t /\ u ∉ L2) as (Hu1 & Hut & Hu2).
      { apply NoDup_app in Hn as (_ & Hd & Hn). apply NoDup_cons in Hn as [Hn2 Hn3]. split_and!.
        - intros Hu%last_Some_elem_of. apply (Hd u Hu). right. left.
        - intros ->. apply Ht2. left.
        - by apply NoDup_cons in Hn3 as [? _]. }
      rewrite !Ht by done. rewrite (decide_False (P := u = t)) by done. rewrite decide_False by done.
      rewrite decide_True by done. split_and!; [by destruct (last L1)|done|].
      eapply seg_ext; [|exact Hs2]. intros x Hx. rewrite Ht by done.
      rewrite decide_False by (intros ->; apply Ht2; by right).
      rewrite decide_False. 2: { intros Hx1%last_Some_elem_of. apply NoDup_app in Hn as (_ & Hd & _).
        apply (Hd x Hx1). right. by right. }
      rewrite decide_False; [done|]. intros [= ->]. done.
  - intros x Hx. rewrite Ht by done. rewrite elem_of_app in Hx. destruct (decide (x = t)) as [->|Hxt]; [done|].
    rewrite decide_False by (intros Hx1%last_Some_elem_of; tauto).
    rewrite decide_False by (intros Hx2; destruct L2; [done|]; injection Hx2 as ->; apply Hx; right; left).
    apply Ho. rewrite elem_of_app, elem_of_cons. tauto.
Qed.

(** ** The queue as a map from the active timers to their times and operations *)

Record represents (m : gmap nat (Z * list wait_op)) (q : timer_queue) : Prop := {
  rp_listed : exists L, listed L q /\ (heap_ q).*2 ≡ₚ L;
  rp_indexed : indexed q;
  rp_sorted : sorted_heap q;
  rp_map : forall t tm os, m !! t = Some (tm, os) <-> (tm, t) ∈ heap_ q /\ op_queue_ (timer q t) = os;
  rp_idle : forall t, m !! t = None -> op_queue_ (timer q t) = [];
}.

Lemma represents_heap m q t : represents m q -> t ∈ (heap_ q).*2 <-> is_Some (m !! t).
Proof.
  intros Hr. rewrite list_elem_of_fmap. split.
  - intros ([tm t'] & -> & Hin). exists (tm, op_queue_ (timer q t')). by apply (rp_map _ _ Hr).
  - intros ([tm os] & [Hin _]%(rp_map _ _ Hr)). by exists (tm, t).
Qed.

Lemma represents_active m q t : represents m q -> is_active t q = bool_decide (is_Some (m !! t)).
Proof.
  intros Hr. destruct (rp_listed _ _ Hr) as (L & Hl & Hp). rewrite (is_active_listed L) by done.
  apply bool_decide_ext. rewrite <- Hp. by apply represents_heap.
Qed.

Lemma represents_is_active m q t v : represents m q -> m !! t = Some v -> is_active t q = true.
Proof. intros Hr Hm. rewrite (represents_active m) by done. apply bool_decide_eq_true_2. by exists v. Qed.
Lemma represents_not_active m q t : represents m q -> m !! t = None -> is_active t q = false.
Proof. intros Hr Hm. rewrite (represents_active m) by done. apply bool_decide_eq_false_2. rewrite Hm. apply is_Some_None. Qed.

Lemma represents_head m q tm t h : represents m q -> heap_ q = (tm, t) :: h ->
  m !! t = Some (tm, op_queue_ (timer q t)) /\ forall t' tm' os, m !! t' = Some (tm', os) -> (tm <= tm')%Z.
Proof.
  intros Hr Hh. split.
  - apply (rp_map _ _ Hr). rewrite Hh. split; [left|done].
  - intros t' tm' os [Hin _]%(rp_map _ _ Hr). exact (heap_earliest _ _ _ _ (rp_sorted _ _ Hr) Hh Hin).
Qed.

Lemma represents_ops m q t tm os os' : represents m q -> m !! t = Some (tm, os) ->
  represents (<[t := (tm, os')]> m) (on_timer t (set_ops os') q).
Proof.
  intros Hr Hm. pose proof Hr as [(L & Hl & Hp) Hi Hs Hmap Hidle]. pose proof (proj1 (Hmap _ _ _) Hm) as [Hin _].
  pose proof (timer_on_timer t (set_ops os') q) as Ht. split.
  - exists L. split; [|done]. eapply listed_ext; [..|exact Hl]; [done|]. intros x. rewrite Ht. by case_decide; subst.
  - intros k e He. rewrite Ht. case_decide; subst; by apply Hi.
  - exact Hs.
  - intros x tm' os2. rewrite Ht. change (heap_ (on_timer t (set_ops os') q)) with (heap_ q).
    destruct (decide (t = x)) as [<-|Hne]; [|by rewrite lookup_insert_ne].
    rewrite lookup_insert_eq. cbn. split; [intros [= <- <-]; done|]. intros [Hin' <-].
    assert (m !! t = Some (tm', op_queue_ (timer q t))) as Hm' by by apply Hmap. congruence.
  - intros x Hx. rewrite lookup_insert_None in Hx. destruct Hx as [Hx Hne]. rewrite Ht, decide_False by done. by apply Hidle.
Qed.

Lemma represents_remove m q t tm : represents m q -> m !! t = Some (tm, []) -> represents (delete t m) (remove_timer t q) /\
  length (heap_ q) = S (length (heap_ (remove_timer t q))).
Proof.
  intros Hr Hm. pose proof Hr as [(L & Hl & Hp) Hi Hs Hmap Hidle]. pose proof (proj1 (Hmap _ _ _) Hm) as [Hin Hops].
  apply list_elem_of_lookup in Hin as [i Hi'].
  destruct (leave_heap_spec i t (tm, t) q Hi Hs Hi' eq_refl) as [Htk Hs']. unfold remove_timer.
  pose proof (taken_out t (tm, t) q _ eq_refl Hi Htk) as Hout. set (q1 := leave_heap t q) in *. cbn in Hout.
  destruct Htk as [T1 L1 O1 _ _ P1 I1]. assert (listed L q1) as Hl1 by (by eapply listed_ext).
  rewrite P1 in Hp. cbn in Hp.
  assert (t ∈ L) as HtL by (rewrite <- Hp; left). apply list_elem_of_split in HtL as (La & Lb & ->).
  destruct (unlink_spec _ _ _ _ Hl1) as [Hl2 [Hh2 Hr2]].
  split; [split|].
  - exists (La ++ Lb). split; [done|]. rewrite Hh2. rewrite <- Permutation_middle in Hp. by apply Permutation_cons_inv in Hp.
  - intros k e. rewrite Hh2. intros He. destruct (Hr2 e.2) as [_ ->]. by apply I1.
  - unfold sorted_heap, time_at. by rewrite Hh2.
  - intros x tm' os. rewrite Hh2. destruct (Hr2 x) as [-> _]. rewrite O1.
    destruct (decide (t = x)) as [<-|Hne].
    + rewrite lookup_delete_eq. split; [done|]. intros [Hx _]. exfalso. apply Hout, list_elem_of_fmap. by exists (tm', t).
    + rewrite lookup_delete_ne by done. rewrite Hmap, P1, elem_of_cons. split; [|tauto].
      intros [[[= -> ->]|?] ?]; [done|tauto].
  - intros x Hx. destruct (Hr2 x) as [-> _]. rewrite O1. destruct (decide (t = x)) as [<-|Hne]; [done|].
    rewrite lookup_delete_ne in Hx by done. by apply Hidle.
  - rewrite Hh2, P1. done.
Qed.

Lemma push_spec time t q : indexed q -> sorted_heap q -> t ∉ (heap_ q).*2 ->
  let q1 := set_heap (heap_ q ++ [(time, t)]) (on_timer t (set_index (Z.of_nat (length (heap_ q)))) q) in
  indexed q1 /\ early_at (length (heap_ q)) (S (length (heap_ q))) (time_at q1).
Proof.
  intros Hi Hs Ht q1. split.
  - intros k e. change (timer q1 e.2) with (timer (on_timer t (set_index (Z.of_nat (length (heap_ q)))) q) e.2).
    rewrite timer_on_timer. cbn [q1 heap_ set_heap on_timer]. intros [Hk|[Hk Hsnd]]%lookup_app_Some.
    + rewrite decide_False; [by apply Hi|]. intros ->. apply Ht, list_elem_of_fmap. exists e.
      split; [done|by eapply list_elem_of_lookup_2].
    + apply list_lookup_singleton_Some in Hsnd as [Hk0 <-]. rewrite decide_True by done. cbn. f_equal. lia.
  - assert (forall k, k < length (heap_ q) -> time_at q1 k = time_at q k) as Ht1.
    { intros k Hk. unfold time_at. cbn [q1 heap_ set_heap on_timer]. by rewrite lookup_app_l. }
    split.
    + intros k Hk Hne. pose proof (parent_lt k ltac:(lia)). rewrite !Ht1 by lia. apply Hs. lia.
    + intros k Hk Hp Hpos. pose proof (parent_lt k ltac:(lia)). lia.
Qed.

Lemma represents_activate m q time t : represents m q -> m !! t = None ->
  represents (<[t := (time, [])]> m) (activate time t q).
Proof.
  intros Hr Hm. pose proof Hr as [(L & Hl & Hp) Hi Hs Hmap Hidle].
  assert (t ∉ (heap_ q).*2) as Hout by (rewrite (represents_heap m) by done; rewrite Hm; apply is_Some_None).
  destruct (push_spec time t q Hi Hs Hout) as [Hi1 He1]. unfold activate.
  pose proof (timer_on_timer t (set_index (Z.of_nat (length (heap_ q)))) q) as Ht1.
  set (q1 := set_heap _ _) in *. change (timer (on_timer t (set_index (Z.of_nat (length (heap_ q)))) q)) with (timer q1) in Ht1.
  assert (length (heap_ q1) = S (length (heap_ q))) as Hlen by (cbn; rewrite length_app; cbn; lia). rewrite Hlen.
  replace (S (length (heap_ q)) - 1) with (length (heap_ q)) by lia.
  destruct (up_heap_spec (S (length (heap_ q))) (length (heap_ q)) q1) as (Hf & Hi2 & Hs2); [lia|lia|done|by rewrite Hlen|].
  set (q2 := up_heap _ _ q1) in *. destruct Hf as [T2 L2 O2 _ P2].
  assert (heap_ q2 ≡ₚ (time, t) :: heap_ q) as Hp2 by (rewrite P2; cbn; symmetry; apply Permutation_cons_append).
  assert (listed L q2) as Hl2.
  { eapply listed_ext; [..|exact Hl]; [done|]. intros x. destruct (L2 x) as [-> ->]. rewrite Ht1. by case_decide; subst. }
  assert (t ∉ L) as HtL by (by rewrite <- Hp).
  destruct (link_front_spec L t q2 Hl2 HtL) as [Hl3 [Hh3 Hr3]]. split.
  - exists (t :: L). split; [done|]. rewrite Hh3, Hp2. cbn. by rewrite Hp.
  - intros k e. rewrite Hh3. intros He. destruct (Hr3 e.2) as [_ ->]. by apply Hi2.
  - unfold sorted_heap, time_at. by rewrite Hh3.
  - intros x tm os. rewrite Hh3. destruct (Hr3 x) as [-> _]. rewrite O2, Hp2, elem_of_cons, Ht1.
    destruct (decide (t = x)) as [<-|Hne].
    + rewrite lookup_insert_eq. cbn. rewrite (Hidle t Hm). split; [intros [= <- <-]; auto|].
      intros [[[= ->]|Hin] <-]; [done|]. exfalso. apply Hout, list_elem_of_fmap. by exists (tm, t).
    + rewrite lookup_insert_ne by done. rewrite Hmap. split; [tauto|]. intros [[[= -> ->]|?] ?]; [done|tauto].
  - intros x Hx. apply lookup_insert_None in Hx as [Hx Hne]. destruct (Hr3 x) as [-> _].
    rewrite O2, Ht1, decide_False by done. by apply Hidle.
Qed.

(** The place of an active timer is the first one only if it is the earliest. *)
Lemma represents_first m q t tm os : represents m q -> m !! t = Some (tm, os) ->
  (heap_index_ (timer q t) = 0%Z -> forall t' tm' os', m !! t' = Some (tm', os') -> (tm <= tm')%Z) /\
  ((forall t' tm' os', m !! t' = Some (tm', os') -> t' <> t -> (tm < tm')%Z) -> heap_index_ (timer q t) = 0%Z).
Proof.
  intros Hr Hm. destruct (heap_ q) as [|[tm0 t0] h] eqn:Hh.
  { apply (rp_map _ _ Hr) in Hm as [Hm _]. rewrite Hh in Hm. by apply elem_of_nil in Hm. }
  destruct (represents_head m q tm0 t0 h Hr Hh) as [Hm0 Hmin]. split.
  - intros Hz. apply (rp_map _ _ Hr) in Hm as [[i Hi]%list_elem_of_lookup _].
    pose proof (rp_indexed _ _ Hr i _ Hi) as Hidx. cbn in Hidx. rewrite Hz in Hidx.
    assert (i = 0) as -> by lia. rewrite Hh in Hi. injection Hi as -> ->. exact Hmin.
  - intros Hlt. destruct (decide (t0 = t)) as [->|Hne].
    + by apply (rp_indexed _ _ Hr 0 (tm0, t)); rewrite Hh.
    + pose proof (Hlt t0 _ _ Hm0 Hne). pose proof (Hmin t _ _ Hm). lia.
Qed.

(** ** Moving a timer *)

(** [source] is called [target] from now on. *)
Definition renamed (source target x : nat) : nat := if decide (x = source) then target else x.
#[local] Abbreviation rename_entry s t := (fun e : Z * nat => (e.1, renamed s t e.2)).

Lemma seg_lookup q p L n i x : seg q p L n -> L !! i = Some x ->
  prev_ (timer q x) = match i with O => p | S j => L !! j end /\
  next_ (timer q x) = match L !! S i with Some y => Some y | None => n end.
Proof.
  revert p i. induction L as [|t L IH]; intros p i Hs Hi; [done|]. cbn [seg] in Hs. destruct Hs as (Hp & Hn & Hs).
  destruct i as [|i]; cbn in Hi.
  - injection Hi as ->. split; [done|]. rewrite Hn. by destruct L.
  - destruct (IH (Some t) i Hs Hi) as [Hp' Hn']. split; [|exact Hn']. rewrite Hp'. by destruct i.
Qed.
(** In a list, one timer precedes another exactly if that follows it. *)
Lemma listed_links L q x y : listed L q -> prev_ (timer q x) = Some y <-> next_ (timer q y) = Some x.
Proof.
  intros [Hn Hh Hs Ho]. split; intros He.
  - destruct (decide (x ∈ L)) as [Hx|Hx]; [|destruct (Ho x Hx); congruence].
    apply list_elem_of_lookup in Hx as [[|j] Hi]; destruct (seg_lookup _ _ _ _ _ _ Hs Hi) as [Hp _]; [congruence|].
    rewrite He in Hp. symmetry in Hp. destruct (seg_lookup _ _ _ _ _ _ Hs Hp) as [_ ->]. by rewrite Hi.
  - destruct (decide (y ∈ L)) as [Hy|Hy]; [|destruct (Ho y Hy); congruence].
    apply list_elem_of_lookup in Hy as [j Hi]. destruct (seg_lookup _ _ _ _ _ _ Hs Hi) as [_ Hp]. rewrite He in Hp.
    destruct (L !! S j) as [z|] eqn:Hz; [|done]. injection Hp as <-. destruct (seg_lookup _ _ _ _ _ _ Hs Hz) as [-> _]. done.
Qed.
Lemma listed_apart L q x : listed L q -> prev_ (timer q x) <> Some x /\ (forall y, prev_ (timer q x) = Some y -> next_ (timer q x) <> Some y).
Proof.
  intros Hl. pose proof Hl as [Hn Hh Hs Ho]. destruct (decide (x ∈ L)) as [Hx|Hx]; [|destruct (Ho x Hx) as [-> ->]; done].
  apply list_elem_of_lookup in Hx as [i Hi]. destruct (seg_lookup _ _ _ _ _ _ Hs Hi) as [-> Hnx]. rewrite Hnx.
  assert (forall j k z, L !! j = Some z -> L !! k = Some z -> j = k) as Huniq by by apply NoDup_alt.
  destruct i as [|j]; [done|]. split.
  - intros Hj. pose proof (Huniq _ _ _ Hi Hj). lia.
  - intros y Hj. destruct (L !! S (S j)) as [z|] eqn:Hz; [|done]. intros [= ->]. pose proof (Huniq _ _ _ Hj Hz). lia.
Qed.
Lemma listed_inside L q x y : listed L q -> prev_ (timer q x) = Some y \/ next_ (timer q x) = Some y -> y ∈ L.
Proof.
  intros Hl Hy. pose proof Hl as [_ _ _ Ho]. destruct (decide (y ∈ L)) as [Hin|Hout]; [done|]. destruct (Ho y Hout) as [Hp Hn].
  destruct Hy as [Hy|Hy]; [apply (listed_links L q x y Hl) in Hy|apply (listed_links L q y x Hl) in Hy]; congruence.
Qed.

(** What [move_timer] does to each timer and to the heap. *)
Lemma move_timers L t s q x : listed L q -> t ∉ L -> s <> t ->
  timer (move_timer t s q) x =
    if decide (x = s) then new_timer
    else if decide (x = t) then
      PerTimerData (op_queue_ (timer q t) ++ op_queue_ (timer q s)) (heap_index_ (timer q s)) (next_ (timer q s)) (prev_ (timer q s))
    else if decide (prev_ (timer q s) = Some x) then set_next (Some t) (timer q x)
    else if decide (next_ (timer q s) = Some x) then set_prev (Some t) (timer q x)
    else timer q x.
Proof.
  intros Hl Ht Hst. destruct (listed_apart L q s Hl) as [Hss Hpn].
  assert (next_ (timer q s) <> Some s) as Hsn by (by rewrite <- (listed_links L q s s Hl)).
  assert (prev_ (timer q s) <> Some t) as Hpt by (intros He; apply Ht, (listed_inside L q s t Hl); by left).
  assert (next_ (timer q s) <> Some t) as Hnt by (intros He; apply Ht, (listed_inside L q s t Hl); by right).
  unfold move_timer. set (q1 := on_timer s (set_index no_index) _).
  assert (forall y, timer q1 y = if decide (y = s) then set_index no_index (set_ops [] (timer q s))
    else if decide (y = t) then set_index (heap_index_ (timer q s)) (set_ops (op_queue_ (timer q t) ++ op_queue_ (timer q s)) (timer q t))
    else timer q y) as H1.
  { intros y. unfold q1. repeat (rewrite timer_on_timer || case_decide); subst; try done; congruence. }
  set (q2 := if (_ <? _)%Z then set_heap _ q1 else q1). assert (forall y, timer q2 y = timer q1 y) as H2 by (intros y; unfold q2; by destruct (_ <? _)%Z).
  set (q3 := if bool_decide _ then set_timers _ q2 else q2). assert (forall y, timer q3 y = timer q2 y) as H3 by (intros y; unfold q3; by destruct (bool_decide _)).
  assert (timer q3 s = set_index no_index (set_ops [] (timer q s))) as Hs3 by (rewrite H3, H2, H1; by rewrite decide_True).
  set (q4 := match prev_ (timer q3 s) with Some p => _ | None => q3 end).
  assert (forall y, timer q4 y = if decide (prev_ (timer q s) = Some y) then set_next (Some t) (timer q1 y) else timer q1 y) as H4.
  { intros y. unfold q4. rewrite Hs3. cbn. destruct (prev_ (timer q s)) as [p|]; [rewrite timer_on_timer|]; rewrite !H3, !H2; repeat case_decide; congruence. }
  assert (timer q4 s = set_index no_index (set_ops [] (timer q s))) as Hs4.
  { rewrite H4, decide_False, H1, decide_True by done. done. }
  set (q5 := match next_ (timer q4 s) with Some n => _ | None => q4 end).
  assert (forall y, timer q5 y = if decide (next_ (timer q s) = Some y) then set_prev (Some t) (timer q4 y) else timer q4 y) as H5.
  { intros y. unfold q5. rewrite Hs4. cbn. destruct (next_ (timer q s)) as [p|]; [rewrite timer_on_timer|]; repeat case_decide; congruence. }
  assert (timer q5 s = set_index no_index (set_ops [] (timer q s))) as Hs5 by (by rewrite H5, decide_False).
  clearbody q2 q3 q4 q5. repeat (rewrite timer_on_timer || case_decide); subst; try congruence; rewrite ?Hs5; try done;
    rewrite ?H5, ?H4, ?H1; repeat case_decide; try congruence; try done.
  by destruct (Hpn x).
Qed.
Lemma move_queue L t s q : listed L q -> t ∉ L -> s <> t -> indexed q ->
  (Z.of_nat (length (heap_ q)) <= heap_index_ (timer q s) -> s ∉ (heap_ q).*2)%Z ->
  (s ∉ (heap_ q).*2 -> Z.of_nat (length (heap_ q)) <= heap_index_ (timer q s))%Z ->
  heap_ (move_timer t s q) = rename_entry s t <$> heap_ q /\
  timers_ (move_timer t s q) = renamed s t <$> timers_ q.
Proof.
  intros Hl Ht Hst Hi Hout Hin. unfold move_timer. set (q1 := on_timer s (set_index no_index) _).
  assert (timer q1 t = set_index (heap_index_ (timer q s)) (set_ops (op_queue_ (timer q t) ++ op_queue_ (timer q s)) (timer q t))) as H1.
  { unfold q1. repeat (rewrite timer_on_timer || case_decide); subst; try done; congruence. }
  assert (heap_ q1 = heap_ q /\ timers_ q1 = timers_ q) as [Hh1 Ht1] by done. rewrite H1. cbn [heap_index_ set_index]. clearbody q1.
  set (q2 := if (_ <? _)%Z then set_heap _ q1 else q1).
  assert (heap_ q2 = rename_entry s t <$> heap_ q /\ timers_ q2 = timers_ q) as [Hh2 Ht2].
  { unfold q2. rewrite Hh1. destruct (Z.ltb_spec (heap_index_ (timer q s)) (Z.of_nat (length (heap_ q)))) as [Hlt|Hge]; cbn; (split; [|done]).
    - assert (s ∈ (heap_ q).*2) as Hin'.
      { destruct (decide (s ∈ (heap_ q).*2)) as [|Hno]; [done|]. specialize (Hin Hno). lia. }
      apply list_elem_of_fmap in Hin' as ([tm s'] & Hs' & [k Hk]%list_elem_of_lookup). cbn in Hs'. subst s'.
      pose proof (Hi k _ Hk) as Hidx. cbn in Hidx. rewrite Hidx, Nat2Z.id. apply list_eq. intros i.
      rewrite list_lookup_fmap. destruct (decide (k = i)) as [<-|Hne].
      + rewrite list_lookup_alter_eq, Hk. cbn. unfold renamed. by rewrite decide_True.
      + rewrite list_lookup_alter_ne by done. destruct (heap_ q !! i) as [[tm' x]|] eqn:He; [|done]. cbn. unfold renamed.
        rewrite decide_False; [done|]. intros ->. exact (Hne (indexed_inj q k i _ _ Hi Hk He eq_refl)).
    - rewrite Hh1. specialize (Hout Hge). apply list_eq. intros i. rewrite list_lookup_fmap. destruct (heap_ q !! i) as [[tm x]|] eqn:He; [|done].
      cbn. unfold renamed. rewrite decide_False; [done|]. intros ->. apply Hout, list_elem_of_fmap. exists (tm, s). split; [done|by eapply list_elem_of_lookup_2]. }
  clearbody q2. set (q3 := if bool_decide _ then set_timers _ q2 else q2).
  assert (heap_ q3 = heap_ q2 /\ timers_ q3 = renamed s t <$> timers_ q) as [Hh3 Ht3].
  { unfold q3. rewrite Ht2. case_bool_decide as Hc; (split; [done|]).
    - rewrite Hc. cbn. unfold renamed. by rewrite decide_True.
    - rewrite Ht2. destruct (timers_ q) as [h|]; [|done]. cbn. unfold renamed. rewrite decide_False; [done|]. congruence. }
  clearbody q3. rewrite <- Hh2, <- Hh3, <- Ht3. set (q4 := match prev_ (timer q3 s) with Some p => _ | None => q3 end).
  assert (heap_ q4 = heap_ q3 /\ timers_ q4 = timers_ q3) as [<- <-] by (unfold q4; by destruct (prev_ _)). clearbody q4.
  by destruct (next_ (timer q4 s)).
Qed.

Lemma renamed_inj s t x y : s <> t -> x <> t -> y <> t -> renamed s t x = renamed s t y -> x = y.
Proof. unfold renamed. intros Hst Hx Hy. repeat case_decide; congruence. Qed.
(** Links, operations and places move along with the name. *)
Lemma renamed_spec s t x : renamed s t x = if decide (x = s) then t else x.
Proof. done. Qed.
Lemma renamed_link s t (o : option nat) : renamed s t <$> o = if decide (o = Some s) then Some t else o.
Proof.
  destruct o as [y|]; [|by rewrite decide_False]. change (renamed s t <$> Some y) with (Some (renamed s t y)). rewrite renamed_spec.
  destruct (decide (y = s)) as [->|Hy]; [by rewrite decide_True|]. rewrite decide_False; [done|]. congruence.
Qed.
Lemma move_renamed L t s q x : listed L q -> t ∉ L -> s <> t -> x <> t -> op_queue_ (timer q t) = [] ->
  let d := timer (move_timer t s q) (renamed s t x) in
  op_queue_ d = op_queue_ (timer q x) /\ heap_index_ d = heap_index_ (timer q x) /\
  prev_ d = renamed s t <$> prev_ (timer q x) /\ next_ d = renamed s t <$> next_ (timer q x).
Proof.
  intros Hl Ht Hst Hx Hops. cbn zeta. rewrite (move_timers L), (renamed_spec s t x), !renamed_link by done.
  pose proof (listed_links L q) as Hlk. destruct (listed_apart L q s Hl) as [Hss Hpn].
  destruct (decide (x = s)) as [->|Hxs].
  - rewrite decide_False, decide_True by done. cbn [op_queue_ heap_index_ prev_ next_]. rewrite Hops.
    split_and!; [done|done|by rewrite decide_False|]. rewrite decide_False; [done|]. by intros He%(Hlk s s Hl).
  - rewrite !(decide_False (P := x = s)), decide_False by done.
    destruct (decide (prev_ (timer q s) = Some x)) as [Hps|Hps]; [|destruct (decide (next_ (timer q s) = Some x)) as [Hns|Hns]];
      cbn [op_queue_ heap_index_ prev_ next_ set_next set_prev]; (split; [done|]); (split; [done|]); split.
    + rewrite decide_False; [done|]. intros He%(Hlk x s Hl). by apply (Hpn x).
    + rewrite decide_True; [done|]. by apply Hlk.
    + rewrite decide_True; [done|]. by apply Hlk.
    + rewrite decide_False; [done|]. intros He. by apply Hps, (Hlk s x Hl).
    + rewrite decide_False; [done|]. intros He. by apply Hns, (Hlk x s Hl).
    + rewrite decide_False; [done|]. intros He. by apply Hps, (Hlk s x Hl).
Qed.

Lemma seg_renamed s t q q' p L n : (forall x, x ∈ L -> prev_ (timer q' (renamed s t x)) = renamed s t <$> prev_ (timer q x) /\
    next_ (timer q' (renamed s t x)) = renamed s t <$> next_ (timer q x)) ->
  seg q p L n -> seg q' (renamed s t <$> p) (renamed s t <$> L) (renamed s t <$> n).
Proof.
  revert p. induction L as [|x L IH]; intros p Hx; [done|]. cbn [seg fmap list_fmap]. intros (Hp & Hn & Hs).
  destruct (Hx x ltac:(left)) as [-> ->]. rewrite Hp, Hn. split_and!; [done|by destruct L|].
  apply (IH (Some x)); [|done]. intros y Hy. apply Hx. by right.
Qed.

(** The abstract queue after a move. *)
Definition moved (t s : nat) (m : gmap nat (Z * list wait_op)) : gmap nat (Z * list wait_op) :=
  match m !! s with Some a => <[t := a]> (delete s m) | None => m end.
Lemma moved_renamed t s m x : s <> t -> m !! t = None -> x <> t -> moved t s m !! renamed s t x = m !! x.
Proof.
  intros Hst Ht Hx. unfold moved, renamed. destruct (decide (x = s)) as [->|Hxs].
  - destruct (m !! s) eqn:Hs; [by rewrite lookup_insert_eq|done].
  - destruct (m !! s) eqn:Hs; [|done]. rewrite lookup_insert_ne by done. by rewrite lookup_delete_ne.
Qed.
Lemma moved_source t s m : s <> t -> moved t s m !! s = None.
Proof.
  intros Hst. unfold moved. destruct (m !! s) eqn:Hs; [|done]. rewrite lookup_insert_ne by done. by rewrite lookup_delete_eq.
Qed.

(** The caller's part: another timer, with nothing pending; a timer that is not active is
    not in the heap, and its index does not say it is. *)
Definition movable (t s : nat) (q : timer_queue) : bool :=
  bool_decide (s <> t) && negb (is_active t q) && (is_active s q || (Z.of_nat (length (heap_ q)) <=? heap_index_ (timer q s))%Z).

Lemma represents_move m q t s : represents m q -> movable t s q = true -> represents (moved t s m) (move_timer t s q).
Proof.
  intros Hr [[Hst%bool_decide_eq_true Hat%negb_true_iff]%andb_prop Has]%andb_prop.
  pose proof Hr as [(L & Hl & Hp) Hi Hs Hmap Hidle].
  rewrite (represents_active m) in Hat, Has by done. apply bool_decide_eq_false in Hat. apply eq_None_not_Some in Hat.
  assert (t ∉ (heap_ q).*2) as Hth by (rewrite (represents_heap m), Hat by done; apply is_Some_None).
  assert (t ∉ L) as HtL by (by rewrite <- Hp).
  assert (s ∉ (heap_ q).*2 <-> (Z.of_nat (length (heap_ q)) <= heap_index_ (timer q s))%Z) as Hsh.
  { rewrite (represents_heap m) by done. split.
    - intros Hno. rewrite bool_decide_eq_false_2 in Has by done. by apply Z.leb_le.
    - intros Hge [[tm os] Hms]. apply Hmap in Hms as [[i Hii]%list_elem_of_lookup _].
      pose proof (Hi i _ Hii) as Hidx. apply lookup_lt_Some in Hii. cbn in Hidx. lia. }
  destruct (move_queue L t s q Hl HtL Hst Hi) as [Hheap Htim]; [by apply Hsh|by apply Hsh|].
  assert (forall x, x <> t -> _) as Hren by exact (fun x Hx => move_renamed L t s q x Hl HtL Hst Hx (Hidle t Hat)).
  assert (forall x, x ∈ L -> x <> t) as HLt by (by intros x Hx ->). cbn zeta in Hren.
  split.
  - exists (renamed s t <$> L). split; [|rewrite Hheap, <- Hp, <- !list_fmap_compose; done].
    destruct Hl as [Hn Hh Hseg Ho]. split.
    + apply NoDup_fmap_2_strong; [|done]. intros x y Hx Hy. by apply renamed_inj; auto.
    + rewrite Htim, Hh. by destruct L.
    + apply (seg_renamed s t q _ None L None); [|done]. intros x Hx. destruct (Hren x (HLt x Hx)) as (_ & _ & ? & ?). done.
    + intros x Hx. destruct (decide (x = s)) as [->|Hxs]; [rewrite (move_timers L) by done; by rewrite decide_True|].
      destruct (decide (x = t)) as [->|Hxt].
      * assert (s ∉ L) as HsL by (intros HsL; apply Hx, list_elem_of_fmap; exists s; rewrite renamed_spec, decide_True; done).
        rewrite (move_timers L), decide_False, decide_True by done. destruct (Ho s HsL). done.
      * assert (x ∉ L) as HxL by (intros HxL; apply Hx, list_elem_of_fmap; exists x; rewrite renamed_spec, decide_False; done).
        destruct (Ho x HxL) as [Hpx Hnx]. destruct (Hren x Hxt) as (_ & _ & Hp' & Hn').
        rewrite renamed_spec, decide_False in Hp', Hn' by done. by rewrite Hp', Hn', Hpx, Hnx.
  - intros i e. rewrite Hheap, list_lookup_fmap. destruct (heap_ q !! i) as [[tm x]|] eqn:He; [|done]. intros [= <-]. cbn [snd].
    assert (x <> t) as Hx. { intros ->. apply Hth, list_elem_of_fmap. exists (tm, t). split; [done|by eapply list_elem_of_lookup_2]. }
    destruct (Hren x Hx) as (_ & -> & _). by apply (Hi i _ He).
  - unfold sorted_heap, time_at. rewrite Hheap, length_fmap. intros i Hi'. rewrite !list_lookup_fmap.
    specialize (Hs i Hi'). unfold time_at in Hs. destruct (heap_ q !! i), (heap_ q !! parent i); exact Hs.
  - intros x tm os. rewrite Hheap. destruct (decide (x = s)) as [->|Hxs].
    + rewrite moved_source by done. split; [done|]. intros [([tm' y] & [= _ Hy] & _)%list_elem_of_fmap _].
      rewrite renamed_spec in Hy. case_decide; congruence.
    + assert (exists y, y <> t /\ (x = renamed s t y \/ x = t /\ y = s)) as (y & Hy & Hxy).
      { destruct (decide (x = t)) as [->|Hxt]; [exists s; auto|exists x]. split; [done|]. left. by rewrite renamed_spec, decide_False. }
      assert (x = renamed s t y) as -> by (destruct Hxy as [?|[-> ->]]; [done|by rewrite renamed_spec, decide_True]).
      rewrite moved_renamed, Hmap by done. destruct (Hren y Hy) as (-> & _). apply and_iff_compat_r. split.
      * intros Hin. apply list_elem_of_fmap. by exists (tm, y).
      * intros ([tm' z] & [= -> Hz] & Hin)%list_elem_of_fmap. apply renamed_inj in Hz as ->; [done..|].
        intros ->. apply Hth, list_elem_of_fmap. by exists (tm', t).
  - intros x Hx. destruct (decide (x = s)) as [->|Hxs]; [rewrite (move_timers L) by done; by rewrite decide_True|].
    destruct (decide (x = t)) as [->|Hxt].
    + destruct (Hren s Hst) as (Ho & _). rewrite renamed_spec, decide_True in Ho by done. rewrite Ho. apply Hidle.
      pose proof (moved_renamed t s m s Hst Hat Hst) as Hm. rewrite renamed_spec, decide_True in Hm by done. by rewrite <- Hm.
    + destruct (Hren x Hxt) as (Ho & _). rewrite renamed_spec, decide_False in Ho by done. rewrite Ho. apply Hidle.
      pose proof (moved_renamed t s m x Hst Hat Hxt) as Hm. rewrite renamed_spec, decide_False in Hm by done. by rewrite <- Hm.
Qed.

(** ** What the queue promises *)

Abbreviation alarms := (gmap nat (Z * list wait_op)).

Inductive timer_request :=
  | EnqueueTimer (time : Z) (t : nat) (op : wait_op)
  | CancelTimer (t max_cancelled : nat)
  | CancelTimerByKey (t key : nat)
  | MoveTimer (target source : nat)
  | GetReadyTimers (now : Z)
  | GetAllTimers
  | WaitDuration (unit now max_duration : Z).
Inductive timer_answer := Interrupt (b : bool) | Dequeued (ops : list wait_op) | Moved (b : bool) | Delay (d : Z).

Definition serve (r : timer_request) (q : timer_queue) : timer_answer * timer_queue :=
  match r with
  | EnqueueTimer time t op => let '(b, q) := enqueue_timer time t op q in (Interrupt b, q)
  | CancelTimer t n => let '(ops, q) := cancel_timer t n q in (Dequeued ops, q)
  | CancelTimerByKey t key => let '(ops, q) := cancel_timer_by_key t key q in (Dequeued ops, q)
  | MoveTimer t s => if movable t s q then (Moved true, move_timer t s q) else (Moved false, q)
  | GetReadyTimers now => let '(ops, q) := get_ready_timers now q in (Dequeued ops, q)
  | GetAllTimers => let '(ops, q) := get_all_timers q in (Dequeued ops, q)
  | WaitDuration unit now max_duration => (Delay (wait_duration unit now max_duration q), q)
  end.

Fixpoint serve_all (rs : list timer_request) (q : timer_queue) : list timer_answer * timer_queue :=
  match rs with
  | [] => ([], q)
  | r :: rs => let '(a, q) := serve r q in let '(l, q) := serve_all rs q in (a :: l, q)
  end.

Definition keep (t : nat) (tm : Z) (os : list wait_op) (m : alarms) : alarms :=
  match os with [] => delete t m | _ => <[t := (tm, os)]> m end.

(** The earliest timers first, until none is due. *)
Inductive fires (now : Z) : alarms -> list wait_op -> alarms -> Prop :=
  | fires_none m : (forall t tm os, m !! t = Some (tm, os) -> (now < tm)%Z) -> fires now m [] m
  | fires_next m t tm os out m' :
      m !! t = Some (tm, os) -> (tm <= now)%Z ->
      (forall t' tm' os', m !! t' = Some (tm', os') -> (tm <= tm')%Z) ->
      fires now (delete t m) out m' -> fires now m ((finish None <$> os) ++ out) m'.

(** The delay is the time to the earliest timer ([subtract_saturates]), in units, and
    [max_duration] at most. *)
Definition delays (unit now max_duration : Z) (m : alarms) (d : Z) : Prop :=
  (m = ∅ /\ d = max_duration) \/
  exists t tm os, m !! t = Some (tm, os) /\ (forall t' tm' os', m !! t' = Some (tm', os') -> (tm <= tm')%Z) /\
    d = to_unit unit (subtract tm now) max_duration.

Definition alarm_step (m : alarms) (r : timer_request) (a : timer_answer) (m' : alarms) : Prop :=
  match r with
  | EnqueueTimer time t op =>
      match m !! t with
      | Some (tm, os) => m' = <[t := (tm, os ++ [op])]> m /\ a = Interrupt false
      | None =>
          m' = <[t := (time, [op])]> m /\
          exists b, a = Interrupt b /\
            (b = true -> forall t' tm os, m !! t' = Some (tm, os) -> (time <= tm)%Z) /\
            ((forall t' tm os, m !! t' = Some (tm, os) -> (time < tm)%Z) -> b = true)
      end
  | CancelTimer t n =>
      match m !! t with
      | Some (tm, os) => m' = keep t tm (drop n os) m /\ a = Dequeued (finish (Some operation_aborted) <$> take n os)
      | None => m' = m /\ a = Dequeued []
      end
  | CancelTimerByKey t key =>
      match m !! t with
      | Some (tm, os) =>
          m' = keep t tm (filter (fun op => cancellation_key_ op <> key) os) m /\
          a = Dequeued (finish (Some operation_aborted) <$> filter (fun op => cancellation_key_ op = key) os)
      | None => m' = m /\ a = Dequeued []
      end
  | MoveTimer t s =>
      exists b, a = Moved b /\ (b = true -> m' = moved t s m /\ m !! t = None) /\
        (b = false -> m' = m /\ (t = s \/ is_Some (m !! t) \/ m !! s = None))
  | GetReadyTimers now =>
      m' = filter (fun x => (now < x.2.1)%Z) m /\ exists ops, a = Dequeued ops /\ fires now m ops m'
  | GetAllTimers => m' = ∅ /\ exists ts, ts ≡ₚ (map_to_list m).*1 /\
      a = Dequeued (concat ((fun t => from_option snd [] (m !! t)) <$> ts))
  | WaitDuration unit now max_duration => m' = m /\ exists d, a = Delay d /\ delays unit now max_duration m d
  end.

Inductive alarm_run : alarms -> list timer_request -> list timer_answer -> alarms -> Prop :=
  | alarm_run_nil m : alarm_run m [] [] m
  | alarm_run_cons m r a m1 rs l m2 : alarm_step m r a m1 -> alarm_run m1 rs l m2 -> alarm_run m (r :: rs) (a :: l) m2.

(** Active timers have operations. *)
Definition tq_ok (m : alarms) (q : timer_queue) : Prop :=
  represents m q /\ forall t tm os, m !! t = Some (tm, os) -> os <> [].

Lemma ready_fires now m out m' : fires now m out m' -> m' = filter (fun x => (now < x.2.1)%Z) m.
Proof.
  induction 1 as [m Hall|m t tm os out m' Hm Hle Hmin Hf ->].
  - symmetry. apply map_filter_id. intros t [tm os] Hm. cbn. by eapply Hall.
  - apply map_filter_delete_not. intros y Hy. assert (Some y = Some (tm, os)) as [= ->] by (etransitivity; [symmetry; exact Hy|exact Hm]).
    cbn. lia.
Qed.

(** A timer whose operations are now [os] stays active if there are any left. *)
Lemma represents_keep m q t tm os os' : tq_ok m q -> m !! t = Some (tm, os) ->
  tq_ok (keep t tm os' m)
    (match op_queue_ (timer (on_timer t (set_ops os') q) t) with
     | [] => remove_timer t (on_timer t (set_ops os') q)
     | _ => on_timer t (set_ops os') q
     end).
Proof.
  intros [Hr Hops] Hm. pose proof (represents_ops m q t tm os os' Hr Hm) as Hr1.
  rewrite timer_on_timer, decide_True by done. cbn [op_queue_ set_ops]. destruct os' as [|o os']; cbn [keep].
  - split.
    + rewrite <- (delete_insert_eq m t (tm, [])). eapply represents_remove; [done|by rewrite lookup_insert_eq].
    + intros x tm' os2 Hx. apply lookup_delete_Some in Hx as [_ Hx]. by eapply Hops.
  - split; [done|]. intros x tm' os2 Hx. apply lookup_insert_Some in Hx as [[<- [= <- <-]]|[_ Hx]]; [done|by eapply Hops].
Qed.

Lemma enqueue_step time t op m q : tq_ok m q ->
  exists m', alarm_step m (EnqueueTimer time t op) (serve (EnqueueTimer time t op) q).1 m' /\
    tq_ok m' (serve (EnqueueTimer time t op) q).2.
Proof.
  intros [Hr Hops]. cbn [serve alarm_step]. unfold enqueue_timer.
  assert (forall os, on_timer t (fun d => set_ops (op_queue_ d ++ os) d) =
    fun q => on_timer t (set_ops (op_queue_ (timer q t) ++ os)) q) as Happ by done.
  rewrite (Happ [op]). destruct (m !! t) as [[tm os]|] eqn:Hm.
  - rewrite (represents_is_active m q t _ Hr Hm). cbn [fst snd].
    pose proof (proj2 (proj1 (rp_map _ _ Hr _ _ _) Hm)) as Hq. rewrite Hq.
    exists (<[t := (tm, os ++ [op])]> m). split; [split; [done|]|split].
    + f_equal. rewrite timer_on_timer, decide_True by done. cbn [op_queue_ set_ops]. rewrite length_app. cbn [length].
      rewrite (bool_decide_eq_false_2 (_ = _)); [by destruct (_ =? _)%Z|]. intros He.
      apply (Hops t tm os Hm), length_zero_iff_nil. lia.
    + by eapply represents_ops.
    + intros x tm' os2 Hx. apply lookup_insert_Some in Hx as [[<- [= <- <-]]|[_ Hx]]; [by destruct os|by eapply Hops].
  - rewrite (represents_not_active m q t Hr Hm). cbn [fst snd].
    pose proof (represents_activate m q time t Hr Hm) as Hr1.
    set (q1 := activate time t q) in *. clearbody q1.
    pose proof (proj2 (proj1 (rp_map _ _ Hr1 t time []) ltac:(by rewrite lookup_insert_eq))) as Hq. rewrite Hq.
    cbn [app]. pose proof (represents_ops _ q1 t time [] [op] Hr1 ltac:(by rewrite lookup_insert_eq)) as Hr2.
    rewrite insert_insert_eq in Hr2. exists (<[t := (time, [op])]> m).
    split; [split; [done|]|split; [done|]].
    + destruct (represents_first _ _ t time [op] Hr2 ltac:(by rewrite lookup_insert_eq)) as [H1 H2].
      eexists. split; [done|]. rewrite timer_on_timer in H1, H2. rewrite timer_on_timer.
      rewrite decide_True in H1, H2 by done. rewrite decide_True by done.
      cbn [heap_index_ op_queue_ set_ops length] in *. rewrite bool_decide_eq_true_2, andb_true_r by done. split.
      * intros Hz%Z.eqb_eq x tm os Hx. apply (H1 Hz x tm os). rewrite lookup_insert_ne; [done|]. intros ->. congruence.
      * intros Hlt. apply Z.eqb_eq, H2. intros x tm os Hx Hne. rewrite lookup_insert_ne in Hx by done. by eapply Hlt.
    + intros x tm' os2 Hx. apply lookup_insert_Some in Hx as [[<- [= <- <-]]|[_ Hx]]; [done|by eapply Hops].
Qed.

Lemma cancel_step t n m q : tq_ok m q ->
  exists m', alarm_step m (CancelTimer t n) (serve (CancelTimer t n) q).1 m' /\ tq_ok m' (serve (CancelTimer t n) q).2.
Proof.
  intros [Hr Hops]. cbn [serve alarm_step]. unfold cancel_timer.
  destruct (m !! t) as [[tm os]|] eqn:Hm.
  - rewrite (represents_is_active m q t _ Hr Hm). cbn [fst snd]. pose proof (proj2 (proj1 (rp_map _ _ Hr _ _ _) Hm)) as Hq. rewrite Hq.
    eexists. split; [done|]. by eapply represents_keep.
  - rewrite (represents_not_active m q t Hr Hm). by exists m.
Qed.

Lemma cancel_by_key_step t key m q : tq_ok m q ->
  exists m', alarm_step m (CancelTimerByKey t key) (serve (CancelTimerByKey t key) q).1 m' /\
    tq_ok m' (serve (CancelTimerByKey t key) q).2.
Proof.
  intros [Hr Hops]. cbn [serve alarm_step]. unfold cancel_timer_by_key.
  destruct (m !! t) as [[tm os]|] eqn:Hm.
  - rewrite (represents_is_active m q t _ Hr Hm). cbn [fst snd]. pose proof (proj2 (proj1 (rp_map _ _ Hr _ _ _) Hm)) as Hq. rewrite Hq.
    eexists. split; [done|]. by eapply represents_keep.
  - rewrite (represents_not_active m q t Hr Hm). by exists m.
Qed.

Lemma move_step t s m q : tq_ok m q ->
  exists m', alarm_step m (MoveTimer t s) (serve (MoveTimer t s) q).1 m' /\ tq_ok m' (serve (MoveTimer t s) q).2.
Proof.
  intros [Hr Hops]. cbn [serve alarm_step]. destruct (movable t s q) eqn:Hm; cbn [fst snd].
  - exists (moved t s m). split; [|split; [by apply represents_move|]].
    + exists true. split; [done|]. split; [|done]. intros _. split; [done|].
      apply andb_prop in Hm as [[_ Hat%negb_true_iff]%andb_prop _]. rewrite (represents_active m) in Hat by done.
      by apply bool_decide_eq_false, eq_None_not_Some in Hat.
    + intros x tm os. unfold moved. destruct (m !! s) as [[tm' os']|] eqn:Hs; [|apply Hops].
      intros [[<- [= <- <-]]|[_ Hx]]%lookup_insert_Some; [by apply (Hops s tm')|]. apply lookup_delete_Some in Hx as [_ Hx]. by apply (Hops x tm).
  - exists m. split; [|done]. exists false. split; [done|]. split; [done|]. intros _. split; [done|].
    destruct (decide (t = s)) as [->|Hst]; [by left|right]. destruct (m !! t) as [v|] eqn:Ht; [left; by exists v|right].
    destruct (m !! s) as [v|] eqn:Hs; [|done]. exfalso. unfold movable in Hm.
    rewrite (represents_not_active m q t Hr Ht), (represents_is_active m q s v Hr Hs), bool_decide_eq_true_2 in Hm by done. done.
Qed.

Lemma represents_empty m q : represents m q -> heap_ q = [] <-> m = ∅.
Proof.
  intros Hr. split.
  - intros Hh. apply map_empty. intros t. destruct (m !! t) as [[tm os]|] eqn:Hm; [|done].
    apply (rp_map _ _ Hr) in Hm as [Hin _]. rewrite Hh in Hin. by apply elem_of_nil in Hin.
  - intros ->. destruct (heap_ q) as [|[tm t] h] eqn:Hh; [done|].
    destruct (represents_head ∅ q tm t h Hr Hh) as [Hm _]. by rewrite lookup_empty in Hm.
Qed.

Lemma ready_loop_fires fuel now m q ops : tq_ok m q -> length (heap_ q) <= fuel ->
  exists out m', (ready_loop fuel now ops q).1 = ops ++ out /\ fires now m out m' /\ tq_ok m' (ready_loop fuel now ops q).2.
Proof.
  revert m q ops. induction fuel as [|fuel IH]; intros m q ops Hok Hf; cbn [ready_loop].
  { exists [], m. rewrite app_nil_r. split_and!; [done| |done]. destruct Hok as [Hr _].
    assert (heap_ q = []) as Hh by (apply length_zero_iff_nil; lia).
    apply (represents_empty m) in Hh as ->; [|done]. by constructor. }
  pose proof Hok as [Hr Hops]. destruct (heap_ q) as [|[tm t] h] eqn:Hh.
  { exists [], m. rewrite app_nil_r. split_and!; [done| |done]. apply (represents_empty m) in Hh as ->; [|done]. by constructor. }
  destruct (represents_head m q tm t h Hr Hh) as [Hm Hmin]. destruct (Z.ltb_spec now tm) as [Hlt|Hle].
  { exists [], m. rewrite app_nil_r. split_and!; [done| |done]. constructor. intros t' tm' os' Hm'. specialize (Hmin _ _ _ Hm'). lia. }
  pose proof (represents_ops m q t tm _ [] Hr Hm) as Hr1.
  destruct (represents_remove _ _ t tm Hr1 ltac:(by rewrite lookup_insert_eq)) as [Hr2 Hlen].
  rewrite delete_insert_eq in Hr2.
  assert (tq_ok (delete t m) (remove_timer t (on_timer t (set_ops []) q))) as Hok2.
  { split; [done|]. intros x tm' os2 Hx. apply lookup_delete_Some in Hx as [_ Hx]. by eapply Hops. }
  destruct (IH (delete t m) (remove_timer t (on_timer t (set_ops []) q)) (ops ++ (finish None <$> op_queue_ (timer q t))))
    as (out & m' & He & Hfi & Hok'); [done|change (heap_ (on_timer t (set_ops []) q)) with (heap_ q) in Hlen;
      rewrite Hh in Hlen; cbn [length] in Hlen, Hf; lia|].
  exists ((finish None <$> op_queue_ (timer q t)) ++ out), m'. split_and!; [by rewrite He, app_assoc| |done].
  by eapply fires_next.
Qed.

Lemma ready_step now m q : tq_ok m q ->
  exists m', alarm_step m (GetReadyTimers now) (serve (GetReadyTimers now) q).1 m' /\ tq_ok m' (serve (GetReadyTimers now) q).2.
Proof.
  intros Hok. cbn [serve alarm_step]. unfold get_ready_timers.
  destruct (ready_loop_fires (length (heap_ q)) now m q [] Hok ltac:(done)) as (out & m' & He & Hf & Hok').
  destruct (ready_loop _ now [] q) as [ops q']. cbn in *. subst ops. exists m'. split; [|done].
  split; [by eapply ready_fires|]. by exists out.
Qed.

Lemma wait_step unit now max_duration m q : tq_ok m q ->
  exists m', alarm_step m (WaitDuration unit now max_duration) (serve (WaitDuration unit now max_duration) q).1 m' /\
    tq_ok m' (serve (WaitDuration unit now max_duration) q).2.
Proof.
  intros [Hr Hops]. exists m. split; [|done]. split; [done|]. eexists. split; [done|]. unfold wait_duration, delays.
  destruct (heap_ q) as [|[tm t] h] eqn:Hh.
  - left. split; [by apply (represents_empty m q Hr)|done].
  - right. destruct (represents_head m q tm t h Hr Hh) as [Hm Hmin]. by exists t, tm, (op_queue_ (timer q t)).
Qed.

(** The forward links alone: [get_all_timers] clears a timer before it comes to the next. *)
Fixpoint forward (q : timer_queue) (L : list nat) : Prop :=
  match L with [] => True | t :: L => next_ (timer q t) = head L /\ forward q L end.

Lemma seg_forward q p L : seg q p L None -> forward q L.
Proof.
  revert p. induction L as [|t L IH]; intros p; [done|]. cbn. intros (_ & Hn & Hs).
  split; [by destruct L|by eapply IH].
Qed.
Lemma forward_ext q q' L : (forall t, t ∈ L -> next_ (timer q' t) = next_ (timer q t)) -> forward q L -> forward q' L.
Proof.
  induction L as [|t L IH]; intros He; [done|]. cbn. intros [Hn Hf]. split; [by rewrite He by left|].
  apply IH; [|done]. intros x Hx. apply He. by right.
Qed.

Lemma all_loop_spec fuel L ops q : NoDup L -> timers_ q = head L -> forward q L -> length L <= fuel ->
  (all_loop fuel ops q).1 = ops ++ concat ((fun t => op_queue_ (timer q t)) <$> L) /\
  timers_ (all_loop fuel ops q).2 = None /\
  forall x, timer (all_loop fuel ops q).2 x =
    if decide (x ∈ L) then set_prev None (set_next None (set_ops [] (timer q x))) else timer q x.
Proof.
  revert L ops q. induction fuel as [|fuel IH]; intros L ops q Hn Hh Hf Hlen; cbn [all_loop].
  { destruct L; [|cbn in Hlen; lia]. cbn. by rewrite app_nil_r. }
  destruct L as [|t L]; cbn [head] in Hh; rewrite Hh; cbn [fst snd].
  { cbn. by rewrite app_nil_r. }
  apply NoDup_cons in Hn as [Ht Hn]. cbn [forward] in Hf. destruct Hf as [Hnx Hf].
  set (q1 := on_timer t _ _).
  assert (forall x, timer q1 x = if decide (t = x) then set_prev None (set_next None (set_ops [] (timer q t))) else timer q x) as H1.
  { intros x. unfold q1. by rewrite timer_on_timer. }
  change (timer (set_timers (next_ (timer q t)) q) t) with (timer q t).
  destruct (IH L (ops ++ op_queue_ (timer q t)) q1) as (E1 & E2 & E3);
    [done|by rewrite <- Hnx| |cbn in Hlen; lia|].
  { eapply forward_ext; [|done]. intros x Hx. rewrite H1, decide_False; [done|]. by intros ->. }
  rewrite E1. split_and!; [|done|].
  - rewrite <- app_assoc. cbn. do 3 f_equal. apply list_fmap_ext. intros i x Hx. rewrite H1, decide_False; [done|].
    intros ->. apply Ht. by eapply list_elem_of_lookup_2.
  - intros x. rewrite E3, !H1. destruct (decide (x ∈ L)) as [Hx|Hx].
    + rewrite decide_False by (by intros ->). by rewrite decide_True by (by right).
    + destruct (decide (t = x)) as [<-|Hne].
      * by rewrite decide_True by left.
      * rewrite decide_False; [done|]. rewrite elem_of_cons. intros [->|?]; done.
Qed.

Lemma get_all_step m q : tq_ok m q ->
  exists m', alarm_step m GetAllTimers (serve GetAllTimers q).1 m' /\ tq_ok m' (serve GetAllTimers q).2.
Proof.
  intros [Hr Hops]. exists ∅. destruct (rp_listed _ _ Hr) as (L & [Hn Hh Hs Ho] & Hp).
  cbn [serve alarm_step]. unfold get_all_timers.
  destruct (all_loop_spec (length (heap_ q)) L [] q Hn Hh (seg_forward _ _ _ Hs)) as (E1 & E2 & E3).
  { by rewrite <- Hp, length_fmap. }
  destruct (all_loop _ [] q) as [ops q']. cbn in E1, E2, E3. subst ops. cbn [fst snd].
  assert (forall x, x ∈ L <-> is_Some (m !! x)) as HL by (intros x; rewrite <- Hp; by apply represents_heap).
  split; [split; [done|]|split; [split|]].
  - exists L. split.
    + apply NoDup_Permutation; [done|apply NoDup_fst_map_to_list|]. intros x. rewrite HL, list_elem_of_fmap. split.
      * intros [v Hv]. exists (x, v). split; [done|by apply elem_of_map_to_list].
      * intros ([y v] & -> & Hv%elem_of_map_to_list). by exists v.
    + do 2 f_equal. apply list_fmap_ext. intros i x Hx.
      assert (is_Some (m !! x)) as [[tm os] Hm] by (apply HL; by eapply list_elem_of_lookup_2).
      rewrite Hm. cbn. by apply (rp_map _ _ Hr) in Hm as [_ ->].
  - exists []. split; [|done]. split; [constructor|done|done|]. intros x _. change (timer (set_heap [] q') x) with (timer q' x).
    rewrite E3. case_decide; [done|by apply Ho].
  - intros i e. cbn. by rewrite lookup_nil.
  - intros i Hi. cbn in Hi. lia.
  - intros x tm os. rewrite lookup_empty. split; [done|]. cbn. intros [Hx _]. by apply elem_of_nil in Hx.
  - intros x _. change (timer (set_heap [] q') x) with (timer q' x). rewrite E3. case_decide as Hx; [done|].
    apply (rp_idle _ _ Hr). apply eq_None_not_Some. by rewrite <- HL.
  - intros x tm os. by rewrite lookup_empty.
Qed.

Lemma serve_step r m q : tq_ok m q -> exists m', alarm_step m r (serve r q).1 m' /\ tq_ok m' (serve r q).2.
Proof.
  destruct r; [apply enqueue_step|apply cancel_step|apply cancel_by_key_step|apply move_step|apply ready_step|apply get_all_step|apply wait_step].
Qed.

Lemma new_timer_queue_ok : tq_ok ∅ new_timer_queue.
Proof.
  assert (forall x, timer new_timer_queue x = new_timer) as Ht by (intros x; unfold timer; cbn; by rewrite lookup_empty).
  split; [split|].
  - exists []. split; [|done]. split; [constructor|done|done|]. intros x _. by rewrite Ht.
  - intros i e. cbn. by rewrite lookup_nil.
  - intros i Hi. cbn in Hi. lia.
  - intros x tm os. rewrite lookup_empty. split; [done|]. cbn. intros [Hx _]. by apply elem_of_nil in Hx.
  - intros x _. by rewrite Ht.
  - intros x tm os. by rewrite lookup_empty.
Qed.

Lemma serve_all_run rs m q : tq_ok m q -> exists m', alarm_run m rs (serve_all rs q).1 m' /\ tq_ok m' (serve_all rs q).2.
Proof.
  revert m q. induction rs as [|r rs IH]; intros m q Hok; cbn [serve_all].
  { exists m. split; [constructor|done]. }
  destruct (serve_step r m q Hok) as (m1 & Hs & Hok1). destruct (serve r q) as [a q1]. cbn [fst snd] in *.
  destruct (IH m1 q1 Hok1) as (m2 & Hrun & Hok2). destruct (serve_all rs q1) as [l q2]. cbn [fst snd] in *.
  exists m2. split; [by econstructor|done].
Qed.

(** ** Counting the operations that wait *)

(** Those whose numbers are counted. *)
Definition count_ops (counted : nat -> bool) (ops : list wait_op) : Z :=
  Z.of_nat (length (List.filter (fun op => counted (op_id op)) ops)).
Definition waits_of (counted : nat -> bool) (q : timer_queue) : Z :=
  map_sum (fun d => count_ops counted (op_queue_ d)) (data q).

Section counting.
Context (counted : nat -> bool).
#[local] Abbreviation count := (count_ops counted).
#[local] Abbreviation waits := (waits_of counted).

Lemma count_app os os' : count (os ++ os') = (count os + count os')%Z.
Proof. unfold count_ops. rewrite List.filter_app, length_app. lia. Qed.
Lemma count_finish e os : count (finish e <$> os) = count os.
Proof.
  induction os as [|o os IH]; [done|]. rewrite fmap_cons. unfold count_ops in *; cbn. destruct (counted (op_id o)); cbn; lia.
Qed.
Lemma count_split n os : (count (take n os) + count (drop n os))%Z = count os.
Proof. by rewrite <- count_app, take_drop. Qed.
Lemma count_filter (P : wait_op -> Prop) `{!forall op, Decision (P op)} os :
  (count (filter P os) + count (filter (fun op => ~ P op) os))%Z = count os.
Proof.
  induction os as [|o os IH]; [done|]. rewrite !filter_cons.
  destruct (decide (P o)); [rewrite decide_False by auto|rewrite decide_True by done];
    unfold count_ops in *; cbn; destruct (counted (op_id o)); cbn; lia.
Qed.

Lemma waits_on_timer t f q : waits (on_timer t f q) = (waits q + count (op_queue_ (f (timer q t))) - count (op_queue_ (timer q t)))%Z.
Proof. unfold waits_of, on_timer; cbn. by apply (map_sum_insert (fun d => count (op_queue_ d))). Qed.
Lemma waits_keep t f q : (forall d, op_queue_ (f d) = op_queue_ d) -> waits (on_timer t f q) = waits q.
Proof. intros Hf. rewrite waits_on_timer, Hf. lia. Qed.

Lemma waits_swap i j q : waits (swap_heap i j q) = waits q.
Proof.
  unfold swap_heap. destruct (heap_ q !! i), (heap_ q !! j); [|done..]. by rewrite !waits_keep.
Qed.
Lemma waits_up fuel i q : waits (up_heap fuel i q) = waits q.
Proof.
  revert i q. induction fuel as [|fuel IH]; intros i q; cbn [up_heap]; [done|].
  destruct (_ && _); [|done]. by rewrite IH, waits_swap.
Qed.
Lemma waits_down fuel i q : waits (down_heap fuel i q) = waits q.
Proof.
  revert i q. induction fuel as [|fuel IH]; intros i q; cbn [down_heap]; [done|].
  destruct (_ <? _); [|done]. destruct (less q i _); [done|]. by rewrite IH, waits_swap.
Qed.
Lemma waits_pop_back q : waits (pop_back q) = waits q.
Proof. done. Qed.
Lemma waits_leave t q : waits (leave_heap t q) = waits q.
Proof.
  unfold leave_heap. destruct (_ <? _)%Z; [|done]. destruct (_ =? _); [by rewrite waits_pop_back, waits_keep|].
  destruct (_ && _); by rewrite ?waits_up, ?waits_down, waits_pop_back, waits_keep, waits_swap.
Qed.
Lemma waits_unlink t q : waits (unlink t q) = waits q.
Proof.
  unfold unlink. rewrite waits_keep by done.
  set (q1 := if bool_decide (timers_ q = Some t) then _ else q).
  assert (waits q1 = waits q) as <- by (unfold q1; by destruct (bool_decide _)).
  set (q2 := match prev_ (timer q1 t) with Some _ => _ | None => _ end).
  assert (waits q2 = waits q1) as <- by (unfold q2; case_match; [by apply waits_keep|done]).
  case_match; [by apply waits_keep|done].
Qed.
Lemma waits_remove t q : waits (remove_timer t q) = waits q.
Proof. unfold remove_timer. by rewrite waits_unlink, waits_leave. Qed.
Lemma waits_activate time t q : waits (activate time t q) = waits q.
Proof.
  unfold activate, link_front. change (waits (set_timers ?x ?y)) with (waits y). set (q1 := up_heap _ _ _).
  assert (waits q1 = waits q) as <-.
  { unfold q1. rewrite waits_up. change (waits (set_heap ?h ?x)) with (waits x). by apply waits_keep. }
  set (q2 := on_timer t _ q1). assert (waits q2 = waits q1) as <- by by apply waits_keep.
  destruct (timers_ q2); [by apply waits_keep|done].
Qed.

(** An operation that is enqueued waits; those handed over no longer do. *)
Lemma waits_of_enqueue time t op q : waits (enqueue_timer time t op q).2 = (waits q + count [op])%Z.
Proof.
  unfold enqueue_timer; cbn [snd]. rewrite waits_on_timer. cbn [op_queue_ set_ops]. rewrite count_app.
  destruct (is_active t q); rewrite ?waits_activate; lia.
Qed.
Lemma waits_of_ready_loop fuel now ops q :
  (count (ready_loop fuel now ops q).1 + waits (ready_loop fuel now ops q).2 = count ops + waits q)%Z.
Proof.
  revert ops q. induction fuel as [|fuel IH]; intros ops q; cbn [ready_loop]; [done|].
  destruct (heap_ q) as [|[time t] h]; [done|]. destruct (_ <? _)%Z; [done|].
  rewrite IH, waits_remove, waits_on_timer, count_app, count_finish. change (count (op_queue_ (set_ops [] _))) with 0%Z. lia.
Qed.
Lemma waits_of_ready now q : (count (get_ready_timers now q).1 + waits (get_ready_timers now q).2 = waits q)%Z.
Proof. unfold get_ready_timers. by rewrite waits_of_ready_loop. Qed.
Lemma waits_of_all_loop fuel ops q : (count (all_loop fuel ops q).1 + waits (all_loop fuel ops q).2 = count ops + waits q)%Z.
Proof.
  revert ops q. induction fuel as [|fuel IH]; intros ops q; cbn [all_loop]; [done|].
  destruct (timers_ q) as [t|]; [|done]. rewrite IH, waits_on_timer, count_app. change (count (op_queue_ (set_prev _ _))) with 0%Z.
  change (timer (set_timers _ q) t) with (timer q t). change (waits (set_timers _ q)) with (waits q). lia.
Qed.
Lemma waits_of_get_all q : (count (get_all_timers q).1 + waits (get_all_timers q).2 = waits q)%Z.
Proof.
  unfold get_all_timers. pose proof (waits_of_all_loop (length (heap_ q)) [] q) as Hl.
  by destruct (all_loop _ [] q) as [ops q'].
Qed.
Lemma waits_of_cancel t n q : (count (cancel_timer t n q).1 + waits (cancel_timer t n q).2 = waits q)%Z.
Proof.
  unfold cancel_timer. destruct (is_active t q); [|done]. cbn [fst snd]. rewrite count_finish.
  pose proof (count_split n (op_queue_ (timer q t))) as Hs.
  set (q1 := on_timer t _ q). assert (waits q1 = (waits q - count (take n (op_queue_ (timer q t))))%Z) as Hq.
  { unfold q1. rewrite waits_on_timer. cbn [op_queue_ set_ops]. lia. }
  destruct (op_queue_ (timer q1 t)); rewrite ?waits_remove; lia.
Qed.
Lemma waits_of_cancel_by_key t key q :
  (count (cancel_timer_by_key t key q).1 + waits (cancel_timer_by_key t key q).2 = waits q)%Z.
Proof.
  unfold cancel_timer_by_key. destruct (is_active t q); [|done]. cbn [fst snd]. rewrite count_finish.
  set (os := op_queue_ (timer q t)). pose proof (count_filter (fun op => cancellation_key_ op = key) os) as Hs. cbn beta in Hs.
  set (q1 := on_timer t _ q). assert (waits q1 = (waits q - count (filter (fun op => cancellation_key_ op = key) os))%Z) as Hq.
  { unfold q1. rewrite waits_on_timer. cbn [op_queue_ set_ops]. fold os. lia. }
  destruct (op_queue_ (timer q1 t)); rewrite ?waits_remove; lia.
Qed.
Lemma waits_move t s q : s <> t -> waits (move_timer t s q) = waits q.
Proof.
  intros Hst. unfold move_timer. rewrite !waits_keep by done. set (q1 := on_timer s (set_index no_index) _).
  set (q2 := if (_ <? _)%Z then set_heap _ q1 else q1). set (q3 := if bool_decide _ then set_timers _ q2 else q2).
  assert (waits q3 = waits q1) as Hq3 by (unfold q3, q2; by destruct (bool_decide _), (_ <? _)%Z). clearbody q2 q3.
  set (q4 := match prev_ (timer q3 s) with Some _ => _ | None => _ end).
  assert (waits q4 = waits q3) as Hq4 by (unfold q4; case_match; [by apply waits_keep|done]). clearbody q4.
  transitivity (waits q4); [case_match; [by apply waits_keep|done]|]. rewrite Hq4, Hq3. unfold q1.
  rewrite !waits_keep by done. rewrite !waits_on_timer, timer_on_timer. rewrite decide_False by done.
  cbn [op_queue_ set_ops]. rewrite count_app. change (count []) with 0%Z. lia.
Qed.
End counting.

(** All of them. *)
Definition every (id : nat) : bool := true.
Definition waits : timer_queue -> Z := waits_of every.
Lemma count_every os : count_ops every os = Z.of_nat (length os).
Proof. induction os as [|o os IH]; [done|]. unfold count_ops in *; cbn. lia. Qed.
Lemma waits_enqueue time t op q : waits (enqueue_timer time t op q).2 = (waits q + 1)%Z.
Proof. apply (waits_of_enqueue every). Qed.
Lemma waits_ready now q :
  (Z.of_nat (length (get_ready_timers now q).1) + waits (get_ready_timers now q).2 = waits q)%Z.
Proof. rewrite <- count_every. apply waits_of_ready. Qed.
Lemma waits_cancel t n q :
  (Z.of_nat (length (cancel_timer t n q).1) + waits (cancel_timer t n q).2 = waits q)%Z.
Proof. rewrite <- count_every. apply waits_of_cancel. Qed.
Lemma waits_cancel_by_key t key q :
  (Z.of_nat (length (cancel_timer_by_key t key q).1) + waits (cancel_timer_by_key t key q).2 = waits q)%Z.
Proof. rewrite <- count_every. apply waits_of_cancel_by_key. Qed.

(** C34: whatever is asked of a timer queue, it behaves as a map from the active timers to
    their times and waiting operations: an operation joins those of its timer or makes the
    timer active, cancelling takes the operations it names with [operation_aborted],
    [get_ready_timers] hands over the operations of the timers that are due, the earliest
    timers first and each timer's in order, and leaves exactly the timers that are not due,
    a timer that is moved keeps its time, its operations and its place, the delay is that of the earliest timer; the heap stays a heap, every timer in it knows
    its place, and the linked list holds the same timers. *)
Theorem timer_queue_refines rs :
  exists m, alarm_run ∅ rs (serve_all rs new_timer_queue).1 m /\ tq_ok m (serve_all rs new_timer_queue).2.
Proof. apply serve_all_run, new_timer_queue_ok. Qed.

(** Three timers, one of them with two operations: the two that are due fire in the order
    of their times, and the third stays. *)
Example timers_fire_in_order :
  let op i := WaitOp i None 0 in
  (serve_all [EnqueueTimer 30 1 (op 1); EnqueueTimer 20 2 (op 2); EnqueueTimer 10 3 (op 3); EnqueueTimer 10 3 (op 4);
     GetReadyTimers 25; WaitDuration 1 25 100; CancelTimer 1 5; WaitDuration 1 25 100] new_timer_queue).1 =
  [Interrupt true; Interrupt true; Interrupt true; Interrupt false; Dequeued [op 3; op 4; op 2]; Delay 5;
   Dequeued [WaitOp 1 (Some operation_aborted) 0]; Delay 100].
Proof. vm_compute. reflexivity. Qed.
