(* ===== verification/LinkedList.v ===== *)
(** * The intrusive lists of asio

    Strands, the objects of a pool and the active timers are kept in doubly linked lists
    whose links are in the objects themselves: [push_front] and [unlink] are the same code in
    [detail/object_pool.hpp] and [detail/impl/strand_executor_service.ipp].  An object is
    known by its address; its links are in a map. *)
From S2P Require Import Prelude.
Open Scope nat_scope.

Record links := Links { next_ : option nat; prev_ : option nat }.
Definition no_links : links := Links None None.

(** The head of a list, and the links of every object. *)
Record chain := Chain { first : option nat; nodes : gmap nat links }.

Definition node (c : chain) (t : nat) : links := default no_links (nodes c !! t).
Definition set_next (n : option nat) (l : links) : links := Links n (prev_ l).
Definition set_prev (p : option nat) (l : links) : links := Links (next_ l) p.
Definition on_node (t : nat) (f : links -> links) (c : chain) : chain := Chain (first c) (<[t := f (node c t)]> (nodes c)).
Definition set_first (t : option nat) (c : chain) : chain := Chain t (nodes c).

Definition push_front (t : nat) (c : chain) : chain :=
  let c := on_node t (fun _ => Links (first c) None) c in
  let c := match first c with Some h => on_node h (set_prev (Some t)) c | None => c end in
  set_first (Some t) c.

(** The links of [t] itself stay as they are. *)
Definition unlink (t : nat) (c : chain) : chain :=
  let c := if bool_decide (first c = Some t) then set_first (next_ (node c t)) c else c in
  let c := match prev_ (node c t) with Some p => on_node p (set_next (next_ (node c t))) c | None => c end in
  match next_ (node c t) with Some n => on_node n (set_prev (prev_ (node c t))) c | None => c end.

(** [for (o = first; o; o = o->next_)], as far as the fuel goes. *)
Fixpoint walk (fuel : nat) (o : option nat) (c : chain) : list nat :=
  match fuel, o with
  | S fuel, Some t => t :: walk fuel (next_ (node c t)) c
  | _, _ => []
  end.

(** ** The list in the links *)

Record linked (L : list nat) (c : chain) : Prop := {
  lk_nodup : NoDup L;
  lk_first : first c = head L;
  lk_node : forall i t, L !! i = Some t -> node c t = Links (L !! S i) (match i with O => None | S j => L !! j end);
}.

Lemma node_on_node t f c x : node (on_node t f c) x = if decide (t = x) then f (node c t) else node c x.
Proof.
  unfold node at 1; cbn. destruct (decide (t = x)) as [<-|Hne]; [by rewrite lookup_insert_eq|by rewrite lookup_insert_ne].
Qed.
Lemma linked_empty c : first c = None -> linked [] c.
Proof. intros Hf. split; [constructor|done|done]. Qed.
Lemma linked_place L c i j t : linked L c -> L !! i = Some t -> L !! j = Some t -> i = j.
Proof. intros [Hn _ _]. by apply NoDup_alt. Qed.
(** Who is in a list is told by its links: the object is first, or something is before it. *)
Lemma linked_head L c t : linked L c -> first c = Some t <-> L !! 0 = Some t.
Proof. intros [_ -> _]. by destruct L. Qed.

Lemma push_front_node t c x : first c <> Some t ->
  node (push_front t c) x =
    if decide (t = x) then Links (first c) None
    else if decide (first c = Some x) then set_prev (Some t) (node c x) else node c x.
Proof.
  intros Hne. unfold push_front. change (node (set_first ?o ?c') x) with (node c' x). cbn [first on_node].
  destruct (first c) as [h|]; rewrite !node_on_node; repeat case_decide; simplify_eq; done.
Qed.
Lemma push_front_linked t L c : linked L c -> t ∉ L -> linked (t :: L) (push_front t c).
Proof.
  intros [Hn Hf Hl] Ht. assert (first c <> Some t) as Hne by (rewrite Hf; destruct L; [done|intros [= ->]; apply Ht; left]).
  split; [by apply NoDup_cons|done|]. intros [|k] x Hx; cbn [lookup list_lookup] in Hx; rewrite push_front_node by done.
  - injection Hx as ->. rewrite decide_True by done. rewrite Hf. by destruct L.
  - assert (x ∈ L) as HxL by (by eapply list_elem_of_lookup_2). rewrite decide_False by (by intros ->). rewrite (Hl k x Hx).
    destruct k as [|k].
    + rewrite decide_True by (rewrite Hf; by destruct L). done.
    + rewrite decide_False; [done|]. rewrite Hf. intros Hh.
      assert (L !! 0 = Some x) as H0 by (by destruct L). pose proof (proj1 (NoDup_alt L) Hn _ _ _ Hx H0). done.
Qed.

Lemma unlink_node t c x : prev_ (node c t) <> Some t -> next_ (node c t) <> Some t ->
  (forall y, prev_ (node c t) = Some y -> next_ (node c t) <> Some y) ->
  node (unlink t c) x =
    if decide (prev_ (node c t) = Some x) then set_next (next_ (node c t)) (node c x)
    else if decide (next_ (node c t) = Some x) then set_prev (prev_ (node c t)) (node c x)
    else node c x.
Proof.
  intros Hp Hn Hpn. unfold unlink. set (c1 := if bool_decide _ then _ else c).
  assert (forall y, node c1 y = node c y) as H1 by (intros y; unfold c1; by destruct (bool_decide _)). rewrite (H1 t).
  set (c2 := match prev_ (node c t) with Some p => _ | None => c1 end).
  assert (forall y, node c2 y = if decide (prev_ (node c t) = Some y) then set_next (next_ (node c t)) (node c y) else node c y) as H2.
  { intros y. unfold c2. destruct (prev_ (node c t)) as [p|]; [rewrite node_on_node|]; rewrite !H1; repeat case_decide; congruence. }
  assert (node c2 t = node c t) as H2t by (by rewrite H2, decide_False). clearbody c2. rewrite H2t.
  destruct (next_ (node c t)) as [n|] eqn:Hnx; [rewrite node_on_node|]; rewrite ?H2; repeat case_decide; simplify_eq; try done.
  by destruct (Hpn x).
Qed.
Lemma unlink_first t c : first (unlink t c) = if decide (first c = Some t) then next_ (node c t) else first c.
Proof.
  unfold unlink. set (c1 := if bool_decide _ then _ else c).
  assert (first c1 = if decide (first c = Some t) then next_ (node c t) else first c) as Hc1.
  { unfold c1. case_decide as Hd; [by rewrite bool_decide_eq_true_2|by rewrite bool_decide_eq_false_2]. }
  set (c2 := match prev_ (node c1 t) with Some p => _ | None => c1 end).
  assert (first c2 = first c1) as Hc2 by (unfold c2; by destruct (prev_ _)). rewrite <- Hc1, <- Hc2. by destruct (next_ (node c2 t)).
Qed.
Lemma unlink_linked i t L c : linked L c -> L !! i = Some t -> linked (delete i L) (unlink t c).
Proof.
  intros Hlk Hi. pose proof Hlk as [Hn Hf Hl]. pose proof (Hl i t Hi) as Ht.
  assert (forall k, L !! k = Some t -> k = i) as Huniq by (intros k Hk; by eapply linked_place).
  assert (forall j k y, L !! j = Some y -> L !! k = Some y -> j = k) as Hinj by (intros j k y; by eapply linked_place).
  assert (forall x, node (unlink t c) x =
    if decide (prev_ (node c t) = Some x) then set_next (next_ (node c t)) (node c x)
    else if decide (next_ (node c t) = Some x) then set_prev (prev_ (node c t)) (node c x) else node c x) as Hnode.
  { intros x. apply unlink_node; rewrite Ht; cbn.
    - destruct i as [|j]; [done|]. intros Hj. apply Huniq in Hj. lia.
    - intros Hs. apply Huniq in Hs. lia.
    - intros y. destruct i as [|j]; [done|]. intros Hj Hs. pose proof (Hinj _ _ _ Hj Hs). lia. }
  rewrite Ht in Hnode. cbn [next_ prev_] in Hnode. split.
  - apply (sublist_NoDup _ L); [done|apply sublist_delete].
  - rewrite unlink_first, Ht. cbn [next_]. destruct i as [|j].
    + rewrite decide_True by (rewrite Hf; by destruct L). by destruct L as [|? [|? ?]].
    + rewrite decide_False; [rewrite Hf; by destruct L|]. rewrite Hf. intros Hh.
      assert (L !! 0 = Some t) as H0 by (by destruct L). apply Huniq in H0. lia.
  - intros k x Hk. rewrite Hnode. destruct (decide (k < i)) as [Hlt|Hge].
    + rewrite list_lookup_delete_lt in Hk by done. rewrite (Hl k x Hk).
      assert (match k with O => None | S j => delete i L !! j end = match k with O => None | S j => L !! j end) as ->.
      { destruct k; [done|]. by rewrite list_lookup_delete_lt by lia. }
      destruct i as [|j]; [lia|]. destruct (decide (k = j)) as [->|Hkj].
      * rewrite decide_True by done. rewrite list_lookup_delete_ge by lia. done.
      * rewrite decide_False by (intros Hj; by apply Hkj, (Hinj k j x)). rewrite list_lookup_delete_lt by lia.
        rewrite decide_False; [done|]. intros Hs. pose proof (Hinj _ _ _ Hk Hs). lia.
    + rewrite list_lookup_delete_ge in Hk by lia. rewrite (Hl (S k) x Hk), list_lookup_delete_ge by lia.
      rewrite decide_False.
      2: { destruct i as [|j]; [done|]. intros Hj. pose proof (Hinj _ _ _ Hk Hj). lia. }
      destruct (decide (k = i)) as [->|Hki].
      * rewrite decide_True by done. unfold set_prev. cbn. f_equal. destruct i as [|j]; [done|]. by rewrite list_lookup_delete_lt by lia.
      * rewrite decide_False by (intros Hs; apply Hki; pose proof (Hinj _ _ _ Hk Hs); lia). f_equal.
        destruct k as [|k]; [lia|]. by rewrite list_lookup_delete_ge by lia.
Qed.

(** Walking along the links visits the list. *)
Lemma walk_from L c i fuel : linked L c -> length L <= fuel + i -> walk fuel (L !! i) c = drop i L.
Proof.
  intros Hlk. revert i. induction fuel as [|fuel IH]; intros i Hf; cbn [walk]; [by rewrite drop_ge|].
  destruct (L !! i) as [t|] eqn:Hi; [|by rewrite drop_ge by (by apply lookup_ge_None)].
  rewrite (lk_node _ _ Hlk i t Hi). cbn [next_]. rewrite IH by lia. symmetry. by apply drop_S.
Qed.
Lemma walk_linked L c fuel : linked L c -> length L <= fuel -> walk fuel (first c) c = L.
Proof.
  intros Hlk Hf. rewrite (lk_first _ _ Hlk). replace (head L) with (L !! 0) by (by destruct L). by rewrite (walk_from L) by (done || lia).
Qed.
