(* ===== verification/EpollReactor.v ===== *)
(** * [asio::detail::epoll_reactor]: readiness into completions

    Models [include/asio/detail/impl/epoll_reactor.ipp] and [detail/epoll_reactor.hpp] over
    the scheduler ([Scheduler]) and the timer queue ([TimerQueue]): the state of each
    registered descriptor with its three queues of operations, the attempts made when an
    operation is started and when the descriptor is reported ready, cancellation, the pool
    of descriptor states, and [run].  epoll is edge-triggered: what is not attempted when an
    event arrives is not announced again, and the proofs are about that.

    The system (epoll, the timer descriptor, the clock) and what an attempt of an operation
    does are a class; [SocketOps] has the attempts of the socket operations.  One timer
    queue is registered, that of [steady_timer].  A request holds the mutexes it takes
    from start to end, so it is one step. *)
From S2P Require Import Prelude SocketOps.
From S2P Require TimerQueue Scheduler.
Import Scheduler (machine, Machine, env, sched).
Open Scope Z_scope.

(** ** Events *)

Definition EPOLLIN : Z := 1.
Definition EPOLLPRI : Z := 2.
Definition EPOLLOUT : Z := 4.
Definition EPOLLERR : Z := 8.
Definition EPOLLHUP : Z := 16.
Definition EPOLLET : Z := 2 ^ 31.

(** [connect_op] is [write_op]. *)
Inductive op_type := read_op | write_op | except_op.

#[export] Instance op_type_eq_dec : EqDecision op_type.
Proof. solve_decision. Defined.

Definition flag (j : op_type) : Z :=
  match j with read_op => EPOLLIN | write_op => EPOLLOUT | except_op => EPOLLPRI end.

(** [events & (flag[j] | EPOLLERR | EPOLLHUP)] *)
Definition hits (j : op_type) (events : Z) : bool := has (Z.lor (Z.lor (flag j) EPOLLERR) EPOLLHUP) events.

(** An array indexed by the type of an operation. *)
Record per_type (A : Type) := PerType { of_read : A; of_write : A; of_except : A }.
Arguments PerType {A} _ _ _.
Arguments of_read {A} _.
Arguments of_write {A} _.
Arguments of_except {A} _.

Definition get {A} (j : op_type) (p : per_type A) : A :=
  match j with read_op => of_read p | write_op => of_write p | except_op => of_except p end.
Definition set {A} (j : op_type) (a : A) (p : per_type A) : per_type A :=
  match j with
  | read_op => PerType a (of_write p) (of_except p)
  | write_op => PerType (of_read p) a (of_except p)
  | except_op => PerType (of_read p) (of_write p) a
  end.
Definition all_types {A} (a : A) : per_type A := PerType a a a.

Inductive ctl := CtlAdd | CtlMod | CtlDel.

(** What an event of epoll points to. *)
Inductive source := Interrupter | TimerFd | Descriptor (d : nat).

Class Epoll := {
  Kern : Type;
  (** a [reactor_op] with its buffers, its error code and its cancellation key *)
  rop : Type;
  perform : rop -> Kern -> status * rop * Kern;
  set_op_ec : error -> rop -> rop;
  op_key : rop -> nat;
  (** descriptor, events, the descriptor state pointed to *)
  epoll_ctl : ctl -> Z -> Z -> nat -> Kern -> error_code * Kern;
  epoll_wait : Z -> Kern -> list (source * Z) * Kern;
  timerfd_settime : Z -> Z -> Kern -> Kern;     (** flags, microseconds *)
  interrupt_epoll : Kern -> Kern;
  clock : Kern -> Z;
}.

Section reactor.
  Context `{Epoll}.

(** [queued]: the state is an operation itself, and is linked in a queue of operations. *)
Record descriptor_state := DescriptorState {
  descriptor_ : Z;
  registered_events_ : Z;
  op_queue_ : per_type (list rop);
  try_speculative_ : per_type bool;
  shutdown_ : bool;
  task_result_ : Z;
  queued : bool;
}.

Definition new_descriptor_state : descriptor_state :=
  DescriptorState (-1) 0 (all_types []) (all_types false) false 0 false.

Definition set_descriptor (fd : Z) (s : descriptor_state) : descriptor_state :=
  DescriptorState fd (registered_events_ s) (op_queue_ s) (try_speculative_ s) (shutdown_ s) (task_result_ s) (queued s).
Definition set_registered (ev : Z) (s : descriptor_state) : descriptor_state :=
  DescriptorState (descriptor_ s) ev (op_queue_ s) (try_speculative_ s) (shutdown_ s) (task_result_ s) (queued s).
Definition set_ops (q : per_type (list rop)) (s : descriptor_state) : descriptor_state :=
  DescriptorState (descriptor_ s) (registered_events_ s) q (try_speculative_ s) (shutdown_ s) (task_result_ s) (queued s).
Definition set_speculative (p : per_type bool) (s : descriptor_state) : descriptor_state :=
  DescriptorState (descriptor_ s) (registered_events_ s) (op_queue_ s) p (shutdown_ s) (task_result_ s) (queued s).
Definition set_shutdown (b : bool) (s : descriptor_state) : descriptor_state :=
  DescriptorState (descriptor_ s) (registered_events_ s) (op_queue_ s) (try_speculative_ s) b (task_result_ s) (queued s).
Definition set_queued (b : bool) (s : descriptor_state) : descriptor_state :=
  DescriptorState (descriptor_ s) (registered_events_ s) (op_queue_ s) (try_speculative_ s) (shutdown_ s) (task_result_ s) b.
Definition set_ready_events (ev : Z) (s : descriptor_state) : descriptor_state :=
  DescriptorState (descriptor_ s) (registered_events_ s) (op_queue_ s) (try_speculative_ s) (shutdown_ s) ev (queued s).
Definition add_ready_events (ev : Z) (s : descriptor_state) : descriptor_state :=
  set_ready_events (Z.lor (task_result_ s) ev) s.

(** What the scheduler queues. *)
Inductive operation :=
  | DescriptorOp (d : nat)
  | ReactorOp (o : rop)
  | TimerOp (w : TimerQueue.wait_op).

(** The reactor, the system, and the operations completed so far. *)
Record reactor := Reactor {
  registered_descriptors_ : gmap nat descriptor_state;
  free_list_ : list nat;
  timers : TimerQueue.timer_queue;
  timer_fd_ : Z;
  stopping : bool;                   (** [shutdown_] of the reactor *)
  kern : Kern;
  handled : list operation;
}.

Definition state_of (d : nat) (r : reactor) : descriptor_state :=
  default new_descriptor_state (registered_descriptors_ r !! d).
Definition set_descriptors (f : gmap nat descriptor_state) (r : reactor) : reactor :=
  Reactor f (free_list_ r) (timers r) (timer_fd_ r) (stopping r) (kern r) (handled r).
Definition on_descriptor (d : nat) (f : descriptor_state -> descriptor_state) (r : reactor) : reactor :=
  set_descriptors (<[d := f (state_of d r)]> (registered_descriptors_ r)) r.
Definition set_free (l : list nat) (r : reactor) : reactor :=
  Reactor (registered_descriptors_ r) l (timers r) (timer_fd_ r) (stopping r) (kern r) (handled r).
Definition set_timers (q : TimerQueue.timer_queue) (r : reactor) : reactor :=
  Reactor (registered_descriptors_ r) (free_list_ r) q (timer_fd_ r) (stopping r) (kern r) (handled r).
Definition set_kern (k : Kern) (r : reactor) : reactor :=
  Reactor (registered_descriptors_ r) (free_list_ r) (timers r) (timer_fd_ r) (stopping r) k (handled r).
Definition set_handled (l : list operation) (r : reactor) : reactor :=
  Reactor (registered_descriptors_ r) (free_list_ r) (timers r) (timer_fd_ r) (stopping r) (kern r) l.

(** ** [run] *)

(** [get_timeout], in milliseconds and for the timer descriptor; times are nanoseconds. *)
Definition get_timeout (msec : Z) (r : reactor) : Z :=
  let max_msec := 5 * 60 * 1000 in
  TimerQueue.wait_duration 1000000 (clock (kern r)) (if (msec <? 0) || (max_msec <? msec) then max_msec else msec) (timers r).
Definition TFD_TIMER_ABSTIME : Z := 1.
(** The flags and the microseconds; with none left, an absolute time in the past (1 ns). *)
Definition timerfd_timeout (r : reactor) : Z * Z :=
  let usec := TimerQueue.wait_duration 1000 (clock (kern r)) (5 * 60 * 1000 * 1000) (timers r) in
  (if usec =? 0 then TFD_TIMER_ABSTIME else 0, usec).
Definition set_timer_fd (r : reactor) : reactor :=
  let '(flags, usec) := timerfd_timeout r in set_kern (timerfd_settime flags usec (kern r)) r.

Definition epoll_timeout (usec : Z) (r : reactor) : Z :=
  if usec =? 0 then 0
  else
    let timeout := if usec <? 0 then -1 else (usec - 1) / 1000 + 1 in
    if timer_fd_ r =? -1 then get_timeout timeout r else timeout.

(** One event: whether the timers have to be looked at, the operations, the reactor. *)
Definition dispatch (e : source * Z) (acc : bool * list operation * reactor) : bool * list operation * reactor :=
  let '(check_timers, ops, r) := acc in
  match e with
  | (Interrupter, _) => (check_timers || (timer_fd_ r =? -1), ops, r)
  | (TimerFd, _) => (true, ops, r)
  | (Descriptor d, events) =>
      if queued (state_of d r) then (check_timers, ops, on_descriptor d (add_ready_events events) r)
      else (check_timers, ops ++ [DescriptorOp d], on_descriptor d (fun s => set_queued true (set_ready_events events s)) r)
  end.

Definition run (usec : Z) (r : reactor) : list operation * reactor :=
  let '(events, k) := epoll_wait (epoll_timeout usec r) (kern r) in
  let '(check_timers, ops, r) := foldl (flip dispatch) (timer_fd_ r =? -1, [], set_kern k r) events in
  if (check_timers : bool) then
    let '(ws, q) := TimerQueue.get_ready_timers (clock (kern r)) (timers r) in
    let r := set_timers q r in
    (ops ++ (TimerOp <$> ws), if timer_fd_ r =? -1 then r else set_timer_fd r)
  else (ops, r).

#[export] Instance epoll_task : Scheduler.Reactor := {|
  Scheduler.Op := operation;
  Scheduler.Env := reactor;
  Scheduler.task_run := run;
|}.
#[local] Abbreviation machine := (@Scheduler.machine epoll_task).

Definition on_env (f : reactor -> reactor) (m : machine) : machine := Scheduler.set_env (f (env m)) m.
Definition post_deferred_completions (os : list operation) (m : machine) : machine :=
  foldl (fun m o => Scheduler.post_deferred_completion o m) m os.

(** ** Descriptors *)

(** [object_pool::alloc] and [free]. *)
Definition allocate_descriptor_state (r : reactor) : nat * reactor :=
  match free_list_ r with
  | d :: l => (d, set_free l r)
  | [] => let d := fresh (dom (registered_descriptors_ r)) in (d, on_descriptor d (fun _ => new_descriptor_state) r)
  end.
Definition free_descriptor_state (d : nat) (r : reactor) : reactor := set_free (d :: free_list_ r) r.

Definition all_events : Z := Z.lor (Z.lor (Z.lor (Z.lor EPOLLIN EPOLLERR) EPOLLHUP) EPOLLPRI) EPOLLET.

(** The state, and the error code. *)
Definition register_descriptor (fd : Z) (r : reactor) : (nat * error_code) * reactor :=
  let '(d, r) := allocate_descriptor_state r in
  let r := on_descriptor d (fun s =>
    set_registered all_events (set_speculative (all_types true) (set_shutdown false (set_descriptor fd s)))) r in
  let '(ec, k) := epoll_ctl CtlAdd fd all_events d (kern r) in
  let r := set_kern k r in
  if ec_is ec EPERM then ((d, None), on_descriptor d (set_registered 0) r) else ((d, ec), r).

(** ** Operations *)

Definition push_op (j : op_type) (o : rop) (s : descriptor_state) : descriptor_state :=
  set_ops (set j (get j (op_queue_ s) ++ [o]) (op_queue_ s)) s.
Definition no_ops (j : op_type) (s : descriptor_state) : bool :=
  match get j (op_queue_ s) with [] => true | _ => false end.

(** What [start_op] does under the mutex of the descriptor: the operation completes now, or
    it is queued. *)
Inductive started := Immediate (o : rop) | Queued.

Definition modify_events (fd : Z) (d : nat) (events : Z) (r : reactor) : error_code * reactor :=
  let '(ec, k) := epoll_ctl CtlMod fd events d (kern r) in (ec, set_kern k r).

(** After an attempt that did not end it, or without one. *)
Definition start_waiting (j : op_type) (fd : Z) (d : nat) (o : rop) (r : reactor) : started * reactor :=
  let events := registered_events_ (state_of d r) in
  if events =? 0 then (Immediate (set_op_ec operation_not_supported o), r)
  else if bool_decide (j = write_op) && negb (has EPOLLOUT events) then
    let '(ec, r) := modify_events fd d (Z.lor events EPOLLOUT) r in
    match ec with
    | None =>
        (Queued, on_descriptor d (fun s => push_op j o (set_registered (Z.lor events (Z.lor events EPOLLOUT)) s)) r)
    | Some e => (Immediate (set_op_ec e o), r)
    end
  else (Queued, on_descriptor d (push_op j o) r).

Definition start_speculative (j : op_type) (fd : Z) (d : nat) (o : rop) (r : reactor) : started * reactor :=
  if get j (try_speculative_ (state_of d r)) then
    let '((status, o), k) := perform o (kern r) in
    let r := set_kern k r in
    match status with
    | not_done => start_waiting j fd d o r
    | done => (Immediate o, r)
    | done_and_exhausted =>
        (Immediate o,
         if registered_events_ (state_of d r) =? 0 then r
         else on_descriptor d (fun s => set_speculative (set j false (try_speculative_ s)) s) r)
    end
  else start_waiting j fd d o r.

(** An operation that is not to be attempted: the registration is renewed, so that the
    system announces again what is ready. *)
Definition start_registered (j : op_type) (fd : Z) (d : nat) (o : rop) (r : reactor) : started * reactor :=
  let events := registered_events_ (state_of d r) in
  if events =? 0 then (Immediate (set_op_ec operation_not_supported o), r)
  else
    let events := if bool_decide (j = write_op) then Z.lor events EPOLLOUT else events in
    let '(_, r) := modify_events fd d events (on_descriptor d (set_registered events) r) in
    (Queued, on_descriptor d (push_op j o) r).

Definition start_locked (j : op_type) (fd : Z) (d : nat) (o : rop) (allow_speculative : bool) (r : reactor) : started * reactor :=
  let s := state_of d r in
  if shutdown_ s then (Immediate o, r)
  else if no_ops j s then
    if allow_speculative && (negb (bool_decide (j = read_op)) || no_ops except_op s)
    then start_speculative j fd d o r
    else start_registered j fd d o r
  else (Queued, on_descriptor d (push_op j o) r).

(** [descriptor_data] is null for a socket that is not open. *)
Definition start_op (j : op_type) (descriptor : Z) (descriptor_data : option nat) (o : rop) (is_continuation allow_speculative : bool)
    (m : machine) : machine :=
  match descriptor_data with
  | None => Scheduler.post_immediate_completion (ReactorOp (set_op_ec bad_descriptor o)) is_continuation m
  | Some d =>
      let '(outcome, r) := start_locked j descriptor d o allow_speculative (env m) in
      let m := Scheduler.set_env r m in
      match outcome with
      | Immediate o => Scheduler.post_immediate_completion (ReactorOp o) is_continuation m
      | Queued => Scheduler.work_started m
      end
  end.

(** All operations of a descriptor, aborted. *)
Definition aborted (s : descriptor_state) : list operation :=
  ReactorOp ∘ set_op_ec operation_aborted <$>
    (of_read (op_queue_ s) ++ of_write (op_queue_ s) ++ of_except (op_queue_ s)).

Definition cancel_ops (descriptor_data : option nat) (m : machine) : machine :=
  match descriptor_data with
  | None => m
  | Some d =>
      let ops := aborted (state_of d (env m)) in
      post_deferred_completions ops (on_env (on_descriptor d (set_ops (all_types []))) m)
  end.

Definition cancel_ops_by_key (descriptor_data : option nat) (j : op_type) (key : nat) (m : machine) : machine :=
  match descriptor_data with
  | None => m
  | Some d =>
      let q := get j (op_queue_ (state_of d (env m))) in
      let ops := ReactorOp ∘ set_op_ec operation_aborted <$> filter (fun o => op_key o = key) q in
      post_deferred_completions ops
        (on_env (on_descriptor d (fun s => set_ops (set j (filter (fun o => op_key o <> key) q) (op_queue_ s)) s)) m)
  end.

(** The new [descriptor_data]. *)
Definition deregister_descriptor (fd : Z) (descriptor_data : option nat) (closing : bool) (m : machine)
    : option nat * machine :=
  match descriptor_data with
  | None => (None, m)
  | Some d =>
      let s := state_of d (env m) in
      if shutdown_ s then (None, m)
      else
        let m := if negb closing && negb (registered_events_ s =? 0) then
                   on_env (fun r => set_kern (epoll_ctl CtlDel fd 0 d (kern r)).2 r) m
                 else m in
        let m := on_env (on_descriptor d (fun s => set_shutdown true (set_descriptor (-1) (set_ops (all_types []) s)))) m in
        (descriptor_data, post_deferred_completions (aborted s) m)
  end.
Definition cleanup_descriptor_data (descriptor_data : option nat) (m : machine) : machine :=
  match descriptor_data with Some d => on_env (free_descriptor_state d) m | None => m end.

(** ** Timers *)

Definition update_timeout (r : reactor) : reactor :=
  if timer_fd_ r =? -1 then set_kern (interrupt_epoll (kern r)) r else set_timer_fd r.

Definition schedule_timer (time : Z) (t : nat) (w : TimerQueue.wait_op) (m : machine) : machine :=
  if stopping (env m) then Scheduler.post_immediate_completion (TimerOp w) false m
  else
    let '(earliest, q) := TimerQueue.enqueue_timer time t w (timers (env m)) in
    let m := Scheduler.work_started (on_env (set_timers q) m) in
    if earliest then on_env update_timeout m else m.
Definition cancel_timer (t max_cancelled : nat) (m : machine) : machine :=
  let '(ws, q) := TimerQueue.cancel_timer t max_cancelled (timers (env m)) in
  post_deferred_completions (TimerOp <$> ws) (on_env (set_timers q) m).
Definition cancel_timer_by_key (t key : nat) (m : machine) : machine :=
  let '(ws, q) := TimerQueue.cancel_timer_by_key t key (timers (env m)) in
  post_deferred_completions (TimerOp <$> ws) (on_env (set_timers q) m).
Definition move_timer (target source : nat) (m : machine) : machine :=
  let '(ws, q) := TimerQueue.cancel_timer target (length (TimerQueue.op_queue_ (TimerQueue.timer (timers (env m)) target))) (timers (env m)) in
  post_deferred_completions (TimerOp <$> ws) (on_env (set_timers (TimerQueue.move_timer target source q)) m).

(** ** [perform_io] *)

(** [while (reactor_op* op = op_queue_[j].front())]: the operations that ended, the rest,
    and whether the last one exhausted the descriptor. *)
Fixpoint perform_queue (q : list rop) (k : Kern) : list rop * list rop * bool * Kern :=
  match q with
  | [] => ([], [], false, k)
  | o :: q =>
      let '((status, o), k) := perform o k in
      match status with
      | not_done => ([], o :: q, false, k)
      | done_and_exhausted => ([o], q, true, k)
      | done =>
          let '(ended, rest, exhausted, k) := perform_queue q k in (o :: ended, rest, exhausted, k)
      end
  end.

Definition perform_type (events : Z) (j : op_type) (acc : list rop * descriptor_state * Kern)
    : list rop * descriptor_state * Kern :=
  let '(ops, s, k) := acc in
  if hits j events then
    let '(ended, rest, exhausted, k) := perform_queue (get j (op_queue_ s)) k in
    (ops ++ ended,
     set_ops (set j rest (op_queue_ s)) (set_speculative (set j (negb exhausted) (try_speculative_ s)) s), k)
  else (ops, s, k).

(** [for (int j = max_ops - 1; j >= 0; --j)] *)
Definition perform_io (events : Z) (s : descriptor_state) (k : Kern) : list rop * descriptor_state * Kern :=
  foldl (fun acc j => perform_type events j acc) ([], s, k) [except_op; write_op; read_op].

(** [do_complete] of a descriptor state, up to the completion of the first operation: the
    others are posted, and without one the work the scheduler will count off is made up. *)
Definition perform_descriptor (d : nat) (m : machine) : option rop * machine :=
  let s := set_queued false (state_of d (env m)) in
  let '(ops, s, k) := perform_io (task_result_ s) s (kern (env m)) in
  let m := on_env (fun r => set_kern k (on_descriptor d (fun _ => s) r)) m in
  match ops with
  | [] => (None, Scheduler.compensating_work_started m)
  | o :: ops => (Some o, post_deferred_completions (ReactorOp <$> ops) m)
  end.

(** ** Requests and handlers *)

Inductive request :=
  | RegisterDescriptor (fd : Z)
  | StartOp (j : op_type) (fd : Z) (descriptor_data : option nat) (o : rop) (is_continuation allow_speculative : bool)
  | CancelOps (descriptor_data : option nat)
  | CancelOpsByKey (descriptor_data : option nat) (j : op_type) (key : nat)
  | DeregisterDescriptor (fd : Z) (descriptor_data : option nat) (closing : bool)
  | CleanupDescriptorData (descriptor_data : option nat)
  | CloseDescriptor (fd : Z) (descriptor_data : option nat) (closing : bool)
  | ScheduleTimer (time : Z) (t : nat) (w : TimerQueue.wait_op)
  | CancelTimer (t max_cancelled : nat)
  | CancelTimerByKey (t key : nat)
  | MoveTimer (target source : nat).

(** A socket is closed with two calls, the second with what the first left of its data; a
    timer is not moved into itself ([io_object_impl::operator=]). *)
Definition close_descriptor (fd : Z) (descriptor_data : option nat) (closing : bool) (m : machine) : machine :=
  let '(data, m) := deregister_descriptor fd descriptor_data closing m in cleanup_descriptor_data data m.

Definition serve (rq : request) (m : machine) : machine :=
  match rq with
  | RegisterDescriptor fd => on_env (fun r => (register_descriptor fd r).2) m
  | StartOp j fd d o c a => start_op j fd d o c a m
  | CancelOps d => cancel_ops d m
  | CancelOpsByKey d j key => cancel_ops_by_key d j key m
  | DeregisterDescriptor fd d closing => (deregister_descriptor fd d closing m).2
  | CleanupDescriptorData d => cleanup_descriptor_data d m
  | CloseDescriptor fd d closing => close_descriptor fd d closing m
  | ScheduleTimer time t w => schedule_timer time t w m
  | CancelTimer t n => cancel_timer t n m
  | CancelTimerByKey t key => cancel_timer_by_key t key m
  | MoveTimer t s => if bool_decide (s = t) then m else move_timer t s m
  end.

(** A handler records its operation and makes requests. *)
Definition handle (handler : operation -> list request) (o : operation) (m : machine) : machine :=
  foldl (flip serve) (on_env (fun r => set_handled (handled r ++ [o]) r) m) (handler o).

Definition complete (handler : operation -> list request) (o : operation) (m : machine) : machine :=
  match o with
  | DescriptorOp d =>
      match perform_descriptor d m with
      | (Some o, m) => handle handler (ReactorOp o) m
      | (None, m) => m
      end
  | _ => handle handler o m
  end.

(** ** The work of the scheduler *)

Definition op_count (s : descriptor_state) : Z :=
  Z.of_nat (length (of_read (op_queue_ s)) + length (of_write (op_queue_ s)) + length (of_except (op_queue_ s))).
(** What a descriptor state holds of the scheduler's work: its operations; when it is queued
    itself, it is counted there without having been started. *)
Definition weight (s : descriptor_state) : Z := op_count s - (if queued s then 1 else 0).
Definition pending (r : reactor) : Z := map_sum weight (registered_descriptors_ r) + TimerQueue.waits (timers r).

Lemma pending_on_descriptor d f r : pending (on_descriptor d f r) = pending r + weight (f (state_of d r)) - weight (state_of d r).
Proof.
  unfold pending, on_descriptor, set_descriptors; cbn [registered_descriptors_ timers].
  rewrite (map_sum_insert weight _ d _ new_descriptor_state) by done. unfold state_of. lia.
Qed.
Lemma pending_keep d f r : (forall s, weight (f s) = weight s) -> pending (on_descriptor d f r) = pending r.
Proof. intros Hf. rewrite pending_on_descriptor, Hf. lia. Qed.
Lemma state_of_on d f r : state_of d (on_descriptor d f r) = f (state_of d r).
Proof. unfold state_of at 1, on_descriptor; cbn. by rewrite lookup_insert_eq. Qed.
Lemma state_of_ne d d' f r : d <> d' -> state_of d' (on_descriptor d f r) = state_of d' r.
Proof. intros Hne. unfold state_of, on_descriptor; cbn. by rewrite lookup_insert_ne. Qed.

Lemma op_count_push j o s : op_count (push_op j o s) = op_count s + 1.
Proof. unfold op_count, push_op; destruct j; cbn; rewrite length_app; cbn; lia. Qed.
Lemma weight_push j o s : weight (push_op j o s) = weight s + 1.
Proof. unfold weight. rewrite op_count_push. cbn. lia. Qed.

(** *** [run] *)

Lemma dispatch_counts e acc :
  let '(_, ops', r') := dispatch e acc in
  Z.of_nat (length ops') + pending r' = Z.of_nat (length acc.1.2) + pending acc.2.
Proof.
  destruct e as [[| |d] ev], acc as [[c ops] r]; [done..|]. cbn [dispatch fst snd].
  destruct (queued (state_of d r)) eqn:Hq.
  - by rewrite pending_keep.
  - rewrite pending_on_descriptor, length_app. unfold weight; cbn. rewrite Hq. unfold op_count; cbn. lia.
Qed.
Lemma dispatch_all es acc :
  let '(_, ops', r') := foldl (flip dispatch) acc es in
  Z.of_nat (length ops') + pending r' = Z.of_nat (length acc.1.2) + pending acc.2.
Proof.
  revert acc. induction es as [|e es IH]; intros acc; cbn [foldl]; [by destruct acc as [[??]?]|].
  pose proof (dispatch_counts e acc) as Hd. specialize (IH (flip dispatch acc e)). cbn [flip] in *.
  destruct (dispatch e acc) as [[c1 ops1] r1], (foldl _ _ es) as [[c2 ops2] r2]; cbn in *. lia.
Qed.

Lemma epoll_counts : Scheduler.reactor_counts pending.
Proof.
  intros usec r. cbn [Scheduler.task_run epoll_task]. unfold run.
  destruct (epoll_wait (epoll_timeout usec r) (kern r)) as [events k].
  pose proof (dispatch_all events (timer_fd_ r =? -1, [], set_kern k r)) as Hd.
  destruct (foldl _ _ events) as [[check ops] r1]; cbn in Hd. destruct check; [|exact (eq_sym Hd)].
  pose proof (TimerQueue.waits_ready (clock (kern r1)) (timers r1)) as Hw.
  destruct (TimerQueue.get_ready_timers (clock (kern r1)) (timers r1)) as [ws q]; cbn in Hw |- *.
  rewrite length_app, length_fmap. assert (forall r2, registered_descriptors_ r2 = registered_descriptors_ r1 ->
    timers r2 = q -> pending r = Z.of_nat (length ops + length ws) + pending r2) as Hgoal.
  { intros r2 Hr2 Hq2. unfold pending in Hd |- *. rewrite Hr2, Hq2. cbn in Hd. lia. }
  by destruct (timer_fd_ r1 =? -1); apply Hgoal.
Qed.

(** *** Requests *)

Definition of_descriptor (d : nat) (o : operation) : bool :=
  match o with DescriptorOp d' => bool_decide (d' = d) | _ => false end.
(** How often a descriptor state is among the operations. *)
Definition copies (d : nat) (os : list operation) : nat := length (List.filter (of_descriptor d) os).

Lemma copies_app d os os' : copies d (os ++ os') = (copies d os + copies d os')%nat.
Proof. unfold copies. by rewrite List.filter_app, length_app. Qed.
Definition plain (o : operation) : Prop := forall d, of_descriptor d o = false.
Lemma copies_plain d os : Forall plain os -> copies d os = 0%nat.
Proof. unfold copies. induction 1 as [|o os Ho _ IH]; [done|]. cbn. by rewrite (Ho d). Qed.

(** A step that keeps the balance of the scheduler's books, ends no work and neither queues
    nor takes a descriptor state. *)
Record balanced (m m' : machine) : Prop := {
  bl_balance : Scheduler.balance pending m' = Scheduler.balance pending m;
  bl_work : Scheduler.outstanding_work_ (sched m) <= Scheduler.outstanding_work_ (sched m');
  bl_private : Scheduler.private m <= Scheduler.private m';
  bl_thread : is_Some (Scheduler.this_thread m) <-> is_Some (Scheduler.this_thread m');
  bl_stopped : Scheduler.stopped_ (sched m') = Scheduler.stopped_ (sched m);
  bl_tasks : Scheduler.tasks (Scheduler.op_queue_ (sched m')) = Scheduler.tasks (Scheduler.op_queue_ (sched m));
  bl_copies : forall d, copies d (Scheduler.held m') = copies d (Scheduler.held m);
  bl_queued : forall d, queued (state_of d (env m')) = queued (state_of d (env m));
}.

Lemma balanced_refl m : balanced m m.
Proof. by split. Qed.
Lemma balanced_trans m1 m2 m3 : balanced m1 m2 -> balanced m2 m3 -> balanced m1 m3.
Proof.
  intros [Hb Hw Hp Ht Hs Hn Hc Hq] [Hb2 Hw2 Hp2 Ht2 Hs2 Hn2 Hc2 Hq2].
  split; [congruence|lia|lia|by rewrite Ht|congruence|congruence|intros; by rewrite Hc2|intros; by rewrite Hq2].
Qed.

(** Moving [n] operations into (or out of) the environment. *)
Record shifted (n : Z) (m m' : machine) : Prop := {
  sh_sched : sched m' = sched m;
  sh_thread : Scheduler.this_thread m' = Scheduler.this_thread m;
  sh_pending : pending (env m') = pending (env m) + n;
  sh_queued : forall d, queued (state_of d (env m')) = queued (state_of d (env m));
}.

Lemma shifted_env f n m : pending (f (env m)) = pending (env m) + n ->
  (forall d, queued (state_of d (f (env m))) = queued (state_of d (env m))) -> shifted n m (on_env f m).
Proof. by split. Qed.
Lemma queued_on d f r : queued (f (state_of d r)) = queued (state_of d r) ->
  forall d', queued (state_of d' (on_descriptor d f r)) = queued (state_of d' r).
Proof. intros Hf d'. destruct (decide (d = d')) as [<-|Hne]; [by rewrite state_of_on|by rewrite state_of_ne]. Qed.

Ltac books Hs Ht Hp :=
  unfold Scheduler.balance, Scheduler.held, Scheduler.users, Scheduler.private, Scheduler.private_ops in *;
  cbn; rewrite ?Hs, ?Ht, ?Hp.

Lemma shifted_balanced m m' : shifted 0 m m' -> balanced m m'.
Proof. intros [Hs Ht Hp Hq]. split; books Hs Ht Hp; try done; lia. Qed.
Lemma work_started_balanced m m' : shifted 1 m m' -> balanced m (Scheduler.work_started m').
Proof. intros [Hs Ht Hp Hq]. split; books Hs Ht Hp; try done; lia. Qed.
Lemma post_immediate_balanced o c m : plain o -> balanced m (Scheduler.post_immediate_completion o c m).
Proof.
  intros Hpl. assert (forall d, copies d [o] = 0%nat) as Hc by (intros d; by apply copies_plain, Forall_singleton).
  unfold Scheduler.post_immediate_completion.
  destruct (Scheduler.this_thread m) as [th|] eqn:Ht; [destruct c|]; cbn [orb Scheduler.one_thread_];
    split; books Ht Ht Ht; rewrite ?Scheduler.user_ops_app, ?Scheduler.tasks_app;
    change (@Scheduler.user_ops epoll_task [@Scheduler.UserOperation epoll_task o]) with [o];
    change (@Scheduler.tasks epoll_task [@Scheduler.UserOperation epoll_task o]) with 0%nat;
    rewrite ?length_app; cbn; try done; try lia; intros; change (@Scheduler.Op epoll_task) with operation; rewrite ?copies_app, ?length_app, ?Hc; cbn; lia.
Qed.
Lemma post_deferred_is os m :
  post_deferred_completions os m = Scheduler.on_sched (Scheduler.push (Scheduler.UserOperation <$> os)) m.
Proof.
  unfold post_deferred_completions. revert m. induction os as [|o os IH]; intros m; cbn [foldl].
  { destruct m as [[q w st sh ta] th x]. unfold Scheduler.on_sched, Scheduler.push; cbn. by rewrite app_nil_r. }
  rewrite IH. destruct m as [[q w st sh ta] th x]. unfold Scheduler.post_deferred_completion; cbn.
  destruct th; unfold Scheduler.on_sched, Scheduler.push; cbn; by rewrite <- app_assoc.
Qed.
Record posted (os : list operation) (m m' : machine) : Prop := {
  po_env : env m' = env m;
  po_balance : Scheduler.balance pending m' = Scheduler.balance pending m - Z.of_nat (length os);
  po_work : Scheduler.outstanding_work_ (sched m') = Scheduler.outstanding_work_ (sched m);
  po_thread : Scheduler.this_thread m' = Scheduler.this_thread m;
  po_stopped : Scheduler.stopped_ (sched m') = Scheduler.stopped_ (sched m);
  po_tasks : Scheduler.tasks (Scheduler.op_queue_ (sched m')) = Scheduler.tasks (Scheduler.op_queue_ (sched m));
  po_copies : forall d, copies d (Scheduler.held m') = copies d (Scheduler.held m);
}.
Lemma post_deferred_posted os m : Forall plain os -> posted os m (post_deferred_completions os m).
Proof.
  intros Hpl. rewrite post_deferred_is. match goal with |- context [Scheduler.push ?x] => set (q := x) end.
  assert (Scheduler.user_ops q = os) as Hu by apply Scheduler.user_ops_users.
  assert (Scheduler.tasks q = 0%nat) as Hn by apply Scheduler.tasks_users.
  split; books Hu Hu Hu; rewrite ?Scheduler.user_ops_app, ?Scheduler.tasks_app, ?Hu, ?Hn;
    change (@Scheduler.Op epoll_task) with operation; rewrite ?length_app; try done; try lia.
  intros d. rewrite !copies_app, (copies_plain d os Hpl). lia.
Qed.
Lemma post_deferred_balanced os m m' : Forall plain os -> shifted (- Z.of_nat (length os)) m m' ->
  balanced m (post_deferred_completions os m').
Proof.
  intros Hpl [Hs Ht Hp Hq]. destruct (post_deferred_posted os m' Hpl) as [He2 Hb2 Hw2 Ht2 Hs2 Hn2 Hc2].
  unfold Scheduler.balance, Scheduler.private, Scheduler.private_ops in Hb2. rewrite He2, Ht2, Ht, Hs, Hp in Hb2.
  split; unfold Scheduler.balance, Scheduler.private, Scheduler.private_ops; rewrite ?He2, ?Hw2, ?Ht2, ?Ht, ?Hs2, ?Hn2, ?Hs;
    try done; [rewrite Hw2, Hs in Hb2; lia|].
  intros d. rewrite Hc2. unfold Scheduler.held, Scheduler.private_ops. by rewrite Hs, Ht.
Qed.
Lemma plain_reactor_ops {A} (f : A -> rop) (os : list A) : Forall plain ((fun a => ReactorOp (f a)) <$> os).
Proof. by apply Forall_fmap, Forall_true. Qed.
Lemma plain_timer_ops ws : Forall plain (TimerOp <$> ws).
Proof. by apply Forall_fmap, Forall_true. Qed.

Lemma pending_kern k r : pending (set_kern k r) = pending r.
Proof. done. Qed.
Lemma state_of_kern d k r : state_of d (set_kern k r) = state_of d r.
Proof. done. Qed.

(** A start leaves one operation more in the reactor when it queues it. *)
Definition is_queued (s : started) : Z := match s with Queued => 1 | Immediate _ => 0 end.
Definition start_adds (r : reactor) (res : started * reactor) : Prop :=
  pending res.2 = pending r + is_queued res.1 /\ forall d, queued (state_of d res.2) = queued (state_of d r).

Lemma starts_now o r : start_adds r (Immediate o, r).
Proof. split; cbn; [lia|done]. Qed.
Lemma starts_now_on d f o r : (forall s, op_queue_ (f s) = op_queue_ s /\ queued (f s) = queued s) ->
  start_adds r (Immediate o, on_descriptor d f r).
Proof.
  intros Hf. split; cbn -[pending].
  - rewrite pending_keep; [lia|]. intros s. unfold weight, op_count. by destruct (Hf s) as [-> ->].
  - apply queued_on, Hf.
Qed.
Lemma starts_later j d o f r : (forall s, op_queue_ (f s) = op_queue_ s /\ queued (f s) = queued s) ->
  start_adds r (Queued, on_descriptor d (fun s => push_op j o (f s)) r).
Proof.
  intros Hf. split; cbn -[pending].
  - rewrite pending_on_descriptor, weight_push. unfold weight, op_count. destruct (Hf (state_of d r)) as [-> ->]. lia.
  - apply queued_on, Hf.
Qed.
Lemma start_after_kern k r res : start_adds (set_kern k r) res -> start_adds r res.
Proof. done. Qed.

Lemma start_adds_from r1 r res : pending r1 = pending r -> (forall d, queued (state_of d r1) = queued (state_of d r)) ->
  start_adds r1 res -> start_adds r res.
Proof. intros Hp Hq [H1 H2]. split; [by rewrite <- Hp|intros; by rewrite H2]. Qed.

Lemma start_waiting_adds j fd d o r : start_adds r (start_waiting j fd d o r).
Proof.
  unfold start_waiting. destruct (_ =? 0); [apply starts_now|]. destruct (bool_decide _ && _).
  - unfold modify_events. destruct (epoll_ctl _ _ _ _ _) as [[e|] k]; apply start_after_kern with k;
      [apply starts_now|by apply (starts_later j d o (set_registered _))].
  - by apply (starts_later j d o (fun s => s)).
Qed.
Lemma start_speculative_adds j fd d o r : start_adds r (start_speculative j fd d o r).
Proof.
  unfold start_speculative. destruct (get j _); [|apply start_waiting_adds].
  destruct (perform o (kern r)) as [[st o'] k]. apply start_after_kern with k.
  destruct st; [apply start_waiting_adds|apply starts_now|]. destruct (_ =? 0); [apply starts_now|by apply starts_now_on].
Qed.
Lemma start_registered_adds j fd d o r : start_adds r (start_registered j fd d o r).
Proof.
  unfold start_registered. destruct (_ =? 0); [apply starts_now|]. unfold modify_events.
  destruct (epoll_ctl _ _ _ _ _) as [ec k]. eapply start_adds_from; [| |by apply (starts_later j d o (fun s => s))].
  - by rewrite pending_kern, pending_keep.
  - intros d'. rewrite state_of_kern. by apply queued_on.
Qed.
Lemma start_locked_adds j fd d o a r : start_adds r (start_locked j fd d o a r).
Proof.
  unfold start_locked. destruct (shutdown_ _); [apply starts_now|].
  destruct (no_ops _ _); [|by apply (starts_later j d o (fun s => s))].
  destruct (a && _); [apply start_speculative_adds|apply start_registered_adds].
Qed.

Lemma length_aborted s : Z.of_nat (length (aborted s)) = op_count s.
Proof. unfold aborted, op_count. rewrite length_fmap, !length_app. lia. Qed.

Lemma start_op_balanced j fd d o c a m : balanced m (start_op j fd d o c a m).
Proof.
  unfold start_op. destruct d as [d|]; [|by apply post_immediate_balanced].
  destruct (start_locked_adds j fd d o a (env m)) as [Hp Hq]. destruct (start_locked j fd d o a (env m)) as [[o'|] r]; cbn in Hp, Hq.
  - eapply balanced_trans; [|by apply post_immediate_balanced]. apply shifted_balanced. by split.
  - apply work_started_balanced. by split.
Qed.
(** Taking operations of a descriptor from its queues and posting them. *)
Lemma take_ops_balanced d f os m :
  Z.of_nat (length os) = op_count (state_of d (env m)) - op_count (f (state_of d (env m))) ->
  queued (f (state_of d (env m))) = queued (state_of d (env m)) -> Forall plain os ->
  balanced m (post_deferred_completions os (on_env (on_descriptor d f) m)).
Proof.
  intros Hos Hq Hpl. apply post_deferred_balanced; [done|]. apply shifted_env.
  - rewrite pending_on_descriptor. unfold weight. rewrite Hq. lia.
  - by apply queued_on.
Qed.
Lemma op_count_set j q s :
  op_count (set_ops (set j q (op_queue_ s)) s) = op_count s - Z.of_nat (length (get j (op_queue_ s))) + Z.of_nat (length q).
Proof. unfold op_count. destruct j; cbn; lia. Qed.
Lemma op_count_none s : op_queue_ s = all_types [] -> op_count s = 0.
Proof. unfold op_count. by intros ->. Qed.
Lemma filter_split {A} (P : A -> Prop) `{!forall a, Decision (P a)} (l : list A) :
  (length (filter P l) + length (filter (fun a => ~ P a) l) = length l)%nat.
Proof.
  induction l as [|a l IH]; [done|]. rewrite !filter_cons. destruct (decide (P a)).
  - rewrite decide_False by auto. cbn. lia.
  - rewrite decide_True by done. cbn. lia.
Qed.
Lemma post_timers_balanced ws q m : Z.of_nat (length ws) + TimerQueue.waits q = TimerQueue.waits (timers (env m)) ->
  balanced m (post_deferred_completions (TimerOp <$> ws) (on_env (set_timers q) m)).
Proof.
  intros Hw. apply post_deferred_balanced; [apply plain_timer_ops|]. apply shifted_env; [|done].
  unfold pending; cbn. rewrite length_fmap. lia.
Qed.
Lemma env_balanced f m : pending (f (env m)) = pending (env m) ->
  (forall d, queued (state_of d (f (env m))) = queued (state_of d (env m))) -> balanced m (on_env f m).
Proof. intros Hp Hq. apply shifted_balanced, shifted_env; [lia|done]. Qed.

Lemma register_balanced fd m : balanced m (on_env (fun r => (register_descriptor fd r).2) m).
Proof.
  set (r := env m). assert (forall d1 r1, allocate_descriptor_state r = (d1, r1) -> pending r1 = pending r /\
    forall d, queued (state_of d r1) = queued (state_of d r)) as Halloc.
  { intros d1 r1. unfold allocate_descriptor_state. destruct (free_list_ r) as [|d l]; [|by intros [= <- <-]].
    intros [= <- <-]. set (d := fresh (dom (registered_descriptors_ r))).
    assert (state_of d r = new_descriptor_state) as Hd.
    { unfold state_of. by rewrite (proj1 (not_elem_of_dom (registered_descriptors_ r) d)) by apply is_fresh. }
    split; [rewrite pending_on_descriptor, Hd; lia|]. apply queued_on. by rewrite Hd. }
  apply env_balanced; fold r; unfold register_descriptor;
    destruct (allocate_descriptor_state r) as [d1 r1] eqn:Ha; destruct (Halloc d1 r1 eq_refl) as [Hp Hq];
    destruct (epoll_ctl _ _ _ _ _) as [ec k]; destruct (ec_is ec EPERM); cbn -[pending state_of on_descriptor].
  1, 2: by rewrite ?pending_kern, ?pending_keep, ?pending_kern, ?pending_keep.
  all: intros d; rewrite <- Hq; repeat first [rewrite state_of_kern | rewrite queued_on by done]; done.
Qed.

Lemma deregister_balanced fd data closing m : balanced m (deregister_descriptor fd data closing m).2.
Proof.
  destruct data as [d|]; [|apply balanced_refl]. cbn [deregister_descriptor]. set (s := state_of d (env m)).
  destruct (shutdown_ s); [apply balanced_refl|]. cbn [snd].
  set (m1 := if negb closing && _ then _ else m).
  assert (balanced m m1 /\ state_of d (env m1) = s) as [Hm1 Hs1].
  { unfold m1. destruct (_ && _); [split; [by apply env_balanced|done]|split; [apply balanced_refl|done]]. }
  apply (balanced_trans _ _ _ Hm1). apply take_ops_balanced; rewrite ?Hs1; [|done|apply plain_reactor_ops].
  rewrite length_aborted, (op_count_none (set_shutdown _ _)) by done. lia.
Qed.
Lemma cleanup_balanced data m : balanced m (cleanup_descriptor_data data m).
Proof. destruct data as [d|]; [by apply env_balanced|apply balanced_refl]. Qed.

(** Every request keeps the books. *)
Lemma serve_balanced rq m : balanced m (serve rq m).
Proof.
  destruct rq as [fd|j fd d o c a|d|d j key|fd d closing|d|fd d closing|time t w|t n|t key|t s]; cbn [serve].
  - apply register_balanced.
  - apply start_op_balanced.
  - destruct d as [d|]; [|apply balanced_refl]. apply take_ops_balanced; [rewrite length_aborted, (op_count_none (set_ops _ _)) by done; lia|done|apply plain_reactor_ops].
  - destruct d as [d|]; [|apply balanced_refl]. cbn [cancel_ops_by_key]. set (q := get j _).
    apply take_ops_balanced; [|done|apply plain_reactor_ops].
    rewrite op_count_set, length_fmap. fold q. pose proof (filter_split (fun o => op_key o = key) q). lia.
  - apply deregister_balanced.
  - apply cleanup_balanced.
  - unfold close_descriptor. pose proof (deregister_balanced fd d closing m) as Hd.
    destruct (deregister_descriptor fd d closing m) as [data m1]. apply (balanced_trans _ _ _ Hd), cleanup_balanced.
  - unfold schedule_timer. destruct (stopping (env m)); [by apply post_immediate_balanced|].
    pose proof (TimerQueue.waits_enqueue time t w (timers (env m))) as Hw.
    destruct (TimerQueue.enqueue_timer _ _ _ _) as [earliest q]; cbn in Hw.
    assert (balanced m (Scheduler.work_started (on_env (set_timers q) m))) as Hm.
    { apply work_started_balanced, shifted_env; [unfold pending; cbn; lia|done]. }
    destruct earliest; [|done]. apply (balanced_trans _ _ _ Hm), env_balanced;
      unfold update_timeout; by destruct (_ =? -1).
  - unfold cancel_timer. pose proof (TimerQueue.waits_cancel t n (timers (env m))) as Hw.
    destruct (TimerQueue.cancel_timer _ _ _) as [ws q]. by apply post_timers_balanced.
  - unfold cancel_timer_by_key. pose proof (TimerQueue.waits_cancel_by_key t key (timers (env m))) as Hw.
    destruct (TimerQueue.cancel_timer_by_key _ _ _) as [ws q]. by apply post_timers_balanced.
  - destruct (bool_decide_reflect (s = t)) as [|Hne]; [apply balanced_refl|]. unfold move_timer.
    match goal with |- context [TimerQueue.cancel_timer t ?n _] => pose proof (TimerQueue.waits_cancel t n (timers (env m))) as Hw end.
    destruct (TimerQueue.cancel_timer _ _ _) as [ws q]. apply post_timers_balanced.
    unfold TimerQueue.waits in *. by rewrite TimerQueue.waits_move.
Qed.
Lemma handle_balanced handler o m : balanced m (handle handler o m).
Proof.
  unfold handle. assert (balanced m (on_env (fun r => set_handled (handled r ++ [o]) r) m)) as Hm by by apply env_balanced.
  revert Hm. generalize (on_env (fun r => set_handled (handled r ++ [o]) r) m) as m1.
  induction (handler o) as [|rq rqs IH]; intros m1 Hm; [done|]. apply IH. apply (balanced_trans _ _ _ Hm), serve_balanced.
Qed.

(** A descriptor state is queued as often as it is marked so. *)
Definition flagged (os : list operation) (r : reactor) : Prop :=
  forall d, copies d os = if queued (state_of d r) then 1%nat else 0%nat.

Lemma flagged_kern os k r : flagged os r -> flagged os (set_kern k r).
Proof. done. Qed.
Lemma flagged_same os r r' : registered_descriptors_ r' = registered_descriptors_ r -> flagged os r -> flagged os r'.
Proof. unfold flagged, state_of. by intros ->. Qed.
Lemma flagged_plain os ops r : Forall plain ops -> flagged os r -> flagged (os ++ ops) r.
Proof. intros Hpl Hf d. rewrite copies_app, (copies_plain d ops Hpl), Nat.add_0_r. apply Hf. Qed.
Lemma dispatch_flagged os e acc : flagged (os ++ acc.1.2) acc.2 ->
  flagged (os ++ (dispatch e acc).1.2) (dispatch e acc).2.
Proof.
  intros Hf. destruct e as [[| |d] ev], acc as [[c ops] r]; [done..|]. cbn [dispatch fst snd] in *.
  destruct (queued (state_of d r)) eqn:Hq; cbn [fst snd]; intros d'; specialize (Hf d').
  - rewrite Hf. destruct (decide (d = d')) as [<-|Hne]; [by rewrite state_of_on|by rewrite state_of_ne].
  - rewrite app_assoc, copies_app, Hf. unfold copies. cbn [List.filter of_descriptor].
    destruct (decide (d = d')) as [<-|Hne].
    + rewrite bool_decide_true, Hq, state_of_on by done. done.
    + rewrite bool_decide_false, state_of_ne by done. cbn. lia.
Qed.
Lemma run_flagged os usec r : flagged os r -> flagged (os ++ (run usec r).1) (run usec r).2.
Proof.
  intros Hf. unfold run. destruct (epoll_wait _ _) as [events k].
  assert (forall acc, flagged (os ++ acc.1.2) acc.2 ->
    flagged (os ++ (foldl (flip dispatch) acc events).1.2) (foldl (flip dispatch) acc events).2) as Hall.
  { induction events as [|e es IH]; intros acc Hacc; [done|]. by apply IH, dispatch_flagged. }
  specialize (Hall (timer_fd_ r =? -1, [], set_kern k r)). cbn [fst snd] in Hall. rewrite app_nil_r in Hall.
  specialize (Hall Hf). destruct (foldl _ _ events) as [[check ops] r1]; cbn [fst snd] in Hall. destruct check; [|done].
  destruct (TimerQueue.get_ready_timers _ _) as [ws q]. cbn [fst snd]. rewrite app_assoc.
  apply flagged_plain; [apply plain_timer_ops|]. by destruct (_ =? -1).
Qed.

Lemma balanced_counts o m m2 m3 : Scheduler.handler_counts pending o m m2 -> balanced m2 m3 ->
  Scheduler.handler_counts pending o m m3.
Proof.
  intros [Hb Hw Hp Ht Hs Hn] [Hb2 Hw2 Hp2 Ht2 Hs2 Hn2 _ _].
  split; [congruence|lia|lia|by apply Ht2|congruence|congruence].
Qed.
Lemma balanced_flagged m m' : balanced m m' -> flagged (Scheduler.held m) (env m) -> flagged (Scheduler.held m') (env m').
Proof. intros Hm Hf d. by rewrite (bl_copies _ _ Hm), (bl_queued _ _ Hm). Qed.
Lemma balanced_plain_counts o m m' : Scheduler.this_thread m = Some (Scheduler.ThreadInfo 0 []) -> balanced m m' ->
  Scheduler.handler_counts pending o m m'.
Proof.
  intros Ht [Hb Hw Hp Ht2 Hs Hn _ _]. unfold Scheduler.private at 1 in Hp. rewrite Ht in Hp. rewrite Ht in Ht2.
  split; [done..|by apply Ht2|done|done].
Qed.

Lemma perform_queue_length q k :
  let '(ended, rest, _, _) := perform_queue q k in (length ended + length rest = length q)%nat.
Proof.
  revert k. induction q as [|o q IH]; intros k; [done|]. cbn. destruct (perform o k) as [[[] o'] k1]; [done| |done].
  specialize (IH k1). destruct (perform_queue q k1) as [[[ended rest] ex] k2]. cbn. lia.
Qed.
Lemma perform_type_count ev j acc :
  let '(ops, s, _) := perform_type ev j acc in
  Z.of_nat (length ops) + op_count s = Z.of_nat (length acc.1.1) + op_count acc.1.2 /\ queued s = queued acc.1.2.
Proof.
  destruct acc as [[ops s] k]. unfold perform_type. destruct (hits j ev); [|done].
  pose proof (perform_queue_length (get j (op_queue_ s)) k) as Hl.
  destruct (perform_queue _ k) as [[[ended rest] ex] k']. split; [|done]. cbn [fst snd]. rewrite length_app.
  change (op_count (set_ops (set j rest (op_queue_ s)) ?x)) with (op_count (set_ops (set j rest (op_queue_ s)) s)).
  rewrite op_count_set. lia.
Qed.
Lemma perform_io_count ev s k :
  let '(ops, s', _) := perform_io ev s k in Z.of_nat (length ops) + op_count s' = op_count s /\ queued s' = queued s.
Proof.
  unfold perform_io; cbn [foldl]. pose proof (perform_type_count ev except_op ([], s, k)) as H1.
  destruct (perform_type _ _ _) as [[o1 s1] k1]. pose proof (perform_type_count ev write_op (o1, s1, k1)) as H2.
  destruct (perform_type _ write_op _) as [[o2 s2] k2]. pose proof (perform_type_count ev read_op (o2, s2, k2)) as H3.
  destruct (perform_type _ read_op _) as [[o3 s3] k3]. cbn in *. destruct H1, H2, H3. split; [lia|congruence].
Qed.

Lemma perform_descriptor_counts d m : Scheduler.this_thread m = Some (Scheduler.ThreadInfo 0 []) ->
  flagged (DescriptorOp d :: Scheduler.held m) (env m) ->
  Scheduler.handler_counts pending (DescriptorOp d) m (perform_descriptor d m).2 /\
  flagged (Scheduler.held (perform_descriptor d m).2) (env (perform_descriptor d m).2).
Proof.
  intros Ht Hf. set (s0 := state_of d (env m)).
  assert (queued s0 = true) as Hq.
  { pose proof (Hf d) as Hd. unfold copies in Hd; cbn in Hd. rewrite bool_decide_true in Hd by done.
    fold s0 in Hd. by destruct (queued s0). }
  unfold perform_descriptor. fold s0.
  pose proof (perform_io_count (task_result_ (set_queued false s0)) (set_queued false s0) (kern (env m))) as Hio.
  destruct (perform_io _ _ _) as [[ops s] k]. destruct Hio as [Hn Hs]. change (op_count (set_queued false s0)) with (op_count s0) in Hn.
  cbn in Hs. set (m1 := on_env _ m).
  assert (pending (env m1) = pending (env m) + 1 - Z.of_nat (length ops)) as Hp.
  { unfold m1; cbn -[pending on_descriptor]. rewrite pending_kern, pending_on_descriptor. fold s0. unfold weight. rewrite Hq, Hs. lia. }
  assert (flagged (Scheduler.held m1) (env m1)) as Hf1.
  { intros d'. change (Scheduler.held m1) with (Scheduler.held m). specialize (Hf d').
    unfold copies in Hf |- *; cbn [List.filter of_descriptor] in Hf. cbn -[on_descriptor state_of]. rewrite state_of_kern.
    destruct (decide (d = d')) as [He|Hne]; [subst d'; rewrite bool_decide_true in Hf by done|rewrite bool_decide_false in Hf by done].
    - rewrite state_of_on, Hs. fold s0 in Hf. rewrite Hq in Hf. cbn in Hf. lia.
    - by rewrite state_of_ne. }
  assert (Scheduler.this_thread m1 = Some (Scheduler.ThreadInfo 0 [])) as Ht1 by exact Ht.
  assert (sched m1 = sched m) as Hm1 by done. clearbody m1.
  destruct ops as [|o ops]; cbn [snd]; cbn [length] in Hp.
  - split; [|intros d'; etrans; [|exact (Hf1 d')]; unfold Scheduler.held, Scheduler.private_ops; cbn; by rewrite Ht1].
    split; unfold Scheduler.compensating_work_started, Scheduler.balance, Scheduler.private, Scheduler.private_ops; cbn;
      rewrite ?Ht1, ?Ht, ?Hm1, ?Hp; cbn; try done; lia.
  - set (m2 := post_deferred_completions _ m1).
    destruct (post_deferred_posted (ReactorOp <$> ops) m1) as [He2 Hb2 Hw2 Ht2 Hs2 Hn2 Hc2]; [apply plain_reactor_ops|].
    fold m2 in He2, Hb2, Hw2, Ht2, Hs2, Hn2, Hc2. rewrite length_fmap in Hb2.
    split; [|intros d'; rewrite Hc2, He2; apply Hf1].
    split; unfold Scheduler.private; rewrite ?Hb2, ?Hw2, ?Ht2, ?Ht1, ?Hs2, ?Hn2, ?Hm1; try done.
    unfold Scheduler.balance. rewrite Hp, Hm1.
    unfold Scheduler.private, Scheduler.private_ops. rewrite Ht1, Ht. cbn. lia.
Qed.

Lemma epoll_complete_counts handler o m : Scheduler.this_thread m = Some (Scheduler.ThreadInfo 0 []) ->
  flagged (o :: Scheduler.held m) (env m) ->
  Scheduler.handler_counts pending o m (complete handler o m) /\
  flagged (Scheduler.held (complete handler o m)) (env (complete handler o m)).
Proof.
  intros Ht Hf. assert (plain o -> Scheduler.handler_counts pending o m (handle handler o m) /\
    flagged (Scheduler.held (handle handler o m)) (env (handle handler o m))) as Hplain.
  { intros Hpl. pose proof (handle_balanced handler o m) as Hm. split; [by apply balanced_plain_counts|].
    apply (balanced_flagged _ _ Hm). intros d. rewrite <- Hf. unfold copies. cbn. by rewrite (Hpl d). }
  destruct o as [d|o|w]; [|by apply Hplain..]. destruct (perform_descriptor_counts d m Ht Hf) as [H1 H2].
  cbn [complete]. destruct (perform_descriptor d m) as [[o|] m1]; cbn [snd] in *; [|done].
  pose proof (handle_balanced handler (ReactorOp o) m1) as Hm. split; [by apply (balanced_counts _ _ m1)|by apply (balanced_flagged m1)].
Qed.

(** *** A program *)

(** What a script does with the machine, and what the network and the clock do in between. *)
Inductive call :=
  | Request (rq : request)
  | Run (fuel : nat)
  | RunOne (fuel : nat)
  | Poll (fuel : nat)
  | PollOne
  | WaitOne (usec : Z)
  | Stop
  | RestartLoop
  | Elapse (f : Kern -> Kern).

Definition invoke (handler : operation -> list request) (c : call) (m : machine) : machine :=
  match c with
  | Request rq => serve rq m
  | Run fuel => (Scheduler.run (complete handler) fuel m).2
  | RunOne fuel => (Scheduler.run_one (complete handler) fuel m).2
  | Poll fuel => (Scheduler.poll (complete handler) fuel m).2
  | PollOne => (Scheduler.poll_one (complete handler) m).2
  | WaitOne usec => (Scheduler.wait_one (complete handler) usec m).2
  | Stop => Scheduler.stop m
  | RestartLoop => Scheduler.restart m
  | Elapse f => on_env (fun r => set_kern (f (kern r)) r) m
  end.

Definition new_reactor (tfd : Z) (k : Kern) : reactor := Reactor ∅ [] TimerQueue.new_timer_queue tfd false k [].
Definition new_machine (tfd : Z) (k : Kern) : machine :=
  Scheduler.init_task (Machine Scheduler.new_scheduler None (new_reactor tfd k)).

Lemma new_machine_ok tfd k : Scheduler.idle_inv pending flagged (new_machine tfd k).
Proof. by split; [split|]. Qed.
Lemma balanced_idle m m' : Scheduler.this_thread m' = None -> balanced m m' ->
  Scheduler.idle_inv pending flagged m -> Scheduler.idle_inv pending flagged m'.
Proof.
  intros Ht Hm [[Ht1 Hb Hn Hw] Hf]. split; [|by apply (balanced_flagged m)].
  destruct Hm as [Hb2 Hw2 _ _ _ Hn2 _ _]. split; [done|congruence|congruence|lia].
Qed.
Lemma invoke_ok handler c m : Scheduler.idle_inv pending flagged m -> Scheduler.idle_inv pending flagged (invoke handler c m).
Proof.
  assert (forall usec os x, flagged os x ->
    pending x = Z.of_nat (length (run usec x).1) + pending (run usec x).2 /\ flagged (os ++ (run usec x).1) (run usec x).2) as Htask.
  { intros usec os x Hf. split; [apply epoll_counts|by apply run_flagged]. }
  intros Hm. destruct c as [rq|fuel|fuel|fuel| |usec| | |f]; cbn [invoke].
  - pose proof (serve_balanced rq m) as Hs. apply (balanced_idle m); [|done..].
    destruct (Scheduler.this_thread (serve rq m)) eqn:Ht; [|done]. destruct Hm as [[Ht1 _ _ _] _].
    pose proof (proj2 (bl_thread _ _ Hs)) as Hb. rewrite Ht, Ht1 in Hb. by destruct Hb.
  - apply (@Scheduler.run_kept epoll_task (complete handler) pending flagged Htask); [apply epoll_complete_counts|done].
  - apply (@Scheduler.run_one_kept epoll_task (complete handler) pending flagged Htask); [apply epoll_complete_counts|done].
  - apply (@Scheduler.poll_kept epoll_task (complete handler) pending flagged Htask); [apply epoll_complete_counts|done].
  - apply (@Scheduler.poll_one_kept epoll_task (complete handler) pending flagged Htask); [apply epoll_complete_counts|done].
  - apply (@Scheduler.wait_one_kept epoll_task (complete handler) pending flagged Htask); [apply epoll_complete_counts|done].
  - destruct Hm as [[] Hf]. by split; [split|].
  - destruct Hm as [[] Hf]. by split; [split|].
  - apply (balanced_idle m); [apply Hm|by apply env_balanced|done].
Qed.

(** The operations that are ready, and those the reactor has, less the descriptor states. *)
Definition is_plain (o : operation) : bool := match o with DescriptorOp _ => false | _ => true end.
Definition ready_ops (m : machine) : Z :=
  Z.of_nat (length (List.filter is_plain (Scheduler.user_ops (Scheduler.op_queue_ (sched m))))).
Definition waiting_ops (r : reactor) : Z := map_sum op_count (registered_descriptors_ r) + TimerQueue.waits (timers r).

(** Descriptor states among the ready operations, and marked ones. *)
Definition mark (s : descriptor_state) : Z := if queued s then 1 else 0.
Lemma marks_counted os r : flagged os r ->
  map_sum mark (registered_descriptors_ r) + Z.of_nat (length (List.filter is_plain os)) = Z.of_nat (length os).
Proof.
  revert r. induction os as [|o os IH]; intros r Hf.
  - cbn. rewrite Z.add_0_r. apply map_sum_zero. intros d s Hd. specialize (Hf d). unfold mark, state_of in *.
    rewrite Hd in Hf. cbn in Hf. by destruct (queued s).
  - assert (plain o -> flagged os r) as Hplain.
    { intros Hpl d. rewrite <- (Hf d). unfold copies. cbn. by rewrite (Hpl d). }
    destruct o as [d|o|w]; [|specialize (IH r (Hplain ltac:(done))); cbn; lia..]. clear Hplain.
    assert (queued (state_of d r) = true) as Hq.
    { specialize (Hf d). unfold copies in Hf; cbn in Hf. rewrite bool_decide_true in Hf by done. by destruct (queued (state_of d r)). }
    assert (flagged os (on_descriptor d (set_queued false) r)) as Hf1.
    { intros d'. specialize (Hf d'). unfold copies in Hf |- *; cbn [List.filter of_descriptor] in Hf.
      destruct (decide (d = d')) as [He|Hne].
      - subst d'. rewrite bool_decide_true, Hq in Hf by done. rewrite state_of_on. cbn in Hf |- *. lia.
      - by rewrite bool_decide_false in Hf by done; rewrite state_of_ne. }
    specialize (IH _ Hf1). unfold on_descriptor, set_descriptors in IH; cbn [registered_descriptors_] in IH.
    rewrite (map_sum_insert mark _ d _ new_descriptor_state) in IH by done.
    change (default _ _) with (state_of d r) in IH. unfold mark at 2 3 in IH. rewrite Hq in IH. cbn [queued set_queued] in IH.
    cbn [List.filter is_plain length]. lia.
Qed.
Lemma pending_split r : pending r = waiting_ops r - map_sum mark (registered_descriptors_ r).
Proof.
  unfold pending, waiting_ops. change weight with (fun s => op_count s - mark s). rewrite map_sum_sub. lia.
Qed.

(** C8: The books of the event loop are right whatever the program does: after any sequence
    of requests, runs of the loop with any handlers, and changes of the network,
    [outstanding_work_] is the number of operations that are ready and of those that wait
    for a descriptor or a timer; a descriptor state is queued once when it has events to
    look at and not otherwise, and the marker of the task is in the queue once. *)
Theorem epoll_accounts (handler : operation -> list request) (calls : list call) (tfd : Z) (k : Kern) :
  let m := foldl (flip (invoke handler)) (new_machine tfd k) calls in
  Scheduler.outstanding_work_ (sched m) = ready_ops m + waiting_ops (env m) /\
  (forall d, copies d (Scheduler.user_ops (Scheduler.op_queue_ (sched m)))
             = if queued (state_of d (env m)) then 1%nat else 0%nat) /\
  Scheduler.tasks (Scheduler.op_queue_ (sched m)) = 1%nat.
Proof.
  intros m. assert (Scheduler.idle_inv pending flagged m) as [[Ht Hb Hn Hw] Hf].
  { unfold m. pose proof (new_machine_ok tfd k) as H0. revert H0. generalize (new_machine tfd k).
    induction calls as [|c cs IH]; intros m0 H0; [done|]. by apply IH, invoke_ok. }
  unfold Scheduler.balance, Scheduler.held, Scheduler.users, Scheduler.private, Scheduler.private_ops in *.
  rewrite Ht in Hb, Hf. rewrite app_nil_r in Hf. split_and!; [|exact Hf|done].
  pose proof (marks_counted _ _ Hf) as Hmk. rewrite pending_split in Hb. unfold ready_ops. cbn in Hb. 
  change (@Scheduler.Op epoll_task) with operation in *. lia.
Qed.
End reactor.
