(* ===== verification/DeadlineTimer.v ===== *)
(** * [asio::detail::deadline_timer_service]: the timers that a program holds

    [safe_shutdown] of [network.cpp] bounds the TLS shutdown with an [asio::steady_timer].
    The service ([detail/deadline_timer_service.hpp]) keeps for each timer its expiry and
    the flag [might_have_pending_waits], which saves calls of the reactor; the reactor keeps
    the timer queue.  What the service needs of the reactor is the class [TimerScheduler],
    with its laws in [TimerSchedulerOk]; the epoll reactor ([EpollReactor], [TimerQueue])
    is an instance.  The times are those of [detail/chrono_time_traits.hpp]: 64-bit counts
    of nanoseconds, which saturate.

    The theorem is a refinement: the timers are a map from a timer to its expiry and its
    waits, with no flag and no queue. *)
From S2P Require Import Prelude TimerQueue.
From S2P Require Scheduler SocketOps EpollReactor.
Open Scope nat_scope.

(** ** Places in the heap of timers that are not in it *)

Definition idle (q : timer_queue) : Prop := forall t, t ∉ (heap_ q).*2 -> heap_index_ (timer q t) = no_index.

Lemma idle_same q q' : heap_ q' = heap_ q -> (forall t, heap_index_ (timer q' t) = heap_index_ (timer q t)) -> idle q -> idle q'.
Proof. intros Hh Ht Hq t. rewrite Hh, Ht. apply Hq. Qed.
Lemma idle_ops t os q : idle q -> idle (on_timer t (set_ops os) q).
Proof. apply idle_same; [done|]. intros x. rewrite timer_on_timer. by case_decide; subst. Qed.
Lemma unlink_index t q x : heap_index_ (timer (unlink t q) x) = heap_index_ (timer q x).
Proof.
  unfold unlink. rewrite timer_on_timer. set (q1 := if bool_decide _ then _ else q).
  assert (forall y, heap_index_ (timer q1 y) = heap_index_ (timer q y)) as H1 by (intros y; unfold q1; by destruct (bool_decide _)). clearbody q1.
  set (q2 := match prev_ _ with Some p => _ | None => _ end).
  assert (forall y, heap_index_ (timer q2 y) = heap_index_ (timer q1 y)) as H2.
  { intros y. unfold q2. destruct (prev_ _); [|done]. rewrite timer_on_timer. by case_decide; subst. } clearbody q2.
  set (q3 := match next_ _ with Some p => _ | None => _ end).
  assert (forall y, heap_index_ (timer q3 y) = heap_index_ (timer q2 y)) as H3.
  { intros y. unfold q3. destruct (next_ _); [|done]. rewrite timer_on_timer. by case_decide; subst. } clearbody q3.
  case_decide; subst; cbn; by rewrite H3, H2, H1.
Qed.

Lemma idle_remove m q t tm os : represents m q -> m !! t = Some (tm, os) -> idle q -> idle (remove_timer t q).
Proof.
  intros Hr Hm Hq. pose proof (proj1 (rp_map _ _ Hr _ _ _) Hm) as [[i Hi]%list_elem_of_lookup _].
  destruct (leave_heap_spec i t (tm, t) q (rp_indexed _ _ Hr) (rp_sorted _ _ Hr) Hi eq_refl) as [Htk _]. unfold remove_timer.
  assert (idle (leave_heap t q)) as Hl.
  { intros x Hx. destruct (decide (x = t)) as [->|Hne]; [apply Htk|]. rewrite (tk_index _ _ _ _ Htk); [apply Hq|];
      rewrite (tk_perm _ _ _ _ Htk); cbn; by apply not_elem_of_cons. }
  eapply idle_same; [apply unlink_queue|intros x; apply unlink_index|done].
Qed.
Lemma link_front_index t q x : heap_index_ (timer (link_front t q) x) = heap_index_ (timer q x).
Proof.
  unfold link_front. cbn [timers_ on_timer]. set (q1 := on_timer t _ q).
  assert (forall y, heap_index_ (timer q1 y) = heap_index_ (timer q y)) as H1 by (intros y; unfold q1; rewrite timer_on_timer; by case_decide; subst).
  clearbody q1. destruct (timers_ q); [|apply H1]. cbn. change (heap_index_ (timer (on_timer n (set_prev (Some t)) q1) x) = heap_index_ (timer q x)).
  rewrite timer_on_timer. case_decide; subst; cbn; apply H1.
Qed.
Lemma idle_activate m q time t : represents m q -> m !! t = None -> idle q -> idle (activate time t q).
Proof.
  intros Hr Hm Hq. pose proof Hr as [(L & Hl & Hp) Hi Hs Hmap Hidle].
  assert (t ∉ (heap_ q).*2) as Hout by (rewrite (represents_heap m) by done; rewrite Hm; apply is_Some_None).
  destruct (push_spec time t q Hi Hs Hout) as [Hi1 He1]. unfold activate.
  set (q1 := set_heap _ _) in *. assert (length (heap_ q1) = S (length (heap_ q))) as Hlen by (cbn; rewrite length_app; cbn; lia). rewrite Hlen.
  replace (S (length (heap_ q)) - 1) with (length (heap_ q)) by lia.
  destruct (up_heap_spec (S (length (heap_ q))) (length (heap_ q)) q1) as (Hf & _ & _); [lia|lia|done|by rewrite Hlen|].
  eapply idle_same; [|intros x; apply link_front_index|].
  { unfold link_front. cbn [timers_ on_timer]. by destruct (timers_ _). }
  intros x Hx. rewrite (hf_perm _ _ Hf) in Hx. rewrite (hf_index _ _ Hf) by done.
  unfold q1 in Hx |- *. cbn in Hx. rewrite fmap_app, not_elem_of_app in Hx. destruct Hx as [Hx Hxt]. apply not_elem_of_cons in Hxt as [Hxt _].
  change (heap_index_ (timer (on_timer t (set_index (Z.of_nat (length (heap_ q)))) q) x) = no_index). rewrite timer_on_timer, decide_False by done. by apply Hq.
Qed.

(** A queue that represents the alarms, with the idle timers out of it. *)
Definition queue_ok (m : alarms) (q : timer_queue) : Prop := tq_ok m q /\ idle q.
Definition waits_on (m : alarms) (t : nat) : list wait_op := from_option snd [] (m !! t).

(** The alarms after each request. *)
Definition scheduled (time : Z) (t : nat) (w : wait_op) (m : alarms) : alarms :=
  match m !! t with Some (tm, os) => <[t := (tm, os ++ [w])]> m | None => <[t := (time, [w])]> m end.
Definition kept (t : nat) (f : list wait_op -> list wait_op) (m : alarms) : alarms :=
  match m !! t with Some (tm, os) => keep t tm (f os) m | None => m end.
Definition aborted : list wait_op -> list wait_op := fmap (finish (Some operation_aborted)).

Lemma enqueue_ok m q time t w : queue_ok m q -> queue_ok (scheduled time t w m) (enqueue_timer time t w q).2.
Proof.
  intros [Hok Hi]. split.
  - destruct (enqueue_step time t w m q Hok) as (m' & Hs & Hok'). cbn [serve alarm_step] in *. unfold scheduled.
    destruct (enqueue_timer time t w q) as [b q']. cbn [snd] in *. destruct (m !! t) as [[tm os]|]; destruct Hs as [-> _]; done.
  - unfold enqueue_timer. cbn [snd]. destruct (m !! t) as [v|] eqn:Hm.
    + rewrite (represents_is_active m q t v (proj1 Hok) Hm). by apply idle_ops.
    + rewrite (represents_not_active m q t (proj1 Hok) Hm). by apply idle_ops, (idle_activate m); [apply Hok|..].
Qed.

(** Some operations go, and the timer with the last one. *)
Lemma idle_kept m q t tm os os' : represents m q -> m !! t = Some (tm, os) -> idle q ->
  idle (match op_queue_ (timer (on_timer t (set_ops os') q) t) with
        | [] => remove_timer t (on_timer t (set_ops os') q)
        | _ => on_timer t (set_ops os') q
        end).
Proof.
  intros Hr Hm Hi. destruct (op_queue_ _); [|by apply idle_ops].
  eapply (idle_remove (<[t := (tm, os')]> m)); [by eapply represents_ops|by rewrite lookup_insert_eq|by apply idle_ops].
Qed.
Lemma cancel_ok m q t n : queue_ok m q ->
  (cancel_timer t n q).1 = aborted (take n (waits_on m t)) /\ queue_ok (kept t (drop n) m) (cancel_timer t n q).2.
Proof.
  intros [Hok Hi]. destruct (cancel_step t n m q Hok) as (m' & Hs & Hok'). cbn [serve alarm_step] in *. unfold kept, waits_on, queue_ok.
  assert (idle (cancel_timer t n q).2) as Hi'.
  { unfold cancel_timer. destruct (m !! t) as [[tm os]|] eqn:Hm.
    - rewrite (represents_is_active m q t _ (proj1 Hok) Hm). by apply (idle_kept m q t tm os); [apply Hok|..].
    - by rewrite (represents_not_active m q t (proj1 Hok) Hm). }
  destruct (cancel_timer t n q) as [ws q']. cbn [fst snd] in *. destruct (m !! t) as [[tm os]|]; destruct Hs as [-> [= ->]]; cbn; rewrite ?take_nil; done.
Qed.
Lemma cancel_by_key_ok m q t key : queue_ok m q ->
  (cancel_timer_by_key t key q).1 = aborted (filter (fun w => cancellation_key_ w = key) (waits_on m t)) /\
  queue_ok (kept t (filter (fun w => cancellation_key_ w <> key)) m) (cancel_timer_by_key t key q).2.
Proof.
  intros [Hok Hi]. destruct (cancel_by_key_step t key m q Hok) as (m' & Hs & Hok'). cbn [serve alarm_step] in *. unfold kept, waits_on, queue_ok.
  assert (idle (cancel_timer_by_key t key q).2) as Hi'.
  { unfold cancel_timer_by_key. destruct (m !! t) as [[tm os]|] eqn:Hm.
    - rewrite (represents_is_active m q t _ (proj1 Hok) Hm). by apply (idle_kept m q t tm os); [apply Hok|..].
    - by rewrite (represents_not_active m q t (proj1 Hok) Hm). }
  destruct (cancel_timer_by_key t key q) as [ws q']. cbn [fst snd] in *. destruct (m !! t) as [[tm os]|]; destruct Hs as [-> [= ->]]; done.
Qed.

(** There are as many active timers as alarms. *)
Lemma heap_size m q : represents m q -> length (heap_ q) = size m.
Proof.
  intros Hr. rewrite <- (length_fmap snd (heap_ q)), <- (size_dom m), <- (size_list_to_set (C := gset nat) (heap_ q).*2) by apply indexed_nodup, Hr.
  apply (f_equal size), set_eq. intros t. rewrite elem_of_list_to_set, elem_of_dom. by apply represents_heap.
Qed.
Lemma queue_move_ok m q t s : queue_ok m q -> s <> t -> m !! t = None -> (Z.of_nat (size m) <= size_max)%Z ->
  queue_ok (moved t s m) (move_timer t s q).
Proof.
  intros [[Hr Hops] Hi] Hst Ht Hsize. pose proof Hr as [(L & Hl & Hp) Hx Hs Hmap Hidle].
  assert (movable t s q = true) as Hmov.
  { unfold movable. rewrite bool_decide_eq_true_2, (represents_not_active m q t Hr Ht) by done. cbn.
    destruct (m !! s) as [v|] eqn:Hms; [by rewrite (represents_is_active m q s v Hr Hms)|].
    apply orb_true_intro. right. apply Z.leb_le. rewrite Hi; [rewrite (heap_size m) by done; done|].
    rewrite (represents_heap m) by done. rewrite Hms. apply is_Some_None. }
  split.
  - split; [by apply represents_move|]. intros x tm os. unfold moved. destruct (m !! s) as [[tm' os']|] eqn:Hms; [|apply Hops].
    intros [[<- [= <- <-]]|[_ Hy]]%lookup_insert_Some; [by apply (Hops s tm')|]. apply lookup_delete_Some in Hy as [_ Hy]. by apply (Hops x tm).
  - assert (t ∉ L) as HtL by (rewrite <- Hp, (represents_heap m), Ht by done; apply is_Some_None).
    pose proof (represents_move m q t s Hr Hmov) as Hr'.
    intros x Hx'. rewrite (represents_heap _ _ _ Hr'), <- eq_None_not_Some in Hx'.
    assert (x = t -> m !! s = None) as Hxt. { intros ->. unfold moved in Hx'. destruct (m !! s); [by rewrite lookup_insert_eq in Hx'|done]. }
    rewrite (move_timers L) by done. destruct (decide (x = s)) as [->|Hxs]; [done|].
    destruct (decide (x = t)) as [->|Hxt']; cbn [heap_index_].
    + apply Hi. rewrite (represents_heap m), Hxt by done. apply is_Some_None.
    + assert (heap_index_ (timer q x) = no_index) as Hix.
      { apply Hi. rewrite (represents_heap m) by done. rewrite <- eq_None_not_Some. unfold moved in Hx'.
        destruct (m !! s); [|done]. rewrite lookup_insert_ne, lookup_delete_ne in Hx' by done. done. }
      repeat case_decide; done.
Qed.

Lemma ready_loop_idle fuel now m q ops : tq_ok m q -> idle q -> idle (ready_loop fuel now ops q).2.
Proof.
  revert m q ops. induction fuel as [|fuel IH]; intros m q ops Hok Hi; [done|]. cbn [ready_loop]. destruct (heap_ q) as [|[tm t] h] eqn:Hh; [done|].
  destruct (now <? tm)%Z; [done|]. pose proof Hok as [Hr Hops]. destruct (represents_head m q tm t h Hr Hh) as [Hm _].
  pose proof (represents_ops m q t tm _ [] Hr Hm) as Hr1. apply (IH (delete t m)).
  - split; [|intros x tm' os' Hx; apply lookup_delete_Some in Hx as [_ Hx]; by eapply Hops].
    rewrite <- (delete_insert_eq m t (tm, [])). eapply represents_remove; [done|by rewrite lookup_insert_eq].
  - eapply idle_remove; [done|by rewrite lookup_insert_eq|by apply idle_ops].
Qed.
Lemma ready_ok m q now : queue_ok m q ->
  exists m', fires now m (get_ready_timers now q).1 m' /\ queue_ok m' (get_ready_timers now q).2.
Proof.
  intros [Hok Hi]. destruct (ready_step now m q Hok) as (m' & Hs & Hok'). cbn [serve alarm_step] in *.
  pose proof (ready_loop_idle (length (heap_ q)) now m q [] Hok Hi) as Hi'. unfold get_ready_timers in *.
  destruct (ready_loop _ now [] q) as [ops q']. cbn [fst snd] in *. exists m'. destruct Hs as (_ & ops' & [= ->] & Hf). by split.
Qed.

(** ** What the service needs of the reactor *)

(** Of at most so many operations; [None]: of all. *)
Definition upto (n : option nat) (ws : list wait_op) : list wait_op := match n with Some n => take n ws | None => ws end.
Definition beyond (n : option nat) (ws : list wait_op) : list wait_op := match n with Some n => drop n ws | None => [] end.

Class TimerScheduler := {
  TS : Type;
  ts_schedule : Z -> nat -> wait_op -> TS -> TS;
  ts_cancel : nat -> option nat -> TS -> nat * TS;
  ts_cancel_by_key : nat -> nat -> TS -> TS;
  ts_move : nat -> nat -> TS -> TS;
  ts_now : TS -> Z;
  (** the event loop runs one handler at most, and handlers do nothing *)
  ts_poll : TS -> TS;
  (** such a run would come to the timers *)
  ts_looks : TS -> bool;
}.

(** A run of the event loop that began at [before] and ended at [after] looked at the timers
    in between: all that were due then have fired, and no others. *)
Definition looked (before after : Z) (m : alarms) (ready : list wait_op) (m' : alarms) : Prop :=
  exists now, (before <= now <= after)%Z /\ fires now m ready m'.

(** [keeps m ops s]: [m] are the alarms that are set, [ops] the operations that were handed to
    the event loop. *)
Class TimerSchedulerOk (T : TimerScheduler) := {
  keeps : alarms -> list wait_op -> TS -> Prop;
  schedule_keeps m ops s time t w : keeps m ops s -> keeps (scheduled time t w m) ops (ts_schedule time t w s);
  cancel_keeps m ops s t n : keeps m ops s ->
    (ts_cancel t n s).1 = length (upto n (waits_on m t)) /\
    keeps (kept t (beyond n) m) (ops ++ aborted (upto n (waits_on m t))) (ts_cancel t n s).2;
  cancel_by_key_keeps m ops s t key : keeps m ops s ->
    keeps (kept t (filter (fun w => cancellation_key_ w <> key)) m)
      (ops ++ aborted (filter (fun w => cancellation_key_ w = key) (waits_on m t))) (ts_cancel_by_key t key s);
  move_keeps m ops s t o : keeps m ops s -> o <> t -> (Z.of_nat (size m) <= size_max)%Z ->
    keeps (moved t o (delete t m)) (ops ++ aborted (waits_on m t)) (ts_move t o s);
  poll_keeps m ops s : keeps m ops s ->
    exists m' ready, keeps m' (ops ++ ready) (ts_poll s) /\
      if ts_looks s then looked (ts_now s) (ts_now (ts_poll s)) m ready m' else m' = m /\ ready = [];
}.

(** ** The service *)

(** The timer's data in the queue go by its name. *)
Record implementation_type := Impl { expiry : Z; might_have_pending_waits : bool }.

Record answer := Answer { count_ : nat; before_ : Z; after_ : Z; looks_ : bool }.

Section service.
  Context `{TimerScheduler}.

Definition construct : implementation_type := Impl 0 false.
Definition cancel (t : nat) (impl : implementation_type) (s : TS) : nat * implementation_type * TS :=
  if negb (might_have_pending_waits impl) then (0, impl, s)
  else let '(count, s) := ts_cancel t None s in (count, Impl (expiry impl) false, s).
Definition cancel_one (t : nat) (impl : implementation_type) (s : TS) : nat * implementation_type * TS :=
  if negb (might_have_pending_waits impl) then (0, impl, s)
  else
    let '(count, s) := ts_cancel t (Some 1) s in
    (count, Impl (expiry impl) (if count =? 0 then false else might_have_pending_waits impl), s).
Definition destroy (t : nat) (impl : implementation_type) (s : TS) : TS := (cancel t impl s).2.
Definition expires_at (t : nat) (expiry_time : Z) (impl : implementation_type) (s : TS) : nat * implementation_type * TS :=
  let '(count, impl, s) := cancel t impl s in (count, Impl expiry_time (might_have_pending_waits impl), s).
Definition expires_after (t : nat) (expiry_time : Z) (impl : implementation_type) (s : TS) : nat * implementation_type * TS :=
  expires_at t (add (ts_now s) expiry_time) impl s.
Definition expires_from_now (impl : implementation_type) (s : TS) : Z := subtract (expiry impl) (ts_now s).
Definition async_wait (t : nat) (w : wait_op) (impl : implementation_type) (s : TS) : implementation_type * TS :=
  (Impl (expiry impl) true, ts_schedule (expiry impl) t w s).
(** The new timer, the other one. *)
Definition move_construct (t o : nat) (other_impl : implementation_type) (s : TS) : implementation_type * implementation_type * TS :=
  let s := if might_have_pending_waits other_impl then ts_move t o s else s in
  (Impl (expiry other_impl) (might_have_pending_waits other_impl), Impl 0 false, s).
(** With one service. *)
Definition move_assign (t o : nat) (other_impl : implementation_type) (s : TS) : implementation_type * implementation_type * TS :=
  let s := ts_move t o s in
  (Impl (expiry other_impl) (might_have_pending_waits other_impl), Impl 0 false, s).
(** [op_cancellation], with the bits of a [cancellation_type]. *)
Definition op_cancellation (t key : nat) (type : Z) (s : TS) : TS :=
  if (Z.land type 7 =? 0)%Z then s else ts_cancel_by_key t key s.

(** ** Programs with timers *)

(** A timer that is not there is not used, one that is there not made again; a timer is not
    assigned to itself ([io_object_impl]). *)
Inductive timer_call :=
  | Construct (t : nat)
  | Destroy (t : nat)
  | Cancel (t : nat)
  | CancelOne (t : nat)
  | Emit (t key : nat) (type : Z)            (** the signal of a wait *)
  | ExpiresAt (t : nat) (expiry_time : Z)
  | ExpiresAfter (t : nat) (expiry_time : Z)
  | AsyncWait (t : nat) (w : wait_op)
  | MoveConstruct (t o : nat)
  | MoveAssign (t o : nat)
  | Poll.

Record timers := Timers { impls : gmap nat implementation_type; service_ : TS }.

Definition on_impl (t : nat) (f : implementation_type -> TS -> nat * implementation_type * TS) (x : timers) : nat * timers :=
  match impls x !! t with
  | Some impl => let '(count, impl, s) := f impl (service_ x) in (count, Timers (<[t := impl]> (impls x)) s)
  | None => (0, x)
  end.
Definition call (c : timer_call) (x : timers) : nat * timers :=
  match c with
  | Construct t => (0, match impls x !! t with Some _ => x | None => Timers (<[t := construct]> (impls x)) (service_ x) end)
  | Destroy t =>
      (0, match impls x !! t with Some impl => Timers (delete t (impls x)) (destroy t impl (service_ x)) | None => x end)
  | Cancel t => on_impl t (cancel t) x
  | CancelOne t => on_impl t (cancel_one t) x
  | Emit t key type => on_impl t (fun impl s => (0, impl, op_cancellation t key type s)) x
  | ExpiresAt t time => on_impl t (expires_at t time) x
  | ExpiresAfter t d => on_impl t (expires_after t d) x
  | AsyncWait t w => on_impl t (fun impl s => let '(impl, s) := async_wait t w impl s in (0, impl, s)) x
  | MoveConstruct t o =>
      (0, match impls x !! t, impls x !! o with
          | None, Some other => let '(impl, other, s) := move_construct t o other (service_ x) in Timers (<[t := impl]> (<[o := other]> (impls x))) s
          | _, _ => x
          end)
  | MoveAssign t o =>
      (0, match impls x !! t, impls x !! o with
          | Some _, Some other =>
              if decide (o = t) then x
              else let '(impl, other, s) := move_assign t o other (service_ x) in Timers (<[t := impl]> (<[o := other]> (impls x))) s
          | _, _ => x
          end)
  | Poll => (0, Timers (impls x) (ts_poll (service_ x)))
  end.

(** What each call returned, with the time before and after it, and whether a run of the
    event loop came to the timers. *)
Fixpoint call_all (cs : list timer_call) (x : timers) : list answer * timers :=
  match cs with
  | [] => ([], x)
  | c :: cs =>
      let '(count, x1) := call c x in
      let '(l, x2) := call_all cs x1 in (Answer count (ts_now (service_ x)) (ts_now (service_ x1)) (ts_looks (service_ x)) :: l, x2)
  end.
End service.

(** ** What timers promise *)

(** A timer has an expiry and waits. *)
Abbreviation timer_map := (gmap nat (Z * list wait_op)).

Definition alarms_of (A : timer_map) : alarms := filter (fun x => x.2.2 <> []) A.
(** The waits of a timer end early; its count. *)
Definition abort (t : nat) (n : option nat) (A : timer_map) : nat * list wait_op * timer_map :=
  match A !! t with
  | Some (e, ws) => (length (upto n ws), aborted (upto n ws), <[t := (e, beyond n ws)]> A)
  | None => (0, [], A)
  end.
Definition set_expiry (t : nat) (time : Z) (A : timer_map) : nat * list wait_op * timer_map :=
  match A !! t with
  | Some (_, ws) => (length ws, aborted ws, <[t := (time, [])]> A)
  | None => (0, [], A)
  end.
Definition move_to (t o : nat) (A : timer_map) : timer_map :=
  match A !! o with Some a => <[t := a]> (<[o := (0%Z, [])]> A) | None => A end.

(** The count, the operations handed over, the timers afterwards. *)
Definition promised (c : timer_call) (before : Z) (A : timer_map) : nat * list wait_op * timer_map :=
  match c with
  | Construct t => (0, [], match A !! t with Some _ => A | None => <[t := (0%Z, [])]> A end)
  | Destroy t => (0, aborted (waits_on A t), delete t A)
  | Cancel t => abort t None A
  | CancelOne t => abort t (Some 1) A
  | Emit t key type =>
      match A !! t with
      | Some (e, ws) =>
          if (Z.land type 7 =? 0)%Z then (0, [], A)
          else (0, aborted (filter (fun w => cancellation_key_ w = key) ws), <[t := (e, filter (fun w => cancellation_key_ w <> key) ws)]> A)
      | None => (0, [], A)
      end
  | ExpiresAt t time => set_expiry t time A
  | ExpiresAfter t d => set_expiry t (add before d) A
  | AsyncWait t w => (0, [], match A !! t with Some (e, ws) => <[t := (e, ws ++ [w])]> A | None => A end)
  | MoveConstruct t o => (0, [], match A !! t with Some _ => A | None => move_to t o A end)
  | MoveAssign t o =>
      match A !! t, A !! o with
      | Some _, Some _ => if decide (o = t) then (0, [], A) else (0, aborted (waits_on A t), move_to t o A)
      | _, _ => (0, [], A)
      end
  | Poll => (0, [], A)
  end.
(** A run of the event loop that comes to the timers ends the waits of all that are due. *)
Definition expired (now : Z) (A : timer_map) : timer_map :=
  (fun x : Z * list wait_op => (x.1, if (x.1 <=? now)%Z then [] else x.2)) <$> A.
Definition promise (c : timer_call) (w : answer) (A : timer_map) (ops : list wait_op) (A' : timer_map) : Prop :=
  match c with
  | Poll =>
      count_ w = 0 /\
      if looks_ w then exists now m', (before_ w <= now <= after_ w)%Z /\ fires now (alarms_of A) ops m' /\ A' = expired now A
      else ops = [] /\ A' = A
  | _ => (count_ w, ops, A') = promised c (before_ w) A
  end.

Inductive promises : timer_map -> list timer_call -> list answer -> list wait_op -> timer_map -> Prop :=
  | promises_nil A : promises A [] [] [] A
  | promises_cons A c cs w l ops1 ops2 A1 A2 : promise c w A ops1 A1 -> promises A1 cs l ops2 A2 ->
      promises A (c :: cs) (w :: l) (ops1 ++ ops2) A2.

(** ** The service keeps the promise *)

Lemma alarms_of_lookup (A : timer_map) t : alarms_of A !! t = match A !! t with Some (e, w :: ws) => Some (e, w :: ws) | _ => None end.
Proof.
  unfold alarms_of. destruct (A !! t) as [[e [|w ws]]|] eqn:E.
  - apply map_lookup_filter_None. right. intros x Hx. rewrite E in Hx. injection Hx as <-. cbn. by intros [].
  - apply map_lookup_filter_Some. done.
  - apply map_lookup_filter_None. by left.
Qed.
Lemma alarms_of_keep (A : timer_map) t e ws : alarms_of (<[t := (e, ws)]> A) = keep t e ws (alarms_of A).
Proof.
  apply map_eq. intros u. rewrite alarms_of_lookup. unfold keep. destruct (decide (u = t)) as [->|Hne].
  - rewrite lookup_insert_eq. destruct ws; [by rewrite lookup_delete_eq|by rewrite lookup_insert_eq].
  - rewrite lookup_insert_ne by done. destruct ws; [rewrite lookup_delete_ne by done|rewrite lookup_insert_ne by done]; by rewrite alarms_of_lookup.
Qed.
Lemma alarms_of_delete (A : timer_map) t : alarms_of (delete t A) = delete t (alarms_of A).
Proof. unfold alarms_of. by rewrite map_filter_delete. Qed.
Lemma waits_on_alarms (A : timer_map) t : waits_on (alarms_of A) t = waits_on A t.
Proof. unfold waits_on. rewrite alarms_of_lookup. by destruct (A !! t) as [[e [|w ws]]|]. Qed.
Lemma waits_on_lookup (A : timer_map) t e ws : A !! t = Some (e, ws) -> waits_on A t = ws.
Proof. unfold waits_on. by intros ->. Qed.

Lemma kept_alarms (A : timer_map) t e ws f : A !! t = Some (e, ws) -> f [] = [] -> kept t f (alarms_of A) = alarms_of (<[t := (e, f ws)]> A).
Proof.
  intros Ht Hf. rewrite alarms_of_keep. unfold kept. rewrite alarms_of_lookup, Ht. destruct ws as [|w ws]; [|done].
  rewrite Hf. cbn. symmetry. apply delete_id. by rewrite alarms_of_lookup, Ht.
Qed.
Lemma scheduled_alarms (A : timer_map) t e ws w : A !! t = Some (e, ws) -> scheduled e t w (alarms_of A) = alarms_of (<[t := (e, ws ++ [w])]> A).
Proof.
  intros Ht. rewrite alarms_of_keep. unfold scheduled. rewrite alarms_of_lookup, Ht. by destruct ws as [|w' ws].
Qed.
Lemma moved_alarms (A : timer_map) t o a : o <> t -> A !! o = Some a -> moved t o (delete t (alarms_of A)) = alarms_of (move_to t o A).
Proof.
  intros Hot Ho. apply map_eq. intros u. unfold move_to. rewrite Ho, alarms_of_lookup. unfold moved.
  rewrite lookup_delete_ne, alarms_of_lookup, Ho by done. destruct a as [e ws].
  destruct (decide (u = t)) as [->|Hut]; [rewrite lookup_insert_eq; destruct ws; [by rewrite lookup_delete_eq|by rewrite lookup_insert_eq]|].
  rewrite lookup_insert_ne by done. destruct (decide (u = o)) as [->|Huo].
  - rewrite lookup_insert_eq. destruct ws; [by rewrite lookup_delete_ne, alarms_of_lookup, Ho|by rewrite lookup_insert_ne, lookup_delete_eq].
  - rewrite lookup_insert_ne by done. destruct ws; [by rewrite lookup_delete_ne, alarms_of_lookup by done|].
    by rewrite lookup_insert_ne, !lookup_delete_ne, alarms_of_lookup by done.
Qed.
Lemma fired_alarms (A : timer_map) now : filter (fun x => (now < x.2.1)%Z) (alarms_of A) =
  alarms_of ((fun x : Z * list wait_op => (x.1, if (x.1 <=? now)%Z then [] else x.2)) <$> A).
Proof.
  apply map_eq. intros t. rewrite alarms_of_lookup, lookup_fmap, map_lookup_filter, alarms_of_lookup.
  destruct (A !! t) as [[e [|w ws]]|]; cbn; [by destruct (_ <=? _)%Z| |done].
  destruct (Z.leb_spec e now); [rewrite option_guard_False by (cbn; lia); done|rewrite option_guard_True by (cbn; lia); done].
Qed.

Section refinement.
  Context `{T : TimerScheduler, !TimerSchedulerOk T}.

(** A timer with waits has its flag set. *)
Definition agree (a : option (Z * list wait_op)) (i : option implementation_type) : Prop :=
  match a, i with
  | Some (e, ws), Some impl => expiry impl = e /\ (ws <> [] -> might_have_pending_waits impl = true)
  | None, None => True
  | _, _ => False
  end.
Record linked (A : timer_map) (ops : list wait_op) (x : timers) : Prop := {
  ln_agree : forall t, agree (A !! t) (impls x !! t);
  ln_keeps : keeps (alarms_of A) ops (service_ x);
}.

Lemma agree_insert (A : timer_map) (I : gmap nat implementation_type) t a i : (forall u, agree (A !! u) (I !! u)) -> agree (Some a) (Some i) -> forall u, agree (<[t := a]> A !! u) (<[t := i]> I !! u).
Proof.
  intros Hall Ht u. destruct (decide (u = t)) as [->|]; [by rewrite !lookup_insert_eq|]. by rewrite !lookup_insert_ne.
Qed.
Lemma agree_delete (A : timer_map) (I : gmap nat implementation_type) t : (forall u, agree (A !! u) (I !! u)) -> forall u, agree (delete t A !! u) (delete t I !! u).
Proof. intros Hall u. destruct (decide (u = t)) as [->|]; [by rewrite !lookup_delete_eq|]. by rewrite !lookup_delete_ne. Qed.

(** [cancel], whether the flag is set or not. *)
Lemma cancel_linked A ops s t e ws impl : keeps (alarms_of A) ops s -> A !! t = Some (e, ws) -> agree (Some (e, ws)) (Some impl) ->
  let '(count, impl', s') := cancel t impl s in
  count = length ws /\ impl' = Impl (expiry impl) false /\ keeps (alarms_of (<[t := (e, [])]> A)) (ops ++ aborted ws) s'.
Proof.
  intros Hk Ht [He Hm]. unfold cancel. destruct impl as [e' [|]]; cbn [might_have_pending_waits negb expiry] in *.
  - pose proof (cancel_keeps _ _ _ t None Hk) as [Hn Hk']. rewrite waits_on_alarms, (waits_on_lookup A t e ws Ht) in Hn, Hk'.
    rewrite (kept_alarms A t e ws _ Ht eq_refl) in Hk'. cbn [upto beyond] in *. destruct (ts_cancel t None s) as [n s']. by cbn in *.
  - assert (ws = []) as -> by (destruct ws; [done|]; by specialize (Hm ltac:(done))). cbn. rewrite app_nil_r. by rewrite insert_id.
Qed.

(** A call on one timer: what it does to the expiry and the waits. *)
Definition at_timer (t : nat) (g : Z -> list wait_op -> nat * list wait_op * (Z * list wait_op)) (A : timer_map) : nat * list wait_op * timer_map :=
  match A !! t with Some (e, ws) => let '(n, ops, a) := g e ws in (n, ops, <[t := a]> A) | None => (0, [], A) end.
Lemma size_insert_le (A : timer_map) t a : size (<[t := a]> A) <= S (size A).
Proof. destruct (A !! t) eqn:Ht; [rewrite map_size_insert_Some; by eauto|by rewrite map_size_insert_None]. Qed.
Lemma on_impl_linked A ops x t f g : linked A ops x ->
  (forall e ws impl, A !! t = Some (e, ws) -> agree (Some (e, ws)) (Some impl) ->
    let '(count, impl', s') := f impl (service_ x) in let '(n, ops', a) := g e ws in
    count = n /\ agree (Some a) (Some impl') /\ keeps (alarms_of (<[t := a]> A)) (ops ++ ops') s') ->
  let '(n, ops', A') := at_timer t g A in
  (on_impl t f x).1 = n /\ linked A' (ops ++ ops') (on_impl t f x).2 /\ size A' <= S (size A).
Proof.
  intros [Ha Hk] Hf. unfold at_timer, on_impl. pose proof (Ha t) as Ht. destruct (A !! t) as [[e ws]|] eqn:HA, (impls x !! t) as [impl|]; try done.
  - specialize (Hf e ws impl eq_refl Ht). destruct (f impl (service_ x)) as [[count impl'] s'], (g e ws) as [[n ops'] a].
    destruct Hf as (-> & Hag & Hk'). split_and!; [done| |apply size_insert_le]. split; [|done]. by apply agree_insert.
  - rewrite app_nil_r. split_and!; [done| |lia]. by split.
Qed.

Lemma cancel_call A ops x t : linked A ops x ->
  let '(n, ops', A') := at_timer t (fun e ws => (length ws, aborted ws, (e, []))) A in
  (on_impl t (cancel t) x).1 = n /\ linked A' (ops ++ ops') (on_impl t (cancel t) x).2 /\ size A' <= S (size A).
Proof.
  intros Hl. apply on_impl_linked; [done|]. intros e ws impl HA Hag.
  pose proof (cancel_linked A ops (service_ x) t e ws impl (ln_keeps _ _ _ Hl) HA Hag) as Hc. destruct (cancel t impl (service_ x)) as [[n i] s].
  destruct Hc as (-> & -> & Hk). split_and!; [done|by split; [apply Hag|]|done].
Qed.
Lemma expires_call A ops x t (time : TS -> Z) : linked A ops x ->
  let f := fun impl s => expires_at t (time s) impl s in
  let '(n, ops', A') := at_timer t (fun _ ws => (length ws, aborted ws, (time (service_ x), []))) A in
  (on_impl t f x).1 = n /\ linked A' (ops ++ ops') (on_impl t f x).2 /\ size A' <= S (size A).
Proof.
  intros Hl f. apply on_impl_linked; [done|]. intros e ws impl HA Hag. unfold f, expires_at.
  pose proof (cancel_linked A ops (service_ x) t e ws impl (ln_keeps _ _ _ Hl) HA Hag) as Hc. destruct (cancel t impl (service_ x)) as [[n i] s].
  destruct Hc as (-> & -> & Hk). split_and!; [done|by split|].
  rewrite alarms_of_keep in Hk |- *. exact Hk.
Qed.
Lemma cancel_one_call A ops x t : linked A ops x ->
  let '(n, ops', A') := at_timer t (fun e ws => (length (take 1 ws), aborted (take 1 ws), (e, drop 1 ws))) A in
  (on_impl t (cancel_one t) x).1 = n /\ linked A' (ops ++ ops') (on_impl t (cancel_one t) x).2 /\ size A' <= S (size A).
Proof.
  intros Hl. apply on_impl_linked; [done|]. intros e ws impl HA [He Hm]. pose proof (ln_keeps _ _ _ Hl) as Hk. unfold cancel_one.
  destruct impl as [e' [|]]; cbn [might_have_pending_waits negb expiry] in *.
  - pose proof (cancel_keeps _ _ _ t (Some 1) Hk) as [Hn Hk']. rewrite waits_on_alarms, (waits_on_lookup A t e ws HA) in Hn, Hk'.
    rewrite (kept_alarms A t e ws _ HA eq_refl) in Hk'. cbn [upto beyond] in *. destruct (ts_cancel t (Some 1) (service_ x)) as [n s']. cbn in Hn. subst n.
    split_and!; [done| |done]. split; [done|]. by destruct ws.
  - assert (ws = []) as -> by (destruct ws; [done|]; by specialize (Hm ltac:(done))). cbn. rewrite app_nil_r, insert_id by done. by split_and!.
Qed.
Lemma emit_call A ops x t key type : linked A ops x ->
  let f := fun impl s => (0, impl, op_cancellation t key type s) in
  let '(n, ops', A') := at_timer t (fun e ws => if (Z.land type 7 =? 0)%Z then (0, [], (e, ws))
    else (0, aborted (filter (fun w => cancellation_key_ w = key) ws), (e, filter (fun w => cancellation_key_ w <> key) ws))) A in
  (on_impl t f x).1 = n /\ linked A' (ops ++ ops') (on_impl t f x).2 /\ size A' <= S (size A).
Proof.
  intros Hl f. apply on_impl_linked; [done|]. intros e ws impl HA [He Hm]. pose proof (ln_keeps _ _ _ Hl) as Hk. unfold f, op_cancellation.
  destruct (_ =? 0)%Z.
  - rewrite app_nil_r, insert_id by done. by split_and!.
  - pose proof (cancel_by_key_keeps _ _ _ t key Hk) as Hk'. rewrite waits_on_alarms, (waits_on_lookup A t e ws HA) in Hk'.
    rewrite (kept_alarms A t e ws _ HA eq_refl) in Hk'. split_and!; [done| |done]. split; [done|]. intros Hne. apply Hm. by intros ->.
Qed.
Lemma wait_call A ops x t w : linked A ops x ->
  let f := fun impl s => let '(impl, s) := async_wait t w impl s in (0, impl, s) in
  let '(n, ops', A') := at_timer t (fun e ws => (0, [], (e, ws ++ [w]))) A in
  (on_impl t f x).1 = n /\ linked A' (ops ++ ops') (on_impl t f x).2 /\ size A' <= S (size A).
Proof.
  intros Hl f. apply on_impl_linked; [done|]. intros e ws impl HA [He Hm]. unfold f, async_wait. split_and!; [done|done|].
  rewrite app_nil_r, <- (scheduled_alarms A t e ws w HA), He. by apply schedule_keeps, Hl.
Qed.

Lemma size_alarms (A : timer_map) : size (alarms_of A) <= size A.
Proof. apply map_size_filter. Qed.
Lemma move_linked A ops s t o a : keeps (alarms_of A) ops s -> o <> t -> A !! o = Some a -> (Z.of_nat (size A) <= size_max)%Z ->
  keeps (alarms_of (move_to t o A)) (ops ++ aborted (waits_on A t)) (ts_move t o s).
Proof.
  intros Hk Hot Ho Hs. rewrite <- (moved_alarms A t o a), <- (waits_on_alarms A t) by done. apply move_keeps; [done..|].
  pose proof (size_alarms A). lia.
Qed.
(** Without waits there is nothing to move. *)
Lemma move_idle A t o e : o <> t -> A !! o = Some (e, []) -> A !! t = None -> alarms_of (move_to t o A) = alarms_of A.
Proof.
  intros Hot Ho Ht. rewrite <- (moved_alarms A t o (e, [])) by done. unfold moved.
  rewrite lookup_delete_ne, alarms_of_lookup, Ho by done. apply delete_id. by rewrite alarms_of_lookup, Ht.
Qed.
Lemma agree_move A (I : gmap nat implementation_type) t o a other : (forall u, agree (A !! u) (I !! u)) -> A !! o = Some a -> I !! o = Some other ->
  forall u, agree (move_to t o A !! u)
    (<[t := Impl (expiry other) (might_have_pending_waits other)]> (<[o := Impl 0 false]> I) !! u).
Proof.
  intros Hall Ho HI. unfold move_to. rewrite Ho. pose proof (Hall o) as Hao. rewrite Ho, HI in Hao. apply agree_insert; [by apply agree_insert|].
  by destruct a, other.
Qed.
Lemma size_move A t o a : A !! o = Some a -> size (move_to t o A) <= S (size A).
Proof.
  intros Ho. unfold move_to. rewrite Ho. etrans; [apply size_insert_le|]. rewrite map_size_insert_Some; [done|by eauto].
Qed.

Lemma construct_call A ops x t : linked A ops x ->
  let A' := match A !! t with Some _ => A | None => <[t := (0%Z, [])]> A end in
  linked A' ops (call (Construct t) x).2 /\ size A' <= S (size A).
Proof.
  intros [Ha Hk] A'. unfold A'. cbn. pose proof (Ha t) as Ht. destruct (A !! t) as [[e ws]|] eqn:HA, (impls x !! t) as [impl|]; try done; [split; [by split|lia]|].
  split; [|apply size_insert_le]. split; cbn; [by apply agree_insert|]. rewrite alarms_of_keep. cbn. rewrite delete_id; [done|]. by rewrite alarms_of_lookup, HA.
Qed.
Lemma destroy_call A ops x t : linked A ops x ->
  linked (delete t A) (ops ++ aborted (waits_on A t)) (call (Destroy t) x).2 /\ size (delete t A) <= S (size A).
Proof.
  intros [Ha Hk]. split; [|destruct (A !! t) eqn:HA; [rewrite map_size_delete_Some by eauto|rewrite map_size_delete_None by done]; lia]. cbn. pose proof (Ha t) as Ht.
  destruct (A !! t) as [[e ws]|] eqn:HA, (impls x !! t) as [impl|]; try done.
  - pose proof (cancel_linked A ops (service_ x) t e ws impl Hk HA Ht) as Hc. unfold destroy. destruct (cancel t impl (service_ x)) as [[n i] s].
    destruct Hc as (_ & _ & Hk'). rewrite (waits_on_lookup A t e ws HA). split; cbn; [by apply agree_delete|].
    rewrite alarms_of_keep in Hk'. by rewrite alarms_of_delete.
  - unfold waits_on. rewrite HA. cbn. rewrite app_nil_r, delete_id by done. by split.
Qed.
Lemma move_construct_call A ops x t o : linked A ops x -> (Z.of_nat (size A) <= size_max)%Z ->
  let A' := match A !! t with Some _ => A | None => move_to t o A end in
  linked A' ops (call (MoveConstruct t o) x).2 /\ size A' <= S (size A).
Proof.
  intros [Ha Hk] Hs A'. unfold A'. cbn. pose proof (Ha t) as Ht. pose proof (Ha o) as Ho.
  destruct (A !! t) as [[e ws]|] eqn:HAt, (impls x !! t) as [impl|] eqn:HIt; try done; [split; [by split|lia]|].
  destruct (A !! o) as [[e ws]|] eqn:HAo, (impls x !! o) as [other|] eqn:HIo; try done; [|unfold move_to; rewrite HAo; split; [by split|lia]].
  assert (o <> t) as Hot by congruence. split; [|by eapply size_move]. split; cbn; [by eapply agree_move|].
  destruct Ho as [He Hm], (might_have_pending_waits other).
  - rewrite <- (app_nil_r ops). pose proof (move_linked A ops (service_ x) t o _ Hk Hot HAo Hs) as Hk'. unfold waits_on in Hk'. by rewrite HAt in Hk'.
  - assert (ws = []) as -> by (destruct ws; [done|]; by specialize (Hm ltac:(done))). by rewrite (move_idle A t o e).
Qed.
Lemma move_assign_call A ops x t o : linked A ops x -> (Z.of_nat (size A) <= size_max)%Z ->
  let '(_, ops', A') := promised (MoveAssign t o) 0 A in
  linked A' (ops ++ ops') (call (MoveAssign t o) x).2 /\ size A' <= S (size A).
Proof.
  intros [Ha Hk] Hs. cbn. pose proof (Ha t) as Ht. pose proof (Ha o) as Ho.
  destruct (A !! t) as [at'|] eqn:HAt, (impls x !! t) as [impl|] eqn:HIt; try done; [| |rewrite app_nil_r; split; [by split|lia]]; [|by destruct at'].
  destruct (A !! o) as [[e ws]|] eqn:HAo, (impls x !! o) as [other|] eqn:HIo; try done; [|rewrite app_nil_r; split; [by split|lia]].
  destruct (decide (o = t)) as [->|Hot]; [rewrite app_nil_r; split; [by split|lia]|].
  split; [|by eapply size_move]. split; cbn; [by eapply agree_move|]. by eapply move_linked.
Qed.
Definition answered (c : timer_call) (x : timers) : answer :=
  Answer (call c x).1 (ts_now (service_ x)) (ts_now (service_ (call c x).2)) (ts_looks (service_ x)).
Lemma poll_call A ops x : linked A ops x ->
  exists ops' A', promise Poll (answered Poll x) A ops' A' /\
    linked A' (ops ++ ops') (call Poll x).2 /\ size A' <= S (size A).
Proof.
  intros [Ha Hk]. destruct (poll_keeps _ _ _ Hk) as (m' & ready & Hk' & Hpoll). unfold promise, answered; cbn [count_ before_ after_ looks_ call fst snd service_].
  destruct (ts_looks (service_ x)).
  - destruct Hpoll as (now & Hnow & Hf). exists ready, (expired now A). split; [split; [done|by exists now, m']|]. split.
    + split; cbn; [|unfold expired; by rewrite <- fired_alarms, <- (ready_fires _ _ _ _ Hf)]. intros t. unfold expired. rewrite lookup_fmap. specialize (Ha t).
      destruct (A !! t) as [[e ws]|], (impls x !! t) as [impl|]; try done. cbn in *. destruct Ha as [He Hm]. split; [done|]. by destruct (_ <=? _)%Z.
    + unfold expired. rewrite map_size_fmap. lia.
  - destruct Hpoll as [-> ->]. exists [], A. split; [done|]. split; [by split|lia].
Qed.

Lemma call_linked c A ops x : linked A ops x -> (Z.of_nat (size A) <= size_max)%Z ->
  exists ops' A', promise c (answered c x) A ops' A' /\
    linked A' (ops ++ ops') (call c x).2 /\ size A' <= S (size A).
Proof.
  intros Hl Hs.
  assert (forall p, c <> Poll -> promised c (ts_now (service_ x)) A = p ->
    (let '(n, ops', A') := p in (call c x).1 = n /\ linked A' (ops ++ ops') (call c x).2 /\ size A' <= S (size A)) ->
    exists ops' A', promise c (answered c x) A ops' A' /\
      linked A' (ops ++ ops') (call c x).2 /\ size A' <= S (size A)) as Hdone.
  { intros [[n ops'] A'] Hc Hp (Hn & Hl' & Hs'). exists ops', A'. split; [|done].
    assert ((count_ (answered c x), ops', A') = promised c (before_ (answered c x)) A) as Hans by (cbn; by rewrite Hp, Hn). by destruct c. }
  destruct c as [t|t|t|t|t key type|t time|t d|t w|t o|t o|]; [..|by apply poll_call]; (eapply Hdone; [done|done|]).
  - cbn [promised]. rewrite app_nil_r. split; [done|]. by apply construct_call.
  - cbn [promised]. split; [done|]. by apply destroy_call.
  - pose proof (cancel_call A ops x t Hl) as Hc. unfold at_timer in Hc. cbn [promised call]. unfold abort. by destruct (A !! t) as [[e ws]|].
  - pose proof (cancel_one_call A ops x t Hl) as Hc. unfold at_timer in Hc. cbn [promised call]. unfold abort. by destruct (A !! t) as [[e ws]|].
  - pose proof (emit_call A ops x t key type Hl) as Hc. unfold at_timer in Hc. cbn [promised call]. destruct (A !! t) as [[e ws]|] eqn:HA; [|done].
    destruct (_ =? 0)%Z; [|done]. by rewrite (insert_id A t (e, ws)) in Hc.
  - pose proof (expires_call A ops x t (fun _ => time) Hl) as Hc. unfold at_timer in Hc. cbn [promised call]. unfold set_expiry. by destruct (A !! t) as [[e ws]|].
  - pose proof (expires_call A ops x t (fun s => add (ts_now s) d) Hl) as Hc. unfold at_timer in Hc. cbn [promised call]. unfold set_expiry. by destruct (A !! t) as [[e ws]|].
  - pose proof (wait_call A ops x t w Hl) as Hc. unfold at_timer in Hc. cbn [promised call]. destruct (A !! t) as [[e ws]|]; done.
  - cbn [promised]. rewrite app_nil_r. split; [done|]. by apply move_construct_call.
  - pose proof (move_assign_call A ops x t o Hl Hs) as Hc. change (promised (MoveAssign t o) (ts_now (service_ x)) A) with (promised (MoveAssign t o) 0 A).
    destruct (promised (MoveAssign t o) 0 A) as [[n ops'] A'] eqn:Hp. split; [|done]. cbn in Hp |- *.
    destruct (A !! t), (A !! o); try (by injection Hp as <- _ _). by destruct (decide (o = t)); injection Hp as <- _ _.
Qed.

Lemma call_all_linked cs A ops x : linked A ops x -> (Z.of_nat (size A + length cs) <= size_max)%Z ->
  exists ops' A', promises A cs (call_all cs x).1 ops' A' /\ linked A' (ops ++ ops') (call_all cs x).2.
Proof.
  revert A ops x. induction cs as [|c cs IH]; intros A ops x Hl Hs.
  - exists [], A. rewrite app_nil_r. split; [constructor|done].
  - cbn [length] in Hs. destruct (call_linked c A ops x Hl ltac:(lia)) as (ops1 & A1 & Hp & Hl1 & Hs1). cbn [call_all].
    unfold answered in Hp. destruct (call c x) as [count x1]. cbn [fst snd] in *. destruct (IH A1 (ops ++ ops1) x1 Hl1 ltac:(lia)) as (ops2 & A2 & Hps & Hl2).
    destruct (call_all cs x1) as [l x2]. cbn [fst snd] in *. exists (ops1 ++ ops2), A2. rewrite app_assoc. split; [by eapply promises_cons|done].
Qed.
End refinement.

(** ** The epoll reactor as the scheduler of timers *)

Import EpollReactor(Epoll, clock, kern, handled, stopping, operation, TimerOp, ReactorOp, DescriptorOp, epoll_task, rop, perform, timerfd_settime).
Import Scheduler(sched, env, this_thread).
#[local] Existing Instance EpollReactor.epoll_task.
#[local] Abbreviation machine := (@Scheduler.machine epoll_task).

(** The clock does not go back while the system is called. *)
Class SteadyClock (K : Epoll) := {
  settime_later flags usec k : (clock k <= clock (timerfd_settime flags usec k))%Z;
  perform_later o k : (clock k <= clock (perform o k).2)%Z;
  wait_later usec k : (clock k <= clock (EpollReactor.epoll_wait usec k).2)%Z;
}.

Section epoll.
  Context `{K : Epoll}.

(** [epoll_reactor::cancel_timer] also returns the number of the operations. *)
Definition cancel_timer_count (t : nat) (max_cancelled : option nat) (m : machine) : nat * machine :=
  let q := EpollReactor.timers (env m) in
  let n := default (length (op_queue_ (timer q t))) max_cancelled in
  (length (cancel_timer t n q).1, EpollReactor.cancel_timer t n m).

(** The task looks at the timers when it has no timer descriptor, or [epoll_wait] reports it;
    [poll_one] runs the task when that is at the front of the queue. *)
Definition reports_timer (e : EpollReactor.source * Z) : bool := match e.1 with EpollReactor.TimerFd => true | _ => false end.
Definition task_looks (usec : Z) (r : EpollReactor.reactor) : bool :=
  (EpollReactor.timer_fd_ r =? -1)%Z || existsb reports_timer (EpollReactor.epoll_wait (EpollReactor.epoll_timeout usec r) (kern r)).1.
Definition poll_looks (m : machine) : bool :=
  negb (Scheduler.outstanding_work_ (sched m) =? 0)%Z && negb (Scheduler.stopped_ (sched m)) &&
  match Scheduler.op_queue_ (sched m) with Scheduler.TaskOperation :: _ => task_looks 0 (env m) | _ => false end.

#[export] Instance epoll_timers : TimerScheduler := {|
  TS := machine;
  ts_schedule := EpollReactor.schedule_timer;
  ts_cancel := cancel_timer_count;
  ts_cancel_by_key := EpollReactor.cancel_timer_by_key;
  ts_move := EpollReactor.move_timer;
  ts_now m := clock (kern (env m));
  ts_poll m := (@Scheduler.poll_one epoll_task (EpollReactor.complete (fun _ => [])) m).2;
  ts_looks := poll_looks;
|}.

(** The waits that were handed to the event loop: those whose handlers were called, then those
    in the queue. *)
Definition timer_op (o : operation) : option wait_op := match o with TimerOp w => Some w | _ => None end.
Definition item_op (i : @Scheduler.item epoll_task) : option operation :=
  match i with Scheduler.UserOperation o => Some o | Scheduler.TaskOperation => None end.
Definition queued_ops (m : machine) : list operation := omap item_op (Scheduler.op_queue_ (sched m)).
Definition ended_waits (m : machine) : list wait_op := omap timer_op (handled (env m) ++ queued_ops m).

Record epoll_keeps (al : alarms) (ops : list wait_op) (m : machine) : Prop := {
  ek_queue : queue_ok al (EpollReactor.timers (env m));
  ek_open : stopping (env m) = false;
  ek_ended : ended_waits m = ops;
}.

Lemma post_deferred_queue (os : list operation) (m : machine) :
  queued_ops (EpollReactor.post_deferred_completions os m) = queued_ops m ++ os /\ env (EpollReactor.post_deferred_completions os m) = env m /\
  this_thread (EpollReactor.post_deferred_completions os m) = this_thread m.
Proof.
  unfold EpollReactor.post_deferred_completions. revert m. induction os as [|o os IH]; intros m; cbn [foldl]; [by rewrite app_nil_r|].
  destruct (IH (@Scheduler.post_deferred_completion epoll_task o m)) as (-> & -> & ->). unfold Scheduler.post_deferred_completion.
  assert (queued_ops (@Scheduler.on_sched epoll_task (Scheduler.push [@Scheduler.UserOperation epoll_task o]) m) = queued_ops m ++ [o]) as Hq.
  { unfold queued_ops. cbn. by rewrite omap_app. }
  by destruct (this_thread m) eqn:Ht; cbn in *; rewrite ?Hq, ?Ht, <- ?app_assoc.
Qed.
Lemma timer_ops (ws : list wait_op) : omap timer_op (TimerOp <$> ws) = ws.
Proof. induction ws as [|w ws IH]; cbn; [done|]. by rewrite IH. Qed.

(** The operations of the queue that end are posted. *)
Lemma post_timers_keeps al ops m al' ws q : epoll_keeps al ops m -> queue_ok al' q ->
  epoll_keeps al' (ops ++ ws) (EpollReactor.post_deferred_completions (TimerOp <$> ws) (EpollReactor.on_env (EpollReactor.set_timers q) m)).
Proof.
  intros [Hq Hs He] Hq'. set (m1 := EpollReactor.on_env _ m). destruct (post_deferred_queue (TimerOp <$> ws) m1) as (Hqueue & Henv & _).
  split; [by rewrite Henv|by rewrite Henv|]. unfold ended_waits. rewrite Hqueue, Henv, app_assoc, omap_app, timer_ops. f_equal. exact He.
Qed.

Lemma full_take al q t : represents al q -> take (length (op_queue_ (timer q t))) (waits_on al t) = waits_on al t /\
  drop (length (op_queue_ (timer q t))) (waits_on al t) = [].
Proof.
  intros Hr. assert (op_queue_ (timer q t) = waits_on al t) as ->.
  { unfold waits_on. destruct (al !! t) as [[tm os]|] eqn:Ht; [by apply (rp_map _ _ Hr) in Ht as [_ ->]|by apply (rp_idle _ _ Hr)]. }
  by rewrite take_ge, drop_ge.
Qed.
Lemma kept_ext t f g al : f (waits_on al t) = g (waits_on al t) -> kept t f al = kept t g al.
Proof. unfold kept, waits_on. destruct (al !! t) as [[tm os]|]; cbn; [by intros ->|done]. Qed.

Lemma epoll_cancel al ops m t n : epoll_keeps al ops m ->
  (cancel_timer_count t n m).1 = length (upto n (waits_on al t)) /\
  epoll_keeps (kept t (beyond n) al) (ops ++ aborted (upto n (waits_on al t))) (cancel_timer_count t n m).2.
Proof.
  intros Hk. pose proof Hk as [Hq _ _]. unfold cancel_timer_count, EpollReactor.cancel_timer. cbn [fst snd]. set (q := EpollReactor.timers (env m)) in *.
  set (n' := default _ n). destruct (cancel_ok al q t n' Hq) as [Hws Hq'].
  assert (take n' (waits_on al t) = upto n (waits_on al t) /\ kept t (drop n') al = kept t (beyond n) al) as [Ht Hd].
  { unfold n'. destruct n as [n|]; [done|]. destruct (full_take al q t (proj1 (proj1 Hq))) as [? ?]. split; [done|]. by apply kept_ext. }
  rewrite Ht in Hws. rewrite Hd in Hq'. destruct (cancel_timer t n' q) as [ws q']. cbn [fst snd] in *. subst ws.
  split; [by unfold aborted; rewrite length_fmap|by apply (post_timers_keeps al)].
Qed.
Lemma epoll_cancel_by_key al ops m t key : epoll_keeps al ops m ->
  epoll_keeps (kept t (filter (fun w => cancellation_key_ w <> key)) al)
    (ops ++ aborted (filter (fun w => cancellation_key_ w = key) (waits_on al t))) (EpollReactor.cancel_timer_by_key t key m).
Proof.
  intros Hk. pose proof Hk as [Hq _ _]. unfold EpollReactor.cancel_timer_by_key. destruct (cancel_by_key_ok al _ t key Hq) as [Hws Hq'].
  destruct (cancel_timer_by_key t key _) as [ws q']. cbn [fst snd] in *. subst ws. by apply (post_timers_keeps al).
Qed.
Lemma epoll_move al ops m t o : epoll_keeps al ops m -> o <> t -> (Z.of_nat (size al) <= size_max)%Z ->
  epoll_keeps (moved t o (delete t al)) (ops ++ aborted (waits_on al t)) (EpollReactor.move_timer t o m).
Proof.
  intros Hk Hot Hs. pose proof Hk as [Hq _ _]. unfold EpollReactor.move_timer. set (q := EpollReactor.timers (env m)) in *.
  destruct (cancel_ok al q t (length (op_queue_ (timer q t))) Hq) as [Hws Hq']. destruct (full_take al q t (proj1 (proj1 Hq))) as [Ht Hd].
  rewrite Ht in Hws. rewrite (kept_ext t _ (fun _ => []) al Hd) in Hq'. destruct (cancel_timer t _ q) as [ws q']. cbn [fst snd] in *. subst ws.
  apply (post_timers_keeps al); [done|]. assert (kept t (fun _ => []) al = delete t al) as Hdel.
  { unfold kept. destruct (al !! t) as [[tm os]|] eqn:E; [done|]. by rewrite delete_id. }
  rewrite Hdel in Hq'. apply queue_move_ok; [done|done|apply lookup_delete_eq|].
  destruct (al !! t) eqn:Hal; [rewrite map_size_delete_Some by eauto|rewrite map_size_delete_None by done]; lia.
Qed.
Lemma update_keeps al ops m : epoll_keeps al ops m -> epoll_keeps al ops (EpollReactor.on_env EpollReactor.update_timeout m).
Proof.
  intros [Hq Hs He]. unfold EpollReactor.update_timeout, EpollReactor.set_timer_fd, EpollReactor.on_env.
  destruct (EpollReactor.timer_fd_ (env m) =? -1)%Z; [by split|]. destruct (EpollReactor.timerfd_timeout (env m)). by split.
Qed.
Lemma epoll_schedule al ops m time t w : epoll_keeps al ops m -> epoll_keeps (scheduled time t w al) ops (EpollReactor.schedule_timer time t w m).
Proof.
  intros [Hq Hs He]. unfold EpollReactor.schedule_timer. rewrite Hs. pose proof (enqueue_ok al _ time t w Hq) as Hq'.
  destruct (enqueue_timer time t w _) as [earliest q']. cbn [snd] in Hq'. destruct earliest; [apply update_keeps|]; by split.
Qed.

(** ** The event loop *)

Lemma dispatch_timers es (acc : bool * list operation * EpollReactor.reactor) :
  let '(check, ops, r) := foldl (flip EpollReactor.dispatch) acc es in
  omap timer_op ops = omap timer_op acc.1.2 /\ EpollReactor.timers r = EpollReactor.timers acc.2 /\ stopping r = stopping acc.2 /\
  handled r = handled acc.2 /\ kern r = kern acc.2 /\ EpollReactor.timer_fd_ r = EpollReactor.timer_fd_ acc.2 /\
  ((EpollReactor.timer_fd_ r =? -1)%Z = false -> check = acc.1.1 || existsb reports_timer es) /\ (acc.1.1 = true -> check = true).
Proof.
  revert acc. induction es as [|e es IH]; intros acc; cbn [foldl]; [destruct acc as [[c ops] r]; cbn; split_and!; [done..|by rewrite orb_false_r|done]|].
  specialize (IH (flip EpollReactor.dispatch acc e)).
  destruct (foldl _ _ es) as [[c' ops'] r']. destruct acc as [[c ops] r]. cbn [flip] in IH. unfold EpollReactor.dispatch in IH.
  destruct e as [[| |d] events]; cbn [existsb reports_timer fst orb] in *.
  - destruct IH as (H1 & H2 & H3 & H4 & H5 & H6 & H7 & H8). split_and!; [done..| |]; cbn in *.
    + intros Hfd. rewrite H7 by done. rewrite H6 in Hfd. by rewrite Hfd, orb_false_r.
    + intros ->. by apply H8.
  - destruct IH as (H1 & H2 & H3 & H4 & H5 & H6 & H7 & H8). split_and!; [done..| |]; cbn in *; [|auto].
    intros Hfd. rewrite H7 by done. by rewrite orb_true_r.
  - cbv zeta in IH. destruct (EpollReactor.queued _); cbn in IH |- *; destruct IH as (-> & -> & -> & -> & -> & -> & H7 & H8); [done|].
    by rewrite omap_app, app_nil_r.
Qed.
(** What a run of the task does to the timers. *)
Definition polled (looks : bool) (before after : Z) (al : alarms) (ready : list wait_op) (al' : alarms) : Prop :=
  if looks then looked before after al ready al' else al' = al /\ ready = [].
Lemma polled_later looks before after after' al ready al' : (after <= after')%Z -> polled looks before after al ready al' ->
  polled looks before after' al ready al'.
Proof. intros Hle. unfold polled. destruct looks; [|done]. intros (now & Hnow & Hf). exists now. split; [lia|done]. Qed.

Lemma run_timers `{!SteadyClock K} usec al (r : EpollReactor.reactor) : queue_ok al (EpollReactor.timers r) ->
  let '(ops, r') := EpollReactor.run usec r in
  exists al', queue_ok al' (EpollReactor.timers r') /\ (clock (kern r) <= clock (kern r'))%Z /\
    polled (task_looks usec r) (clock (kern r)) (clock (kern r')) al (omap timer_op ops) al' /\ stopping r' = stopping r /\ handled r' = handled r.
Proof.
  intros Hq. unfold EpollReactor.run, task_looks. pose proof (wait_later (EpollReactor.epoll_timeout usec r) (kern r)) as Hwait.
  destruct (EpollReactor.epoll_wait _ _) as [events k]. cbn [fst snd] in *.
  pose proof (dispatch_timers events (EpollReactor.timer_fd_ r =? -1, [], EpollReactor.set_kern k r)%Z) as Hd.
  destruct (foldl _ _ events) as [[check ops] r1]. cbn in Hd. destruct Hd as (Hops & Ht & Hs & Hh & Hk & Hfd & Hcheck & Htrue).
  assert (check = (EpollReactor.timer_fd_ r =? -1)%Z || existsb reports_timer events) as <-.
  { destruct (EpollReactor.timer_fd_ r =? -1)%Z eqn:E; [by apply Htrue|]. apply Hcheck. by rewrite Hfd. }
  destruct check.
  - destruct (ready_ok al (EpollReactor.timers r1) (clock (kern r1))) as (al' & Hf & Hq'); [by rewrite Ht|].
    destruct (get_ready_timers _ _) as [ws q']. cbn [fst snd] in *.
    assert (clock (kern r1) <= clock (kern (EpollReactor.set_timer_fd (EpollReactor.set_timers q' r1))))%Z as Hlater.
    { unfold EpollReactor.set_timer_fd. destruct (EpollReactor.timerfd_timeout _). cbn. apply settime_later. }
    exists al'. rewrite omap_app, Hops, timer_ops. rewrite <- Hk in Hwait. unfold polled, looked.
    destruct (EpollReactor.timer_fd_ _ =? -1)%Z; [cbn; split_and!; [done|done|by exists (clock (kern r1))|done|done]|].
    unfold EpollReactor.set_timer_fd in *. destruct (EpollReactor.timerfd_timeout _). cbn in *.
    split_and!; [done|lia|exists (clock (kern r1)); split; [lia|done]|done|done].
  - exists al. rewrite Ht, Hops, Hk. by split_and!.
Qed.

(** A thread of the loop whose private queue is empty. *)
Definition in_loop (m : machine) : Prop := exists p, this_thread m = Some (Scheduler.ThreadInfo p []).

Lemma queue_pushed (os : list operation) (s : @Scheduler.scheduler epoll_task) t r :
  queued_ops (Scheduler.Machine (Scheduler.push [Scheduler.TaskOperation] (Scheduler.push (Scheduler.UserOperation <$> os) s)) t r) = omap item_op (Scheduler.op_queue_ s) ++ os.
Proof.
  unfold queued_ops. cbn [Scheduler.op_queue_ Scheduler.push sched]. rewrite !omap_app. cbn. rewrite app_nil_r. f_equal. induction os as [|o os IH]; [done|]. cbn. by f_equal.
Qed.
Lemma run_task_timers `{!SteadyClock K} al ops rest m : epoll_keeps al ops m -> in_loop m -> Scheduler.op_queue_ (sched m) = Scheduler.TaskOperation :: rest ->
  let m' := Scheduler.run_task 0 rest m in
  exists al' ready, epoll_keeps al' (ops ++ ready) m' /\ in_loop m' /\
    polled (task_looks 0 (env m)) (clock (kern (env m))) (clock (kern (env m'))) al ready al'.
Proof.
  intros [Hq Hs He] [p Hp] Hrest m'. unfold m', Scheduler.run_task. pose proof (run_timers 0 al (env m) Hq) as Hr.
  cbn [Scheduler.on_sched env]. change (Scheduler.task_run 0 (env m)) with (EpollReactor.run 0 (env m)).
  destruct (EpollReactor.run 0 (env m)) as [os r']. destruct Hr as (al' & Hq' & _ & Hf & Hs' & Hh).
  exists al', (omap timer_op os). unfold Scheduler.task_cleanup, Scheduler.on_thread, Scheduler.set_env. cbn [this_thread sched env].
  change (this_thread (Scheduler.on_sched (Scheduler.set_queue rest) m)) with (this_thread m). rewrite Hp. cbn [fmap option_fmap option_map Scheduler.private_outstanding_work Scheduler.private_op_queue app].
  split_and!; [|by exists 0%Z|by destruct (0 <? p)%Z].
  assert (forall s : @Scheduler.scheduler epoll_task, Scheduler.op_queue_ s = rest ->
    ended_waits (Scheduler.Machine (Scheduler.push [Scheduler.TaskOperation] (Scheduler.push (@Scheduler.UserOperation epoll_task <$> os) s)) (Some (Scheduler.ThreadInfo 0 [])) r') = ops ++ omap timer_op os) as Hended.
  { intros s Hsq. unfold ended_waits in He |- *. rewrite queue_pushed, Hsq. cbn [env]. rewrite Hh. unfold queued_ops in He. rewrite Hrest in He.
    by rewrite app_assoc, omap_app, <- He. }
  destruct (0 <? p)%Z; (split; [done|by cbn; rewrite Hs'|by apply Hended]).
Qed.

Lemma perform_type_later `{!SteadyClock K} ev j acc : (clock acc.2 <= clock (EpollReactor.perform_type ev j acc).2)%Z.
Proof.
  destruct acc as [[os s] k]. unfold EpollReactor.perform_type. destruct (EpollReactor.hits j ev); [|done]. cbn.
  assert (forall (q : list rop) (k : EpollReactor.Kern), (clock k <= clock (EpollReactor.perform_queue q k).2)%Z) as Hq.
  { clear os s k. intros q. induction q as [|o q IH]; intros k; cbn; [done|]. pose proof (perform_later o k). destruct (perform o k) as [[st o'] k1]. cbn in *.
    destruct st; cbn; try done. specialize (IH k1). destruct (EpollReactor.perform_queue q k1) as [[[e r] x] k2]. cbn in *. lia. }
  specialize (Hq (EpollReactor.get j (EpollReactor.op_queue_ s)) k). by destruct (EpollReactor.perform_queue _ k) as [[[e r] x] k2].
Qed.
Lemma perform_descriptor_timers `{!SteadyClock K} d al ops m : epoll_keeps al ops m -> in_loop m ->
  let m' := (EpollReactor.perform_descriptor d m).2 in
  epoll_keeps al ops m' /\ in_loop m' /\ (clock (kern (env m)) <= clock (kern (env m')))%Z.
Proof.
  intros [Hq Hs He] [p Hp] m'. unfold m', EpollReactor.perform_descriptor. set (s0 := EpollReactor.set_queued false _).
  assert (clock (kern (env m)) <= clock (EpollReactor.perform_io (EpollReactor.task_result_ s0) s0 (kern (env m))).2)%Z as Hlater.
  { unfold EpollReactor.perform_io. cbn [foldl]. etrans; [|apply perform_type_later]. etrans; [|apply perform_type_later]. apply (perform_type_later _ _ ([], s0, kern (env m))). }
  destruct (EpollReactor.perform_io _ _ _) as [[os s] k]. cbn [snd] in Hlater. set (m1 := EpollReactor.on_env _ m).
  assert (epoll_keeps al ops m1) as Hk1 by by split. destruct os as [|o os]; cbn [snd].
  - split_and!; [|exists (p + 1)%Z; cbn; by rewrite Hp|done]. destruct Hk1 as [Hq1 Hs1 He1]. by split.
  - destruct (post_deferred_queue (ReactorOp <$> os) m1) as (Hqueue & Henv & Hthread). rewrite Henv. split_and!; [|exists p; by rewrite Hthread|done].
    destruct Hk1 as [Hq1 Hs1 He1]. split; [by rewrite Henv|by rewrite Henv|]. unfold ended_waits. rewrite Hqueue, Henv, app_assoc, omap_app.
    assert (omap timer_op (ReactorOp <$> os) = []) as -> by (clear; by induction os). rewrite app_nil_r. exact He1.
Qed.

(** An operation leaves the queue and is handled. *)
Lemma complete_timers `{!SteadyClock K} al ops o rest m : epoll_keeps al ops m -> in_loop m -> Scheduler.op_queue_ (sched m) = Scheduler.UserOperation o :: rest ->
  let m' := EpollReactor.complete (fun _ => []) o (Scheduler.on_sched (Scheduler.set_queue rest) m) in
  epoll_keeps al ops m' /\ in_loop m' /\ (clock (kern (env m)) <= clock (kern (env m')))%Z.
Proof.
  intros [Hq Hs He] [p Hp] Hrest m'. unfold m'. set (m1 := Scheduler.on_sched _ m). unfold ended_waits, queued_ops in He. rewrite Hrest in He. cbn in He.
  assert (forall l, omap timer_op (handled (env m) ++ l ++ omap item_op rest) = ops ->
    epoll_keeps al ops (EpollReactor.on_env (fun r => EpollReactor.set_handled (handled r ++ l) r) m1)) as Hhandled.
  { intros l Hl. split; [done|done|]. unfold ended_waits, queued_ops. cbn. by rewrite <- app_assoc. }
  destruct o as [d|o|w]; cbn [EpollReactor.complete].
  - assert (epoll_keeps al ops m1) as Hk1.
    { split; [done|done|]. unfold ended_waits, queued_ops. cbn. rewrite omap_app in He |- *. exact He. }
    assert (in_loop m1) as Hl1 by by exists p. destruct (perform_descriptor_timers d al ops m1 Hk1 Hl1) as (Hk2 & [p2 Hl2] & Hlater).
    destruct (EpollReactor.perform_descriptor d m1) as [[o|] m2]; cbn [snd] in *; [|by split_and!; [done|exists p2|]].
    unfold EpollReactor.handle. cbn [foldl]. split_and!; [|by exists p2|done]. destruct Hk2 as [Hq2 Hs2 He2]. split; [done|done|].
    unfold ended_waits in He2 |- *. cbn. rewrite <- app_assoc, !omap_app. rewrite omap_app in He2. exact He2.
  - split_and!; [|by exists p|done]. apply Hhandled. rewrite omap_app in He. by rewrite !omap_app.
  - split_and!; [|by exists p|done]. apply Hhandled. exact He.
Qed.
Lemma work_cleanup_timers al ops m : epoll_keeps al ops m -> in_loop m -> epoll_keeps al ops (Scheduler.work_cleanup m) /\ kern (env (Scheduler.work_cleanup m)) = kern (env m).
Proof.
  intros [Hq Hs He] [p Hp]. unfold Scheduler.work_cleanup. rewrite Hp. cbn [Scheduler.private_outstanding_work Scheduler.private_op_queue].
  destruct (1 <? p)%Z; [by split|]. destruct (p <? 1)%Z; [|by split]. unfold Scheduler.work_finished. destruct (_ =? 0)%Z; by split.
Qed.
Lemma run_front_timers `{!SteadyClock K} al ops m : epoll_keeps al ops m -> in_loop m ->
  let m' := (Scheduler.run_front (EpollReactor.complete (fun _ => [])) m).2 in
  epoll_keeps al ops m' /\ (clock (kern (env m)) <= clock (kern (env m')))%Z.
Proof.
  intros Hk Hl m'. unfold m', Scheduler.run_front. destruct (Scheduler.op_queue_ (sched m)) as [|[|o] rest] eqn:Hrest; [done|done|]. cbn [snd]. unfold Scheduler.run_operation.
  destruct (complete_timers al ops o rest m Hk Hl Hrest) as (Hk1 & Hl1 & Hlater).
  destruct (work_cleanup_timers al ops _ Hk1 Hl1) as [Hk2 Hkern]. rewrite Hkern. by split.
Qed.

Lemma epoll_poll `{!SteadyClock K} al ops m : epoll_keeps al ops m ->
  exists al' ready, epoll_keeps al' (ops ++ ready) (ts_poll m) /\
    if ts_looks m then looked (ts_now m) (ts_now (ts_poll m)) al ready al' else al' = al /\ ready = [].
Proof.
  intros Hk. change (exists al' ready, epoll_keeps al' (ops ++ ready) (ts_poll m) /\
    polled (poll_looks m) (clock (kern (env m))) (clock (kern (env (ts_poll m)))) al ready al').
  cbn [ts_poll epoll_timers]. unfold Scheduler.poll_one, poll_looks. destruct (_ =? 0)%Z; cbn [negb andb].
  { exists al, []. rewrite app_nil_r. destruct Hk as [Hq Hs He]. split; [by split|done]. }
  unfold Scheduler.enter_thread. set (m1 := Scheduler.Machine (sched m) (Some _) (env m)).
  assert (epoll_keeps al ops m1) as Hk1 by (destruct Hk as [Hq Hs He]; by split). assert (in_loop m1) as Hl1 by by exists 0%Z.
  match goal with |- context [polled ?b _ _ _ _ _] => set (looks := b) end.
  assert (exists al' ready, let m' := (Scheduler.do_poll_one (EpollReactor.complete (fun _ => [])) m1).2 in
    epoll_keeps al' (ops ++ ready) m' /\ polled looks (clock (kern (env m))) (clock (kern (env m'))) al ready al') as Hpoll.
  { unfold Scheduler.do_poll_one, looks. change (sched m) with (sched m1). destruct (Scheduler.stopped_ (sched m1)); cbn [negb andb].
    { exists al, []. rewrite app_nil_r. done. }
    destruct (Scheduler.op_queue_ (sched m1)) as [|[|o] rest] eqn:Hrest.
    - exists al, []. rewrite app_nil_r. split; [|done]. by apply run_front_timers.
    - destruct (run_task_timers al ops rest m1 Hk1 Hl1 Hrest) as (al' & ready & Hk2 & Hl2 & Hf).
      destruct (run_front_timers al' _ _ Hk2 Hl2) as [Hk3 Hlater]. exists al', ready. split; [done|]. by eapply polled_later.
    - exists al, []. rewrite app_nil_r. split; [|done]. by apply run_front_timers. }
  destruct Hpoll as (al' & ready & Hpoll). destruct (Scheduler.do_poll_one _ m1) as [b m2]. cbn [fst snd] in *. destruct Hpoll as ([Hq Hs He] & Hf).
  exists al', ready. split; [by split|done].
Qed.

#[export] Instance epoll_timers_ok `{!SteadyClock K} : TimerSchedulerOk epoll_timers := {|
  keeps := epoll_keeps;
  schedule_keeps := epoll_schedule;
  cancel_keeps := epoll_cancel;
  cancel_by_key_keeps := epoll_cancel_by_key;
  move_keeps := epoll_move;
  poll_keeps := epoll_poll;
|}.
End epoll.

(** C33: the timers of a program are a map from each timer to its expiry and its waits, whatever
    is done with them: constructed, moved, assigned, destroyed, waited on, cancelled whole,
    one wait at a time or by a signal, given new expiries, with runs of the event loop
    ([poll_one]) in between.  Each call returns the number of the waits it ended, and hands
    exactly those to the event loop, with [operation_aborted].  A run of the event loop that
    comes to the timers - the loop has work and is not stopped, the task is at the front of
    its queue, and there is no timer descriptor or [epoll_wait] reports it - ends the waits
    of all timers that are due at a time between its beginning and its end, the earliest
    timers first and each timer's in order, and no others; any other run ends none.  A wait
    keeps the expiry its timer had.  The flag [might_have_pending_waits] and the calls of the
    reactor it saves make no difference.  (The handlers of the waits make no calls
    themselves: the calls are those between runs.) *)
Theorem deadline_timers_refine `{K : Epoll, !SteadyClock K} (cs : list timer_call) (tfd : Z) (k : EpollReactor.Kern) :
  (Z.of_nat (length cs) <= size_max)%Z ->
  let '(answers, x) := call_all cs (Timers ∅ (EpollReactor.new_machine tfd k)) in
  exists (ops : list wait_op) (A : timer_map), promises ∅ cs answers ops A /\ (forall t, agree (A !! t) (impls x !! t)) /\
    ended_waits (service_ x) = ops /\ forall t, op_queue_ (timer (EpollReactor.timers (env (service_ x))) t) = waits_on A t.
Proof.
  intros Hcs. assert (linked ∅ [] (Timers ∅ (EpollReactor.new_machine tfd k))) as Hl.
  { split; [done|]. split; [|done|done]. split; [exact new_timer_queue_ok|]. intros t _. done. }
  destruct (call_all_linked cs ∅ [] _ Hl Hcs) as (ops & A & Hp & Ha & [Hq Hs He]). destruct (call_all cs _) as [answers x]. cbn [fst snd app] in *.
  exists ops, A. split_and!; [done..|]. intros t. destruct Hq as [[Hr _] _]. rewrite <- waits_on_alarms. unfold waits_on.
  destruct (alarms_of A !! t) as [[tm os]|] eqn:Ht; [by apply (rp_map _ _ Hr) in Ht as [_ ->]|by apply (rp_idle _ _ Hr)].
Qed.

(** ** The blocking wait *)

(** The clock, and [select] without descriptors, for so many seconds and microseconds. *)
Class SleepSystem := {
  Sleeper : Type;
  sleep_clock : Sleeper -> Z;
  sys_select : Z -> Z -> Sleeper -> error_code * Sleeper;
}.
(** Every sleep takes time. *)
Class SleepOk (L : SleepSystem) : Prop := {
  select_passes s us k : (sleep_clock k < sleep_clock (sys_select s us k).2)%Z;
}.

Section blocking.
  Context `{L : SleepSystem, !SleepOk L}.

(** The seconds and microseconds of a [posix_time_duration]. *)
Definition to_timeval (timeout : Z) : Z * Z := (Z.quot timeout 1000000000, Z.rem (Z.quot timeout 1000) 1000000)%Z.
Definition do_wait (timeout : Z) (k : Sleeper) : error_code * Sleeper :=
  let '(sec, usec) := to_timeval timeout in sys_select sec usec k.
(** [None]: out of fuel. *)
Fixpoint wait_loop (fuel : nat) (expiry now : Z) (ec : error_code) (k : Sleeper) : option (error_code * Sleeper) :=
  if (now <? expiry)%Z && negb (bool_decide (is_Some ec)) then
    match fuel with
    | O => None
    | S fuel => let '(ec, k) := do_wait (subtract expiry now) k in wait_loop fuel expiry (sleep_clock k) ec k
    end
  else Some (ec, k).
Definition wait (fuel : nat) (impl : implementation_type) (k : Sleeper) : option (error_code * Sleeper) :=
  wait_loop fuel (expiry impl) (sleep_clock k) None k.

(** A sleep is asked for what is left, to the microsecond. *)
Lemma to_timeval_left timeout : (0 <= timeout)%Z -> let '(sec, usec) := to_timeval timeout in
  (0 <= usec < 1000000 /\ sec * 1000000000 + usec * 1000 <= timeout < sec * 1000000000 + usec * 1000 + 1000)%Z.
Proof.
  intros Ht. unfold to_timeval. rewrite !Z.quot_div_nonneg, Z.rem_mod_nonneg by (lia || (apply Z.div_pos; lia)).
  pose proof (Z.div_mod timeout 1000). pose proof (Z.mod_pos_bound timeout 1000).
  pose proof (Z.div_mod (timeout / 1000) 1000000). pose proof (Z.mod_pos_bound (timeout / 1000) 1000000).
  assert (timeout / 1000000000 = timeout / 1000 / 1000000)%Z as -> by (rewrite Z.div_div by lia; done). lia.
Qed.
(** A wait returns, and without an error not before the expiry. *)
Lemma wait_returns impl k : exists enough ec k', (forall fuel, enough <= fuel -> wait fuel impl k = Some (ec, k')) /\
  (ec = None -> (expiry impl <= sleep_clock k')%Z).
Proof.
  unfold wait. remember (Z.to_nat (expiry impl - sleep_clock k)) as n eqn:Hn. revert k Hn. induction (lt_wf n) as [n _ IH]. intros k ->.
  destruct (Z.ltb_spec (sleep_clock k) (expiry impl)) as [Hlt|Hge].
  - pose proof (select_passes (to_timeval (subtract (expiry impl) (sleep_clock k))).1 (to_timeval (subtract (expiry impl) (sleep_clock k))).2 k) as Hp.
    destruct (do_wait (subtract (expiry impl) (sleep_clock k)) k) as [ec k1] eqn:Hd. unfold do_wait in Hd.
    destruct (to_timeval _) as [sec usec] eqn:Htv. cbn [fst snd] in Hp. rewrite Hd in Hp. cbn [snd] in Hp.
    assert (forall fuel, wait_loop (S fuel) (expiry impl) (sleep_clock k) None k = wait_loop fuel (expiry impl) (sleep_clock k1) ec k1) as Hstep
      by (intros; cbn [wait_loop]; unfold do_wait; by rewrite (proj2 (Z.ltb_lt _ _) Hlt), Htv, Hd).
    destruct ec as [e|].
    + exists 1, (Some e), k1. split; [|done]. intros [|fuel] Hf; [lia|]. rewrite Hstep.
      destruct fuel; cbn; by rewrite andb_false_r.
    + destruct (IH (Z.to_nat (expiry impl - sleep_clock k1)) ltac:(lia) k1 eq_refl) as (m & ec' & k' & Hm & Hk').
      exists (S m), ec', k'. split; [|done]. intros [|fuel] Hf; [lia|]. rewrite Hstep. apply Hm. lia.
  - exists 0, None, k. split; [|done]. intros fuel _. destruct fuel; cbn; by rewrite (proj2 (Z.ltb_ge _ _) Hge).
Qed.
End blocking.

(** ** An example system *)

(** A kernel of which only the time is known; each wait takes a while. *)
#[local] Instance lab_epoll : Epoll := {|
  EpollReactor.Kern := Z; EpollReactor.rop := unit; EpollReactor.perform := fun o k => (SocketOps.done, o, k);
  EpollReactor.set_op_ec := fun _ o => o; EpollReactor.op_key := fun _ => 0; EpollReactor.epoll_ctl := fun _ _ _ _ k => (None, k);
  EpollReactor.epoll_wait := fun _ k => ([], k + 10)%Z; EpollReactor.timerfd_settime := fun _ _ k => k;
  EpollReactor.interrupt_epoll := fun k => k; EpollReactor.clock := fun k => k |}.
#[local] Instance lab_clock : SteadyClock lab_epoll.
Proof. split; cbn; lia. Qed.

(** Timer 1 is moved to 3 and fires there; a wait of timer 2 is cancelled, the other is aborted by a new
    expiry, and a wait started then ends at that. *)
Definition lab_wait (id : nat) : wait_op := WaitOp id None id.
Definition lab_calls : list timer_call :=
  [Construct 1; Construct 2; ExpiresAt 1 15; ExpiresAfter 2 30; AsyncWait 1 (lab_wait 1); AsyncWait 1 (lab_wait 2); AsyncWait 2 (lab_wait 3); AsyncWait 2 (lab_wait 4);
   MoveConstruct 3 1; Emit 2 3 1; Poll; Poll; ExpiresAt 2 25; AsyncWait 2 (lab_wait 5); Poll; Poll; Cancel 2; Destroy 3].
Definition lab_timers : list answer * timers := call_all lab_calls (Timers ∅ (EpollReactor.new_machine (-1) 0%Z)).

Lemma deadline_timers_refine_witness :
  let '(answers, x) := call_all lab_calls (Timers ∅ (EpollReactor.new_machine (-1) 0%Z)) in
  exists (ops : list wait_op) (A : timer_map), promises ∅ lab_calls answers ops A /\ (forall t, agree (A !! t) (impls x !! t)) /\
    ended_waits (service_ x) = ops /\ forall t, op_queue_ (timer (EpollReactor.timers (env (service_ x))) t) = waits_on A t.
Proof. apply deadline_timers_refine. vm_compute. by intros [=]. Defined.
Lemma lab_timers_end : ((fun w => (op_id w, op_ec w)) <$> ended_waits (service_ lab_timers.2)) =
  [(3, Some operation_aborted); (1, None); (2, None); (4, Some operation_aborted); (5, None)].
Proof. vm_compute. reflexivity. Qed.
