(* ===== verification/EpollOnce.v ===== *)
(** * [asio::detail::epoll_reactor]: every handler once

    An operation that has been started is in one place: it waits in the reactor, for a
    descriptor or a timer; it is ready, in a queue of the scheduler; or its handler has run.
    [EpollReactor] counts operations for the books of the scheduler; here each is followed by
    its handler, which it keeps while attempts change its buffers and its error code. *)
From S2P Require Import Prelude SocketOps EpollReactor.
From S2P Require TimerQueue Scheduler.
Import Scheduler (machine, Machine, env, sched).
Open Scope Z_scope.

(** The handler of a reactor operation, by number; attempts and error codes leave it alone. *)
Class OpHandlers `{Epoll} := {
  handler_of : rop -> nat;
  perform_handler o k st o' k' : perform o k = (st, o', k') -> handler_of o' = handler_of o;
  ec_handler e o : handler_of (set_op_ec e o) = handler_of o;
}.

(** Whose handler: a socket operation's or a timer's. *)
Inductive owner := SocketHandler (n : nat) | TimerHandler (n : nat).

#[export] Instance owner_eq_dec : EqDecision owner.
Proof. solve_decision. Defined.

Section once.
  Context `{OpHandlers} (w : owner).
  #[local] Abbreviation machine := (@Scheduler.machine epoll_task).

Definition owner_of (o : operation) : option owner :=
  match o with
  | DescriptorOp _ => None
  | ReactorOp o => Some (SocketHandler (handler_of o))
  | TimerOp op => Some (TimerHandler (TimerQueue.op_id op))
  end.
Definition owned_by (o : operation) : bool := bool_decide (owner_of o = Some w).
Definition timer_owned (n : nat) : bool := bool_decide (w = TimerHandler n).

(** How often the handler is among operations, and in the reactor. *)
Definition tally (os : list operation) : Z := Z.of_nat (length (List.filter owned_by os)).
Definition tally_ops (os : list rop) : Z := tally (ReactorOp <$> os).
Definition tally_queue (p : per_type (list rop)) : Z := tally_ops (of_read p) + tally_ops (of_write p) + tally_ops (of_except p).
Definition waiting (r : reactor) : Z :=
  map_sum (fun s => tally_queue (op_queue_ s)) (registered_descriptors_ r) + TimerQueue.waits_of timer_owned (timers r).

(** How often requests start an operation with the handler. *)
Definition starts (rq : request) : Z :=
  match rq with
  | StartOp _ _ _ o _ _ => tally [ReactorOp o]
  | ScheduleTimer _ _ op => tally [TimerOp op]
  | _ => 0
  end.
Definition starts_all (rqs : list request) : Z := foldr (fun rq n => starts rq + n) 0 rqs.
(** By the handlers that have run. *)
Definition started_by (handler : operation -> list request) (os : list operation) : Z :=
  foldr (fun o n => starts_all (handler o) + n) 0 os.
Definition requested (calls : list call) : Z :=
  foldr (fun c n => match c with Request rq => starts rq | _ => 0 end + n) 0 calls.

(** ** Counting *)

Lemma tally_app os os' : tally (os ++ os') = tally os + tally os'.
Proof. unfold tally. rewrite List.filter_app, length_app. lia. Qed.
Lemma tally_cons o os : tally (o :: os) = tally [o] + tally os.
Proof. apply (tally_app [o] os). Qed.
Lemma tally_descriptor d : tally [DescriptorOp d] = 0.
Proof. unfold tally, owned_by; cbn. by rewrite bool_decide_false. Qed.
Lemma tally_same o o' : owner_of o = owner_of o' -> tally [o] = tally [o'].
Proof. intros Ho. unfold tally. cbn [List.filter]. unfold owned_by. rewrite Ho. by destruct (bool_decide _). Qed.
Lemma tally_ec e o : tally [ReactorOp (set_op_ec e o)] = tally [ReactorOp o].
Proof. apply tally_same. cbn. by rewrite ec_handler. Qed.
Lemma tally_performed o k st o' k' : perform o k = (st, o', k') -> tally [ReactorOp o'] = tally [ReactorOp o].
Proof. intros Hp. apply tally_same. cbn. by rewrite (perform_handler _ _ _ _ _ Hp). Qed.
Lemma tally_ops_app os os' : tally_ops (os ++ os') = tally_ops os + tally_ops os'.
Proof. unfold tally_ops. by rewrite fmap_app, tally_app. Qed.
Lemma tally_ops_cons o os : tally_ops (o :: os) = tally [ReactorOp o] + tally_ops os.
Proof. apply (tally_app [ReactorOp o]). Qed.
Lemma tally_ops_filter (P : rop -> Prop) `{!forall o, Decision (P o)} os :
  tally_ops (filter P os) + tally_ops (filter (fun o => ~ P o) os) = tally_ops os.
Proof.
  induction os as [|o os IH]; [done|]. rewrite !filter_cons, (tally_ops_cons o os).
  destruct (decide (P o)); [rewrite decide_False by auto|rewrite decide_True by done]; rewrite tally_ops_cons; lia.
Qed.
Lemma tally_aborted e os : tally (ReactorOp ∘ set_op_ec e <$> os) = tally_ops os.
Proof.
  induction os as [|o os IH]; [done|]. rewrite fmap_cons, tally_cons, tally_ops_cons, IH. cbn [compose]. by rewrite tally_ec.
Qed.
Lemma tally_timers ws : tally (TimerOp <$> ws) = TimerQueue.count_ops timer_owned ws.
Proof.
  unfold tally, TimerQueue.count_ops. f_equal. induction ws as [|op ws IH]; [done|]. rewrite fmap_cons. cbn.
  assert (owned_by (TimerOp op) = timer_owned (TimerQueue.op_id op)) as ->; [|destruct (timer_owned _); cbn; by rewrite IH].
  unfold owned_by, timer_owned. cbn. apply bool_decide_ext. split; congruence.
Qed.

Lemma tally_queue_set j q p : tally_queue (set j q p) = tally_queue p - tally_ops (get j p) + tally_ops q.
Proof. unfold tally_queue. destruct j; cbn; lia. Qed.
Lemma tally_queue_all p : tally_ops (of_read p ++ of_write p ++ of_except p) = tally_queue p.
Proof. unfold tally_queue. rewrite !tally_ops_app. lia. Qed.
Lemma tally_aborted_state s : tally (aborted s) = tally_queue (op_queue_ s).
Proof. unfold aborted. by rewrite tally_aborted, tally_queue_all. Qed.

Lemma waiting_on d f r : waiting (on_descriptor d f r)
  = waiting r + tally_queue (op_queue_ (f (state_of d r))) - tally_queue (op_queue_ (state_of d r)).
Proof.
  unfold waiting, on_descriptor, set_descriptors; cbn [registered_descriptors_ timers].
  rewrite (map_sum_insert (fun s => tally_queue (op_queue_ s)) _ d _ new_descriptor_state) by done. unfold state_of. lia.
Qed.
Lemma waiting_keep d f r : (forall s, op_queue_ (f s) = op_queue_ s) -> waiting (on_descriptor d f r) = waiting r.
Proof. intros Hf. rewrite waiting_on, Hf. lia. Qed.
Lemma waiting_kern k r : waiting (set_kern k r) = waiting r.
Proof. done. Qed.
Lemma waiting_push d j o f r : (forall s, op_queue_ (f s) = op_queue_ s) ->
  waiting (on_descriptor d (fun s => push_op j o (f s)) r) = waiting r + tally [ReactorOp o].
Proof.
  intros Hf. rewrite waiting_on. cbn [op_queue_ push_op set_ops]. rewrite Hf, tally_queue_set, tally_ops_app.
  change (tally_ops [o]) with (tally [ReactorOp o]). lia.
Qed.

(** ** Requests *)

(** A step that starts [n] operations with the handler and completes none. *)
Record starting (n : Z) (m m' : machine) : Prop := {
  st_tally : tally (Scheduler.held m') + waiting (env m') = tally (Scheduler.held m) + waiting (env m) + n;
  st_handled : handled (env m') = handled (env m);
}.
Lemma starting_refl m : starting 0 m m.
Proof. split; [lia|done]. Qed.
Lemma starting_trans n1 n2 m1 m2 m3 : starting n1 m1 m2 -> starting n2 m2 m3 -> starting (n1 + n2) m1 m3.
Proof. intros [H1' H2'] [H3 H4]. split; [lia|congruence]. Qed.
Lemma starting_env n f m : waiting (f (env m)) = waiting (env m) + n -> handled (f (env m)) = handled (env m) ->
  starting n m (on_env f m).
Proof. intros Hw Hh. split; [|done]. change (Scheduler.held (on_env f m)) with (Scheduler.held m). cbn [env on_env Scheduler.set_env]. lia. Qed.
Lemma starting_work n m m' : starting n m m' -> starting n m (Scheduler.work_started m').
Proof. by intros []; split. Qed.

Lemma post_immediate_starts o c m : starting (tally [o]) m (Scheduler.post_immediate_completion o c m).
Proof.
  unfold Scheduler.post_immediate_completion. destruct (Scheduler.this_thread m) as [th|] eqn:Ht; [destruct c|];
    (split; [|done]); unfold Scheduler.held, Scheduler.private_ops; cbn -[tally waiting]; rewrite ?Ht, ?Scheduler.user_ops_app; cbn -[tally waiting];
    change (@Scheduler.user_ops epoll_task [@Scheduler.UserOperation epoll_task o]) with [o];
    change (@Scheduler.Op epoll_task) with operation; rewrite ?tally_app; lia.
Qed.
Lemma post_deferred_starts os m : starting (tally os) m (post_deferred_completions os m).
Proof.
  rewrite post_deferred_is. match goal with |- context [Scheduler.push ?x] => set (q := x) end.
  assert (Scheduler.user_ops q = os) as Hu by apply Scheduler.user_ops_users.
  split; [|done]. unfold Scheduler.held, Scheduler.private_ops; cbn -[tally waiting]. rewrite Scheduler.user_ops_app, Hu. change (@Scheduler.Op epoll_task) with operation. rewrite !tally_app. lia.
Qed.

(** Operations move from the reactor to the scheduler. *)
Lemma take_starts os f m : waiting (f (env m)) = waiting (env m) - tally os -> handled (f (env m)) = handled (env m) ->
  starting 0 m (post_deferred_completions os (on_env f m)).
Proof.
  intros Hw Hh. replace 0 with (- tally os + tally os) by lia.
  apply (starting_trans _ _ _ (on_env f m)); [apply starting_env; [lia|done]|apply post_deferred_starts].
Qed.

Definition outcome_tally (s : EpollReactor.started) : Z := match s with Immediate o => tally [ReactorOp o] | Queued => 0 end.
Definition starts_one (o : rop) (r : reactor) (res : EpollReactor.started * reactor) : Prop :=
  waiting res.2 + outcome_tally res.1 = waiting r + tally [ReactorOp o] /\ handled res.2 = handled r.

Lemma one_kern o k r res : starts_one o (set_kern k r) res -> starts_one o r res.
Proof. done. Qed.
Lemma one_other o o' r res : tally [ReactorOp o'] = tally [ReactorOp o] -> starts_one o' r res -> starts_one o r res.
Proof. unfold starts_one. by intros ->. Qed.
Lemma one_now o o' r : tally [ReactorOp o'] = tally [ReactorOp o] -> starts_one o r (Immediate o', r).
Proof. intros Ho. split; cbn [fst snd outcome_tally]; [lia|done]. Qed.
Lemma one_queued j d o f r : (forall s, op_queue_ (f s) = op_queue_ s) ->
  starts_one o r (Queued, on_descriptor d (fun s => push_op j o (f s)) r).
Proof. intros Hf. split; cbn [fst snd outcome_tally]; [rewrite waiting_push by done; lia|done]. Qed.

Lemma start_waiting_one j fd d o r : starts_one o r (start_waiting j fd d o r).
Proof.
  unfold start_waiting. destruct (_ =? 0); [apply one_now, tally_ec|]. destruct (bool_decide _ && _).
  - unfold modify_events. destruct (epoll_ctl _ _ _ _ _) as [[e|] k]; apply one_kern with k;
      [apply one_now, tally_ec|by apply (one_queued j d o (set_registered _))].
  - by apply (one_queued j d o (fun s => s)).
Qed.
Lemma start_locked_one j fd d o a r : starts_one o r (start_locked j fd d o a r).
Proof.
  unfold start_locked. destruct (shutdown_ _); [by apply one_now|].
  destruct (no_ops _ _); [|by apply (one_queued j d o (fun s => s))]. destruct (a && _).
  - unfold start_speculative. destruct (get j _); [|apply start_waiting_one].
    destruct (perform o (kern r)) as [[st o'] k] eqn:Hp. pose proof (tally_performed _ _ _ _ _ Hp) as Ho.
    apply one_kern with k. destruct st; [by apply (one_other o o'), start_waiting_one|by apply one_now|].
    destruct (_ =? 0); [by apply one_now|]. split; cbn [fst snd outcome_tally]; [rewrite waiting_keep by done; lia|done].
  - unfold start_registered. destruct (_ =? 0); [apply one_now, tally_ec|]. unfold modify_events.
    destruct (epoll_ctl _ _ _ _ _) as [ec k]. split; cbn [fst snd outcome_tally]; [|done].
    rewrite (waiting_push d j o (fun s => s)), waiting_kern, waiting_keep by done. lia.
Qed.
Lemma start_op_starts j fd d o c a m : starting (tally [ReactorOp o]) m (start_op j fd d o c a m).
Proof.
  unfold start_op. destruct d as [d|]; [|rewrite <- (tally_ec bad_descriptor); apply post_immediate_starts].
  pose proof (start_locked_one j fd d o a (env m)) as [Hw Hh]. destruct (start_locked j fd d o a (env m)) as [[o'|] r]; cbn [fst snd outcome_tally] in *.
  - replace (tally [ReactorOp o]) with (tally [ReactorOp o] - tally [ReactorOp o'] + tally [ReactorOp o']) by lia.
    eapply starting_trans; [|apply post_immediate_starts]. apply (starting_env _ (fun _ => r)); [lia|done].
  - apply starting_work, (starting_env _ (fun _ => r)); [lia|done].
Qed.

Lemma register_starts fd m : starting 0 m (on_env (fun r => (register_descriptor fd r).2) m).
Proof.
  assert (forall r, waiting (allocate_descriptor_state r).2 = waiting r /\ handled (allocate_descriptor_state r).2 = handled r) as Ha.
  { intros r. unfold allocate_descriptor_state. destruct (free_list_ r) as [|d l]; [|done]. split; [|done].
    cbn [snd]. set (d := fresh _). assert (state_of d r = new_descriptor_state) as Hd.
    { unfold state_of. by rewrite (proj1 (not_elem_of_dom (registered_descriptors_ r) d)) by apply is_fresh. }
    rewrite waiting_on, Hd. lia. }
  apply starting_env; unfold register_descriptor; destruct (Ha (env m)) as [Hw Hh];
    destruct (allocate_descriptor_state (env m)) as [d r1]; cbn [snd] in Hw, Hh; destruct (epoll_ctl _ _ _ _ _) as [ec k];
    destruct (ec_is ec EPERM); cbn [snd]; [..|done|done];
    rewrite ?waiting_keep, ?waiting_kern, ?waiting_keep by done; lia.
Qed.
Lemma timers_starts ws q m : TimerQueue.count_ops timer_owned ws + TimerQueue.waits_of timer_owned q = TimerQueue.waits_of timer_owned (timers (env m)) ->
  starting 0 m (post_deferred_completions (TimerOp <$> ws) (on_env (set_timers q) m)).
Proof. intros Hq. apply take_starts; [|done]. rewrite tally_timers. unfold waiting; cbn [timers set_timers registered_descriptors_]. lia. Qed.

Lemma deregister_starts fd data closing m : starting 0 m (deregister_descriptor fd data closing m).2.
Proof.
  destruct data as [d|]; [|apply starting_refl]. cbn [deregister_descriptor]. destruct (shutdown_ _); [apply starting_refl|]. cbn [snd].
  set (m1 := if negb closing && _ then _ else m).
  assert (starting 0 m m1 /\ state_of d (env m1) = state_of d (env m)) as [Hm1 Hs1].
  { unfold m1. destruct (_ && _); [split; [apply starting_env; [rewrite waiting_kern; lia|done]|done]|split; [apply starting_refl|done]]. }
  apply (starting_trans 0 0 m m1 _ Hm1), take_starts; [|done]. rewrite waiting_on, Hs1, tally_aborted_state.
  cbn [op_queue_ set_shutdown set_descriptor set_ops]. change (tally_queue (all_types [])) with 0.
  assert (waiting (env m1) = waiting (env m)) by (unfold m1; by destruct (_ && _)). lia.
Qed.
Lemma cleanup_starts data m : starting 0 m (cleanup_descriptor_data data m).
Proof.
  destruct data as [d|]; [|apply starting_refl]. apply starting_env; [|done].
  unfold waiting; cbn [registered_descriptors_ timers free_descriptor_state set_free]. lia.
Qed.

(** Every request starts what it says. *)
Lemma serve_starts rq m : starting (starts rq) m (serve rq m).
Proof.
  destruct rq as [fd|j fd d o c a|d|d j key|fd d closing|d|fd d closing|time t op|t n|t key|t s]; cbn [serve starts].
  - apply register_starts.
  - apply start_op_starts.
  - destruct d as [d|]; [|apply starting_refl]. apply take_starts; [|done]. rewrite waiting_on, tally_aborted_state. cbn [op_queue_ set_ops].
    change (tally_queue (all_types [])) with 0. lia.
  - destruct d as [d|]; [|apply starting_refl]. cbn [cancel_ops_by_key]. apply take_starts; [|done].
    rewrite waiting_on, tally_aborted. cbn [op_queue_ set_ops]. rewrite tally_queue_set.
    pose proof (tally_ops_filter (fun o => op_key o = key) (get j (op_queue_ (state_of d (env m))))) as Hs. cbn beta in Hs. lia.
  - apply deregister_starts.
  - apply cleanup_starts.
  - unfold close_descriptor. pose proof (deregister_starts fd d closing m) as Hd.
    destruct (deregister_descriptor fd d closing m) as [data m1]. apply (starting_trans 0 0 _ _ _ Hd), cleanup_starts.
  - unfold schedule_timer. destruct (stopping (env m)); [apply post_immediate_starts|].
    pose proof (TimerQueue.waits_of_enqueue timer_owned time t op (timers (env m))) as Hw.
    destruct (TimerQueue.enqueue_timer _ _ _ _) as [earliest q]; cbn [snd] in Hw. rewrite <- (tally_timers [op]) in Hw.
    change (TimerOp <$> [op]) with [TimerOp op] in Hw.
    assert (starting (tally [TimerOp op]) m (Scheduler.work_started (on_env (set_timers q) m))) as Hm.
    { apply starting_work, starting_env; [|done]. unfold waiting; cbn [timers set_timers registered_descriptors_]. lia. }
    destruct earliest; [|done]. rewrite <- (Z.add_0_r (tally [TimerOp op])). apply (starting_trans _ _ _ _ _ Hm).
    apply starting_env; unfold update_timeout; destruct (_ =? -1); try done; unfold set_timer_fd; cbn -[waiting]; rewrite waiting_kern; lia.
  - unfold cancel_timer. pose proof (TimerQueue.waits_of_cancel timer_owned t n (timers (env m))) as Hw.
    destruct (TimerQueue.cancel_timer _ _ _) as [ws q]. by apply timers_starts.
  - unfold cancel_timer_by_key. pose proof (TimerQueue.waits_of_cancel_by_key timer_owned t key (timers (env m))) as Hw.
    destruct (TimerQueue.cancel_timer_by_key _ _ _) as [ws q]. by apply timers_starts.
  - destruct (bool_decide_reflect (s = t)) as [|Hne]; [apply starting_refl|]. unfold move_timer.
    match goal with |- context [TimerQueue.cancel_timer t ?n _] => pose proof (TimerQueue.waits_of_cancel timer_owned t n (timers (env m))) as Hw end.
    destruct (TimerQueue.cancel_timer _ _ _) as [ws q]. apply timers_starts. by rewrite TimerQueue.waits_move.
Qed.

(** ** The task and the handlers *)

Lemma dispatch_keeps e acc :
  tally (dispatch e acc).1.2 + waiting (dispatch e acc).2 = tally acc.1.2 + waiting acc.2 /\
  handled (dispatch e acc).2 = handled acc.2.
Proof.
  destruct e as [[| |d] ev], acc as [[c ops] r]; [done..|]. cbn [dispatch fst snd].
  destruct (queued (state_of d r)); cbn [fst snd]; (split; [|done]); rewrite waiting_keep by done; [done|].
  rewrite tally_app, tally_descriptor. lia.
Qed.
Lemma run_keeps usec r : tally (run usec r).1 + waiting (run usec r).2 = waiting r /\ handled (run usec r).2 = handled r.
Proof.
  unfold run. destruct (epoll_wait _ _) as [es k].
  assert (forall acc, tally (foldl (flip dispatch) acc es).1.2 + waiting (foldl (flip dispatch) acc es).2 = tally acc.1.2 + waiting acc.2 /\
    handled (foldl (flip dispatch) acc es).2 = handled acc.2) as Hall.
  { induction es as [|e es IH]; intros acc; [done|]. cbn [foldl]. destruct (IH (flip dispatch acc e)) as [-> ->]. apply (dispatch_keeps e acc). }
  specialize (Hall (timer_fd_ r =? -1, [], set_kern k r)). destruct (foldl _ _ es) as [[check ops] r1]; cbn [fst snd] in Hall.
  destruct Hall as [Hw Hh]. change (tally []) with 0 in Hw. rewrite waiting_kern in Hw. destruct check; [|split; [cbn [fst snd]; lia|done]].
  pose proof (TimerQueue.waits_of_ready timer_owned (clock (kern r1)) (timers r1)) as Ht.
  destruct (TimerQueue.get_ready_timers _ _) as [ws q]; cbn [fst snd] in *. rewrite tally_app, tally_timers.
  assert (waiting (if timer_fd_ (set_timers q r1) =? -1 then set_timers q r1 else set_timer_fd (set_timers q r1))
    = waiting r1 - TimerQueue.count_ops timer_owned ws) as ->.
  { destruct (_ =? -1); unfold waiting; cbn [registered_descriptors_ timers set_timers set_timer_fd timerfd_timeout set_kern]; lia. }
  split; [lia|]. by destruct (_ =? -1).
Qed.

Lemma perform_queue_tally q k : let '(ended, rest, _, _) := perform_queue q k in tally_ops ended + tally_ops rest = tally_ops q.
Proof.
  revert k. induction q as [|o q IH]; intros k; [done|]. cbn [perform_queue]. rewrite tally_ops_cons.
  destruct (perform o k) as [[st o'] k1] eqn:Hp. pose proof (tally_performed _ _ _ _ _ Hp) as Ho. destruct st.
  - rewrite tally_ops_cons. change (tally_ops []) with 0. lia.
  - specialize (IH k1). destruct (perform_queue q k1) as [[[ended rest] ex] k2]. rewrite tally_ops_cons. lia.
  - rewrite tally_ops_cons. change (tally_ops []) with 0. lia.
Qed.
Lemma perform_type_tally ev j acc : let '(ops, s, _) := perform_type ev j acc in
  tally_ops ops + tally_queue (op_queue_ s) = tally_ops acc.1.1 + tally_queue (op_queue_ acc.1.2).
Proof.
  destruct acc as [[ops s] k]. unfold perform_type. destruct (hits j ev); [|done].
  pose proof (perform_queue_tally (get j (op_queue_ s)) k) as Hq. destruct (perform_queue _ k) as [[[ended rest] ex] k'].
  cbn [fst snd op_queue_ set_ops]. rewrite tally_ops_app, tally_queue_set. lia.
Qed.
Lemma perform_io_tally ev s k : let '(ops, s', _) := perform_io ev s k in
  tally_ops ops + tally_queue (op_queue_ s') = tally_queue (op_queue_ s).
Proof.
  unfold perform_io; cbn [foldl]. pose proof (perform_type_tally ev except_op ([], s, k)) as H1'.
  destruct (perform_type _ _ _) as [[o1 s1] k1]. pose proof (perform_type_tally ev write_op (o1, s1, k1)) as H2'.
  destruct (perform_type _ write_op _) as [[o2 s2] k2]. pose proof (perform_type_tally ev read_op (o2, s2, k2)) as H3'.
  destruct (perform_type _ read_op _) as [[o3 s3] k3]. cbn [fst snd] in *. change (tally_ops []) with 0 in H1'. lia.
Qed.
(** A descriptor hands over the first operation that ended and posts the others. *)
Lemma perform_descriptor_keeps d m : let '(res, m') := perform_descriptor d m in
  starting (- match res with Some o => tally [ReactorOp o] | None => 0 end) m m'.
Proof.
  unfold perform_descriptor. set (s0 := set_queued false _).
  pose proof (perform_io_tally (task_result_ s0) s0 (kern (env m))) as Hio. destruct (perform_io _ _ _) as [[ops s] k].
  set (m1 := on_env _ m). assert (starting (- tally_ops ops) m m1) as Hm1.
  { apply starting_env; [|done]. rewrite waiting_kern, waiting_on. change (op_queue_ (state_of d (env m))) with (op_queue_ s0). lia. }
  clearbody m1. destruct ops as [|o ops].
  - change (tally_ops []) with 0 in Hm1. destruct Hm1 as [Ht Hh]. split; [|done]. rewrite <- Ht.
    unfold Scheduler.held, Scheduler.private_ops, Scheduler.compensating_work_started; cbn -[tally waiting]. by destruct (Scheduler.this_thread m1).
  - rewrite tally_ops_cons in Hm1. replace (- tally [ReactorOp o]) with (- (tally [ReactorOp o] + tally_ops ops) + tally_ops ops) by lia.
    apply (starting_trans _ _ _ m1); [done|apply post_deferred_starts].
Qed.

Section handlers.
  Context (handler : operation -> list request).

Lemma serve_all_starts rqs m : starting (starts_all rqs) m (foldl (flip serve) m rqs).
Proof.
  revert m. induction rqs as [|rq rqs IH]; intros m; [apply starting_refl|]. cbn [foldl foldr starts_all].
  apply (starting_trans _ _ m (serve rq m)); [apply serve_starts|apply IH].
Qed.
Lemma started_by_app os os' : started_by handler (os ++ os') = started_by handler os + started_by handler os'.
Proof. induction os as [|o os IH]; [done|]. cbn [started_by foldr app]. fold (started_by handler os) (started_by handler (os ++ os')). lia. Qed.

(** Where the operations are: [os] ready, others waiting, others completed; [n] were asked
    for besides those that handlers started. *)
Definition accounted (n : Z) (os : list operation) (r : reactor) : Prop :=
  tally os + waiting r + tally (handled r) = n + started_by handler (handled r).

Lemma accounted_task n usec os r : accounted n os r -> accounted n (os ++ (run usec r).1) (run usec r).2.
Proof. unfold accounted. destruct (run_keeps usec r) as [Hw ->]. rewrite tally_app. lia. Qed.
Lemma accounted_starting n k m m' : starting k m m' -> accounted n (Scheduler.held m) (env m) ->
  accounted (n + k) (Scheduler.held m') (env m').
Proof. unfold accounted. intros [Ht ->]. change (@Scheduler.Op epoll_task) with operation in *. lia. Qed.

Lemma handle_accounted n o m : accounted n (o :: Scheduler.held m) (env m) ->
  accounted n (Scheduler.held (handle handler o m)) (env (handle handler o m)).
Proof.
  unfold accounted. rewrite tally_cons. unfold handle. set (m1 := on_env _ m).
  assert (Scheduler.held m1 = Scheduler.held m /\ waiting (env m1) = waiting (env m) /\ handled (env m1) = handled (env m) ++ [o]) as (Hh & Hw & Hd) by done.
  destruct (serve_all_starts (handler o) m1) as [-> ->]. rewrite Hh, Hw, Hd, tally_app, started_by_app.
  assert (started_by handler [o] = starts_all (handler o)) as -> by (cbn [started_by foldr]; lia).
  change (@Scheduler.Op epoll_task) with operation in *. intros Ha. lia.
Qed.
Lemma complete_accounted n o m : accounted n (o :: Scheduler.held m) (env m) ->
  accounted n (Scheduler.held (complete handler o m)) (env (complete handler o m)).
Proof.
  intros Ha. destruct o as [d|o|op]; cbn [complete]; [|by apply handle_accounted..].
  unfold accounted in Ha. rewrite tally_cons, tally_descriptor in Ha.
  pose proof (perform_descriptor_keeps d m) as Hp. destruct (perform_descriptor d m) as [[o|] m1]; destruct Hp as [Ht Hh].
  - apply handle_accounted. unfold accounted. rewrite tally_cons, Hh. change (@Scheduler.Op epoll_task) with operation in *. lia.
  - unfold accounted. rewrite Hh. change (@Scheduler.Op epoll_task) with operation in *. lia.
Qed.

(** ** Programs *)

Definition once_inv (n : Z) (os : list operation) (r : reactor) : Prop := flagged os r /\ accounted n os r.

Lemma once_task n usec os r : once_inv n os r ->
  pending r = Z.of_nat (length (run usec r).1) + pending (run usec r).2 /\ once_inv n (os ++ (run usec r).1) (run usec r).2.
Proof. intros [Hf Ha]. split; [apply epoll_counts|]. split; [by apply run_flagged|by apply accounted_task]. Qed.
Lemma once_complete n o m : Scheduler.this_thread m = Some (Scheduler.ThreadInfo 0 []) -> once_inv n (o :: Scheduler.held m) (env m) ->
  Scheduler.handler_counts pending o m (complete handler o m) /\ once_inv n (Scheduler.held (complete handler o m)) (env (complete handler o m)).
Proof.
  intros Ht [Hf Ha]. destruct (epoll_complete_counts handler o m Ht Hf). split; [done|]. split; [done|by apply complete_accounted].
Qed.
Definition call_starts (c : call) : Z := match c with Request rq => starts rq | _ => 0 end.
Lemma invoke_once n c m : Scheduler.idle_inv pending (once_inv n) m ->
  Scheduler.idle_inv pending (once_inv (n + call_starts c)) (invoke handler c m).
Proof.
  intros Hm. assert (Scheduler.idle_inv pending flagged m) as Hf by (split; apply Hm).
  pose proof (invoke_ok handler c m Hf) as [Hidle Hflag]. pose proof Hm as [Hok [Hfm Ha]].
  assert (forall m', Scheduler.idle_inv pending (once_inv n) m' -> Scheduler.idle_inv pending (once_inv (n + 0)) m') as Hzero
    by (intros m'; by rewrite Z.add_0_r).
  destruct c as [rq|fuel|fuel|fuel| |usec| | |f]; cbn [invoke call_starts] in *.
  - split; [done|]. split; [done|]. apply (accounted_starting n (starts rq) m); [apply serve_starts|done].
  - apply Hzero. by apply (@Scheduler.run_kept epoll_task (complete handler) pending (once_inv n) (once_task n) (once_complete n)).
  - apply Hzero. by apply (@Scheduler.run_one_kept epoll_task (complete handler) pending (once_inv n) (once_task n) (once_complete n)).
  - apply Hzero. by apply (@Scheduler.poll_kept epoll_task (complete handler) pending (once_inv n) (once_task n) (once_complete n)).
  - apply Hzero. by apply (@Scheduler.poll_one_kept epoll_task (complete handler) pending (once_inv n) (once_task n) (once_complete n)).
  - apply Hzero. by apply (@Scheduler.wait_one_kept epoll_task (complete handler) pending (once_inv n) (once_task n) (once_complete n)).
  - apply Hzero. split; [done|]. by split.
  - apply Hzero. split; [done|]. by split.
  - apply Hzero. split; [done|]. by split.
Qed.

Lemma program_once calls tfd k :
  Scheduler.idle_inv pending (once_inv (requested calls)) (foldl (flip (invoke handler)) (new_machine tfd k) calls).
Proof.
  assert (Scheduler.idle_inv pending (once_inv 0) (new_machine tfd k)) as H0'.
  { destruct (new_machine_ok tfd k) as [Hok Hf]. split; [done|by split]. }
  revert H0'. rewrite <- (Z.add_0_l (requested calls)). generalize 0, (new_machine tfd k).
  induction calls as [|c cs IH]; intros n m0 H0'; [by rewrite Z.add_0_r|]. cbn [foldl requested foldr].
  change (foldr _ 0 cs) with (requested cs). rewrite Z.add_assoc. apply IH. by apply (invoke_once n c).
Qed.
End handlers.
End once.

(** C9: Every handler once.  Whatever the program does - any sequence of requests, runs of the
    loop and changes of the network, with handlers that make further requests - for every
    handler: the operations started with it, by the program or by the handlers that have run,
    are exactly those whose handler has run, those that are ready, and those that wait in the
    reactor.  None is lost, none completes twice, whether it ends with a result, an error, or
    a cancellation. *)
Theorem every_handler_once `{OpHandlers} (handler : operation -> list request) (calls : list call) (tfd : Z) (k : Kern) (w : owner) :
  let m := foldl (flip (invoke handler)) (new_machine tfd k) calls in
  requested w calls + started_by w handler (handled (env m))
  = tally w (handled (env m)) + tally w (Scheduler.user_ops (Scheduler.op_queue_ (sched m))) + waiting w (env m).
Proof.
  intros m. destruct (program_once w handler calls tfd k) as [[Ht _ _ _] [_ Ha]]. fold m in Ht, Ha.
  unfold accounted, Scheduler.held, Scheduler.private_ops in Ha. rewrite Ht, app_nil_r in Ha.
  change (@Scheduler.Op epoll_task) with operation in *. lia.
Qed.
