(* ===== verification/EpollWakeups.v ===== *)
(** * [asio::detail::epoll_reactor]: no readiness goes unnoticed

    epoll is edge-triggered: it announces a descriptor when something happens on it, once.
    The reactor must not be left with an operation that could be performed while nothing is
    under way that will make it try.  The steps of the reactor ([EpollReactor]) in any order,
    with the network acting in between, keep an invariant that says so; it has one exception,
    the end of a stream, which is shown to be a real one. *)
From S2P Require Import Prelude SocketOps EpollReactor.
From S2P Require TimerQueue Scheduler.
Import Scheduler (machine, Machine, env, sched).
Open Scope Z_scope.

(** ** What the system promises *)

(** An operation is made for a descriptor and a direction; [op_valid]: it asks for something. *)
Class EpollOps `{Epoll} := {
  op_fd : rop -> Z;
  op_dir : rop -> op_type;
  op_valid : rop -> Prop;
}.

Class EpollState `{Epoll} := {
  (** the state and the events a descriptor is registered with *)
  watched : Kern -> Z -> option (nat * Z);
  (** an attempt would not find itself waiting *)
  ready : Kern -> Z -> op_type -> bool;
  (** the next [epoll_wait] with room for it says so *)
  announced : Kern -> Z -> op_type -> bool;
  (** that direction of the stream has come to its end, or has failed *)
  ended : Kern -> Z -> op_type -> bool;
}.

Section laws.
  Context `{EpollState}.

Definition watches (j : op_type) (events : Z) : bool := has (flag j) events.
Definition silent (k : Kern) (fd : Z) (j : op_type) : bool := ready k fd j && negb (announced k fd j).

(** Nothing happens that is watched for and not announced. *)
Definition calm_at (fd : Z) (k k' : Kern) : Prop :=
  (watched k' fd = watched k fd \/ watched k' fd = None) /\
  forall j d events, watched k' fd = Some (d, events) -> watches j events = true ->
    (silent k' fd j = true -> silent k fd j = true) /\ (ended k fd j = true -> ended k' fd j = true).
Definition calm (k k' : Kern) : Prop := forall fd, calm_at fd k k'.

(** A registration made or renewed. *)
Definition renewed (d : nat) (events fd : Z) (k' : Kern) : Prop :=
  watched k' fd = Some (d, events) /\ forall j, watches j events = true -> silent k' fd j = false.
End laws.

Definition belongs `{EpollOps} (fd : Z) (j : op_type) (o : rop) : Prop := op_fd o = fd /\ op_dir o = j /\ op_valid o.

Class EpollOk `{Epoll} `{!EpollOps} `{!EpollState} : Prop := {
  no_descriptor k : watched k (-1) = None;
  perform_calm o k st o' k' : perform o k = (st, o', k') -> calm k k';
  perform_same o k st o' k' : perform o k = (st, o', k') -> op_valid o -> belongs (op_fd o) (op_dir o) o';
  perform_not_done o k o' k' : perform o k = (not_done, o', k') -> op_valid o -> ready k' (op_fd o) (op_dir o) = false;
  perform_exhausted o k o' k' : perform o k = (done_and_exhausted, o', k') -> op_valid o ->
    ready k' (op_fd o) (op_dir o) = false \/ ended k' (op_fd o) (op_dir o) = true;
  ctl_elsewhere c fd events d k ec k' : epoll_ctl c fd events d k = (ec, k') ->
    forall fd', fd' <> fd -> calm_at fd' k k';
  ctl_add fd events d k ec k' : epoll_ctl CtlAdd fd events d k = (ec, k') -> watched k fd = None ->
    match ec with None => renewed d events fd k' | Some _ => watched k' fd = None end;
  ctl_mod fd events d k ec k' : epoll_ctl CtlMod fd events d k = (ec, k') ->
    match watched k fd with None => watched k' fd = None | Some _ => ec = None /\ renewed d events fd k' end;
  ctl_del fd events d k ec k' : epoll_ctl CtlDel fd events d k = (ec, k') -> calm_at fd k k';
  wait_reports usec k es k' : epoll_wait usec k = (es, k') -> forall fd,
    (watched k' fd = watched k fd \/ watched k' fd = None) /\
    forall j d events, watched k' fd = Some (d, events) -> watches j events = true ->
      (silent k' fd j = true -> silent k fd j = true \/ exists ev, (Descriptor d, ev) ∈ es /\ hits j ev = true) /\
      (ended k fd j = true -> ended k' fd j = true);
  settime_calm fl usec k : calm k (timerfd_settime fl usec k);
  interrupt_calm k : calm k (interrupt_epoll k);
}.

Section steps.
  Context `{Epoll} `{!EpollOps} `{!EpollState}.

(** ** The steps of the reactor

    A request is used as the socket service uses it: an operation is started with the
    descriptor and the direction it was made for, a descriptor that is registered is new,
    and a state is given back once, after it has been deregistered. *)
Definition well_formed (rq : request) (r : reactor) : Prop :=
  match rq with
  | RegisterDescriptor fd => watched (kern r) fd = None
  | StartOp j fd (Some d) o _ _ =>
      shutdown_ (state_of d r) = false -> fd = descriptor_ (state_of d r) /\ belongs fd j o
  | CleanupDescriptorData (Some d) => shutdown_ (state_of d r) = true /\ d ∉ free_list_ r
  | _ => True
  end.

Inductive step : reactor -> reactor -> Prop :=
  | step_request rq (m : @Scheduler.machine epoll_task) : well_formed rq (env m) -> step (env m) (env (serve rq m))
  | step_run usec r : step r (run usec r).2
  | step_perform d (m : @Scheduler.machine epoll_task) : step (env m) (env (perform_descriptor d m).2)
  | step_net r k : calm (kern r) k -> step r (set_kern k r).

(** ** The invariant *)

(** The descriptor state is in line to be looked at for [j]. *)
Definition told (s : descriptor_state) (j : op_type) : Prop := queued s = true /\ hits j (task_result_ s) = true.

(** Something relies on an announcement: an operation waits, or will not be attempted. *)
Definition relies (s : descriptor_state) (j : op_type) : Prop :=
  get j (op_queue_ s) <> [] \/ get j (try_speculative_ s) = false.

Record shaped (s : descriptor_state) : Prop := {
  sh_shutdown : shutdown_ s = true -> op_queue_ s = all_types [];
  sh_ops : forall j, Forall (belongs (descriptor_ s) j) (get j (op_queue_ s));
  sh_registered : registered_events_ s <> 0 ->
    watches read_op (registered_events_ s) = true /\ watches except_op (registered_events_ s) = true;
  sh_asked : forall j, get j (op_queue_ s) <> [] -> watches j (registered_events_ s) = true;
}.
Record awake (k : Kern) (d : nat) (s : descriptor_state) : Prop := {
  aw_shape : shaped s;
  aw_events : forall events, shutdown_ s = false -> watched k (descriptor_ s) = Some (d, events) ->
    events = registered_events_ s /\
    forall j, watches j events = true -> relies s j -> silent k (descriptor_ s) j = true ->
      told s j \/ ended k (descriptor_ s) j = true;
}.

Record wakeful (r : reactor) : Prop := {
  wk_states : forall d, awake (kern r) d (state_of d r);
  wk_free : forall d, d ∈ free_list_ r -> shutdown_ (state_of d r) = true;
  wk_nodup : NoDup (free_list_ r);
}.
End steps.

Section proof.
  Context `{EpollOk}.

Lemma calm_at_refl fd k : calm_at fd k k.
Proof. split; [by left|auto]. Qed.
Lemma calm_refl k : calm k k.
Proof. intros fd. apply calm_at_refl. Qed.
Lemma calm_at_trans fd k1 k2 k3 : calm_at fd k1 k2 -> calm_at fd k2 k3 -> calm_at fd k1 k3.
Proof.
  intros [Hw12 H12] [Hw23 H23]. split; [destruct Hw12, Hw23; (left; congruence) || (right; congruence)|].
  intros j d ev Hw Hj. destruct Hw23 as [Hw23|Hw23]; [|congruence]. destruct (H23 j d ev Hw Hj).
  rewrite Hw23 in Hw. destruct (H12 j d ev Hw Hj). auto.
Qed.
Lemma calm_trans k1 k2 k3 : calm k1 k2 -> calm k2 k3 -> calm k1 k3.
Proof. intros H12 H23 fd. by apply (calm_at_trans fd k1 k2). Qed.
Lemma calm_watched fd k k' w : calm_at fd k k' -> watched k' fd = Some w -> watched k fd = Some w.
Proof. intros [[Hw|Hw] _] Hs; congruence. Qed.

Lemma awake_calm k k' d s : calm_at (descriptor_ s) k k' -> awake k d s -> awake k' d s.
Proof.
  intros Hc [Hs He]. split; [done|]. intros ev Hsd Hw. pose proof (calm_watched _ _ _ _ Hc Hw) as Hw0.
  destruct (He ev Hsd Hw0) as [Hev Hj]. split; [done|]. intros j Hwj Hrel Hsil.
  destruct Hc as [_ Hc]. destruct (Hc j d ev Hw Hwj) as [Hs1 He1]. destruct (Hj j Hwj Hrel (Hs1 Hsil)); auto.
Qed.

(** Nothing is asked of a descriptor that epoll knows under another state, or not at all. *)
Lemma awake_elsewhere k k' d s : (forall events, watched k' (descriptor_ s) <> Some (d, events)) ->
  awake k d s -> awake k' d s.
Proof. intros Hw [Hs He]. split; [done|]. intros ev _ Hev. by destruct (Hw ev). Qed.
(** [ctl_add] and [ctl_mod] leave other states alone. *)
Lemma awake_ctl c fd events d k ec k' d' s : epoll_ctl c fd events d k = (ec, k') -> d' <> d ->
  watched k' fd = None \/ (exists ev, watched k' fd = Some (d, ev)) -> awake k d' s -> awake k' d' s.
Proof.
  intros Hc Hne Hw Hs. destruct (decide (descriptor_ s = fd)) as [Hfd|Hfd].
  - apply (awake_elsewhere k); [|done]. intros ev Hev. rewrite Hfd in Hev. destruct Hw as [Hw|[? Hw]]; congruence.
  - apply (awake_calm k); [by apply (ctl_elsewhere c fd events d k ec)|done].
Qed.

Lemma wakeful_kern k r : calm (kern r) k -> wakeful r -> wakeful (set_kern k r).
Proof. intros Hc [Hs Hf Hn]. split; [|done..]. intros d. by apply (awake_calm (kern r)). Qed.
Lemma wakeful_on d f k r : wakeful r -> (forall d', d' <> d -> awake k d' (state_of d' r)) ->
  awake k d (f (state_of d r)) -> (d ∈ free_list_ r -> shutdown_ (f (state_of d r)) = true) ->
  wakeful (set_kern k (on_descriptor d f r)).
Proof.
  intros [Hs Hf Hn] Hoth Hd Hfree. split; [| |done].
  - intros d'. rewrite state_of_kern. destruct (decide (d = d')) as [<-|Hne]; [by rewrite state_of_on|].
    rewrite state_of_ne by done. by apply Hoth.
  - intros d' Hd'. rewrite state_of_kern. destruct (decide (d = d')) as [<-|Hne]; [rewrite state_of_on; auto|].
    rewrite state_of_ne by done. by apply Hf.
Qed.
Lemma wakeful_on_same d f r : wakeful r -> awake (kern r) d (f (state_of d r)) ->
  (d ∈ free_list_ r -> shutdown_ (f (state_of d r)) = true) -> wakeful (on_descriptor d f r).
Proof.
  intros Hr Hd Hfree. change (on_descriptor d f r) with (set_kern (kern r) (on_descriptor d f r)).
  apply wakeful_on; try done. intros d' _. apply (wk_states _ Hr).
Qed.
Lemma not_free d r : wakeful r -> shutdown_ (state_of d r) = false -> d ∉ free_list_ r.
Proof. intros Hr Hs Hd. pose proof (wk_free _ Hr d Hd). congruence. Qed.

(** *** Starting an operation *)

Lemma get_set {A} j j' (a : A) p : get j' (set j a p) = if decide (j' = j) then a else get j' p.
Proof. by destruct j, j'. Qed.

(** What is known of a state that an operation for [j] is started on. *)
Record startable (j : op_type) (fd : Z) (d : nat) (o : rop) (r : reactor) : Prop := {
  sa_wakeful : wakeful r;
  sa_open : shutdown_ (state_of d r) = false;
  sa_fd : fd = descriptor_ (state_of d r);
  sa_op : belongs (descriptor_ (state_of d r)) j o;
}.

(** An operation is pushed with the events it needs watched, and what is ready is noticed. *)
Lemma shaped_push j o ev s : shaped s -> shutdown_ s = false -> belongs (descriptor_ s) j o ->
  registered_events_ s <> 0 -> (forall j', watches j' (registered_events_ s) = true -> watches j' ev = true) ->
  watches j ev = true -> shaped (push_op j o (set_registered ev s)).
Proof.
  intros [Hs Ho Hr Ha] Hsd Hop Hr0 Hmono Hj. split; cbn.
  - congruence.
  - intros j'. rewrite get_set. destruct (decide (j' = j)) as [->|]; [|apply Ho].
    apply Forall_app. split; [apply Ho|by apply Forall_singleton].
  - intros _. destruct (Hr Hr0). by split; apply Hmono.
  - intros j'. rewrite get_set. destruct (decide (j' = j)) as [->|]; [done|]. intros Hne. by apply Hmono, Ha.
Qed.

Lemma relies_push j o s j' : relies (push_op j o s) j' -> j' <> j -> relies s j'.
Proof. unfold relies, push_op; cbn. rewrite get_set. by destruct (decide (j' = j)). Qed.

Lemma has_lor_l f a b : has f a = true -> has f (Z.lor a b) = true.
Proof.
  unfold has. rewrite !negb_true_iff, !Z.eqb_neq. intros Hf Hl. apply Hf.
  apply Z.bits_inj'. intros n Hn. apply (f_equal (fun z => Z.testbit z n)) in Hl.
  rewrite Z.land_spec, Z.lor_spec, Z.bits_0 in Hl. rewrite Z.land_spec, Z.bits_0.
  destruct (Z.testbit a n), (Z.testbit f n); cbn in *; congruence.
Qed.
Lemma has_lor_r f a b : has f b = true -> has f (Z.lor a b) = true.
Proof. rewrite Z.lor_comm. apply has_lor_l. Qed.
Lemma watches_monotone j ev : watches j ev = true -> watches j (Z.lor ev EPOLLOUT) = true.
Proof. apply has_lor_l. Qed.
Lemma watches_out ev : watches write_op (Z.lor ev EPOLLOUT) = true.
Proof. by apply has_lor_r. Qed.

(** Pushed behind a renewed registration. *)
Lemma push_renewed j fd d o ev r ec k : startable j fd d o r -> registered_events_ (state_of d r) <> 0 ->
  epoll_ctl CtlMod (descriptor_ (state_of d r)) ev d (kern r) = (ec, k) ->
  (forall j', watches j' (registered_events_ (state_of d r)) = true -> watches j' ev = true) -> watches j ev = true ->
  wakeful (set_kern k (on_descriptor d (fun s => push_op j o (set_registered ev s)) r)).
Proof.
  intros [Hr Hsd _ Hop] Hr0 Hc Hmono Hj. set (s := state_of d r) in *. pose proof (ctl_mod _ _ _ _ _ _ Hc) as Hm.
  apply wakeful_on; [done| | |].
  - intros d' Hne. apply (awake_ctl CtlMod (descriptor_ s) ev d (kern r) ec); [done|done| |apply (wk_states _ Hr)].
    destruct (watched (kern r) (descriptor_ s)); [right|by left]. destruct Hm as [_ [Hm _]]. by eexists.
  - fold s. split; [by apply shaped_push; [apply (wk_states _ Hr)|..]|]. intros ev' _ Hw. cbn in Hw |- *.
    destruct (watched (kern r) (descriptor_ s)); [|congruence]. destruct Hm as [_ [Hm Hsil]].
    rewrite Hm in Hw. simplify_eq. split; [done|]. intros j' Hj' _ Hsi. by rewrite Hsil in Hsi.
  - fold s. cbn. intros Hd. by apply (wk_free _ Hr).
Qed.
(** Pushed without one. *)
Lemma push_quiet j fd d o r : startable j fd d o r -> registered_events_ (state_of d r) <> 0 ->
  watches j (registered_events_ (state_of d r)) = true ->
  (forall events, watched (kern r) (descriptor_ (state_of d r)) = Some (d, events) ->
     silent (kern r) (descriptor_ (state_of d r)) j = true ->
     told (state_of d r) j \/ ended (kern r) (descriptor_ (state_of d r)) j = true) ->
  wakeful (on_descriptor d (push_op j o) r).
Proof.
  intros [Hr Hsd _ Hop] Hr0 Hj Hnotice. apply wakeful_on_same; [done| |cbn; by apply wk_free].
  set (s := state_of d r) in *. destruct (wk_states _ Hr d) as [Hs He]. fold s in Hs, He. split.
  - assert (push_op j o s = push_op j o (set_registered (registered_events_ s) s)) as -> by (by destruct s).
    by apply shaped_push.
  - intros ev _ Hw. cbn in Hw. destruct (He ev Hsd Hw) as [Hev Hev2]. split; [done|]. intros j' Hj' Hrel Hsil.
    destruct (decide (j' = j)) as [->|Hne]; [by apply (Hnotice ev)|]. apply Hev2; [done| |done]. by apply (relies_push j o).
Qed.

Lemma start_waiting_wakeful j fd d o r : startable j fd d o r ->
  (forall events, watched (kern r) (descriptor_ (state_of d r)) = Some (d, events) -> watches j events = true ->
     silent (kern r) (descriptor_ (state_of d r)) j = true ->
     told (state_of d r) j \/ ended (kern r) (descriptor_ (state_of d r)) j = true) ->
  wakeful (start_waiting j fd d o r).2.
Proof.
  intros Hst Hnotice. pose proof Hst as [Hr Hsd -> Hop]. unfold start_waiting. set (s := state_of d r) in *.
  destruct (Z.eqb_spec (registered_events_ s) 0) as [H0'|Hr0]; [done|].
  destruct (bool_decide (j = write_op) && negb (has EPOLLOUT (registered_events_ s))) eqn:Hw.
  - apply andb_true_iff in Hw as [->%bool_decide_eq_true Hout]. unfold modify_events. fold s.
    destruct (epoll_ctl CtlMod _ _ _ _) as [ec k] eqn:Hc. destruct ec as [e|].
    + apply wakeful_kern; [|done]. intros fd'. destruct (decide (fd' = descriptor_ s)) as [->|Hne]; [|by apply (ctl_elsewhere _ _ _ _ _ _ _ Hc)].
      pose proof (ctl_mod _ _ _ _ _ _ Hc) as Hm. destruct (watched (kern r) (descriptor_ s)) eqn:Hw0; [by destruct Hm|].
      split; [right; congruence|]. intros; congruence.
    + rewrite Z.lor_assoc, Z.lor_diag in *. apply (push_renewed write_op (descriptor_ s) d o _ r None k Hst Hr0 Hc).
      * intros j'. apply watches_monotone.
      * apply watches_out.
  - assert (watches j (registered_events_ s) = true) as Hj.
    { destruct (sh_registered _ (aw_shape _ _ _ (wk_states _ Hr d)) Hr0) as [Hrd Hex]. destruct j; [done| |done].
      apply andb_false_iff in Hw as [Hw|Hw]; [by rewrite bool_decide_true in Hw|]. by apply negb_false_iff in Hw. }
    apply (push_quiet j (descriptor_ s)); [done..|]. intros ev Hw' Hsil. apply (Hnotice ev Hw'); [|done].
    destruct (aw_events _ _ _ (wk_states _ Hr d) ev Hsd Hw') as [-> _]. done.
Qed.

Lemma op_of_perform o k st o' k' : perform o k = (st, o', k') -> forall fd j, belongs fd j o -> belongs fd j o'.
Proof. intros Hp fd j (<- & <- & Hv). by apply (perform_same _ _ _ _ _ Hp). Qed.

Lemma start_speculative_wakeful j fd d o r : startable j fd d o r -> no_ops j (state_of d r) = true ->
  wakeful (start_speculative j fd d o r).2.
Proof.
  intros Hst Hno. pose proof Hst as [Hr Hsd -> Hop]. unfold start_speculative. set (s := state_of d r) in *.
  destruct (get j (try_speculative_ s)) eqn:Htry.
  - destruct (perform o (kern r)) as [[st o'] k] eqn:Hp. pose proof (perform_calm _ _ _ _ _ Hp) as Hc.
    pose proof (wakeful_kern k r Hc Hr) as Hr1. destruct st; [|done|].
    + apply start_waiting_wakeful.
      * split; [done|done|done|]. by apply (op_of_perform _ _ _ _ _ Hp).
      * intros ev _ _. rewrite state_of_kern. fold s. unfold silent. destruct Hop as (<- & <- & Hv).
        by rewrite (perform_not_done _ _ _ _ Hp Hv).
    + cbn [snd]. rewrite state_of_kern. fold s. destruct (registered_events_ s =? 0); [done|].
      apply wakeful_on_same; [done| |cbn; by apply (wk_free _ Hr)]. rewrite state_of_kern. fold s.
      destruct (wk_states _ Hr1 d) as [Hs He]. rewrite state_of_kern in Hs, He. fold s in Hs, He.
      split; [by destruct Hs; split|]. intros ev _ Hw. destruct (He ev Hsd Hw) as [Hev Hev2]. split; [done|].
      intros j' Hj' Hrel Hsil. destruct (decide (j' = j)) as [->|Hne].
      * right. destruct Hop as (Hfd & Hdir & Hv). pose proof (perform_exhausted _ _ _ _ Hp Hv) as Hex. rewrite Hfd, Hdir in Hex.
        destruct Hex as [Hex|Hex]; [|done]. cbn in Hsil. unfold silent in Hsil. by rewrite Hex in Hsil.
      * apply Hev2; [done| |done]. unfold relies in Hrel |- *. cbn in Hrel. rewrite get_set in Hrel. by rewrite decide_False in Hrel.
  - apply start_waiting_wakeful; [done|]. intros ev Hw Hj Hsil. fold s in Hw, Hsil |- *.
    apply (aw_events _ _ _ (wk_states _ Hr d) ev Hsd Hw); [done|by right|done].
Qed.

Lemma start_locked_wakeful j fd d o a r : wakeful r ->
  (shutdown_ (state_of d r) = false -> fd = descriptor_ (state_of d r) /\ belongs fd j o) ->
  wakeful (start_locked j fd d o a r).2.
Proof.
  intros Hr Hop. unfold start_locked. set (s := state_of d r) in *. destruct (shutdown_ s) eqn:Hsd; [done|].
  destruct (Hop eq_refl) as (-> & Hown). clear Hop.
  assert (startable j (descriptor_ s) d o r) as Hst by (by split). destruct (no_ops j s) eqn:Hno.
  - destruct (a && _); [by apply start_speculative_wakeful|]. unfold start_registered. fold s.
    destruct (Z.eqb_spec (registered_events_ s) 0) as [|Hr0]; [done|]. unfold modify_events.
    set (ev := if bool_decide (j = write_op) then _ else _).
    change (kern (on_descriptor d (set_registered ev) r)) with (kern r).
    destruct (epoll_ctl _ _ _ _ _) as [ec k] eqn:Hc. cbn [snd].
    destruct (sh_registered _ (aw_shape _ _ _ (wk_states _ Hr d)) Hr0) as [Hrd Hex]. fold s in Hrd, Hex.
    assert (wakeful (set_kern k (on_descriptor d (fun s => push_op j o (set_registered ev s)) r))) as Hgoal.
    { apply (push_renewed j (descriptor_ s) d o ev r ec k); [done..| |]; unfold ev; destruct j; cbn; try done;
        [intros; by apply watches_monotone|apply watches_out]. }
    revert Hgoal. unfold on_descriptor, set_descriptors, set_kern, state_of; cbn.
    by rewrite lookup_insert_eq, insert_insert_eq.
  - unfold no_ops in Hno. destruct (get j (op_queue_ s)) as [|o1 q] eqn:Hq; [done|].
    destruct (wk_states _ Hr d) as [Hs He]. fold s in Hs, He.
    assert (watches j (registered_events_ s) = true) as Hj by (apply (sh_asked _ Hs); by rewrite Hq).
    apply (push_quiet j (descriptor_ s)); [done| |done|].
    + intros H0'. fold s in H0'. rewrite H0' in Hj. by destruct j.
    + intros ev Hw Hsil. destruct (He ev Hsd Hw) as [-> Hev]. apply Hev; [done|left; by rewrite Hq|done].
Qed.

(** *** Requests *)

Lemma post_deferred_env os (m : @Scheduler.machine epoll_task) : env (post_deferred_completions os m) = env m.
Proof. by rewrite post_deferred_is. Qed.
Lemma post_immediate_env o c (m : @Scheduler.machine epoll_task) : env (Scheduler.post_immediate_completion o c m) = env m.
Proof. unfold Scheduler.post_immediate_completion. destruct (Scheduler.this_thread m); [by destruct c|done]. Qed.

(** Operations are taken away. *)
Lemma awake_less k d q s : (forall j o, o ∈ get j q -> o ∈ get j (op_queue_ s)) -> awake k d s -> awake k d (set_ops q s).
Proof.
  intros Hq [[Hs Ho Hr Ha] He].
  assert (forall j, get j q <> [] -> get j (op_queue_ s) <> []) as Hne.
  { intros j Hj Hn. destruct (get j q) as [|o l] eqn:Hl; [done|]. specialize (Hq j o). rewrite Hl, Hn in Hq.
    specialize (Hq ltac:(by left)). by apply elem_of_nil in Hq. }
  split; [split; cbn|].
  - intros Hsd. specialize (Hs Hsd). assert (forall j, get j q = []) as Hnil.
    { intros j. destruct (get j q) eqn:Hl; [done|]. exfalso. apply (Hne j); [by rewrite Hl|]. rewrite Hs. by destruct j. }
    destruct q as [q1 q2 q3]. unfold all_types. f_equal; [apply (Hnil read_op)|apply (Hnil write_op)|apply (Hnil except_op)].
  - intros j. apply Forall_forall. intros o Hin. specialize (Ho j). rewrite Forall_forall in Ho. by apply Ho, Hq.
  - done.
  - intros j Hj. by apply Ha, Hne.
  - intros ev Hsd Hw. destruct (He ev Hsd Hw) as [Hev Hev2]. split; [done|]. intros j Hj Hrel. apply Hev2; [done|].
    destruct Hrel as [Hrel|Hrel]; [left; by apply Hne|by right].
Qed.
Lemma wakeful_less d f r : wakeful r -> (forall j o, o ∈ get j (f (op_queue_ (state_of d r))) -> o ∈ get j (op_queue_ (state_of d r))) ->
  wakeful (on_descriptor d (fun s => set_ops (f (op_queue_ s)) s) r).
Proof.
  intros Hr Hf. apply wakeful_on_same; [done| |cbn; by apply (wk_free _ Hr)]. apply awake_less; [done|apply (wk_states _ Hr)].
Qed.
Lemma elem_of_none (j : op_type) (o : rop) (p : per_type (list rop)) : o ∈ get j (all_types []) -> o ∈ get j p.
Proof. destruct j; cbn; intros Ho; by apply elem_of_nil in Ho. Qed.

Lemma awake_idle k d s : shaped s -> (forall j, ~ relies s j) ->
  (forall events, shutdown_ s = false -> watched k (descriptor_ s) = Some (d, events) -> events = registered_events_ s) -> awake k d s.
Proof. intros Hs Hrel Hev. split; [done|]. intros ev Hsd Hw. split; [by apply Hev|]. intros j _ Hj. by destruct (Hrel j). Qed.

Lemma allocate_wakeful r : wakeful r -> let '(d, r1) := allocate_descriptor_state r in
  wakeful r1 /\ d ∉ free_list_ r1 /\ op_queue_ (state_of d r1) = all_types [] /\ kern r1 = kern r.
Proof.
  intros Hr. pose proof Hr as [Hs Hf Hn]. unfold allocate_descriptor_state. destruct (free_list_ r) as [|d l] eqn:Hl.
  - set (d := fresh (dom (registered_descriptors_ r))). split_and!; [|cbn; rewrite Hl; apply not_elem_of_nil|by rewrite state_of_on|done].
    apply wakeful_on_same; [done| |rewrite Hl; intros Hd; by apply elem_of_nil in Hd]. split; [split; cbn; try done; by intros []|].
    intros ev _ Hw. cbn in Hw. by rewrite no_descriptor in Hw.
  - apply NoDup_cons in Hn as [Hd Hn]. split_and!; [|done| |done].
    + split; [exact Hs| |done]. intros d' Hd'. apply Hf. by right.
    + apply (sh_shutdown _ (aw_shape _ _ _ (Hs d))), Hf. by left.
Qed.
Lemma register_wakeful fd r : wakeful r -> watched (kern r) fd = None -> wakeful (register_descriptor fd r).2.
Proof.
  intros Hr Hfd. unfold register_descriptor. pose proof (allocate_wakeful r Hr) as Ha.
  destruct (allocate_descriptor_state r) as [d r1]. destruct Ha as (Hr1 & Hd & Hq & Hk).
  set (f := fun s => set_registered all_events _). change (kern (on_descriptor d f r1)) with (kern r1). rewrite Hk.
  destruct (epoll_ctl _ _ _ _ _) as [ec k] eqn:Hc. pose proof (ctl_add _ _ _ _ _ _ Hc Hfd) as Hadd.
  assert (forall ev, (ec = None -> ev = all_events) -> (ev = all_events \/ ev = 0) ->
    wakeful (set_kern k (on_descriptor d (fun s => set_registered ev (f s)) r1))) as Hgoal.
  { intros ev Hev Hor. apply wakeful_on; [done| |
      |by intros Hin].
    - intros d' Hne. apply (awake_ctl CtlAdd fd all_events d (kern r) ec k); [done|done| |rewrite <- Hk; apply (wk_states _ Hr1)].
      destruct ec; [by left|right; destruct Hadd as [Hadd _]; by eexists].
    - apply awake_idle.
      + split; unfold f; cbn -[get]; rewrite ?Hq; [done|intros []; by constructor| |intros [] Hne; by destruct Hne]. intros Hev0. by destruct Hor as [->| ->].
      + intros j. unfold relies, f; cbn -[get]. rewrite Hq. intros [Hj|Hj]; by destruct j.
      + intros ev' _ Hw. unfold f in Hw |- *. cbn in Hw |- *. destruct ec; [congruence|]. destruct Hadd as [Hadd _].
        rewrite Hadd in Hw. simplify_eq. by rewrite Hev. }
  destruct (ec_is ec EPERM) eqn:He; cbn [snd].
  - assert (wakeful (set_kern k (on_descriptor d (fun s => set_registered 0 (f s)) r1))) as Hg.
    { apply Hgoal; [|by right]. intros ->. done. }
    revert Hg. unfold on_descriptor, set_descriptors, set_kern, state_of; cbn. by rewrite lookup_insert_eq, insert_insert_eq.
  - apply (Hgoal all_events); [done|by left].
Qed.

Lemma wakeful_timers q r : wakeful r -> wakeful (set_timers q r).
Proof. by intros [Hs Hf Hn]; split. Qed.
Lemma wakeful_timeout r : wakeful r -> wakeful (update_timeout r).
Proof.
  intros Hr. unfold update_timeout, set_timer_fd.
  destruct (_ =? -1); apply wakeful_kern; try done; [apply interrupt_calm|apply settime_calm].
Qed.

(** A state that is deregistered is shut down and not in the free list. *)
Lemma deregister_wakeful fd data closing (m : @Scheduler.machine epoll_task) : wakeful (env m) ->
  wakeful (env (deregister_descriptor fd data closing m).2) /\
  forall d, (deregister_descriptor fd data closing m).1 = Some d ->
    shutdown_ (state_of d (env (deregister_descriptor fd data closing m).2)) = true /\
    d ∉ free_list_ (env (deregister_descriptor fd data closing m).2).
Proof.
  intros Hr. destruct data as [d|]; [|done]. cbn [deregister_descriptor]. destruct (shutdown_ _) eqn:Hopen; [done|]. cbn [fst snd].
  rewrite !post_deferred_env. set (m1 := if _ : bool then _ else m).
  assert (wakeful (env m1) /\ free_list_ (env m1) = free_list_ (env m)) as [Hr1 Hf1].
  { unfold m1. destruct (_ && _); [|done]. split; [|done]. cbn. destruct (epoll_ctl _ _ _ _ _) as [ec k] eqn:Hc. apply wakeful_kern; [|done].
    intros fd'. destruct (decide (fd' = fd)) as [->|]; [by apply (ctl_del _ _ _ _ _ _ Hc)|by apply (ctl_elsewhere _ _ _ _ _ _ _ Hc)]. }
  split.
  - cbn. apply wakeful_on_same; [done| |done]. split; [|done]. split; cbn -[get]; [done| | |].
    + intros []; by constructor.
    + intros Hr0. by apply (sh_registered _ (aw_shape _ _ _ (wk_states _ Hr1 d))).
    + intros [] Hne; by destruct Hne.
  - intros d' [= <-]. cbn [env on_env Scheduler.set_env]. rewrite state_of_on. split; [done|].
    change (free_list_ (on_descriptor _ _ _)) with (free_list_ (env m1)). rewrite Hf1. by apply not_free.
Qed.
Lemma cleanup_wakeful data (m : @Scheduler.machine epoll_task) : wakeful (env m) ->
  (forall d, data = Some d -> shutdown_ (state_of d (env m)) = true /\ d ∉ free_list_ (env m)) ->
  wakeful (env (cleanup_descriptor_data data m)).
Proof.
  intros Hr Hd. destruct data as [d|]; [|done]. destruct (Hd d eq_refl) as [Hsd Hnf]. destruct Hr as [Hs Hf Hn]. split; cbn; [done| |by constructor].
  intros d' [->|Hd']%elem_of_cons; [done|by apply Hf].
Qed.

Lemma serve_wakeful rq (m : @Scheduler.machine epoll_task) : wakeful (env m) -> well_formed rq (env m) -> wakeful (env (serve rq m)).
Proof.
  intros Hr Hw. destruct rq as [fd|j fd d o c a|d|d j key|fd d closing|d|fd d closing|time t w|t n|t key|t s]; cbn [serve].
  - by apply register_wakeful.
  - unfold start_op. destruct d as [d|]; [|by rewrite post_immediate_env].
    pose proof (start_locked_wakeful j fd d o a (env m) Hr Hw) as Hst.
    destruct (start_locked j fd d o a (env m)) as [[o'|] r']; [by rewrite post_immediate_env|done].
  - destruct d as [d|]; [|done]. cbn [cancel_ops]. rewrite post_deferred_env.
    apply (wakeful_less d (fun _ => all_types [])); [done|]. intros j o. apply elem_of_none.
  - destruct d as [d|]; [|done]. cbn [cancel_ops_by_key]. rewrite post_deferred_env.
    set (l := filter _ _). apply (wakeful_less d (fun p => set j l p)); [done|].
    intros j' o. rewrite get_set. destruct (decide (j' = j)) as [->|]; [|done]. intros Ho.
    by apply list_elem_of_filter in Ho as [_ Ho].
  - by apply deregister_wakeful.
  - apply cleanup_wakeful; [done|]. by intros d' ->.
  - unfold close_descriptor. destruct (deregister_wakeful fd d closing m Hr) as [Hr1 Hd1].
    destruct (deregister_descriptor fd d closing m) as [data m1]; cbn [fst snd] in *. by apply cleanup_wakeful.
  - unfold schedule_timer. destruct (stopping (env m)); [by rewrite post_immediate_env|].
    destruct (TimerQueue.enqueue_timer _ _ _ _) as [earliest q]. destruct earliest; cbn; [apply wakeful_timeout|]; by apply wakeful_timers.
  - unfold cancel_timer. destruct (TimerQueue.cancel_timer _ _ _) as [ws q]. rewrite post_deferred_env. by apply wakeful_timers.
  - unfold cancel_timer_by_key. destruct (TimerQueue.cancel_timer_by_key _ _ _) as [ws q]. rewrite post_deferred_env. by apply wakeful_timers.
  - destruct (bool_decide _); [done|]. unfold move_timer. destruct (TimerQueue.cancel_timer _ _ _) as [ws q]. rewrite post_deferred_env. by apply wakeful_timers.
Qed.

(** *** [run] *)

(** What dispatching events does to a descriptor state. *)
Record notified (es : list (source * Z)) (d : nat) (s s' : descriptor_state) : Prop := {
  nt_descriptor : descriptor_ s' = descriptor_ s;
  nt_registered : registered_events_ s' = registered_events_ s;
  nt_ops : op_queue_ s' = op_queue_ s;
  nt_try : try_speculative_ s' = try_speculative_ s;
  nt_shutdown : shutdown_ s' = shutdown_ s;
  nt_told : forall j, told s j -> told s' j;
  nt_events : forall j ev, (Descriptor d, ev) ∈ es -> hits j ev = true -> told s' j;
}.
Lemma notified_nil d s : notified [] d s s.
Proof. split; try done. intros j ev Hin. by apply elem_of_nil in Hin. Qed.

Lemma hits_lor_l j a b : hits j a = true -> hits j (Z.lor a b) = true.
Proof. unfold hits, has. intros Ha. exact (has_lor_l _ a b Ha). Qed.
Lemma hits_lor_r j a b : hits j b = true -> hits j (Z.lor a b) = true.
Proof. unfold hits, has. intros Ha. exact (has_lor_r _ a b Ha). Qed.

Lemma dispatch_notified es e d s acc : notified es d s (state_of d acc.2) ->
  notified (es ++ [e]) d s (state_of d (dispatch e acc).2) /\
  kern (dispatch e acc).2 = kern acc.2 /\ free_list_ (dispatch e acc).2 = free_list_ acc.2.
Proof.
  intros Hn. assert ((forall ev, e <> (Descriptor d, ev)) -> forall s', state_of d acc.2 = s' -> notified (es ++ [e]) d s s') as Hother.
  { intros He s' <-. destruct Hn. split; try done. intros j ev Hin. apply elem_of_app in Hin as [Hin|Hin]; [by eapply nt_events0|].
    apply list_elem_of_singleton in Hin. by destruct (He ev). }
  assert (forall s', descriptor_ s' = descriptor_ (state_of d acc.2) -> registered_events_ s' = registered_events_ (state_of d acc.2) ->
    op_queue_ s' = op_queue_ (state_of d acc.2) -> try_speculative_ s' = try_speculative_ (state_of d acc.2) ->
    shutdown_ s' = shutdown_ (state_of d acc.2) -> (forall j, told (state_of d acc.2) j -> told s' j) ->
    (forall j ev, e = (Descriptor d, ev) -> hits j ev = true -> told s' j) -> notified (es ++ [e]) d s s') as Hthis.
  { intros s' H1' H2' H3' H4' H5' Ht He. destruct Hn. split; try congruence; [auto|].
    intros j ev Hin Hj. apply elem_of_app in Hin as [Hin|Hin]; [by eapply Ht, nt_events0|].
    apply list_elem_of_singleton in Hin. by apply (He j ev). }
  destruct e as [[| |d'] ev], acc as [[c ops] r]; cbn [dispatch fst snd] in *; [by split_and!; [apply Hother|..]..|].
  destruct (queued (state_of d' r)) eqn:Hq; cbn [snd]; (split; [|done]).
  - destruct (decide (d' = d)) as [->|Hne]; [|rewrite state_of_ne by done; apply Hother; [|done]; congruence].
    rewrite state_of_on. apply Hthis; try done.
    + intros j [_ Hj]. split; [done|by apply hits_lor_l].
    + intros j ev' [= ->] Hj. split; [done|by apply hits_lor_r].
  - destruct (decide (d' = d)) as [->|Hne]; [|rewrite state_of_ne by done; apply Hother; [|done]; congruence].
    rewrite state_of_on. apply Hthis; try done.
    + intros j [Hq' _]. congruence.
    + by intros j ev' [= ->] Hj.
Qed.
Lemma dispatch_all_notified es acc :
  let acc' := foldl (flip dispatch) acc es in
  (forall d, notified es d (state_of d acc.2) (state_of d acc'.2)) /\
  kern acc'.2 = kern acc.2 /\ free_list_ acc'.2 = free_list_ acc.2.
Proof.
  cbn zeta. induction es as [|e es IH] using rev_ind; [split_and!; [intros; apply notified_nil|done..]|].
  rewrite foldl_app. cbn [foldl flip]. destruct IH as (IH & Hk & Hf).
  set (acc1 := foldl (flip dispatch) acc es) in *. split.
  - intros d. by apply dispatch_notified.
  - destruct (dispatch_notified es e 0%nat _ acc1 (IH 0%nat)) as (_ & Hk1 & Hf1). split; congruence.
Qed.

Lemma run_wakeful usec r : wakeful r -> wakeful (run usec r).2.
Proof.
  intros Hr. unfold run. destruct (epoll_wait _ _) as [es k] eqn:Hwait.
  destruct (dispatch_all_notified es (timer_fd_ r =? -1, [], set_kern k r)) as (Hnt & Hk & Hf).
  destruct (foldl _ _ es) as [[check ops] r1]; cbn [snd] in Hnt, Hk, Hf. cbn in Hk, Hf.
  assert (wakeful r1) as Hr1.
  { split; [|by rewrite Hf; intros d Hd; rewrite (nt_shutdown _ _ _ _ (Hnt d)); apply (wk_free _ Hr)|rewrite Hf; apply Hr].
    intros d. destruct (Hnt d) as [Hd Hre Hop Htry Hsd Ht He]. rewrite state_of_kern in *. rewrite Hk.
    destruct (wk_states _ Hr d) as [[Hs1 Hs2 Hs3 Hs4] Hev]. split.
    - split; rewrite ?Hd, ?Hre, ?Hop, ?Hsd; done.
    - rewrite Hd, Hre, Hsd. intros ev Hopen Hw. destruct (wait_reports _ _ _ _ Hwait (descriptor_ (state_of d r))) as [Hww Hrep].
      destruct Hww as [Hww|Hww]; [|congruence]. rewrite Hw in Hww. destruct (Hev ev Hopen (eq_sym Hww)) as [Heq Hj].
      split; [done|]. intros j Hwj Hrel Hsil. destruct (Hrep j d ev Hw Hwj) as [Hs Hen].
      assert (relies (state_of d r) j) as Hrel0 by (unfold relies in Hrel |- *; by rewrite Hop, Htry in Hrel).
      destruct (Hs Hsil) as [Hs0|(ev' & Hin & Hhit)]; [|left; by eapply He].
      destruct (Hj j Hwj Hrel0 Hs0); auto. }
  destruct (check : bool); [|done]. destruct (TimerQueue.get_ready_timers _ _) as [ws q]. cbn [snd].
  unfold set_timer_fd. destruct (_ =? -1); [by apply wakeful_timers|].
  apply wakeful_kern; [apply settime_calm|by apply wakeful_timers].
Qed.

(** *** Performing *)

Lemma perform_queue_spec fd j q k : Forall (belongs fd j) q ->
  let '(ended_, rest, exhausted, k') := perform_queue q k in
  calm k k' /\ Forall (belongs fd j) rest /\
  (rest <> [] -> q <> []) /\
  (rest <> [] \/ exhausted = true -> silent k' fd j = false \/ ended k' fd j = true).
Proof.
  revert k. induction q as [|o q IH]; intros k Hq; cbn [perform_queue].
  { split_and!; [apply calm_refl|done|done|]. by intros [?|?]. }
  apply Forall_cons in Hq as [Ho Hq]. destruct (perform o k) as [[st o'] k1] eqn:Hp.
  pose proof (perform_calm _ _ _ _ _ Hp) as Hc. destruct st.
  - split_and!; [done| |done|].
    + apply Forall_cons. split; [by apply (op_of_perform _ _ _ _ _ Hp)|done].
    + intros _. left. unfold silent. destruct Ho as (<- & <- & Hv). by rewrite (perform_not_done _ _ _ _ Hp Hv).
  - specialize (IH k1 Hq). destruct (perform_queue q k1) as [[[en rest] ex] k2]. destruct IH as (Hc2 & Hr & _ & He).
    split_and!; [by apply (calm_trans k k1)|done|done|done].
  - split_and!; [done|done|done|]. intros _. destruct Ho as (<- & <- & Hv).
    destruct (perform_exhausted _ _ _ _ Hp Hv) as [Hx|Hx]; [left; unfold silent; by rewrite Hx|by right].
Qed.

(** Half way through [perform_io]: the types still to come may rest on the events. *)
Definition attending (ev : Z) (todo : list op_type) (k : Kern) (d : nat) (s : descriptor_state) : Prop :=
  shaped s /\ forall events, shutdown_ s = false -> watched k (descriptor_ s) = Some (d, events) ->
    events = registered_events_ s /\
    forall j, watches j events = true -> relies s j -> silent k (descriptor_ s) j = true ->
      (j ∈ todo /\ hits j ev = true) \/ ended k (descriptor_ s) j = true.

Lemma perform_type_attending ev j todo d ops s k : attending ev (j :: todo) k d s ->
  let '(_, s', k') := perform_type ev j (ops, s, k) in
  attending ev todo k' d s' /\ calm k k' /\ descriptor_ s' = descriptor_ s /\ shutdown_ s' = shutdown_ s.
Proof.
  intros [Hs He]. unfold perform_type. destruct (hits j ev) eqn:Hhit.
  - pose proof (perform_queue_spec (descriptor_ s) j (get j (op_queue_ s)) k (sh_ops _ Hs j)) as Hq.
    destruct (perform_queue _ k) as [[[en rest] ex] k']. destruct Hq as (Hc & Hr & Hne & Hx).
    split_and!; [|done|done|done]. destruct Hs as [Hs1 Hs2 Hs3 Hs4]. split.
    + split; cbn.
      * intros Hsd. specialize (Hs1 Hsd). destruct rest as [|o rest]; [rewrite Hs1; by destruct j|].
        exfalso. apply Hne; [done|]. rewrite Hs1. by destruct j.
      * intros j'. rewrite get_set. destruct (decide (j' = j)) as [->|]; [done|apply Hs2].
      * done.
      * intros j'. rewrite get_set. destruct (decide (j' = j)) as [->|]; [|apply Hs4]. intros Hrest. by apply Hs4, Hne.
    + cbn. intros events Hsd Hw. pose proof (calm_watched _ _ _ _ (Hc _) Hw) as Hw0. destruct (He events Hsd Hw0) as [Hev Hj].
      split; [done|]. intros j' Hwj Hrel Hsil. unfold relies in Hrel; cbn in Hrel. rewrite !get_set in Hrel.
      destruct (decide (j' = j)) as [->|Hne'].
      * right. destruct Hx as [Hx|Hx]; [|congruence|done]. destruct Hrel as [Hrel|Hrel]; [by left|right]. by destruct ex.
      * destruct (Hc (descriptor_ s)) as [_ Hcc]. destruct (Hcc j' d events Hw Hwj) as [Hsl Hen].
        destruct (Hj j' Hwj Hrel (Hsl Hsil)) as [[Hin Hhit']|Hend]; [|auto].
        left. split; [|done]. apply elem_of_cons in Hin as [Hin|Hin]; [congruence|done].
  - split_and!; [|apply calm_refl|done|done]. split; [done|]. intros events Hsd Hw. destruct (He events Hsd Hw) as [Hev Hj].
    split; [done|]. intros j' Hwj Hrel Hsil. destruct (Hj j' Hwj Hrel Hsil) as [[Hin Hhit']|Hend]; [|by right].
    left. split; [|done]. apply elem_of_cons in Hin as [Hin|Hin]; [congruence|done].
Qed.

Lemma perform_descriptor_wakeful d (m : @Scheduler.machine epoll_task) : wakeful (env m) ->
  wakeful (env (perform_descriptor d m).2).
Proof.
  intros Hr. unfold perform_descriptor. set (s := set_queued false (state_of d (env m))).
  assert (attending (task_result_ s) [except_op; write_op; read_op] (kern (env m)) d s) as Hat.
  { destruct (wk_states _ Hr d) as [[Hs1 Hs2 Hs3 Hs4] He]. split; [by split|]. intros events Hsd Hw.
    destruct (He events Hsd Hw) as [Hev Hj]. split; [done|]. intros j Hwj Hrel Hsil.
    destruct (Hj j Hwj Hrel Hsil) as [[_ Hhit]|Hend]; [left|by right]. split; [|done].
    destruct j; [right; right; left|right; left|left]. }
  unfold perform_io; cbn [foldl]. pose proof (perform_type_attending _ _ _ _ [] _ _ Hat) as Ht1.
  destruct (perform_type _ except_op _) as [[o1 s1] k1]. destruct Ht1 as (Ha1 & Hc1 & Hd1 & Hs1).
  pose proof (perform_type_attending _ _ _ _ o1 _ _ Ha1) as Ht2.
  destruct (perform_type _ write_op _) as [[o2 s2] k2]. destruct Ht2 as (Ha2 & Hc2 & Hd2 & Hs2).
  pose proof (perform_type_attending _ _ _ _ o2 _ _ Ha2) as Ht3.
  destruct (perform_type _ read_op _) as [[o3 s3] k3]. destruct Ht3 as ([Hsh3 Ha3] & Hc3 & Hd3 & Hs3).
  set (m1 := on_env _ m). assert (wakeful (env m1)) as Hr1.
  { assert (calm (kern (env m)) k3) as Hc by (apply (calm_trans _ k1); [done|by apply (calm_trans _ k2)]).
    apply (wakeful_on d (fun _ => s3) k3); [done| | |].
    - intros d' _. apply (awake_calm (kern (env m))); [apply Hc|apply (wk_states _ Hr)].
    - split; [done|]. intros events Hsd Hw. destruct (Ha3 events Hsd Hw) as [Hev Hj]. split; [done|].
      intros j Hwj Hrel Hsil. destruct (Hj j Hwj Hrel Hsil) as [[Hin _]|Hend]; [by apply elem_of_nil in Hin|by right].
    - intros Hd. rewrite Hs3, Hs2, Hs1. by apply (wk_free _ Hr). }
  destruct o3 as [|o o3]; cbn [snd]; [done|]. by rewrite post_deferred_env.
Qed.

Lemma step_wakeful r r' : step r r' -> wakeful r -> wakeful r'.
Proof.
  destruct 1 as [rq m Hw|usec r|d m|r k Hc]; intros Hr; [by apply serve_wakeful|by apply run_wakeful|
    by apply perform_descriptor_wakeful|by apply wakeful_kern].
Qed.
Lemma new_wakeful tfd k : wakeful (new_reactor tfd k).
Proof.
  split; [|intros d Hd; by apply elem_of_nil in Hd|constructor]. intros d. split.
  - split; cbn; [done|intros []; by constructor|done|intros [] Hne; by destruct Hne].
  - intros ev _ Hw. cbn in Hw. unfold state_of in Hw; cbn in Hw. rewrite lookup_empty in Hw. cbn in Hw. by rewrite no_descriptor in Hw.
Qed.

(** What the invariant says of an operation that waits. *)
Lemma wakeful_notices r d j events : wakeful r -> shutdown_ (state_of d r) = false ->
  watched (kern r) (descriptor_ (state_of d r)) = Some (d, events) -> get j (op_queue_ (state_of d r)) <> [] ->
  let s := state_of d r in
  watches j events = true /\
  (ready (kern r) (descriptor_ s) j = true ->
     announced (kern r) (descriptor_ s) j = true \/ (queued s = true /\ hits j (task_result_ s) = true) \/
     ended (kern r) (descriptor_ s) j = true).
Proof.
  intros Hr Hopen Hwatched Hwaits s. destruct (wk_states _ Hr d) as [Hs He]. destruct (He events Hopen Hwatched) as [Hev Hj].
  assert (watches j events = true) as Hwj by (rewrite Hev; by apply (sh_asked _ Hs)).
  split; [done|]. intros Hready. destruct (announced (kern r) (descriptor_ s) j) eqn:Han; [by left|right].
  apply (Hj j Hwj); [by left|]. unfold silent. fold s. by rewrite Hready, Han.
Qed.
End proof.

(** ** Properties *)

(** No readiness goes unnoticed.  However requests, runs of the task, completed
    descriptors and events of the network follow each other, when an operation waits on an
    open descriptor that epoll watches for the reactor, then epoll was asked to watch for its
    kind; and when the descriptor is ready for it, epoll is about to announce that, or the
    descriptor state is queued with it and will try the operation, or the stream has ended
    in that direction. *)
Theorem no_lost_wakeup `{EpollOk} (tfd : Z) (k : Kern) (r : reactor) (d : nat) (j : op_type) (events : Z)
  (Hreach : rtc step (new_reactor tfd k) r)
  (Hopen : shutdown_ (state_of d r) = false)
  (Hwatched : watched (kern r) (descriptor_ (state_of d r)) = Some (d, events))
  (Hwaits : get j (op_queue_ (state_of d r)) <> []) :
  let s := state_of d r in
  watches j events = true /\
  (ready (kern r) (descriptor_ s) j = true ->
     announced (kern r) (descriptor_ s) j = true \/ (queued s = true /\ hits j (task_result_ s) = true) \/
     ended (kern r) (descriptor_ s) j = true).
Proof.
  assert (wakeful r) as Hr.
  { pose proof (new_wakeful tfd k) as Hn. revert Hn. induction Hreach as [|r1 r2 r3 Hst _ IH]; [done|].
    intros Hn. apply IH; try done. by apply (step_wakeful r1). }
  by apply wakeful_notices.
Qed.

(** ** The end of a stream *)

(** The task runs without a word about [d], or the system goes on. *)
Inductive unannounced `{Epoll} (d : nat) : reactor -> reactor -> Prop :=
  | unannounced_run usec r : (forall ev, (Descriptor d, ev) ∉ (epoll_wait (epoll_timeout usec r) (kern r)).1) ->
      unannounced d r (run usec r).2
  | unannounced_system r k : unannounced d r (set_kern k r).

Section eof.
  Context `{Epoll}.

Lemma dispatched d es acc : DescriptorOp d ∈ (foldl (flip dispatch) acc es).1.2 ->
  DescriptorOp d ∈ acc.1.2 \/ exists ev, (Descriptor d, ev) ∈ es.
Proof.
  revert acc. induction es as [|e es IH]; intros acc; [by left|]. cbn [foldl flip]. intros Hin.
  destruct (IH _ Hin) as [Hin1|[ev Hev]]; [|right; exists ev; by right].
  destruct e as [[| |d'] ev], acc as [[c ops] r]; cbn [dispatch fst snd] in Hin1; [by left..|].
  destruct (queued (state_of d' r)); cbn [fst snd] in Hin1; [by left|].
  apply elem_of_app in Hin1 as [Hin1|Hin1]; [by left|]. apply list_elem_of_singleton in Hin1. right. exists ev. simplify_eq. left.
Qed.
Lemma run_silent d usec r : (forall ev, (Descriptor d, ev) ∉ (epoll_wait (epoll_timeout usec r) (kern r)).1) ->
  DescriptorOp d ∉ (run usec r).1.
Proof.
  intros Hno. unfold run. destruct (epoll_wait _ _) as [es k]; cbn [fst] in Hno.
  pose proof (dispatched d es (timer_fd_ r =? -1, [], set_kern k r)) as Hd.
  destruct (foldl _ _ es) as [[check ops] r1]; cbn [fst snd] in Hd.
  assert (DescriptorOp d ∉ ops) as Hops.
  { intros Hin. destruct (Hd Hin) as [Hn|[ev Hev]]; [by apply elem_of_nil in Hn|by apply (Hno ev)]. }
  destruct check; [|done]. destruct (TimerQueue.get_ready_timers _ _) as [ws q]. cbn [fst]. intros [Hin|Hin]%elem_of_app; [done|].
  by apply list_elem_of_fmap in Hin as (w & Hw & _).
Qed.
Lemma run_keeps_ops d usec r : op_queue_ (state_of d (run usec r).2) = op_queue_ (state_of d r).
Proof.
  unfold run. destruct (epoll_wait _ _) as [es k].
  destruct (dispatch_all_notified es (timer_fd_ r =? -1, [], set_kern k r)) as (Hnt & _ & _).
  destruct (foldl _ _ es) as [[check ops] r1]. pose proof (nt_ops _ _ _ _ (Hnt d)) as Hops. cbn [snd] in Hops.
  destruct check; [|done]. destruct (TimerQueue.get_ready_timers _ _) as [ws q]. cbn [snd]. destruct (timer_fd_ (set_timers q r1) =? -1); exact Hops.
Qed.
End eof.

(** The exception is real.  When an asynchronous read has found the end of the stream,
    the next one on that socket is not attempted and epoll is not asked again: the operation
    waits, and as long as epoll has nothing new to say about the socket the task never hands
    the descriptor over, so the operation stays where it is. *)
Theorem ended_read_waits `{Epoll} (fd : Z) (d : nat) (o1 o2 o1' : rop) (c1 c2 : bool) (m : @Scheduler.machine epoll_task) (k1 : Kern)
  (Hopen : shutdown_ (state_of d (env m)) = false)
  (Hregistered : registered_events_ (state_of d (env m)) <> 0)
  (Hidle : op_queue_ (state_of d (env m)) = all_types [])
  (Htry : get read_op (try_speculative_ (state_of d (env m))) = true)
  (Hend : perform o1 (kern (env m)) = (done_and_exhausted, o1', k1)) :
  let m1 := start_op read_op fd (Some d) o1 c1 true m in
  let m2 := start_op read_op fd (Some d) o2 c2 true m1 in
  m1 = Scheduler.post_immediate_completion (ReactorOp o1') c1 (Scheduler.set_env (env m1) m) /\
  kern (env m1) = k1 /\ kern (env m2) = k1 /\
  forall r, rtc (unannounced d) (env m2) r ->
    get read_op (op_queue_ (state_of d r)) = [o2] /\
    forall usec, (forall ev, (Descriptor d, ev) ∉ (epoll_wait (epoll_timeout usec r) (kern r)).1) ->
      DescriptorOp d ∉ (run usec r).1.
Proof.
  set (s := state_of d (env m)) in *. set (s1 := set_speculative (set read_op false (try_speculative_ s)) s).
  assert (start_locked read_op fd d o1 true (env m)
    = (Immediate o1', on_descriptor d (fun s => set_speculative (set read_op false (try_speculative_ s)) s) (set_kern k1 (env m)))) as Hs1.
  { unfold start_locked. fold s. rewrite Hopen. unfold no_ops. rewrite Hidle. cbn [get all_types of_read of_except andb orb negb bool_decide decide].
    unfold start_speculative. fold s. rewrite Htry, Hend. rewrite state_of_kern. fold s.
    by rewrite (proj2 (Z.eqb_neq _ _) Hregistered). }
  intros m1 m2. set (r1 := on_descriptor d (fun s => set_speculative (set read_op false (try_speculative_ s)) s) (set_kern k1 (env m))) in *.
  assert (m1 = Scheduler.post_immediate_completion (ReactorOp o1') c1 (Scheduler.set_env r1 m)) as Hm1.
  { unfold m1, start_op. by rewrite Hs1. }
  assert (env m1 = r1) as He1 by (by rewrite Hm1, post_immediate_env).
  assert (state_of d r1 = s1) as Hd1 by (unfold r1; rewrite state_of_on, state_of_kern; done).
  assert (start_locked read_op fd d o2 true r1 = (Queued, on_descriptor d (push_op read_op o2) r1)) as Hs2.
  { unfold start_locked. rewrite Hd1. unfold s1; cbn [shutdown_ set_speculative]. rewrite Hopen. unfold no_ops; cbn [op_queue_ set_speculative].
    rewrite Hidle. cbn. unfold start_speculative. rewrite Hd1. cbn. unfold start_waiting. rewrite Hd1. cbn.
    by rewrite (proj2 (Z.eqb_neq _ _) Hregistered). }
  assert (env m2 = on_descriptor d (push_op read_op o2) r1) as He2.
  { unfold m2, start_op. by rewrite He1, Hs2. }
  rewrite He1, He2. split_and!; [done|done|done|]. intros r Hr. split; [|intros usec; apply run_silent].
  assert (get read_op (op_queue_ (state_of d (on_descriptor d (push_op read_op o2) r1))) = [o2]) as H0'.
  { rewrite state_of_on, Hd1. cbn. by rewrite Hidle. }
  clear Hs2 He2. revert Hr H0'. generalize (on_descriptor d (push_op read_op o2) r1) as r2. intros r2 Hr.
  induction Hr as [|r2 r3 r4 Hst _ IH]; [done|]. intros Hq. apply IH. destruct Hst; [by rewrite run_keeps_ops|done].
Qed.

(** ** A concrete system

    One socket, descriptor 5: the bytes that have arrived, whether the peer has closed, the
    registration, and whether an announcement is due. *)
Record toy := Toy { arrived : list ascii; closed : bool; registered : option (nat * Z); due : bool }.
Record toy_op := ToyOp { toy_fd : Z; toy_dir : op_type; got : list ascii; toy_ec : error_code }.

Definition toy_socket : Z := 5.
Definition toy_readable (k : toy) : bool := closed k || negb (bool_decide (arrived k = [])).
Definition toy_perform (o : toy_op) (k : toy) : status * toy_op * toy :=
  if (toy_fd o =? toy_socket) && bool_decide (toy_dir o = read_op) then
    match arrived k with
    | [] =>
        if closed k then (done_and_exhausted, ToyOp (toy_fd o) (toy_dir o) [] (Some eof), k) else (not_done, o, k)
    | bytes => (done, ToyOp (toy_fd o) (toy_dir o) bytes None, Toy [] (closed k) (registered k) (due k))
    end
  else (done, ToyOp (toy_fd o) (toy_dir o) [] (Some bad_descriptor), k).
Definition toy_ctl (c : ctl) (fd events : Z) (d : nat) (k : toy) : error_code * toy :=
  if fd =? toy_socket then
    match c, registered k with
    | CtlAdd, None | CtlMod, Some _ => (None, Toy (arrived k) (closed k) (Some (d, events)) (toy_readable k))
    | CtlDel, _ => (None, Toy (arrived k) (closed k) None false)
    | _, _ => (Some invalid_argument, k)
    end
  else (Some bad_descriptor, k).
Definition toy_wait (timeout : Z) (k : toy) : list (source * Z) * toy :=
  match registered k with
  | Some (d, _) => if due k then ([(Descriptor d, EPOLLIN)], Toy (arrived k) (closed k) (registered k) false) else ([], k)
  | None => ([], k)
  end.

#[local] Instance toy_epoll : Epoll := {|
  Kern := toy;
  rop := toy_op;
  perform := toy_perform;
  set_op_ec := fun e o => ToyOp (toy_fd o) (toy_dir o) (got o) (Some e);
  op_key := fun _ => 0%nat;
  epoll_ctl := toy_ctl;
  epoll_wait := toy_wait;
  timerfd_settime := fun _ _ k => k;
  interrupt_epoll := fun k => k;
  clock := fun _ => 0;
|}.
Definition toy_at (fd : Z) (j : op_type) (b : bool) : bool := (fd =? toy_socket) && bool_decide (j = read_op) && b.
#[local] Instance toy_state : EpollState := {|
  watched := fun k fd => if fd =? toy_socket then registered k else None;
  ready := fun k fd j => toy_at fd j (toy_readable k);
  announced := fun k fd j => toy_at fd j (due k);
  ended := fun k fd j => toy_at fd j (closed k && bool_decide (arrived k = []));
|}.
#[local] Instance toy_ops : EpollOps := {| op_fd := toy_fd; op_dir := toy_dir; op_valid := fun _ => True |}.

(** Bytes that arrive, and the end of the stream, are announced. *)
Definition toy_deliver (bytes : list ascii) (fin : bool) (k : toy) : toy :=
  Toy (arrived k ++ bytes) (closed k || fin) (registered k) true.

Lemma toy_calm k k' : registered k' = registered k \/ registered k' = None ->
  (toy_readable k' = true -> due k' = false -> toy_readable k = true /\ due k = false) ->
  (closed k = true -> arrived k = [] -> closed k' = true /\ arrived k' = []) -> calm k k'.
Proof.
  intros Hr Hs He fd. split; cbn; unfold silent; cbn.
  - destruct (fd =? toy_socket); [by destruct Hr; [left|right]|by left].
  - intros j d ev _ _. unfold toy_at. destruct ((fd =? toy_socket) && bool_decide (j = read_op)); cbn; [|done]. split.
    + intros [Hr1 Hd1%negb_true_iff]%andb_true_iff. by destruct (Hs Hr1 Hd1) as [-> ->].
    + intros [Hc Ha%bool_decide_eq_true]%andb_true_iff. destruct (He Hc Ha) as [-> ->]. by rewrite bool_decide_true.
Qed.
Lemma toy_same k : calm k k.
Proof. by apply toy_calm; [left|..]. Qed.

#[local] Instance toy_ok : EpollOk.
Proof.
  split.
  - done.
  - intros o k st o' k'. cbn. unfold toy_perform. destruct (_ && _); [|intros [= <- <- <-]; apply toy_same].
    destruct (arrived k) as [|b bs] eqn:Ha; [destruct (closed k); intros [= <- <- <-]; apply toy_same|].
    intros [= <- <- <-]. apply toy_calm; cbn; [by left| |intros _; congruence].
    unfold toy_readable; cbn. rewrite Ha. intros _ Hd. split; [by destruct (closed k)|done].
  - intros o k st o' k'. cbn. unfold toy_perform. destruct (_ && _); [|by intros [= <- <- <-]].
    destruct (arrived k); [destruct (closed k)|]; by intros [= <- <- <-].
  - intros o k o' k'. cbn. unfold toy_perform. destruct (_ && _) eqn:He; [|done].
    destruct (arrived k) eqn:Ha; [|done]. destruct (closed k) eqn:Hc; [done|]. intros [= <- <-].
    unfold toy_at, toy_readable. rewrite Ha, Hc. cbn. by rewrite andb_false_r.
  - intros o k o' k'. cbn. unfold toy_perform. destruct (_ && _) eqn:He; [|done].
    destruct (arrived k) eqn:Ha; [|done]. destruct (closed k) eqn:Hc; [|done]. intros [= <- <-].
    right. unfold toy_at. by rewrite Ha, Hc, He.
  - intros c fd ev d k ec k' Hc fd' Hne. cbn in Hc. unfold toy_ctl in Hc.
    destruct (Z.eqb_spec fd toy_socket) as [->|]; [|simplify_eq; apply toy_same].
    split; cbn; rewrite (proj2 (Z.eqb_neq _ _) Hne); [by left|done].
  - intros fd ev d k ec k' Hc Hw. cbn in Hc, Hw |- *. unfold toy_ctl in Hc.
    destruct (Z.eqb_spec fd toy_socket) as [->|Hne]; [|by simplify_eq].
    rewrite Hw in Hc. simplify_eq. split; [done|]. intros j _. unfold silent; cbn. unfold toy_at.
    destruct (_ && bool_decide (j = read_op)); [cbn|done]. unfold toy_readable; cbn. apply andb_negb_r.
  - intros fd ev d k ec k' Hc. cbn in Hc |- *. unfold toy_ctl in Hc.
    destruct (Z.eqb_spec fd toy_socket) as [->|Hne]; [|done].
    destruct (registered k) eqn:Hk; [|by simplify_eq]. simplify_eq. split; [done|]. split; [done|].
    intros j _. unfold silent; cbn. unfold toy_at.
    destruct (_ && bool_decide (j = read_op)); [cbn|done]. unfold toy_readable; cbn. apply andb_negb_r.
  - intros fd ev d k ec k' Hc. cbn in Hc. unfold toy_ctl in Hc.
    destruct (Z.eqb_spec fd toy_socket) as [->|Hne]; simplify_eq; [|apply toy_same]. split; cbn; [by right|done].
  - intros usec k es k' Hw fd. cbn in Hw. unfold toy_wait in Hw. destruct (registered k) as [[d0 ev0]|] eqn:Hk; [|simplify_eq; split; [by left|auto]].
    destruct (due k) eqn:Hd; [|simplify_eq; split; [by left|auto]]. simplify_eq. cbn. rewrite Hk. split; [by left|].
    intros j d ev Hf _. split.
    + destruct (fd =? toy_socket) eqn:Hfd; [simplify_eq|done].
      destruct j; [intros _; right; exists EPOLLIN; split; [by left|done]|..];
        unfold silent; cbn; unfold toy_at; rewrite Hfd; cbn; discriminate.
    + auto.
  - intros. apply toy_same.
  - intros. apply toy_same.
Qed.

Definition toy_machine (r : reactor) : @Scheduler.machine epoll_task :=
  @Scheduler.Machine epoll_task Scheduler.new_scheduler None r.
Definition toy_read : toy_op := ToyOp toy_socket read_op [] None.
Definition toy_new : reactor := new_reactor 7 (Toy [] false None false).
Definition toy_open : reactor := env (serve (RegisterDescriptor toy_socket) (toy_machine toy_new)).
Definition toy_waiting : reactor := env (serve (StartOp read_op toy_socket (Some 0%nat) toy_read false true) (toy_machine toy_open)).
Definition toy_arrived : reactor := set_kern (toy_deliver ["x"%char] false (kern toy_waiting)) toy_waiting.
Definition toy_ended : reactor := set_kern (toy_deliver [] true (kern toy_open)) toy_open.

Lemma no_lost_wakeup_witness :
  let s := state_of 0%nat toy_arrived in
  watches read_op all_events = true /\
  (ready (kern toy_arrived) (descriptor_ s) read_op = true ->
     announced (kern toy_arrived) (descriptor_ s) read_op = true \/
     (queued s = true /\ hits read_op (task_result_ s) = true) \/
     ended (kern toy_arrived) (descriptor_ s) read_op = true).
Proof.
  apply (@no_lost_wakeup toy_epoll toy_ops toy_state toy_ok 7 (Toy [] false None false) toy_arrived 0%nat read_op all_events).
  - apply (rtc_l _ _ toy_open). { apply (@step_request toy_epoll toy_ops toy_state (RegisterDescriptor toy_socket) (toy_machine toy_new)). reflexivity. }
    apply (rtc_l _ _ toy_waiting).
    { apply (@step_request toy_epoll toy_ops toy_state (@StartOp toy_epoll read_op toy_socket (Some 0%nat) toy_read false true) (toy_machine toy_open)). vm_compute. by split. }
    apply rtc_once. apply step_net. apply toy_calm; [left; reflexivity| |vm_compute; discriminate].
    vm_compute. discriminate.
  - vm_compute. reflexivity.
  - vm_compute. reflexivity.
  - vm_compute. discriminate.
Defined.

Lemma ended_read_waits_witness :
  let m1 := start_op read_op toy_socket (Some 0%nat) toy_read false true (toy_machine toy_ended) in
  let m2 := start_op read_op toy_socket (Some 0%nat) toy_read false true m1 in
  m1 = Scheduler.post_immediate_completion (ReactorOp (ToyOp toy_socket read_op [] (Some eof))) false
         (Scheduler.set_env (env m1) (toy_machine toy_ended)) /\
  kern (env m1) = kern toy_ended /\ kern (env m2) = kern toy_ended /\
  forall r, rtc (unannounced 0%nat) (env m2) r ->
    get read_op (op_queue_ (state_of 0%nat r)) = [toy_read] /\
    forall usec, (forall ev, (Descriptor 0%nat, ev) ∉ (epoll_wait (epoll_timeout usec r) (kern r)).1) ->
      DescriptorOp 0%nat ∉ (run usec r).1.
Proof.
  apply (@ended_read_waits toy_epoll toy_socket 0%nat toy_read toy_read (ToyOp toy_socket read_op [] (Some eof)) false false
    (toy_machine toy_ended) (kern toy_ended)).
  - vm_compute. reflexivity.
  - vm_compute. discriminate.
  - vm_compute. reflexivity.
  - vm_compute. reflexivity.
  - vm_compute. reflexivity.
Defined.
