(* ===== verification/ContextEnd.v ===== *)
(** * The end of an io_context

    The destructor of an io_context shuts its services down, the reactor before the
    scheduler ([detail/impl/service_registry.ipp] goes backwards through the order in which
    they were made): [epoll_reactor::shutdown] takes every operation out of its descriptor
    states and timers and gives the states back, [scheduler::shutdown] destroys what is
    queued.  Handlers are destroyed without being called; what they hold - sockets, timers -
    goes with them and makes its own last requests of the reactor.

    Also here: that [run] comes back only when everything was answered, and the parts of the
    reactor that no socket uses ([register_internal_descriptor],
    [deregister_internal_descriptor], [move_descriptor], [notify_fork]). *)
From S2P Require Import Prelude SocketOps EpollReactor EpollOnce.
From S2P Require EpollWakeups.
From S2P Require TimerQueue Scheduler.
Import Scheduler (machine, Machine, env, sched).
Open Scope Z_scope.

Section shutdown.
  Context `{Epoll}.
  #[local] Abbreviation machine := (@Scheduler.machine epoll_task).

(** The operations of a descriptor state, by queue. *)
Definition state_ops (s : descriptor_state) : list operation :=
  ReactorOp <$> (of_read (op_queue_ s) ++ of_write (op_queue_ s) ++ of_except (op_queue_ s)).

(** A round of [while (state = registered_descriptors_.first())]. *)
Definition shutdown_state (acc : list operation * reactor) (d : nat) : list operation * reactor :=
  (acc.1 ++ state_ops (state_of d acc.2),
   free_descriptor_state d (on_descriptor d (fun s => set_shutdown true (set_ops (all_types []) s)) acc.2)).

Definition set_stopping (b : bool) (r : reactor) : reactor :=
  Reactor (registered_descriptors_ r) (free_list_ r) (timers r) (timer_fd_ r) b (kern r) (handled r).

(** [live]: the states in use, in the order of the pool's list. *)
Definition shutdown_reactor (live : list nat) (r : reactor) : list operation * reactor :=
  let '(ops, r) := foldl shutdown_state ([], set_stopping true r) live in
  let '(ws, q) := TimerQueue.get_all_timers (timers r) in
  (ops ++ (TimerOp <$> ws), set_timers q r).

(** What the destructor of a handler asks of the reactor. *)
Context (destroyer : operation -> list request).

(** The machine, and the operations destroyed. *)
Record ending := Ending { mach : machine; destroyed : list operation }.

(** [operation::destroy]; a descriptor state is only taken out of the queue. *)
Definition destroy (x : ending) (o : operation) : ending :=
  match o with
  | DescriptorOp _ => x
  | _ => Ending (foldl (flip serve) (mach x) (destroyer o)) (destroyed x ++ [o])
  end.

(** [scheduler::abandon_operations] *)
Definition abandon_operations (ops : list operation) (x : ending) : ending := foldl destroy x ops.

(** [while (!op_queue_.empty())] *)
Fixpoint destroy_queue (fuel : nat) (x : ending) : option ending :=
  match fuel with
  | O => None
  | S fuel =>
      match Scheduler.op_queue_ (sched (mach x)) with
      | [] => Some x
      | o :: rest =>
          let x := Ending (Scheduler.on_sched (Scheduler.set_queue rest) (mach x)) (destroyed x) in
          destroy_queue fuel (match o with Scheduler.UserOperation o => destroy x o | Scheduler.TaskOperation => x end)
      end
  end.

Definition forget_task (s : @Scheduler.scheduler epoll_task) : @Scheduler.scheduler epoll_task :=
  Scheduler.Scheduler (Scheduler.op_queue_ s) (Scheduler.outstanding_work_ s) (Scheduler.stopped_ s) (Scheduler.shutdown_ s) false.
Definition on_mach (f : machine -> machine) (x : ending) : ending := Ending (f (mach x)) (destroyed x).
Definition shutdown_scheduler (fuel : nat) (x : ending) : option ending :=
  on_mach (Scheduler.on_sched forget_task) <$> destroy_queue fuel (on_mach (Scheduler.on_sched Scheduler.set_shutdown) x).

(** [service_registry::shutdown_services], as far as it concerns the two. *)
Definition end_context (live : list nat) (fuel : nat) (m : machine) : option ending :=
  let '(ops, r) := shutdown_reactor live (env m) in
  shutdown_scheduler fuel (abandon_operations ops (Ending (Scheduler.set_env r m) [])).

(** ** Well-behaved programs

    A descriptor state is given back only when it has been deregistered, as the socket
    service does; the program does not move timers. *)
Definition tidy_request (rq : request) : Prop :=
  match rq with CleanupDescriptorData (Some _) | MoveTimer _ _ => False | _ => True end.
Definition tidy_call (c : call) : Prop := match c with Request rq => tidy_request rq | _ => True end.

(** A destructor starts nothing. *)
Definition quiet (rq : request) : Prop :=
  match rq with
  | CancelOps _ | CancelOpsByKey _ _ _ | CloseDescriptor _ _ _ | CancelTimer _ _ | CancelTimerByKey _ _ => True
  | _ => False
  end.

(** The states in the pool are shut down, shut down states are empty, and the timer queue
    is one. *)
Record tidy (r : reactor) : Prop := {
  td_free : NoDup (free_list_ r) /\ forall d, d ∈ free_list_ r -> shutdown_ (state_of d r) = true /\ is_Some (registered_descriptors_ r !! d);
  td_empty : forall d, shutdown_ (state_of d r) = true -> op_queue_ (state_of d r) = all_types [];
  td_timers : exists alarms, TimerQueue.tq_ok alarms (timers r);
}.
End shutdown.

(** ** Programs stay tidy *)

Section tidiness.
  Context `{Epoll}.
  #[local] Abbreviation machine := (@Scheduler.machine epoll_task).

(** Descriptor states neither come nor go, and those shut down stay empty. *)
Definition stays (s s' : descriptor_state) : Prop :=
  shutdown_ s' = shutdown_ s /\ (shutdown_ s = true -> op_queue_ s = all_types [] -> op_queue_ s' = all_types []).
Record kept (r r' : reactor) : Prop := {
  kp_free : free_list_ r' = free_list_ r;
  kp_alive : forall d, is_Some (registered_descriptors_ r !! d) -> is_Some (registered_descriptors_ r' !! d);
  kp_state : forall d, stays (state_of d r) (state_of d r');
  kp_timers : timers r' = timers r;
}.

Lemma reactor_stays_refl s : stays s s.
Proof. done. Qed.
Lemma reactor_stays_trans s1 s2 s3 : stays s1 s2 -> stays s2 s3 -> stays s1 s3.
Proof. intros [H1 H2] [H3 H4]. split; [congruence|]. intros Hs He. apply H4; [congruence|auto]. Qed.
Lemma kept_refl r : kept r r.
Proof. by split. Qed.
Lemma kept_trans r1 r2 r3 : kept r1 r2 -> kept r2 r3 -> kept r1 r3.
Proof.
  intros [H1 H2 H3 H4] [H5 H6 H7 H8]. split; [congruence|auto| |congruence]. intros d. by apply (reactor_stays_trans _ (state_of d r2)).
Qed.
Lemma kept_kern k r : kept r (set_kern k r).
Proof. by split. Qed.
Lemma kept_on d f r : stays (state_of d r) (f (state_of d r)) -> kept r (on_descriptor d f r).
Proof.
  intros Hf. split; [done| | |done].
  - intros d' [s Hs]. unfold on_descriptor; cbn. destruct (decide (d = d')) as [<-|]; [rewrite lookup_insert_eq|rewrite lookup_insert_ne by done]; by eexists.
  - intros d'. destruct (decide (d = d')) as [<-|]; [by rewrite state_of_on|by rewrite state_of_ne].
Qed.
Lemma tidy_kept r r' : kept r r' -> tidy r -> tidy r'.
Proof.
  intros [Hf Ha Hs Ht] [[Hn Hfree] He Htm]. split; [split|..].
  - by rewrite Hf.
  - intros d. rewrite Hf. intros [Hsd Hd]%Hfree. destruct (Hs d) as [-> _]. auto.
  - intros d. destruct (Hs d) as [-> Hq]. auto.
  - by rewrite Ht.
Qed.
Lemma tidy_timers q r : (exists alarms, TimerQueue.tq_ok alarms q) -> tidy r -> tidy (set_timers q r).
Proof. intros Hq [Hf He _]. by split. Qed.

(** An open descriptor takes operations. *)
Lemma open_stays s s' : shutdown_ s = false -> shutdown_ s' = false -> stays s s'.
Proof. intros Hs Hs'. split; congruence. Qed.
Lemma start_waiting_kept j fd d o r : shutdown_ (state_of d r) = false -> kept r (start_waiting j fd d o r).2.
Proof.
  intros Hs. unfold start_waiting. destruct (_ =? 0); [apply kept_refl|]. destruct (bool_decide _ && _).
  - unfold modify_events. destruct (epoll_ctl _ _ _ _ _) as [[e|] k]; [apply kept_kern|].
    apply (kept_trans _ (set_kern k r)); [apply kept_kern|]. by apply kept_on, open_stays.
  - by apply kept_on, open_stays.
Qed.
Lemma start_locked_kept j fd d o a r : kept r (start_locked j fd d o a r).2.
Proof.
  unfold start_locked. destruct (shutdown_ (state_of d r)) eqn:Hs; [apply kept_refl|].
  destruct (no_ops _ _); [|by apply kept_on, open_stays]. destruct (a && _).
  - unfold start_speculative. destruct (get j _); [|by apply start_waiting_kept].
    destruct (perform o (kern r)) as [[st o'] k]. apply (kept_trans _ (set_kern k r)); [apply kept_kern|].
    destruct st; [by apply start_waiting_kept|apply kept_refl|]. destruct (_ =? 0); [apply kept_refl|]. by apply kept_on.
  - unfold start_registered. destruct (_ =? 0); [apply kept_refl|]. unfold modify_events. destruct (epoll_ctl _ _ _ _ _) as [ec k]. cbn [snd].
    set (r1 := on_descriptor d _ r). assert (kept r r1) as H1 by by apply kept_on.
    apply (kept_trans _ (set_kern k r1)); [by apply (kept_trans _ r1); [|apply kept_kern]|].
    assert (shutdown_ (state_of d r1) = false) as Hs1 by (unfold r1; by rewrite state_of_on).
    by apply kept_on, open_stays.
Qed.

Lemma deferred_env os (m : machine) : env (post_deferred_completions os m) = env m.
Proof. by rewrite post_deferred_is. Qed.
Lemma immediate_env o c (m : machine) : env (Scheduler.post_immediate_completion o c m) = env m.
Proof. unfold Scheduler.post_immediate_completion. by destruct (Scheduler.this_thread m); [destruct c|]. Qed.

Lemma less_stays q s : (op_queue_ s = all_types [] -> q = all_types []) -> stays s (set_ops q s).
Proof. intros Hq. split; [done|]. intros _ He. by apply Hq. Qed.

Lemma deregister_tidy fd data closing (m : machine) : tidy (env m) ->
  let '(data', m') := deregister_descriptor fd data closing m in
  tidy (env m') /\ forall d, data' = Some d ->
    shutdown_ (state_of d (env m')) = true /\ is_Some (registered_descriptors_ (env m') !! d) /\ d ∉ free_list_ (env m').
Proof.
  intros Hr. destruct data as [d|]; [|done]. cbn [deregister_descriptor]. destruct (shutdown_ _) eqn:Hopen; [done|].
  rewrite deferred_env. set (m1 := if _ : bool then _ else m).
  assert (kept (env m) (env m1)) as H1 by (unfold m1; destruct (_ && _); [apply kept_kern|apply kept_refl]).
  pose proof (tidy_kept _ _ H1 Hr) as [[Hn Hfree] He Htm]. cbn [env on_env Scheduler.set_env].
  assert (d ∉ free_list_ (env m1)) as Hd.
  { intros [Hsd _]%Hfree. destruct (kp_state _ _ H1 d) as [Hs1 _]. congruence. }
  split; [split; [split|..]|].
  - done.
  - intros d' Hd'. destruct (Hfree d' Hd') as [Hs' Ha']. unfold on_descriptor; cbn. destruct (decide (d = d')) as [<-|Hne]; [done|].
    fold (on_descriptor d (fun s => set_shutdown true (set_descriptor (-1) (set_ops (all_types []) s))) (env m1)).
    rewrite state_of_ne by done. rewrite lookup_insert_ne by done. done.
  - intros d'. destruct (decide (d = d')) as [<-|Hne]; [by rewrite state_of_on|by rewrite state_of_ne by done; auto].
  - done.
  - intros d' [= <-]. rewrite state_of_on. split; [done|]. split; [|done]. unfold on_descriptor; cbn. rewrite lookup_insert_eq. by eexists.
Qed.
Lemma cleanup_tidy data (m : machine) : tidy (env m) ->
  (forall d, data = Some d -> shutdown_ (state_of d (env m)) = true /\ is_Some (registered_descriptors_ (env m) !! d) /\ d ∉ free_list_ (env m)) ->
  tidy (env (cleanup_descriptor_data data m)).
Proof.
  intros [[Hn Hfree] He Htm] Hd. destruct data as [d|]; [|done]. destruct (Hd d eq_refl) as (Hsd & Ha & Hnf). split; [split|..]; cbn.
  - by constructor.
  - intros d' [->|Hd']%elem_of_cons; [done|]. by apply Hfree.
  - done.
  - done.
Qed.
Lemma register_tidy fd r : tidy r -> tidy (register_descriptor fd r).2.
Proof.
  intros Hr. unfold register_descriptor. set (open := fun s => set_registered all_events _).
  assert (let '(d, r1) := allocate_descriptor_state r in tidy (on_descriptor d open r1)) as Ha.
  { destruct Hr as [[Hn Hfree] He Htm]. unfold allocate_descriptor_state. destruct (free_list_ r) as [|d l] eqn:Hl.
    - set (d := fresh _). split; [split|..]; cbn [free_list_ on_descriptor set_descriptors]; rewrite ?Hl; [constructor|by intros d' ?%elem_of_nil| |done].
      intros d'. destruct (decide (d = d')) as [<-|Hne]; [by rewrite state_of_on|rewrite !state_of_ne by done; apply He].
    - apply NoDup_cons in Hn as [Hd Hn]. split; [split|..]; [done| | |done].
      + intros d' Hd'. assert (d <> d') as Hne by (by intros ->). destruct (Hfree d') as [Hs Halive]; [by right|]. cbn in Hd'.
        rewrite state_of_ne by done. split; [done|]. unfold on_descriptor; cbn. by rewrite lookup_insert_ne.
      + intros d'. destruct (decide (d = d')) as [<-|Hne]; [by rewrite state_of_on|rewrite state_of_ne by done; apply He]. }
  destruct (allocate_descriptor_state r) as [d r1]. destruct (epoll_ctl _ _ _ _ _) as [ec k].
  pose proof (tidy_kept _ _ (kept_kern k _) Ha) as Hk. destruct (ec_is ec EPERM); cbn [snd]; [|done].
  eapply tidy_kept; [|exact Hk]. by apply kept_on.
Qed.

Lemma schedule_timer_tidy time t w (m : machine) : tidy (env m) -> tidy (env (schedule_timer time t w m)).
Proof.
  intros Hr. unfold schedule_timer. destruct (stopping (env m)); [by rewrite immediate_env|]. destruct (td_timers _ Hr) as [al Hal].
  destruct (TimerQueue.enqueue_step time t w al _ Hal) as (al' & _ & Hok). cbn [TimerQueue.serve] in Hok.
  destruct (TimerQueue.enqueue_timer _ _ _ _) as [earliest q]. cbn [snd] in Hok.
  assert (tidy (set_timers q (env m))) as Hq by (apply tidy_timers; [by exists al'|done]).
  destruct earliest; [|done]. eapply tidy_kept; [|exact Hq]. cbn. unfold update_timeout, set_timer_fd. destruct (timer_fd_ (set_timers q (env m)) =? -1); apply kept_kern.
Qed.
Lemma cancel_timer_tidy t n (m : machine) : tidy (env m) -> tidy (env (cancel_timer t n m)).
Proof.
  intros Hr. unfold cancel_timer. destruct (td_timers _ Hr) as [al Hal].
  destruct (TimerQueue.cancel_step t n al _ Hal) as (al' & _ & Hok). cbn [TimerQueue.serve] in Hok.
  destruct (TimerQueue.cancel_timer _ _ _) as [ws q]. rewrite deferred_env. apply tidy_timers; [by exists al'|done].
Qed.
Lemma cancel_timer_by_key_tidy t key (m : machine) : tidy (env m) -> tidy (env (cancel_timer_by_key t key m)).
Proof.
  intros Hr. unfold cancel_timer_by_key. destruct (td_timers _ Hr) as [al Hal].
  destruct (TimerQueue.cancel_by_key_step t key al _ Hal) as (al' & _ & Hok). cbn [TimerQueue.serve] in Hok.
  destruct (TimerQueue.cancel_timer_by_key _ _ _) as [ws q]. rewrite deferred_env. apply tidy_timers; [by exists al'|done].
Qed.

Lemma serve_tidy rq (m : machine) : tidy_request rq -> tidy (env m) -> tidy (env (serve rq m)).
Proof.
  intros Hrq Hr. destruct rq as [fd|j fd d o c a|d|d j key|fd d closing|d|fd d closing|time t w|t n|t key|t s]; cbn [serve].
  - by apply register_tidy.
  - unfold start_op. destruct d as [d|]; [|by rewrite immediate_env]. pose proof (start_locked_kept j fd d o a (env m)) as Hk.
    destruct (start_locked j fd d o a (env m)) as [[o'|] r]; [rewrite immediate_env|]; by apply (tidy_kept (env m)).
  - destruct d as [d|]; [|done]. cbn [cancel_ops]. rewrite deferred_env. eapply tidy_kept; [|done]. by apply kept_on, less_stays.
  - destruct d as [d|]; [|done]. cbn [cancel_ops_by_key]. rewrite deferred_env. eapply tidy_kept; [|done].
    apply kept_on, less_stays. intros Hq. rewrite Hq. by destruct j.
  - pose proof (deregister_tidy fd d closing m Hr) as Hd. by destruct (deregister_descriptor fd d closing m) as [data m1], Hd.
  - by destruct d.
  - unfold close_descriptor. pose proof (deregister_tidy fd d closing m Hr) as Hd.
    destruct (deregister_descriptor fd d closing m) as [data m1], Hd. by apply cleanup_tidy.
  - by apply schedule_timer_tidy.
  - by apply cancel_timer_tidy.
  - by apply cancel_timer_by_key_tidy.
  - done.
Qed.

(** *** The task and the handlers *)

Lemma dispatch_kept e acc : kept acc.2 (dispatch e acc).2.
Proof.
  destruct e as [[| |d] ev], acc as [[c ops] r]; [apply kept_refl..|]. cbn [dispatch].
  destruct (queued (state_of d r)); by apply kept_on.
Qed.
Lemma run_tidy usec r : tidy r -> tidy (run usec r).2.
Proof.
  intros Hr. unfold run. destruct (epoll_wait _ _) as [es k].
  assert (forall acc, kept acc.2 (foldl (flip dispatch) acc es).2) as Hall.
  { induction es as [|e es IH]; intros acc; [apply kept_refl|]. cbn [foldl]. apply (kept_trans _ (dispatch e acc).2); [apply dispatch_kept|apply IH]. }
  specialize (Hall (timer_fd_ r =? -1, [], set_kern k r)). destruct (foldl _ _ es) as [[check ops] r1]; cbn [snd] in Hall.
  assert (tidy r1) as H1 by (apply (tidy_kept (set_kern k r)); [done|]; by apply (tidy_kept r); [apply kept_kern|]).
  destruct check; [|done]. destruct (td_timers _ H1) as [al Hal].
  destruct (TimerQueue.ready_step (clock (kern r1)) al _ Hal) as (al' & _ & Hok). cbn [TimerQueue.serve] in Hok.
  destruct (TimerQueue.get_ready_timers _ _) as [ws q]; cbn [snd] in *.
  assert (tidy (set_timers q r1)) as H2 by (apply tidy_timers; [by exists al'|done]).
  destruct (_ =? -1); [done|]. eapply tidy_kept; [|exact H2]. apply kept_kern.
Qed.

Lemma perform_type_stays ev j acc : stays acc.1.2 (perform_type ev j acc).1.2.
Proof.
  destruct acc as [[ops s] k]. unfold perform_type. destruct (hits j ev); [|apply reactor_stays_refl]. cbn [fst snd].
  assert (op_queue_ s = all_types [] -> perform_queue (get j (op_queue_ s)) k = ([], [], false, k)) as Hq by (intros ->; by destruct j).
  destruct (perform_queue (get j (op_queue_ s)) k) as [[[ended rest] ex] k']. split; [done|]. intros _ He. specialize (Hq He).
  injection Hq as -> -> _ _. cbn. rewrite He. by destruct j.
Qed.
Lemma perform_io_stays ev s k : stays s (perform_io ev s k).1.2.
Proof.
  unfold perform_io; cbn [foldl]. eapply reactor_stays_trans; [apply (perform_type_stays ev except_op ([], s, k))|].
  eapply reactor_stays_trans; apply perform_type_stays.
Qed.
Lemma perform_descriptor_tidy d (m : machine) : tidy (env m) -> tidy (env (perform_descriptor d m).2).
Proof.
  intros Hr. unfold perform_descriptor. set (s0 := set_queued false _).
  pose proof (perform_io_stays (task_result_ s0) s0 (kern (env m))) as Hs. destruct (perform_io _ _ _) as [[ops s] k]; cbn [fst snd] in Hs.
  set (m1 := on_env _ m). assert (tidy (env m1)) as H1.
  { unfold m1. cbn [env on_env Scheduler.set_env]. eapply tidy_kept; [apply kept_kern|]. eapply tidy_kept; [by apply kept_on|done]. }
  clearbody m1. destruct ops; cbn [snd]; [|by rewrite deferred_env]. unfold Scheduler.compensating_work_started. done.
Qed.

Lemma serve_all_tidy rqs (m : machine) : Forall tidy_request rqs -> tidy (env m) -> tidy (env (foldl (flip serve) m rqs)).
Proof.
  intros Hrqs. revert m. induction Hrqs as [|rq rqs Hrq _ IH]; intros m Hm; [done|]. cbn [foldl]. by apply IH, serve_tidy.
Qed.

Section handlers.
  Context (handler : operation -> list request) (Hhandler : forall o, Forall tidy_request (handler o)).

Lemma handle_tidy o (m : machine) : tidy (env m) -> tidy (env (handle handler o m)).
Proof. intros Hm. unfold handle. apply serve_all_tidy; [done|]. destruct Hm. by split. Qed.
Lemma complete_tidy o (m : machine) : tidy (env m) -> tidy (env (complete handler o m)).
Proof.
  intros Hm. destruct o as [d|o|w]; cbn [complete]; [|by apply handle_tidy..].
  pose proof (perform_descriptor_tidy d m Hm). destruct (perform_descriptor d m) as [[o|] m1]; [by apply handle_tidy|done].
Qed.
Lemma invoke_tidy c (m : machine) : tidy_call c -> tidy (env m) -> tidy (env (invoke handler c m)).
Proof.
  intros Hc Hm. assert (forall usec (x : @Scheduler.Env epoll_task), tidy x -> tidy (Scheduler.task_run usec x).2) as Htask by (intros; by apply run_tidy).
  destruct c as [rq|fuel|fuel|fuel| |usec| | |f]; cbn [invoke].
  - by apply serve_tidy.
  - by apply (@Scheduler.run_env epoll_task (complete handler) tidy Htask); [apply complete_tidy|].
  - by apply (@Scheduler.run_one_env epoll_task (complete handler) tidy Htask); [apply complete_tidy|].
  - by apply (@Scheduler.poll_env epoll_task (complete handler) tidy Htask); [apply complete_tidy|].
  - by apply (@Scheduler.poll_one_env epoll_task (complete handler) tidy Htask); [apply complete_tidy|].
  - by apply (@Scheduler.wait_one_env epoll_task (complete handler) tidy Htask); [apply complete_tidy|].
  - done.
  - done.
  - eapply tidy_kept; [apply kept_kern|done].
Qed.
Lemma new_tidy tfd k : tidy (env (new_machine tfd k)).
Proof.
  split; [split|..]; cbn; [constructor|by intros d ?%elem_of_nil| |exists ∅; apply TimerQueue.new_timer_queue_ok].
  intros d. unfold state_of; cbn. by rewrite lookup_empty.
Qed.
Lemma program_tidy calls tfd k : Forall tidy_call calls -> tidy (env (foldl (flip (invoke handler)) (new_machine tfd k) calls)).
Proof.
  intros Hc. generalize (new_tidy tfd k). generalize (new_machine tfd k). induction Hc as [|c cs Hc _ IH]; intros m Hm; [done|].
  cbn [foldl]. by apply IH, invoke_tidy.
Qed.
End handlers.
End tidiness.

(** ** What [run] comes back to *)

Section finished.
  Context `{OpHandlers} (w : owner).
  #[local] Abbreviation machine := (@Scheduler.machine epoll_task).

Lemma tally_nonneg os : 0 <= tally w os.
Proof. unfold tally. lia. Qed.
Lemma tally_length os : tally w os <= Z.of_nat (length os).
Proof. unfold tally. pose proof (List.filter_length_le (owned_by w) os). lia. Qed.

Lemma map_sum_bound {A} (f g : A -> Z) (m : gmap nat A) : (forall a, 0 <= f a <= g a) -> 0 <= map_sum f m <= map_sum g m.
Proof.
  intros Hfg. induction m as [|i a m Hi IH] using map_ind; [done|].
  rewrite (map_sum_delete f (<[i:=a]> m) i a), (map_sum_delete g (<[i:=a]> m) i a) by apply lookup_insert_eq.
  rewrite delete_insert_id by done. specialize (Hfg a). lia.
Qed.
Lemma count_ops_bound c os : 0 <= TimerQueue.count_ops c os <= Z.of_nat (length os).
Proof. unfold TimerQueue.count_ops. pose proof (List.filter_length_le (fun op => c (TimerQueue.op_id op)) os). lia. Qed.
Lemma waiting_bound r : 0 <= waiting w r <= waiting_ops r.
Proof.
  unfold waiting, waiting_ops.
  pose proof (map_sum_bound (fun s => tally_queue w (op_queue_ s)) op_count (registered_descriptors_ r)) as Hs.
  assert (0 <= TimerQueue.waits_of (timer_owned w) (timers r) <= TimerQueue.waits (timers r)) as Ht.
  { apply map_sum_bound. intros d. rewrite TimerQueue.count_every. apply count_ops_bound. }
  destruct Hs; [|lia]. intros s. unfold tally_queue, tally_ops, op_count. 
  pose proof (tally_nonneg (ReactorOp <$> of_read (op_queue_ s))). pose proof (tally_nonneg (ReactorOp <$> of_write (op_queue_ s))).
  pose proof (tally_nonneg (ReactorOp <$> of_except (op_queue_ s))). pose proof (tally_length (ReactorOp <$> of_read (op_queue_ s))) as H1'.
  pose proof (tally_length (ReactorOp <$> of_write (op_queue_ s))) as H2'. pose proof (tally_length (ReactorOp <$> of_except (op_queue_ s))) as H3'.
  rewrite length_fmap in H1', H2', H3'. lia.
Qed.

(** Without outstanding work nothing is ready and nothing waits. *)
Lemma no_work_nothing handler n (m : machine) : Scheduler.idle_inv pending (once_inv w handler n) m ->
  Scheduler.outstanding_work_ (sched m) = 0 ->
  ready_ops m = 0 /\ waiting_ops (env m) = 0 /\ tally w (handled (env m)) = n + started_by w handler (handled (env m)).
Proof.
  intros [[Ht Hb Hn Hw] [Hf Ha]] H0'. unfold accounted, Scheduler.balance, Scheduler.held, Scheduler.users, Scheduler.private, Scheduler.private_ops in *.
  rewrite Ht in Hb, Hf, Ha. rewrite app_nil_r in Hf, Ha. pose proof (marks_counted _ _ Hf) as Hmk. rewrite pending_split in Hb.
  pose proof (waiting_bound (env m)) as [Hw1 Hw2]. set (q := Scheduler.user_ops (Scheduler.op_queue_ (sched m))) in *.
  change (@Scheduler.Op epoll_task) with operation in *.
  assert (0 <= waiting_ops (env m)) by lia. unfold ready_ops. fold q.
  assert (tally w q <= Z.of_nat (length (List.filter is_plain q))) as Hq.
  { clear. induction q as [|o q IH]; [done|]. rewrite tally_cons. destruct o as [d|o|t]; cbn [List.filter is_plain length].
    - rewrite tally_descriptor. lia.
    - pose proof (tally_length [ReactorOp o]) as Hl. cbn [length] in Hl. lia.
    - pose proof (tally_length [TimerOp t]) as Hl. cbn [length] in Hl. lia. }
  pose proof (tally_nonneg q). cbn [length] in Hb. lia.
Qed.
End finished.

(** ** Shutting down *)

Section emptying.
  Context `{OpHandlers} (w : owner) (destroyer : operation -> list request) (Hquiet : forall o, Forall quiet (destroyer o)).
  #[local] Abbreviation machine := (@Scheduler.machine epoll_task).

Lemma tally_state_ops s : tally w (state_ops s) = tally_queue w (op_queue_ s).
Proof. unfold state_ops. apply (tally_queue_all w). Qed.

(** The loop over the pool. *)
Lemma shutdown_states live acc : NoDup live -> (forall d, d ∈ live -> is_Some (registered_descriptors_ acc.2 !! d)) ->
  let acc' := foldl shutdown_state acc live in
  free_list_ acc'.2 = reverse live ++ free_list_ acc.2 /\
  (forall d, is_Some (registered_descriptors_ acc'.2 !! d) <-> is_Some (registered_descriptors_ acc.2 !! d)) /\
  (forall d, state_of d acc'.2 = if decide (d ∈ live) then set_shutdown true (set_ops (all_types []) (state_of d acc.2)) else state_of d acc.2) /\
  (timers acc'.2 = timers acc.2 /\ handled acc'.2 = handled acc.2) /\
  tally w acc'.1 + waiting w acc'.2 = tally w acc.1 + waiting w acc.2.
Proof.
  revert acc. induction live as [|d live IH]; intros acc Hn Ha; [by split_and!|]. cbn [foldl].
  apply NoDup_cons in Hn as [Hd Hn]. set (acc1 := shutdown_state acc d).
  assert (forall d', is_Some (registered_descriptors_ acc1.2 !! d') <-> is_Some (registered_descriptors_ acc.2 !! d')) as Hal.
  { intros d'. cbn. destruct (decide (d = d')) as [<-|Hne]; [|by rewrite lookup_insert_ne].
    rewrite lookup_insert_eq. split; [intros _; apply Ha; left|intros _; by eexists]. }
  destruct (IH acc1 Hn) as (H1 & H2 & H3 & [H4 H5] & H6); [intros d' Hd'; apply Hal, Ha; by right|].
  assert (state_of d acc1.2 = set_shutdown true (set_ops (all_types []) (state_of d acc.2))) as Hs1
    by exact (state_of_on d (fun s => set_shutdown true (set_ops (all_types []) s)) acc.2).
  assert (forall d', d <> d' -> state_of d' acc1.2 = state_of d' acc.2) as Hs2
    by (intros d'; exact (state_of_ne d d' (fun s => set_shutdown true (set_ops (all_types []) s)) acc.2)).
  split_and!; [| | |done|done|].
  - rewrite H1, reverse_cons. cbn. by rewrite <- app_assoc.
  - intros d'. by rewrite H2.
  - intros d'. rewrite H3. destruct (decide (d = d')) as [<-|Hne].
    + rewrite decide_False, decide_True by (done || left). done.
    + rewrite Hs2 by done. destruct (decide (d' ∈ live)); [rewrite decide_True by (by right)|rewrite decide_False; [done|]]; [done|].
      rewrite elem_of_cons. intros [->|]; done.
  - rewrite H6. cbn [acc1 shutdown_state fst snd]. rewrite tally_app, tally_state_ops.
    change (waiting w (free_descriptor_state d ?r)) with (waiting w r). rewrite waiting_on. cbn [op_queue_ set_shutdown set_ops].
    change (tally_queue w (all_types [])) with 0. lia.
Qed.

(** A reactor that was shut down: no operation is left anywhere. *)
Record emptied (r : reactor) : Prop := {
  em_ops : forall d, op_queue_ (state_of d r) = all_types [];
  em_timers : TimerQueue.tq_ok ∅ (timers r);
  em_pool : NoDup (free_list_ r) /\ forall d, d ∈ free_list_ r -> shutdown_ (state_of d r) = true;
}.

Lemma shutdown_emptied live r : tidy r -> NoDup live ->
  (forall d, d ∈ live <-> is_Some (registered_descriptors_ r !! d) /\ d ∉ free_list_ r) ->
  emptied (shutdown_reactor live r).2 /\ handled (shutdown_reactor live r).2 = handled r /\
  (forall d, is_Some (registered_descriptors_ r !! d) -> d ∈ free_list_ (shutdown_reactor live r).2) /\
  tally w (shutdown_reactor live r).1 = waiting w r.
Proof.
  intros [[Hn Hfree] He [al Hal]] Hnl Hlive. unfold shutdown_reactor.
  destruct (shutdown_states live ([], set_stopping true r) Hnl) as (H1' & H2' & H3' & [H4' H5'] & H6'); [intros d Hd; by apply Hlive|].
  destruct (foldl shutdown_state _ live) as [ops r1]. cbn [fst snd] in *. change (timers (set_stopping true r)) with (timers r) in H4'.
  destruct (TimerQueue.get_all_step al (timers r) Hal) as (al' & [Hal' _] & Hok). subst al'. cbn [TimerQueue.serve] in Hok.
  pose proof (TimerQueue.waits_of_get_all (timer_owned w) (timers r)) as Hw. rewrite H4'.
  destruct (TimerQueue.get_all_timers (timers r)) as [ws q]. cbn [fst snd] in *.
  assert (forall d, op_queue_ (state_of d r1) = all_types []) as Hops.
  { intros d. rewrite H3'. destruct (decide (d ∈ live)) as [|Hd]; [done|]. change (state_of d (set_stopping true r)) with (state_of d r).
    destruct (registered_descriptors_ r !! d) as [s|] eqn:Hs.
    - apply He. destruct (decide (d ∈ free_list_ r)) as [Hf|Hf]; [by apply Hfree|]. exfalso. apply Hd, Hlive. split; [by eexists|done].
    - unfold state_of. by rewrite Hs. }
  split_and!.
  - split; [done|done|split; cbn [set_timers free_list_]; rewrite H1'].
    + apply NoDup_app. split_and!; [by rewrite reverse_Permutation|intros d Hd Hf|done].
      rewrite elem_of_reverse in Hd. by apply Hlive in Hd as [_ ?].
    + intros d Hd. change (state_of d (set_timers q r1)) with (state_of d r1). rewrite H3'.
      destruct (decide (d ∈ live)) as [|Hl]; [done|]. change (state_of d (set_stopping true r)) with (state_of d r).
      apply elem_of_app in Hd as [Hd|Hd]; [|by apply Hfree]. by rewrite elem_of_reverse in Hd.
  - done.
  - intros d Hd. cbn [set_timers free_list_]. rewrite H1', elem_of_app, elem_of_reverse.
    destruct (decide (d ∈ free_list_ r)); [by right|left]. by apply Hlive.
  - rewrite tally_app, tally_timers. change (tally w []) with 0 in H6'.
    assert (map_sum (fun s => tally_queue w (op_queue_ s)) (registered_descriptors_ r1) = 0) as Hz.
    { apply map_sum_zero. intros d s Hs. pose proof (Hops d) as Hd. unfold state_of in Hd. rewrite Hs in Hd. cbn in Hd. by rewrite Hd. }
    assert (TimerQueue.waits_of (timer_owned w) q = 0) as Hzq.
    { apply map_sum_zero. intros t d Ht. pose proof (TimerQueue.rp_idle _ _ (proj1 Hok) t (lookup_empty t)) as Hi.
      unfold TimerQueue.timer in Hi. rewrite Ht in Hi. cbn in Hi. by rewrite Hi. }
    unfold waiting in *. rewrite H4', Hz in H6'. cbn [registered_descriptors_ timers set_stopping] in H6'. lia.
Qed.

Lemma emptied_on d f r : emptied r -> op_queue_ (f (state_of d r)) = all_types [] ->
  (shutdown_ (state_of d r) = true -> shutdown_ (f (state_of d r)) = true) -> emptied (on_descriptor d f r).
Proof.
  intros [Ho Ht [Hn Hf]] Hq Hs. split; [|done|split; [done|]].
  - intros d'. destruct (decide (d = d')) as [<-|]; [by rewrite state_of_on|by rewrite state_of_ne].
  - intros d' Hd'. destruct (decide (d = d')) as [<-|]; [rewrite state_of_on; by apply Hs, Hf|rewrite state_of_ne by done; by apply Hf].
Qed.
Lemma aborted_none s : op_queue_ s = all_types [] -> aborted s = [].
Proof. unfold aborted. by intros ->. Qed.

(** The last requests find nothing to do but to give states back. *)
Record settled (m m' : machine) : Prop := {
  se_sched : sched m' = sched m;
  se_handled : handled (env m') = handled (env m);
  se_empty : emptied (env m) -> emptied (env m');
  se_free : forall d, d ∈ free_list_ (env m) -> d ∈ free_list_ (env m');
}.
Lemma settled_none m : settled m m.
Proof. by split. Qed.
Lemma settled_then m1 m2 m3 : settled m1 m2 -> settled m2 m3 -> settled m1 m3.
Proof. intros [H1 H2 H3 H4] [H5 H6 H7 H8]. split; [congruence|congruence|auto|auto]. Qed.

Lemma quiet_timers (f : TimerQueue.timer_queue -> list TimerQueue.wait_op * TimerQueue.timer_queue) (m : machine) :
  emptied (env m) -> f (timers (env m)) = ([], timers (env m)) ->
  settled m (let '(ws, q) := f (timers (env m)) in post_deferred_completions (TimerOp <$> ws) (on_env (set_timers q) m)).
Proof. intros He Hf. rewrite Hf. split; [done|done| |done]. intros [Ho Ht Hp]. by split. Qed.

Lemma serve_settled rq (m : machine) : quiet rq -> emptied (env m) -> settled m (serve rq m).
Proof.
  intros Hrq He. destruct rq as [| |d|d j key| | |fd d closing| |t n|t key|]; try done; cbn [serve].
  - destruct d as [d|]; [|apply settled_none]. cbn [cancel_ops]. rewrite aborted_none by apply He. cbn [post_deferred_completions foldl].
    split; [done|done| |done]. intros _. by apply emptied_on.
  - destruct d as [d|]; [|apply settled_none]. cbn [cancel_ops_by_key]. pose proof (em_ops _ He d) as Hd.
    assert (get j (op_queue_ (state_of d (env m))) = []) as Hj by (rewrite Hd; by destruct j). rewrite Hj. cbn.
    split; [done|done| |done]. intros _. apply emptied_on; [done| |done]. cbn. rewrite Hd. by destruct j.
  - unfold close_descriptor. destruct d as [d|]; [|apply settled_none]. cbn [deregister_descriptor]. destruct (shutdown_ (state_of d (env m))) eqn:Hs; [apply settled_none|].
    set (m1 := if _ : bool then _ else m). assert (settled m m1) as H1'.
    { unfold m1. destruct (_ && _); [|apply settled_none]. split; [done|done| |done]. intros [Ho Ht Hp]. by split. }
    apply (settled_then _ m1); [done|]. pose proof (se_empty _ _ H1' He) as He1.
    rewrite aborted_none by apply He. cbn [post_deferred_completions foldl cleanup_descriptor_data].
    assert (shutdown_ (state_of d (env m1)) = false) as Hs1 by (unfold m1; by destruct (_ && _)).
    split; [done|done| |intros d'; by right]. intros _. cbn [env on_env Scheduler.set_env].
    set (f := fun s => set_shutdown true _). assert (emptied (on_descriptor d f (env m1))) as [Ho Ht [Hn Hf]] by by apply emptied_on.
    split; [done|done|split]; cbn [free_descriptor_state set_free free_list_].
    + constructor; [|done]. intros Hd. pose proof (proj2 (em_pool _ He1) d Hd). congruence.
    + intros d' [->|Hd']%elem_of_cons; [exact (f_equal shutdown_ (state_of_on d f (env m1)))|by apply Hf].
  - apply (quiet_timers (TimerQueue.cancel_timer t n)); [done|]. unfold TimerQueue.cancel_timer.
    by rewrite (TimerQueue.represents_not_active ∅) by (done || apply He).
  - apply (quiet_timers (TimerQueue.cancel_timer_by_key t key)); [done|]. unfold TimerQueue.cancel_timer_by_key.
    by rewrite (TimerQueue.represents_not_active ∅) by (done || apply He).
Qed.
Lemma serve_all_settled rqs (m : machine) : Forall quiet rqs -> emptied (env m) -> settled m (foldl (flip serve) m rqs).
Proof.
  intros Hrqs. revert m. induction Hrqs as [|rq rqs Hrq _ IH]; intros m He; [apply settled_none|]. cbn [foldl].
  pose proof (serve_settled rq m Hrq He) as Hs. apply (settled_then _ _ _ Hs), IH. by apply Hs.
Qed.

(** Destroying an operation, and a list of them. *)
Lemma destroy_one x o : emptied (env (mach x)) ->
  settled (mach x) (mach (destroy destroyer x o)) /\ tally w (destroyed (destroy destroyer x o)) = tally w (destroyed x) + tally w [o].
Proof.
  intros He. destruct o as [d|o|t]; cbn [destroy]; [split; [apply settled_none|rewrite tally_descriptor; lia]|..];
    (split; [by apply serve_all_settled|apply tally_app]).
Qed.
Lemma abandon_all ops x : emptied (env (mach x)) ->
  settled (mach x) (mach (abandon_operations destroyer ops x)) /\
  tally w (destroyed (abandon_operations destroyer ops x)) = tally w (destroyed x) + tally w ops.
Proof.
  revert x. induction ops as [|o ops IH]; intros x He; [split; [apply settled_none|change (tally w []) with 0; cbn; lia]|].
  unfold abandon_operations; cbn [foldl]. fold (abandon_operations destroyer ops (destroy destroyer x o)).
  destruct (destroy_one x o He) as [Hs Ht]. destruct (IH (destroy destroyer x o)) as [Hs2 Ht2]; [by apply Hs|].
  split; [by apply (settled_then _ _ _ Hs)|]. rewrite Ht2, Ht, (tally_cons w o ops). lia.
Qed.

Lemma destroy_queue_ends fuel x : emptied (env (mach x)) -> (length (Scheduler.op_queue_ (sched (mach x))) < fuel)%nat ->
  exists x', destroy_queue destroyer fuel x = Some x' /\ emptied (env (mach x')) /\ Scheduler.op_queue_ (sched (mach x')) = [] /\
    handled (env (mach x')) = handled (env (mach x)) /\ (forall d, d ∈ free_list_ (env (mach x)) -> d ∈ free_list_ (env (mach x'))) /\
    tally w (destroyed x') = tally w (destroyed x) + tally w (Scheduler.user_ops (Scheduler.op_queue_ (sched (mach x)))).
Proof.
  revert x. induction fuel as [|fuel IH]; intros x He Hl; [lia|]. cbn [destroy_queue].
  destruct (Scheduler.op_queue_ (sched (mach x))) as [|i rest] eqn:Hq.
  { exists x. split_and!; try done. change (tally w (destroyed x) = tally w (destroyed x) + 0). lia. }
  set (x1 := Ending _ (destroyed x)). assert (emptied (env (mach x1))) as He1 by done. cbn [length] in Hl.
  destruct i as [|o].
  - destruct (IH x1 He1) as (x' & H1' & H2' & H3' & H4' & H5' & H6'); [cbn; lia|]. exists x'. by split_and!.
  - destruct (destroy_one x1 o He1) as [Hs Ht]. set (x2 := destroy destroyer x1 o) in *.
    assert (Scheduler.op_queue_ (sched (mach x2)) = rest) as Hr by by rewrite (se_sched _ _ Hs).
    destruct (IH x2) as (x' & H1' & H2' & H3' & H4' & H5' & H6'); [by apply Hs|rewrite Hr; lia|]. exists x'.
    split_and!; [done|done|done|by rewrite H4', (se_handled _ _ Hs)|intros d Hd; by apply H5', Hs|].
    rewrite H6', Ht, Hr, Scheduler.user_ops_user. rewrite (tally_cons w o (Scheduler.user_ops rest)). change (destroyed x1) with (destroyed x).
    change (@Scheduler.Op epoll_task) with operation in *. lia.
Qed.
End emptying.

(** ** Internal descriptors and forks *)

(** The system's part of [notify_fork]: a new descriptor of epoll, of the timer and of the
    interrupter in the place of those of the parent, the latter two registered. *)
Class ForkSystem `{Epoll} := {
  recreate_epoll : Kern -> Kern;
  recreate_timerfd : Kern -> Z * Kern;
  recreate_interrupter : Kern -> Kern;
  add_timerfd : Z -> Kern -> Kern;
}.

Section others.
  Context `{Epoll}.
  #[local] Abbreviation machine := (@Scheduler.machine epoll_task).

(** A descriptor of asio's own (a pipe of signals), with an operation that is no work. *)
Definition register_internal_descriptor (j : op_type) (fd : Z) (o : rop) (r : reactor) : (nat * error_code) * reactor :=
  let '(d, r) := allocate_descriptor_state r in
  let r := on_descriptor d (fun s =>
    set_registered all_events (set_speculative (all_types true) (push_op j o (set_shutdown false (set_descriptor fd s))))) r in
  let '(ec, k) := epoll_ctl CtlAdd fd all_events d (kern r) in
  let r := set_kern k r in
  match ec with Some _ => ((d, ec), on_descriptor d (set_registered 0) r) | None => ((d, None), r) end.

(** The operations destroyed, and the new [descriptor_data]. *)
Definition deregister_internal_descriptor (fd : Z) (descriptor_data : option nat) (r : reactor) : (list operation * option nat) * reactor :=
  match descriptor_data with
  | None => (([], None), r)
  | Some d =>
      let s := state_of d r in
      if shutdown_ s then (([], None), r)
      else
        let r := set_kern (epoll_ctl CtlDel fd 0 d (kern r)).2 r in
        ((state_ops s, Some d), on_descriptor d (fun s => set_shutdown true (set_descriptor (-1) (set_ops (all_types []) s))) r)
  end.

(** The new target and the new source. *)
Definition move_descriptor (target source : option nat) : option nat * option nat := (source, None).

Definition set_timerfd (fd : Z) (r : reactor) : reactor :=
  Reactor (registered_descriptors_ r) (free_list_ r) (timers r) fd (stopping r) (kern r) (handled r).

(** A round of the loop that registers the descriptors again; an error is thrown. *)
Definition reregister (acc : error_code * reactor) (d : nat) : error_code * reactor :=
  match acc with
  | (Some e, r) => (Some e, r)
  | (None, r) =>
      let s := state_of d r in
      if registered_events_ s =? 0 then (None, r)
      else
        let '(ec, k) := epoll_ctl CtlAdd (descriptor_ s) (registered_events_ s) d (kern r) in (ec, set_kern k r)
  end.
Definition notify_fork `{!ForkSystem} (child : bool) (live : list nat) (r : reactor) : error_code * reactor :=
  if negb child then (None, r)
  else
    let r := set_kern (recreate_epoll (kern r)) r in
    let r := if timer_fd_ r =? -1 then r else let '(fd, k) := recreate_timerfd (kern r) in set_timerfd fd (set_kern k r) in
    let r := set_kern (recreate_interrupter (kern r)) r in
    let r := if timer_fd_ r =? -1 then r else set_kern (add_timerfd (timer_fd_ r) (kern r)) r in
    foldl reregister (None, update_timeout r) live.

(** A fork leaves the operations where they are. *)
Lemma reregister_kept acc d : kept acc.2 (reregister acc d).2.
Proof.
  destruct acc as [[e|] r]; cbn [reregister]; [apply kept_refl|]. destruct (_ =? 0); [apply kept_refl|].
  destruct (epoll_ctl _ _ _ _ _) as [ec k]. apply kept_kern.
Qed.
Lemma update_timeout_kept r : kept r (update_timeout r).
Proof. unfold update_timeout, set_timer_fd. destruct (_ =? -1); apply kept_kern. Qed.
Lemma fork_kept `{!ForkSystem} child live r : kept r (notify_fork child live r).2.
Proof.
  assert (forall fd k r, kept r (set_timerfd fd (set_kern k r))) as Hfd by by split.
  assert (forall acc, kept acc.2 (foldl reregister acc live).2) as Hl.
  { induction live as [|d live IH]; intros acc; [apply kept_refl|]. cbn [foldl]. apply (kept_trans _ _ _ (reregister_kept acc d)), IH. }
  unfold notify_fork. destruct child; [|apply kept_refl]. cbn [negb]. eapply kept_trans; [|apply Hl]. cbn [snd].
  eapply kept_trans; [|apply update_timeout_kept]. set (r1 := set_kern (recreate_epoll _) r). assert (kept r r1) as H1' by apply kept_kern.
  apply (kept_trans _ _ _ H1'). destruct (timer_fd_ r1 =? -1).
  - destruct (_ =? -1); [apply kept_kern|]. by eapply kept_trans; apply kept_kern.
  - destruct (recreate_timerfd _) as [fd k]. apply (kept_trans _ _ _ (Hfd fd k r1)).
    destruct (_ =? -1); [apply kept_kern|]. by eapply kept_trans; apply kept_kern.
Qed.

(** Taking an internal descriptor back destroys the operation it was registered with. *)
Lemma internal_round_trip j fd o r d : register_internal_descriptor j fd o r = ((d, None), (register_internal_descriptor j fd o r).2) ->
  op_queue_ (state_of d (allocate_descriptor_state r).2) = all_types [] ->
  (deregister_internal_descriptor fd (Some d) (register_internal_descriptor j fd o r).2).1 = ([ReactorOp o], Some d).
Proof.
  unfold register_internal_descriptor. destruct (allocate_descriptor_state r) as [d1 r1]. set (open := fun s => set_registered all_events _).
  destruct (epoll_ctl _ _ _ _ _) as [[e|] k]; [done|]. intros [= <-] Hq. cbn [snd] in *. cbn [deregister_internal_descriptor].
  rewrite state_of_kern, state_of_on. unfold open. cbn [shutdown_ set_registered set_speculative push_op set_ops set_shutdown fst].
  unfold state_ops. cbn [op_queue_ set_registered set_speculative push_op set_ops set_shutdown set_descriptor]. rewrite Hq. by destruct j.
Qed.
End others.

(** Every operation a program with these calls started has had its handler called, as often as
    the handler was given away, and none is ready or waits. *)
Definition all_answered `{OpHandlers} (handler : operation -> list request) (calls : list call) (m : machine) : Prop :=
  ready_ops m = 0 /\ waiting_ops (env m) = 0 /\
  forall w, requested w calls + started_by w handler (handled (env m)) = tally w (handled (env m)).

(** [run] comes back only when everything was answered.  Whatever the program did before,
    if [run] - on a loop that is not stopped - returns, then no operation is ready and none
    waits, and every handler that was given to an operation, by the program or by a handler,
    has been called exactly as often as it was given. *)
Theorem run_answers `{OpHandlers} (handler : operation -> list request) (calls : list call) (tfd : Z) (k : Kern) (fuel : nat) (n : Z) :
  let m := foldl (flip (invoke handler)) (new_machine tfd k) calls in
  let m' := (Scheduler.run (complete handler) fuel m).2 in
  Scheduler.stopped_ (sched m) = false -> (Scheduler.run (complete handler) fuel m).1 = Some n ->
  all_answered handler calls m'.
Proof.
  intros m m' Hst Hrun. assert (forall w, Scheduler.idle_inv pending (once_inv w handler (requested w calls)) m) as Hm by (intros w; apply program_once).
  assert (forall w, Scheduler.idle_inv pending (once_inv w handler (requested w calls)) m') as Hm'.
  { intros w. apply (@Scheduler.run_kept epoll_task (complete handler) pending _ (once_task w handler _) (once_complete w handler _)), Hm. }
  assert (Scheduler.outstanding_work_ (sched m') = 0) as H0'.
  { set (w := SocketHandler 0). eapply (@Scheduler.run_finishes epoll_task (complete handler) pending (once_inv w handler (requested w calls)));
      [apply once_task|apply once_complete|apply Hm|done|exact Hrun]. }
  split; [|split].
  - by apply (no_work_nothing (SocketHandler 0) handler _ m' (Hm' _)).
  - by apply (no_work_nothing (SocketHandler 0) handler _ m' (Hm' _)).
  - intros w. symmetry. by apply (no_work_nothing w handler _ m' (Hm' w)).
Qed.

(** C10: the end of an io_context leaves nothing.  Whatever the program did, when the services
    are shut down every operation that was started has either had its handler called before,
    once, or is destroyed, once, and no handler is called any more; the queue of the
    scheduler is empty; and every descriptor state is shut down, empty and in the pool
    exactly once - also when destroyed handlers take sockets and timers with them, which
    close and cancel on a reactor that is shut down. *)
Theorem context_ends `{OpHandlers} (handler destroyer : operation -> list request) (calls : list call) (tfd : Z) (k : Kern)
    (live : list nat) (w : owner) :
  let m := foldl (flip (invoke handler)) (new_machine tfd k) calls in
  Forall tidy_call calls -> (forall o, Forall tidy_request (handler o)) -> (forall o, Forall quiet (destroyer o)) ->
  NoDup live -> (forall d, d ∈ live <-> is_Some (registered_descriptors_ (env m) !! d) /\ d ∉ free_list_ (env m)) ->
  exists x, end_context destroyer live (S (length (Scheduler.op_queue_ (sched m)))) m = Some x /\
    requested w calls + started_by w handler (handled (env (mach x))) = tally w (handled (env (mach x))) + tally w (destroyed x) /\
    handled (env (mach x)) = handled (env m) /\ Scheduler.op_queue_ (sched (mach x)) = [] /\
    NoDup (free_list_ (env (mach x))) /\
    forall d, is_Some (registered_descriptors_ (env m) !! d) ->
      d ∈ free_list_ (env (mach x)) /\ shutdown_ (state_of d (env (mach x))) = true /\
      op_queue_ (state_of d (env (mach x))) = all_types [].
Proof.
  intros m Hc Hh Hd Hn Hlive. pose proof (program_tidy handler Hh calls tfd k Hc) as Hr. fold m in Hr.
  destruct (program_once w handler calls tfd k) as [[Hthread _ _ _] [_ Ha]]. fold m in Hthread, Ha.
  unfold accounted, Scheduler.held, Scheduler.private_ops in Ha. rewrite Hthread, app_nil_r in Ha.
  destruct (shutdown_emptied w live (env m) Hr Hn Hlive) as (He & Hhandled & Hpool & Htally).
  unfold end_context. destruct (shutdown_reactor live (env m)) as [ops r]. cbn [fst snd] in *.
  set (x0 := Ending (@Scheduler.set_env epoll_task r m) []). destruct (abandon_all w destroyer Hd ops x0 He) as [Hs Ht]. set (x1 := abandon_operations destroyer ops x0) in *.
  set (x2 := on_mach (Scheduler.on_sched Scheduler.set_shutdown) x1).
  assert (emptied (env (mach x2))) as He2 by by apply Hs.
  assert (Scheduler.op_queue_ (sched (mach x2)) = Scheduler.op_queue_ (sched m)) as Hq by (cbn; by rewrite (se_sched _ _ Hs)).
  destruct (destroy_queue_ends w destroyer Hd (S (length (Scheduler.op_queue_ (sched m)))) x2 He2) as (x3 & Hx3 & He3 & Hq3 & Hh3 & Hf3 & Ht3); [rewrite Hq; lia|].
  assert (handled (env (mach x3)) = handled (env m)) as Hh4 by (rewrite Hh3; cbn; rewrite (se_handled _ _ Hs); exact Hhandled).
  exists (on_mach (Scheduler.on_sched forget_task) x3). unfold shutdown_scheduler. fold x2. rewrite Hx3.
  cbn [on_mach mach destroyed env Scheduler.on_sched sched Scheduler.op_queue_ forget_task]. rewrite Hh4.
  split_and!; [done| |done|done|by apply He3|].
  - rewrite Ht3, Hq. change (destroyed x2) with (destroyed x1). rewrite Ht. change (tally w (destroyed x0)) with 0.
    change (@Scheduler.Op epoll_task) with operation in *. lia.
  - intros d Hal. assert (d ∈ free_list_ (env (mach x3))) as Hin by (apply Hf3; cbn; by apply Hs, Hpool).
    split; [done|]. split; [by apply He3|apply He3].
Qed.

(** ** Examples *)

(** The system of [EpollWakeups], one socket; a handler goes by its socket. *)
#[local] Existing Instance EpollWakeups.toy_epoll.
#[local] Instance lab_handlers : @OpHandlers EpollWakeups.toy_epoll.
Proof.
  refine (@Build_OpHandlers EpollWakeups.toy_epoll (fun o => Z.to_nat (EpollWakeups.toy_fd o)) _ (fun _ _ => eq_refl)).
  intros o k st o' k'. cbn. unfold EpollWakeups.toy_perform. destruct (_ && _); [|by intros [= <- <- <-]].
  destruct (EpollWakeups.arrived k); [destruct (EpollWakeups.closed k)|]; by intros [= <- <- <-].
Defined.
Definition lab_kernel : Kern := EpollWakeups.Toy [] false None false.
Definition lab_read : rop := EpollWakeups.toy_read.
Definition lab_arrives : Kern -> Kern := EpollWakeups.toy_deliver ["x"%char] false.
Definition lab_calls : list call :=
  [Request (RegisterDescriptor 5); Request (StartOp read_op 5 (Some 0%nat) lab_read false true)].
Definition lab_silent (o : operation) : list request := [].
(** The handler of the read holds the socket: its destructor closes it. *)
Definition lab_closing (o : operation) : list request :=
  match o with ReactorOp _ => [CloseDescriptor 5 (Some 0%nat) true] | _ => [] end.

Lemma run_answers_witness :
  let m := foldl (flip (invoke lab_silent)) (new_machine 7 lab_kernel)
    (lab_calls ++ [Elapse lab_arrives]) in
  (Scheduler.run (complete lab_silent) 9 m).1 = Some 1 /\
  tally (SocketHandler 5) (handled (env (Scheduler.run (complete lab_silent) 9 m).2)) = 1.
Proof.
  intros m. assert ((Scheduler.run (complete lab_silent) 9 m).1 = Some 1) as Hrun by (vm_compute; reflexivity).
  split; [exact Hrun|]. symmetry.
  destruct (run_answers lab_silent (lab_calls ++ [Elapse lab_arrives]) 7 lab_kernel 9 1 ltac:(vm_compute; reflexivity) Hrun) as (_ & _ & Hw).
  exact (Hw (SocketHandler 5)).
Defined.

Lemma context_ends_witness :
  let m := foldl (flip (invoke lab_silent)) (new_machine 7 lab_kernel) lab_calls in
  exists x, end_context lab_closing [0%nat] 2 m = Some x /\ tally (SocketHandler 5) (destroyed x) = 1 /\
    free_list_ (env (mach x)) = [0%nat].
Proof.
  destruct (context_ends lab_silent lab_closing lab_calls 7 lab_kernel [0%nat] (SocketHandler 5)) as (x & Hx & Hw & _).
  - repeat constructor.
  - intros o. constructor.
  - intros [d|o|t]; repeat constructor.
  - repeat constructor. apply not_elem_of_nil.
  - intros d. rewrite list_elem_of_singleton. split.
    + intros ->. split; [by eexists|apply not_elem_of_nil].
    + intros [Hs _]. apply elem_of_dom in Hs.
      assert (dom (registered_descriptors_ (env (foldl (flip (invoke lab_silent)) (new_machine 7 lab_kernel) lab_calls))) = {[0%nat]}) as Hdom
        by (vm_compute; reflexivity).
      rewrite Hdom in Hs. by apply elem_of_singleton in Hs.
  - exists x. split; [exact Hx|]. revert Hw. vm_compute in Hx. injection Hx as <-. intros _. split; reflexivity.
Defined.
