(* ===== verification/SocketService.v ===== *)
(** * [asio::detail::reactive_socket_service]: sockets over the reactor

    Models [include/asio/detail/impl/reactive_socket_service_base.ipp] and the parts of
    [detail/reactive_socket_service_base.hpp] and [detail/reactive_socket_service.hpp] that
    the program reaches: opening, assigning, closing and moving a socket, its two
    non-blocking modes, and the starts of the asynchronous operations over the system calls
    ([SocketOps]) and the reactor ([EpollReactor]).

    The attempts that [EpollReactor] leaves open are made here: an operation of the reactor
    is a [socket_op], and performing it is the attempt of [SocketOps]. *)
From S2P Require Import Prelude Endpoint SocketOps EpollReactor.
From S2P Require Scheduler.
Import Scheduler (machine, Machine, env, sched).
Open Scope Z_scope.

Definition SOCK_STREAM : Z := 1.
Definition SOCK_DGRAM : Z := 2.
Definition MSG_OOB : Z := 1.

(** The system calls, with those of epoll on the same state. *)
Class SocketSystem := {
  calls :: Sys;
  sys_socket : Z -> Z -> Z -> K -> sysres Z * K;            (** family, type, protocol *)
  (** how often a signal may interrupt an attempt *)
  eintr : nat;
  (** the configuration ["reactor", "reset_edge_on_partial_read"] *)
  config_reset_edge : bool;
  sys_epoll_ctl : ctl -> Z -> Z -> nat -> K -> error_code * K;
  sys_epoll_wait : Z -> K -> list (source * Z) * K;
  sys_timerfd_settime : Z -> Z -> K -> K;
  sys_interrupt : K -> K;
  sys_clock : K -> Z;
}.

(** ** The operations *)

Inductive attempt :=
  | Receive (size : nat) (flags : Z)
  | Send (data : list ascii) (flags : Z)
  | ReceiveFrom (size : nat) (flags : Z)
  | SendTo (data : list ascii) (flags : Z) (destination : endpoint_t)
  | Accept
  | Connect.

(** [reactive_socket_*_op]: the socket and the flags it had, what to attempt, the results
    ([bytes_transferred_] and the buffer, the sender, the new socket), [ec_], and the
    handler by number. *)
Record socket_op := SocketOp {
  op_socket : Z;
  op_state : Z;
  op_attempt : attempt;
  op_bytes : list ascii;
  op_sent : nat;
  op_sender : option endpoint_t;
  op_accepted : Z;
  ec_ : error_code;
  cancellation_key_ : nat;
  op_handler : nat;
}.

Definition new_op (socket state : Z) (a : attempt) (key handler : nat) : socket_op :=
  SocketOp socket state a [] 0 None invalid_socket None key handler.
Definition set_ec (ec : error_code) (o : socket_op) : socket_op :=
  SocketOp (op_socket o) (op_state o) (op_attempt o) (op_bytes o) (op_sent o) (op_sender o) (op_accepted o) ec
    (cancellation_key_ o) (op_handler o).
Definition set_results (bytes : list ascii) (sent : nat) (sender : option endpoint_t) (accepted : Z) (ec : error_code)
    (o : socket_op) : socket_op :=
  SocketOp (op_socket o) (op_state o) (op_attempt o) bytes sent sender accepted ec (cancellation_key_ o) (op_handler o).

Definition oob (flags : Z) : bool := has MSG_OOB flags.
(** The queue of the reactor that an operation goes to. *)
Definition direction (a : attempt) : op_type :=
  match a with
  | Receive _ flags | ReceiveFrom _ flags => if oob flags then except_op else read_op
  | Send _ _ | SendTo _ _ _ | Connect => write_op
  | Accept => read_op
  end.

Section service.
  Context `{SocketSystem}.

(** [do_perform]; out of fuel, the operation has to wait. *)
Definition perform_op (o : socket_op) (k : K) : status * socket_op * K :=
  let s := op_socket o in let state := op_state o in
  match op_attempt o with
  | Receive size flags =>
      match recv_perform eintr s state size flags k with
      | None => (not_done, o, k)
      | Some ((st, bytes, ec), k) => (st, set_results bytes 0 None invalid_socket ec o, k)
      end
  | Send data flags =>
      match send_perform eintr s state data flags k with
      | None => (not_done, o, k)
      | Some ((st, n, ec), k) => (st, set_results [] n None invalid_socket ec o, k)
      end
  | ReceiveFrom size flags =>
      match recvfrom_perform eintr s size flags k with
      | None => (not_done, o, k)
      | Some ((st, bytes, from, ec), k) => (st, set_results bytes 0 from invalid_socket ec o, k)
      end
  | SendTo data flags destination =>
      match sendto_perform eintr s data flags destination k with
      | None => (not_done, o, k)
      | Some ((st, n, ec), k) => (st, set_results [] n None invalid_socket ec o, k)
      end
  | Accept =>
      match accept_perform eintr s state k with
      | None => (not_done, o, k)
      | Some ((st, (new_socket, peer), ec), k) => (st, set_results [] 0 peer new_socket ec o, k)
      end
  | Connect =>
      let '((st, ec), k) := connect_perform s (ec_ o) k in (st, set_ec ec o, k)
  end.

#[export] Instance socket_epoll : Epoll := {|
  Kern := K;
  rop := socket_op;
  perform := perform_op;
  set_op_ec := fun e => set_ec (Some e);
  op_key := cancellation_key_;
  epoll_ctl := sys_epoll_ctl;
  epoll_wait := sys_epoll_wait;
  timerfd_settime := sys_timerfd_settime;
  interrupt_epoll := sys_interrupt;
  clock := sys_clock;
|}.
#[local] Abbreviation machine := (@Scheduler.machine (@epoll_task socket_epoll)).

(** ** The implementation of a socket *)

Record impl := Impl { socket_ : Z; state_ : Z; reactor_data_ : option nat }.

Definition construct : impl := Impl invalid_socket 0 None.
Definition is_open (i : impl) : bool := negb (socket_ i =? invalid_socket).

(** A system call on the state of the system. *)
Definition on_kern {A} (f : K -> A * K) (m : machine) : A * machine :=
  let '(a, k) := f (kern (env m)) in (a, on_env (set_kern k) m).
Definition with_state (state : Z) (i : impl) : impl := Impl (socket_ i) state (reactor_data_ i).

Definition extra_state_ : Z := if config_reset_edge then reset_edge_on_partial_read else 0.
Definition initial_state (type : Z) : Z :=
  if type =? SOCK_STREAM then Z.lor stream_oriented extra_state_
  else if type =? SOCK_DGRAM then Z.lor datagram_oriented extra_state_
  else 0.

(** [socket_ops::socket] *)
Definition socket (af type protocol : Z) (k : K) : (Z * error_code) * K :=
  let '(r, k) := sys_socket af type protocol k in
  match r with Done s => ((s, None), k) | Errno e => ((invalid_socket, Some e), k) end.

Definition register (s : Z) (m : machine) : (nat * error_code) * machine :=
  let '(res, r) := register_descriptor s (env m) in (res, Scheduler.set_env r m).

(** The socket that could not be registered is closed by its holder; the state of the
    descriptor stays with the implementation. *)
Definition do_open (i : impl) (af type protocol : Z) (m : machine) : (error_code * impl) * machine :=
  if is_open i then ((Some already_open, i), m)
  else
    let '((s, ec), m) := on_kern (socket af type protocol) m in
    if s =? invalid_socket then ((ec, i), m)
    else
      let '((d, err), m) := register s m in
      match err with
      | Some e =>
          let '(_, m) := on_kern (close s 0 None) m in ((Some e, Impl (socket_ i) (state_ i) (Some d)), m)
      | None => ((None, Impl s (initial_state type) (Some d)), m)
      end.
Definition do_assign (i : impl) (type native_socket : Z) (m : machine) : (error_code * impl) * machine :=
  if is_open i then ((Some already_open, i), m)
  else
    let '((d, err), m) := register native_socket m in
    match err with
    | Some e => ((Some e, Impl (socket_ i) (state_ i) (Some d)), m)
    | None => ((None, Impl native_socket (raise possible_dup (initial_state type)) (Some d)), m)
    end.

(** Out of the reactor, closed, and the state of the descriptor given back. *)
Definition close_impl (i : impl) (ec : error_code) (m : machine) : error_code * machine :=
  let '(data, m) := deregister_descriptor (socket_ i) (reactor_data_ i) (negb (has possible_dup (state_ i))) m in
  let '((_, ec), m) := on_kern (close (socket_ i) (state_ i) ec) m in
  (ec, cleanup_descriptor_data data m).
Definition destroy (i : impl) (m : machine) : machine :=
  if is_open i then (close_impl i None m).2 else m.
Definition close_socket (i : impl) (m : machine) : (error_code * impl) * machine :=
  if is_open i then let '(ec, m) := close_impl i None m in ((ec, construct), m) else ((None, construct), m).
Definition release (i : impl) (m : machine) : (Z * error_code * impl) * machine :=
  if negb (is_open i) then ((invalid_socket, Some bad_descriptor, i), m)
  else
    let '(data, m) := deregister_descriptor (socket_ i) (reactor_data_ i) false m in
    ((socket_ i, None, construct), cleanup_descriptor_data data m).
Definition cancel (i : impl) (m : machine) : error_code * machine :=
  if negb (is_open i) then (Some bad_descriptor, m) else (None, cancel_ops (reactor_data_ i) m).

(** The new implementation and the one moved from. *)
Definition base_move_construct (other : impl) : impl * impl := (other, construct).
Definition base_move_assign (i other : impl) (m : machine) : (impl * impl) * machine :=
  ((other, construct), destroy i m).

(** ** The modes *)

Definition user_non_blocking (i : impl) (mode : bool) (m : machine) : (error_code * impl) * machine :=
  let '((state, ec), m) := on_kern (set_user_non_blocking (socket_ i) (state_ i) mode) m in ((ec, with_state state i), m).
Definition native_non_blocking (i : impl) (mode : bool) (m : machine) : (error_code * impl) * machine :=
  let '((state, ec), m) := on_kern (set_internal_non_blocking (socket_ i) (state_ i) mode) m in ((ec, with_state state i), m).

(** ** Starting operations *)

Definition post_now (o : socket_op) (is_continuation : bool) (m : machine) : machine :=
  @Scheduler.post_immediate_completion (@epoll_task socket_epoll) (ReactorOp o) is_continuation m.

Definition do_start_op (i : impl) (j : op_type) (o : socket_op) (is_continuation allow_speculative noop needs_non_blocking : bool)
    (m : machine) : impl * machine :=
  if noop then (i, post_now o is_continuation m)
  else if has non_blocking (state_ i) || negb needs_non_blocking then
    (i, start_op j (socket_ i) (reactor_data_ i) o is_continuation allow_speculative m)
  else
    let '((ec, i), m) := native_non_blocking i true m in
    match ec with
    | None => (i, start_op j (socket_ i) (reactor_data_ i) (set_ec None o) is_continuation allow_speculative m)
    | Some e => (i, post_now (set_ec (Some e) o) is_continuation m)
    end.
Definition do_start_accept_op (i : impl) (o : socket_op) (is_continuation peer_is_open : bool) (m : machine) : impl * machine :=
  if negb peer_is_open then do_start_op i read_op o is_continuation true false true m
  else (i, post_now (set_ec (Some already_open) o) is_continuation m).
Definition start_connecting (i : impl) (o : socket_op) (is_continuation : bool) (addr : endpoint_t) (m : machine) : machine :=
  let '(ec, m) := on_kern (connect (socket_ i) addr) m in
  if ec_is ec in_progress || ec_is ec would_block then
    start_op write_op (socket_ i) (reactor_data_ i) (set_ec None o) is_continuation false m
  else post_now (set_ec ec o) is_continuation m.
Definition do_start_connect_op (i : impl) (o : socket_op) (is_continuation : bool) (addr : endpoint_t) (m : machine)
    : impl * machine :=
  if has non_blocking (state_ i) then (i, start_connecting i o is_continuation addr m)
  else
    let '((ec, i), m) := native_non_blocking i true m in
    match ec with
    | None => (i, start_connecting i (set_ec None o) is_continuation addr m)
    | Some e => (i, post_now (set_ec (Some e) o) is_continuation m)
    end.

(** An asynchronous operation, but for [async_accept] and [async_connect]: the queue, whether
    an attempt may be made at once, and whether there is nothing to do. *)
Definition async_op (i : impl) (a : attempt) (key handler : nat) (is_continuation allow_speculative noop : bool) (m : machine)
    : impl * machine :=
  do_start_op i (direction a) (new_op (socket_ i) (state_ i) a key handler) is_continuation allow_speculative noop true m.

Definition async_send (i : impl) (data : list ascii) (flags : Z) (key handler : nat) (cont : bool) : machine -> impl * machine :=
  async_op i (Send data flags) key handler cont true (has stream_oriented (state_ i) && (length data =? 0)%nat).
Definition async_receive (i : impl) (size : nat) (flags : Z) (key handler : nat) (cont : bool) : machine -> impl * machine :=
  async_op i (Receive size flags) key handler cont (negb (oob flags)) (has stream_oriented (state_ i) && (size =? 0)%nat).
Definition async_send_to (i : impl) (data : list ascii) (flags : Z) (destination : endpoint_t) (key handler : nat) (cont : bool)
    : machine -> impl * machine :=
  async_op i (SendTo data flags destination) key handler cont true false.
Definition async_receive_from (i : impl) (size : nat) (flags : Z) (key handler : nat) (cont : bool) : machine -> impl * machine :=
  async_op i (ReceiveFrom size flags) key handler cont true false.
Definition async_accept (i : impl) (key handler : nat) (cont peer_is_open : bool) : machine -> impl * machine :=
  do_start_accept_op i (new_op (socket_ i) (state_ i) Accept key handler) cont peer_is_open.
Definition async_connect (i : impl) (addr : endpoint_t) (key handler : nat) (cont : bool) : machine -> impl * machine :=
  do_start_connect_op i (new_op (socket_ i) (state_ i) Connect key handler) cont addr.

(** [reactor_op_cancellation], for one operation of the socket.  A receive looks for its
    operation among the reads, whatever its flags are. *)
Definition cancellation_queue (a : attempt) : op_type :=
  match a with
  | Receive _ _ | ReceiveFrom _ _ | Accept => read_op
  | Send _ _ | SendTo _ _ _ | Connect => write_op
  end.
Definition cancel_operation (i : impl) (a : attempt) (key : nat) : machine -> machine :=
  cancel_ops_by_key (reactor_data_ i) (cancellation_queue a) key.
End service.
