(* ===== verification/SocketSafety.v ===== *)
(** * Sockets over the reactor: nothing is forgotten and nothing blocks

    The sockets of a program ([SocketService]) use the reactor ([EpollReactor]) the way its
    proofs ([EpollWakeups]) ask for: whatever the program does with its sockets, every
    request is well formed, so no readiness goes unnoticed; and a descriptor with pending
    operations is in non-blocking mode, as long as nobody takes that mode away while they
    are pending.  The two modes and the descriptor table come from the laws of the system. *)
From S2P Require Import Prelude Endpoint SocketOps EpollReactor EpollWakeups SocketService.
From S2P Require Scheduler TimerQueue.
Import Scheduler (machine, Machine, env, sched).
Open Scope Z_scope.

(** What an operation is made for, and that it asks for something. *)
Definition valid (o : socket_op) : Prop :=
  match op_attempt o with
  | Receive size _ => has stream_oriented (op_state o) = true -> (0 < size)%nat
  | Send data _ => has stream_oriented (op_state o) = true -> data <> []
  | _ => True
  end.
#[export] Instance socket_ops_of `{SocketSystem} : @EpollOps socket_epoll :=
  {| op_fd := op_socket : @rop socket_epoll -> Z; op_dir := fun o => direction (op_attempt o); op_valid := valid |}.

(** The descriptor table. *)
Class Descriptors `{SocketSystem} := { in_use : Z -> K -> bool }.

Section relations.
  Context `{SocketSystem} `{!@EpollState socket_epoll} `{!Descriptors} `{!SysModes}.

(** epoll watches the descriptor for the state [d]. *)
Definition registered_with (d : nat) (fd : Z) (k : K) : Prop := exists events, watched k fd = Some (d, events).

(** A descriptor in use stays open, in its mode, and registered. *)
Definition settled_at (fd : Z) (k k' : K) : Prop :=
  in_use fd k = true -> in_use fd k' = true /\ nonblock fd k' = nonblock fd k /\
    forall d, registered_with d fd k -> registered_with d fd k'.
(** Every one, but for [s]. *)
Definition settled_but (s : Z) (k k' : K) : Prop := forall fd, fd <> s -> settled_at fd k k'.
Definition settled (k k' : K) : Prop := forall fd, settled_at fd k k'.

(** A change of what [s] is, not of what is registered. *)
Definition mode_quiet (s : Z) (k k' : K) : Prop :=
  calm k k' /\ settled_but s k k' /\ in_use s k' = in_use s k /\ forall d, registered_with d s k -> registered_with d s k'.
End relations.

Class SocketLaws `{SocketSystem} `{!@EpollState socket_epoll} `{!Descriptors} `{!SysModes} : Prop := {
  laws_epoll :: @EpollOk socket_epoll socket_ops_of _;
  invalid_unused k : in_use invalid_socket k = false;
  perform_settled o k : settled k (perform_op o k).2;
  ctl_settled c fd ev d k : let k' := (sys_epoll_ctl c fd ev d k).2 in
    settled_but fd k k' /\ in_use fd k' = in_use fd k /\ nonblock fd k' = nonblock fd k;
  wait_settled usec k : settled k (sys_epoll_wait usec k).2;
  settime_settled fl usec k : settled k (sys_timerfd_settime fl usec k);
  interrupt_settled k : settled k (sys_interrupt k);
  connect_quiet s addr k : calm k (sys_connect s addr k).2 /\ settled k (sys_connect s addr k).2;
  fionbio_quiet s v k : mode_quiet s k (sys_fionbio s v k).2;
  getfl_quiet s k : mode_quiet s k (sys_getfl s k).2;
  setfl_quiet s fl k : mode_quiet s k (sys_setfl s fl k).2;
  close_quiet s k : let k' := (sys_close s k).2 in calm k k' /\ settled_but s k k';
  socket_fresh af type protocol k : let '(r, k') := sys_socket af type protocol k in
    calm k k' /\ settled k k' /\
    match r with
    | Errno _ => True
    | Done s => s <> invalid_socket /\ in_use s k = false /\ in_use s k' = true /\ nonblock s k' = false /\ watched k' s = None
    end;
}.

Section program.
  Context `{SocketSystem} `{!@EpollState socket_epoll} `{!Descriptors} `{!SysModes}.
  #[local] Abbreviation machine := (@Scheduler.machine (@epoll_task socket_epoll)).

(** ** What a program does with a socket *)

Inductive call :=
  | Open (af type protocol : Z)
  | Assign (type native_socket : Z)
  | Close
  | Cancel
  | CancelOperation (a : attempt) (key : nat)
  | UserNonBlocking (mode : bool)
  | NativeNonBlocking (mode : bool)
  | AsyncSend (data : list ascii) (flags : Z) (key handler : nat) (cont : bool)
  | AsyncReceive (size : nat) (flags : Z) (key handler : nat) (cont : bool)
  | AsyncSendTo (data : list ascii) (flags : Z) (destination : endpoint_t) (key handler : nat) (cont : bool)
  | AsyncReceiveFrom (size : nat) (flags : Z) (key handler : nat) (cont : bool)
  | AsyncAccept (key handler : nat) (cont peer_is_open : bool)
  | AsyncConnect (addr : endpoint_t) (key handler : nat) (cont : bool).

Definition perform_call (c : call) (i : impl) (m : machine) : impl * machine :=
  match c with
  | Open af type protocol => let '((_, i), m) := do_open i af type protocol m in (i, m)
  | Assign type s => let '((_, i), m) := do_assign i type s m in (i, m)
  | Close => let '((_, i), m) := close_socket i m in (i, m)
  | Cancel => (i, (cancel i m).2)
  | CancelOperation a key => (i, cancel_operation i a key m)
  | UserNonBlocking mode => let '((_, i), m) := user_non_blocking i mode m in (i, m)
  | NativeNonBlocking mode => let '((_, i), m) := native_non_blocking i mode m in (i, m)
  | AsyncSend data flags key h cont => async_send i data flags key h cont m
  | AsyncReceive size flags key h cont => async_receive i size flags key h cont m
  | AsyncSendTo data flags to key h cont => async_send_to i data flags to key h cont m
  | AsyncReceiveFrom size flags key h cont => async_receive_from i size flags key h cont m
  | AsyncAccept key h cont peer => async_accept i key h cont peer m
  | AsyncConnect addr key h cont => async_connect i addr key h cont m
  end.

(** The sockets of the program by number, and the reactor. *)
Record system := System { sockets : gmap nat impl; reactor_ : reactor }.

(** Nothing is pending on a socket. *)
Definition idle (i : impl) (r : reactor) : Prop :=
  forall d, reactor_data_ i = Some d -> op_queue_ (state_of d r) = all_types [].

(** What is asked of the program: a descriptor handed over is one of its own, new to the
    reactor and in blocking mode; non-blocking mode is not taken from pending operations. *)
Definition call_ok (c : call) (i : impl) (x : system) : Prop :=
  match c with
  | Assign _ s =>
      s <> invalid_socket /\ watched (kern (reactor_ x)) s = None /\ in_use s (kern (reactor_ x)) = true /\
      nonblock s (kern (reactor_ x)) = false /\
      forall n i', sockets x !! n = Some i' -> socket_ i' <> s
  | UserNonBlocking false | NativeNonBlocking false => idle i (reactor_ x)
  | _ => True
  end.

Inductive sstep : system -> system -> Prop :=
  | s_new n x : sockets x !! n = None -> sstep x (System (<[n := construct]> (sockets x)) (reactor_ x))
  | s_call n i c x (m : machine) : sockets x !! n = Some i -> reactor_ x = env m -> call_ok c i x ->
      sstep x (System (<[n := (perform_call c i m).1]> (sockets x)) (env (perform_call c i m).2))
  | s_destroy n i x (m : machine) : sockets x !! n = Some i -> reactor_ x = env m ->
      sstep x (System (delete n (sockets x)) (env (destroy i m)))
  | s_move n i n' other x (m : machine) : n <> n' -> sockets x !! n = Some i -> sockets x !! n' = Some other -> reactor_ x = env m ->
      sstep x (System (<[n := (base_move_assign i other m).1.1]> (<[n' := (base_move_assign i other m).1.2]> (sockets x)))
                (env (base_move_assign i other m).2))
  | s_timer rq x (m : machine) : reactor_ x = env m ->
      match rq with ScheduleTimer _ _ _ | CancelTimer _ _ | CancelTimerByKey _ _ => True | _ => False end ->
      sstep x (System (sockets x) (env (serve rq m)))
  | s_run usec x : sstep x (System (sockets x) (run usec (reactor_ x)).2)
  | s_perform d x (m : machine) : reactor_ x = env m -> sstep x (System (sockets x) (env (perform_descriptor d m).2))
  | s_net k x : calm (kern (reactor_ x)) k -> settled (kern (reactor_ x)) k ->
      sstep x (System (sockets x) (set_kern k (reactor_ x))).

(** ** The invariant *)

Record owned (r : reactor) (i : impl) : Prop := {
  ow_data : exists d, reactor_data_ i = Some d /\ shutdown_ (state_of d r) = false /\
    descriptor_ (state_of d r) = socket_ i /\
    (has non_blocking (state_ i) = false -> op_queue_ (state_of d r) = all_types []) /\
    (registered_events_ (state_of d r) <> 0 -> registered_with d (socket_ i) (kern r));
  ow_used : in_use (socket_ i) (kern r) = true;
  ow_mode : mirrors (socket_ i) (state_ i) (kern r);
}.

Record system_ok (x : system) : Prop := {
  sy_wakeful : wakeful (reactor_ x);
  sy_open : forall n i, sockets x !! n = Some i -> is_open i = true -> owned (reactor_ x) i;
  sy_closed : forall n i, sockets x !! n = Some i -> is_open i = false -> state_ i = 0;
  sy_apart : forall n n' i i', sockets x !! n = Some i -> sockets x !! n' = Some i' -> is_open i = true ->
    socket_ i = socket_ i' -> n = n';
}.
End program.

Section proof.
  Context `{SocketLaws}.
  #[local] Abbreviation machine := (@Scheduler.machine (@epoll_task socket_epoll)).

Lemma settled_at_refl fd k : settled_at fd k k.
Proof. intros Hfd. by split_and!. Qed.
Lemma settled_at_trans fd k1 k2 k3 : settled_at fd k1 k2 -> settled_at fd k2 k3 -> settled_at fd k1 k3.
Proof. intros H12 H23 Hfd. destruct (H12 Hfd) as (Hu & <- & Hr). destruct (H23 Hu) as (? & ? & ?). split_and!; auto. Qed.
Lemma settled_refl k : settled k k.
Proof. intros fd. apply settled_at_refl. Qed.
Lemma settled_trans k1 k2 k3 : settled k1 k2 -> settled k2 k3 -> settled k1 k3.
Proof. intros H12 H23 fd. by apply (settled_at_trans fd k1 k2). Qed.
Lemma settled_but_refl s k : settled_but s k k.
Proof. intros fd _. apply settled_at_refl. Qed.
Lemma settled_but_trans s k1 k2 k3 : settled_but s k1 k2 -> settled_but s k2 k3 -> settled_but s k1 k3.
Proof. intros H12 H23 fd Hne. apply (settled_at_trans fd k1 k2); auto. Qed.
Lemma settled_weaken s k k' : settled k k' -> settled_but s k k'.
Proof. intros Hk fd _. apply Hk. Qed.

(** The descriptor [fd] stays with the state [d], if that is where it is. *)
Definition settled_own (fd : Z) (d : nat) (k k' : K) : Prop :=
  settled_but fd k k' /\ (in_use fd k = true -> in_use fd k' = true /\ nonblock fd k' = nonblock fd k) /\
  (in_use fd k = true -> registered_with d fd k -> registered_with d fd k').
Lemma settled_own_weaken fd d k k' : settled k k' -> settled_own fd d k k'.
Proof. intros Hk. split_and!; [intros fd' _; apply Hk|intros Hu; destruct (Hk fd Hu) as (? & ? & ?); by split|]. intros Hu. by apply (Hk fd Hu). Qed.
Lemma settled_own_trans fd d k1 k2 k3 : settled_own fd d k1 k2 -> settled_own fd d k2 k3 -> settled_own fd d k1 k3.
Proof.
  intros (Hb1 & Hu1 & Hr1) (Hb2 & Hu2 & Hr2). split_and!; [by apply (settled_but_trans _ k1 k2)| |].
  - intros Hu. destruct (Hu1 Hu) as [Hu' <-]. by apply Hu2.
  - intros Hu Hr. destruct (Hu1 Hu) as [Hu' _]. by apply Hr2, Hr1.
Qed.

(** A step of the reactor for the state [d] of the descriptor [fd]. *)
Record touched (fd : Z) (d : nat) (r r' : reactor) : Prop := {
  to_others : forall d', d' <> d -> state_of d' r' = state_of d' r;
  to_descriptor : descriptor_ (state_of d r') = descriptor_ (state_of d r);
  to_shutdown : shutdown_ (state_of d r') = shutdown_ (state_of d r);
  to_registered : registered_events_ (state_of d r') <> 0 -> registered_events_ (state_of d r) <> 0;
  to_settled : settled_own fd d (kern r) (kern r');
}.
Lemma touched_refl fd d r : touched fd d r r.
Proof. by split. Qed.
Lemma touched_trans fd d r1 r2 r3 : touched fd d r1 r2 -> touched fd d r2 r3 -> touched fd d r1 r3.
Proof.
  intros [Ho1 Hd1 Hs1 He1 Hk1] [Ho2 Hd2 Hs2 He2 Hk2]. split; [|congruence|congruence|auto|by apply (settled_own_trans _ _ _ (kern r2))].
  intros d' Hne. rewrite Ho2 by done. by apply Ho1.
Qed.
Lemma touched_own fd d k r : settled_own fd d (kern r) k -> touched fd d r (set_kern k r).
Proof. intros Hk. by split. Qed.
Lemma touched_kern fd d k r : settled (kern r) k -> touched fd d r (set_kern k r).
Proof. intros Hk. by apply touched_own, settled_own_weaken. Qed.
Lemma touched_on fd d f r : (let s := state_of d r in descriptor_ (f s) = descriptor_ s /\ shutdown_ (f s) = shutdown_ s /\
  (registered_events_ (f s) <> 0 -> registered_events_ s <> 0)) -> touched fd d r (on_descriptor d f r).
Proof.
  intros (Hd & Hs & He). split; [|by rewrite state_of_on..|apply settled_own_weaken, settled_refl].
  intros d' Hne. by apply state_of_ne.
Qed.

(** A registration that is renewed is not lost. *)
Lemma modify_touched fd d ev r : touched fd d r (modify_events fd d ev r).2.
Proof.
  unfold modify_events. destruct (ctl_settled CtlMod fd ev d (kern r)) as (Hb & Hu & Hn). cbn in *.
  pose proof (ctl_mod fd ev d (kern r)) as Hm. cbn in Hm. destruct (sys_epoll_ctl CtlMod fd ev d (kern r)) as [ec k]. specialize (Hm _ _ eq_refl).
  apply touched_own. split_and!; [done|by intros <-|]. intros _ [ev0 Hw]. rewrite Hw in Hm. destruct Hm as [_ [Hm _]]. by exists ev.
Qed.
Lemma modify_state fd d ev r d' : state_of d' (modify_events fd d ev r).2 = state_of d' r.
Proof. unfold modify_events. by destruct (epoll_ctl _ _ _ _ _). Qed.
Lemma start_waiting_touched j fd d o r : touched fd d r (start_waiting j fd d o r).2.
Proof.
  unfold start_waiting. destruct (Z.eqb_spec (registered_events_ (state_of d r)) 0) as [|Hne]; [apply touched_refl|].
  destruct (bool_decide _ && _); [|by apply touched_on].
  match goal with |- context [modify_events ?a ?b ?c ?e] => pose proof (modify_touched a b c e) as Hm;
    pose proof (modify_state a b c e d) as Hst; destruct (modify_events a b c e) as [[e1|] r1] end;
    [done|]. apply (touched_trans fd d r r1); [done|]. apply touched_on. cbn [snd] in Hst. by rewrite Hst.
Qed.
Lemma start_locked_touched j fd d o a r : touched fd d r (start_locked j fd d o a r).2.
Proof.
  unfold start_locked. destruct (shutdown_ _); [apply touched_refl|]. destruct (no_ops _ _); [|by apply touched_on].
  destruct (a && _).
  - unfold start_speculative. destruct (get j _); [|apply start_waiting_touched].
    pose proof (perform_settled o (kern r)) as Hp. cbn. destruct (perform_op o (kern r)) as [[st o'] k]; cbn in Hp.
    assert (touched fd d r (set_kern k r)) as Hk by by apply touched_kern.
    destruct st; [by apply (touched_trans fd d r _ _ Hk), start_waiting_touched|done|].
    cbn [snd]. destruct (_ =? 0); [done|]. apply (touched_trans fd d r _ _ Hk). by apply touched_on.
  - unfold start_registered. destruct (Z.eqb_spec (registered_events_ (state_of d r)) 0) as [|Hne]; [apply touched_refl|].
    set (ev := if bool_decide (j = write_op) then _ else _).
    assert (touched fd d r (on_descriptor d (set_registered ev) r)) as Hr by by apply touched_on.
    pose proof (modify_touched fd d ev (on_descriptor d (set_registered ev) r)) as Hm.
    destruct (modify_events _ _ _ _) as [ec r1]. cbn [snd] in *.
    apply (touched_trans fd d r _ _ Hr), (touched_trans fd d _ _ _ Hm). by apply touched_on.
Qed.
Lemma start_op_touched j fd d o c a (m : machine) : touched fd d (env m) (env (start_op j fd (Some d) o c a m)).
Proof.
  unfold start_op. pose proof (start_locked_touched j fd d o a (env m)) as Ht.
  destruct (start_locked j fd d o a (env m)) as [[o'|] r]; [by rewrite post_immediate_env|done].
Qed.

(** *** Other sockets *)

Definition frame_state (s s' : descriptor_state) : Prop :=
  descriptor_ s' = descriptor_ s /\ shutdown_ s' = shutdown_ s /\ (op_queue_ s = all_types [] -> op_queue_ s' = all_types []) /\
  (registered_events_ s' <> 0 -> registered_events_ s <> 0).
Lemma state_frame_refl s : frame_state s s.
Proof. done. Qed.
Lemma state_frame_trans s1 s2 s3 : frame_state s1 s2 -> frame_state s2 s3 -> frame_state s1 s3.
Proof. intros (Hd1 & Hs1 & Hq1 & He1) (Hd2 & Hs2 & Hq2 & He2). split_and!; [congruence|congruence|auto|auto]. Qed.

Lemma owned_framed r r' i : owned r i ->
  (forall d, reactor_data_ i = Some d -> shutdown_ (state_of d r) = false -> descriptor_ (state_of d r) = socket_ i ->
     frame_state (state_of d r) (state_of d r')) ->
  settled_at (socket_ i) (kern r) (kern r') -> owned r' i.
Proof.
  intros [(d & Hd & Hs & Hfd & Hq & He) Hu Hm] Hf Hk. destruct (Hk Hu) as (Hu' & Hb & Hk'). destruct (Hf d Hd Hs Hfd) as (Hfd' & Hs' & Hq' & He').
  split; [|done|unfold mirrors in *; congruence]. exists d. split_and!; [done|congruence|congruence|auto|auto].
Qed.
Lemma open_valid i : is_open i = true -> socket_ i <> invalid_socket.
Proof. unfold is_open. intros Ho%negb_true_iff%Z.eqb_neq. done. Qed.
Lemma owned_valid r i : owned r i -> socket_ i <> invalid_socket.
Proof. intros [_ Hu _] Heq. rewrite Heq, invalid_unused in Hu. done. Qed.

(** What a call on the socket [i] leaves of the rest: states of descriptors in use that are
    not its own, and descriptors other than its own (and a new one). *)
Record leaves_others (i : impl) (r r' : reactor) : Prop := {
  lo_states : forall d, (is_open i = true -> reactor_data_ i <> Some d) -> shutdown_ (state_of d r) = false ->
    descriptor_ (state_of d r) <> invalid_socket -> frame_state (state_of d r) (state_of d r');
  lo_kern : settled_but (socket_ i) (kern r) (kern r');
}.
Lemma leaves_refl i r : leaves_others i r r.
Proof. split; [done|apply settled_but_refl]. Qed.
Lemma leaves_trans i r1 r2 r3 : leaves_others i r1 r2 -> leaves_others i r2 r3 -> leaves_others i r1 r3.
Proof.
  intros [Hs1 Hk1] [Hs2 Hk2]. split; [|by apply (settled_but_trans _ _ (kern r2))].
  intros d Hi Hsd Hfd. destruct (Hs1 d Hi Hsd Hfd) as (Hfd1 & Hsd1 & Hq1 & _).
  apply (state_frame_trans _ (state_of d r2)); [by apply Hs1|]. apply Hs2; [done|congruence|congruence].
Qed.
Lemma leaves_touched i d r r' : is_open i = true -> reactor_data_ i = Some d -> touched (socket_ i) d r r' -> leaves_others i r r'.
Proof.
  intros Ho Hd [Hoth _ _ _ [Hk _]]. split; [|done]. intros d' Hne _ _.
  rewrite Hoth; [apply state_frame_refl|]. intros ->. by apply Hne.
Qed.
Lemma leaves_kern i k r : settled_but (socket_ i) (kern r) k -> leaves_others i r (set_kern k r).
Proof. by split. Qed.

Lemma others_owned x n i r' n' i' : system_ok x -> sockets x !! n = Some i -> leaves_others i (reactor_ x) r' ->
  n' <> n -> sockets x !! n' = Some i' -> is_open i' = true -> owned r' i'.
Proof.
  intros Hx Hi [Hs Hk] Hne Hi' Ho'. pose proof (sy_open _ Hx n' i' Hi' Ho') as Hown.
  assert (socket_ i' <> socket_ i) as Hfd.
  { intros Heq. by apply Hne, (sy_apart _ Hx n' n i' i). }
  apply (owned_framed (reactor_ x)); [done| |].
  - intros d Hd Hsd Hds. apply Hs; [|done|rewrite Hds; by apply open_valid]. intros Ho Heq.
    destruct (ow_data _ _ (sy_open _ Hx n i Hi Ho)) as (d0 & Hd0 & _ & Hfd0 & _). congruence.
  - by apply Hk.
Qed.

(** One socket changes. *)
Lemma system_call x n i i' r' : system_ok x -> sockets x !! n = Some i -> wakeful r' -> leaves_others i (reactor_ x) r' ->
  (is_open i' = true -> owned r' i') -> (is_open i' = false -> state_ i' = 0) ->
  (is_open i' = true -> forall n' i'', n' <> n -> sockets x !! n' = Some i'' -> is_open i'' = true -> socket_ i'' <> socket_ i') ->
  system_ok (System (<[n := i']> (sockets x)) r').
Proof.
  intros Hx Hi Hw Hl Ho Hc Ha. split; cbn [sockets reactor_].
  - done.
  - intros n1 i1 [[-> <-]|[Hne Hi1]]%lookup_insert_Some Ho1; [by apply Ho|by apply (others_owned x n i r' n1)].
  - intros n1 i1 [[-> <-]|[Hne Hi1]]%lookup_insert_Some; [done|]. by apply (sy_closed _ Hx n1).
  - intros n1 n2 i1 i2 H1' H2' Ho1 Heq.
    assert (is_open i2 = true) as Ho2 by (unfold is_open in *; by rewrite <- Heq).
    apply lookup_insert_Some in H1' as [[-> <-]|[Hne1 H1']]; apply lookup_insert_Some in H2' as [[-> <-]|[Hne2 H2']]; try done.
    + exfalso. by apply (Ha Ho1 n2 i2).
    + exfalso. by apply (Ha Ho2 n1 i1).
    + by apply (sy_apart _ Hx n1 n2 i1 i2).
Qed.
(** The socket stays the same descriptor. *)
Lemma system_same x n i i' r' : system_ok x -> sockets x !! n = Some i -> wakeful r' -> leaves_others i (reactor_ x) r' ->
  socket_ i' = socket_ i -> (is_open i = true -> owned r' i') -> (is_open i = false -> state_ i' = 0) ->
  system_ok (System (<[n := i']> (sockets x)) r').
Proof.
  intros Hx Hi Hw Hl Hs Ho Hc. assert (is_open i' = is_open i) as Hoo by (unfold is_open; by rewrite Hs).
  apply (system_call x n i); try done; rewrite ?Hoo; try done.
  intros Hop n' i'' Hne Hi'' Ho'' Heq. apply Hne. apply (sy_apart _ Hx n' n i'' i); [done..|congruence].
Qed.

(** *** Calls that keep the descriptor *)

(** A socket between calls. *)
Record good (i : impl) (r : reactor) : Prop := {
  gd_wakeful : wakeful r;
  gd_open : is_open i = true -> owned r i;
  gd_closed : is_open i = false -> state_ i = 0;
}.
Record served (i : impl) (r : reactor) (i' : impl) (r' : reactor) : Prop := {
  sv_good : good i' r';
  sv_leaves : leaves_others i r r';
  sv_socket : socket_ i' = socket_ i;
  sv_data : reactor_data_ i' = reactor_data_ i;
}.
Lemma is_open_same i i' : socket_ i' = socket_ i -> is_open i' = is_open i.
Proof. unfold is_open. by intros ->. Qed.
Lemma served_refl i r : good i r -> served i r i r.
Proof. intros Hg. by split. Qed.
Lemma served_trans i1 r1 i2 r2 i3 r3 : served i1 r1 i2 r2 -> served i2 r2 i3 r3 -> served i1 r1 i3 r3.
Proof.
  intros [Hg2 Hl2 Hs2 Hd2] [Hg3 Hl3 Hs3 Hd3]. split; [done| |congruence|congruence].
  apply (leaves_trans _ _ r2); [done|]. destruct Hl3 as [Ha Hb]. split; [|by rewrite <- Hs2].
  intros d Hd. apply Ha. rewrite (is_open_same i1 i2), Hd2 by done. done.
Qed.
Lemma good_system x n i : system_ok x -> sockets x !! n = Some i -> good i (reactor_ x).
Proof. intros Hx Hi. split; [apply Hx|by apply (sy_open _ Hx n)|by apply (sy_closed _ Hx n)]. Qed.
Lemma served_system x n i i' r' : system_ok x -> sockets x !! n = Some i -> served i (reactor_ x) i' r' ->
  system_ok (System (<[n := i']> (sockets x)) r').
Proof.
  intros Hx Hi [[Hw Ho Hc] Hl Hs Hd]. pose proof (is_open_same i i' Hs) as Hoo. apply (system_same x n i); try done; by rewrite <- Hoo.
Qed.

(** The modes. *)
Lemma mode_quiet_refl s k : mode_quiet s k k.
Proof. split_and!; [apply calm_refl|apply settled_but_refl|done|done]. Qed.
Lemma mode_quiet_trans s k1 k2 k3 : mode_quiet s k1 k2 -> mode_quiet s k2 k3 -> mode_quiet s k1 k3.
Proof.
  intros (Hc1 & Hb1 & Hu1 & Hr1) (Hc2 & Hb2 & Hu2 & Hr2).
  split_and!; [by eapply calm_trans|by apply (settled_but_trans s k1 k2)|congruence|auto].
Qed.
Lemma fcntl_quiet s v k : mode_quiet s k (fcntl_non_blocking s v k).2.
Proof.
  unfold fcntl_non_blocking. pose proof (getfl_quiet s k) as Hg. destruct (sys_getfl s k) as [[flags|e] k1]; [|done].
  destruct (_ =? flags); [done|]. by apply (mode_quiet_trans s k k1), setfl_quiet.
Qed.
Lemma descriptor_quiet s st v k : mode_quiet s k (set_descriptor_non_blocking s st v k).2.
Proof.
  unfold set_descriptor_non_blocking. destruct (has possible_dup st); [apply fcntl_quiet|].
  pose proof (fionbio_quiet s v k) as Hf. destruct (sys_fionbio s v k) as [r k1]. destruct (ec_is _ _); [|done].
  by apply (mode_quiet_trans s k k1), fcntl_quiet.
Qed.

(** What a change of mode makes of a socket. *)
Record mode_change (s state : Z) (mode : bool) (k : K) (state' : Z) (k' : K) : Prop := {
  mc_quiet : mode_quiet s k k';
  mc_mirrors : mirrors s state k -> mirrors s state' k';
  mc_on : mode = true -> state' = state \/ has non_blocking state' = true;
  mc_invalid : s = invalid_socket -> state' = state;
}.
Lemma raised_on flag state : flag = user_set_non_blocking \/ flag = internal_non_blocking -> has non_blocking (raise flag state) = true.
Proof.
  rewrite has_non_blocking. unfold raise. rewrite !Z.lor_spec.
  intros [-> | ->]; [change (Z.testbit user_set_non_blocking 0) with true|change (Z.testbit internal_non_blocking 1) with true];
    by rewrite ?orb_true_r.
Qed.
Lemma user_change s st v k : let '((st', ec), k') := set_user_non_blocking s st v k in mode_change s st v k st' k'.
Proof.
  pose proof (user_mode s st v k) as Hm. unfold set_user_non_blocking in *. destruct (Z.eqb_spec s invalid_socket) as [Hs|Hs].
  { split; try done; [apply mode_quiet_refl|by left]. }
  pose proof (descriptor_quiet s st v k) as Hq. destruct (set_descriptor_non_blocking s st v k) as [[[]|e] k']; split; try done; [|by left].
  intros ->. right. apply raised_on. by left.
Qed.
Lemma internal_change s st v k : let '((st', ec), k') := set_internal_non_blocking s st v k in
  mode_change s st v k st' k' /\ (v = true -> ec = None -> s <> invalid_socket /\ has non_blocking st' = true).
Proof.
  pose proof (internal_mode s st v k) as Hm. unfold set_internal_non_blocking in *. destruct (Z.eqb_spec s invalid_socket) as [Hs|Hs].
  { split; [|done]. split; try done; [apply mode_quiet_refl|by left]. }
  destruct (negb v && has user_set_non_blocking st) eqn:Hv.
  { split; [split; try done; [apply mode_quiet_refl|by left]|done]. }
  pose proof (descriptor_quiet s st v k) as Hq. destruct (set_descriptor_non_blocking s st v k) as [[[]|e] k'].
  - assert (v = true -> has non_blocking ((if v then raise else clear) internal_non_blocking st) = true) as Hon.
    { intros ->. apply raised_on. by right. }
    split; [|intros Hv' _; split; [done|by apply Hon]]. split; try done. right. by apply Hon.
  - split; [|done]. split; try done. by left.
Qed.

Lemma change_served i mode st' k' (r : reactor) : good i r -> (mode = false -> idle i r) ->
  mode_change (socket_ i) (state_ i) mode (kern r) st' k' -> served i r (with_state st' i) (set_kern k' r).
Proof.
  intros [Hw Ho Hc] Hidle [(Hcalm & Hbut & Huse & Hreg) Hmir Hon Hinv]. split; [|by apply leaves_kern|done|done]. split.
  - by apply wakeful_kern.
  - intros Hop. destruct (Ho Hop) as [(d & Hd & Hsd & Hfd & Hq & He) Hu Hm]. split.
    + exists d. split_and!; try done; [|by intros Hne%He; apply Hreg]. cbn [state_ with_state]. intros Hoff. destruct mode.
      * destruct (Hon eq_refl) as [->|Hon']; [by apply Hq|congruence].
      * by apply (Hidle eq_refl).
    + cbn. by rewrite Huse.
    + by apply Hmir.
  - intros Hcl. cbn. rewrite Hinv; [by apply Hc|]. unfold is_open in Hcl. by apply negb_false_iff, Z.eqb_eq in Hcl.
Qed.

(** *** Starting operations *)

Lemma post_now_env o c (m : machine) : env (post_now o c m) = env m.
Proof. apply post_immediate_env. Qed.
Lemma env_on_kern (m : machine) k : env (on_env (set_kern k) m) = set_kern k (env m).
Proof. done. Qed.

(** The flags that matter to an operation are not those of the modes. *)
Lemma start_served i j o c a (m : machine) : good i (env m) -> is_open i = true -> has non_blocking (state_ i) = true ->
  belongs (socket_ i) j o -> served i (env m) i (env (start_op j (socket_ i) (reactor_data_ i) o c a m)).
Proof.
  intros Hg Hop Hnb Hb. destruct Hg as [Hw Ho Hc]. pose proof (Ho Hop) as [(d & Hd & Hsd & Hfd & Hq & He) Hu Hm].
  pose proof (start_op_touched j (socket_ i) d o c a m) as Ht. rewrite Hd.
  assert (wakeful (env (start_op j (socket_ i) (Some d) o c a m))) as Hw'.
  { apply (serve_wakeful (StartOp j (socket_ i) (Some d) o c a)); [done|]. intros _. by split. }
  split; [|by apply (leaves_touched i d)|done|done]. split; [done| |done]. intros _. destruct Ht as [Hoth Hdd Hss Hrr (_ & Hk & Hkr)].
  destruct (Hk Hu) as [Hu' Hb']. split; [|done|unfold mirrors in *; congruence].
  exists d. split_and!; [done|congruence|congruence|congruence|auto].
Qed.

Lemma on_kern_mode (f : Z -> Z -> bool -> K -> (Z * error_code) * K) i mode (m : machine) :
  (let '((state, ec), m) := on_kern (f (socket_ i) (state_ i) mode) m in ((ec, with_state state i), m))
  = let '((st', ec), k') := f (socket_ i) (state_ i) mode (kern (env m)) in ((ec, with_state st' i), on_env (set_kern k') m).
Proof. unfold on_kern. change (@Kern socket_epoll) with K. by destruct (f _ _ _ _) as [[st' ec] k']. Qed.

Lemma user_served i mode (m : machine) : good i (env m) -> (mode = false -> idle i (env m)) ->
  let '((ec, i'), m') := user_non_blocking i mode m in served i (env m) i' (env m').
Proof.
  intros Hg Hi. unfold user_non_blocking. rewrite on_kern_mode. pose proof (user_change (socket_ i) (state_ i) mode (kern (env m))) as Hc.
  destruct (set_user_non_blocking _ _ _ _) as [[st' ec] k']. by apply change_served with (mode := mode).
Qed.
Lemma native_served i mode (m : machine) : good i (env m) -> (mode = false -> idle i (env m)) ->
  let '((ec, i'), m') := native_non_blocking i mode m in served i (env m) i' (env m') /\
    (mode = true -> ec = None -> is_open i' = true /\ has non_blocking (state_ i') = true).
Proof.
  intros Hg Hi. unfold native_non_blocking. rewrite on_kern_mode. pose proof (internal_change (socket_ i) (state_ i) mode (kern (env m))) as Hc.
  destruct (set_internal_non_blocking _ _ _ _) as [[st' ec] k']. destruct Hc as [Hc Hon]. split; [by apply change_served with (mode := mode)|].
  intros Hmode Hec. destruct (Hon Hmode Hec) as [Hs Hnb]. split; [|done]. unfold is_open; cbn. by apply negb_true_iff, Z.eqb_neq.
Qed.

Lemma non_blocking_open i r : good i r -> has non_blocking (state_ i) = true -> is_open i = true.
Proof. intros Hg Hnb. destruct (is_open i) eqn:Ho; [done|]. by rewrite (gd_closed _ _ Hg Ho) in Hnb. Qed.

(** A start after the mode has been changed for it, or a failure. *)
Lemma native_then i (m : machine) (start : impl -> machine -> machine) (fail : error -> machine -> machine) : good i (env m) ->
  (forall i1 m1, good i1 (env m1) -> socket_ i1 = socket_ i -> is_open i1 = true -> has non_blocking (state_ i1) = true ->
     served i1 (env m1) i1 (env (start i1 m1))) ->
  (forall e m1, env (fail e m1) = env m1) ->
  let '(i', m') := let '((ec, i), m) := native_non_blocking i true m in
         match ec with None => (i, start i m) | Some e => (i, fail e m) end in
  served i (env m) i' (env m').
Proof.
  intros Hg Hstart Hfail. pose proof (native_served i true m Hg ltac:(done)) as Hn.
  destruct (native_non_blocking i true m) as [[[e|] i1] m1]; destruct Hn as [Hs Hon]; [by rewrite Hfail|].
  destruct (Hon eq_refl eq_refl) as [Ho1 Hnb1]. apply (served_trans _ _ i1 (env m1)); [done|].
  apply Hstart; [apply Hs|apply Hs|done|done].
Qed.

Lemma do_start_served i j o c a noop (m : machine) : good i (env m) -> (noop = false -> belongs (socket_ i) j o) ->
  let '(i', m') := do_start_op i j o c a noop true m in served i (env m) i' (env m').
Proof.
  intros Hg Hb. unfold do_start_op. destruct noop; [rewrite post_now_env; by apply served_refl|]. specialize (Hb eq_refl).
  cbn [negb]. rewrite orb_false_r. destruct (has non_blocking (state_ i)) eqn:Hnb.
  - apply start_served; [done|by apply (non_blocking_open _ _ Hg)|done|done].
  - apply (native_then i m (fun i => @start_op socket_epoll j (socket_ i) (reactor_data_ i) (set_ec None o) c a)
      (fun e => post_now (set_ec (Some e) o) c)); [done| |intros; apply post_now_env].
    intros i1 m1 Hg1 Hs1 Ho1 Hnb1. apply start_served; [done..|]. by rewrite Hs1.
Qed.
Lemma start_connecting_served i o c addr (m : machine) : good i (env m) -> is_open i = true -> has non_blocking (state_ i) = true ->
  belongs (socket_ i) write_op o -> served i (env m) i (env (start_connecting i o c addr m)).
Proof.
  intros Hg Ho Hnb Hb. unfold start_connecting, on_kern.
  assert (let k' := (connect (socket_ i) addr (kern (env m))).2 in calm (kern (env m)) k' /\ settled (kern (env m)) k') as [Hc Hs].
  { unfold connect. destruct (_ =? _); [split; [apply calm_refl|apply settled_refl]|].
    pose proof (connect_quiet (socket_ i) addr (kern (env m))) as Hq. by destruct (sys_connect _ _ _) as [r k]. }
  change (@Kern socket_epoll) with K. destruct (connect _ _ _) as [ec k]; cbn [fst snd] in *.
  assert (served i (env m) i (@set_kern socket_epoll k (env m))) as Hk.
  { split; [|by apply leaves_kern, settled_weaken|done|done]. destruct Hg as [Hw Hop Hcl]. split; [by apply wakeful_kern| |done].
    intros _. apply (owned_framed (env m)); [by apply Hop|intros; apply state_frame_refl|apply Hs]. }
  destruct (_ || _); [|by rewrite post_now_env]. apply (served_trans _ _ i (@set_kern socket_epoll k (env m))); [done|].
  apply (start_served i write_op _ c false (@on_env socket_epoll (@set_kern socket_epoll k) m)); [apply Hk|done|done|done].
Qed.
Lemma do_connect_served i o c addr (m : machine) : good i (env m) -> belongs (socket_ i) write_op o ->
  let '(i', m') := do_start_connect_op i o c addr m in served i (env m) i' (env m').
Proof.
  intros Hg Hb. unfold do_start_connect_op. destruct (has non_blocking (state_ i)) eqn:Hnb.
  - apply start_connecting_served; [done|by apply (non_blocking_open _ _ Hg)|done|done].
  - apply (native_then i m (fun i => start_connecting i (set_ec None o) c addr)
      (fun e => post_now (set_ec (Some e) o) c)); [done| |intros; apply post_now_env].
    intros i1 m1 Hg1 Hs1 Ho1 Hnb1. apply start_connecting_served; [done..|]. by rewrite Hs1.
Qed.

Lemma async_op_served i a key h cont allow noop (m : machine) : good i (env m) ->
  (noop = false -> valid (new_op (socket_ i) (state_ i) a key h)) ->
  let '(i', m') := async_op i a key h cont allow noop m in served i (env m) i' (env m').
Proof. intros Hg Hv. unfold async_op. apply do_start_served; [done|]. intros Hn. split_and!; [done|done|by apply Hv]. Qed.

(** Calls that neither open nor close. *)
Definition keeps_descriptor (c : call) : bool :=
  match c with Open _ _ _ | Assign _ _ | Close => false | _ => true end.

Lemma cancel_served i rq (m : machine) : good i (env m) ->
  match rq with CancelOps d | CancelOpsByKey d _ _ => d = reactor_data_ i | _ => False end ->
  (forall d, frame_state (state_of d (env m)) (state_of d (env (serve rq m)))) -> kern (env (serve rq m)) = kern (env m) ->
  served i (env m) i (env (serve rq m)).
Proof.
  intros Hg Hrq Hf Hk. split; [|split; [intros; apply Hf|rewrite Hk; apply settled_but_refl]|done|done].
  destruct Hg as [Hw Ho Hc]. split; [apply serve_wakeful; [done|by destruct rq]| |done].
  intros Hop. apply (owned_framed (env m)); [by apply Ho|intros; apply Hf|]. rewrite Hk. apply settled_at_refl.
Qed.
Lemma frame_on d f r : (forall s, frame_state s (f s)) -> forall d', frame_state (state_of d' r) (state_of d' (on_descriptor d f r)).
Proof. intros Hf d'. destruct (decide (d = d')) as [<-|Hne]; [rewrite state_of_on; apply Hf|rewrite state_of_ne by done; apply state_frame_refl]. Qed.
Lemma cancel_ops_served i (m : machine) : good i (env m) -> served i (env m) i (env (cancel_ops (reactor_data_ i) m)).
Proof.
  intros Hg. apply (cancel_served i (CancelOps (reactor_data_ i)) m Hg eq_refl); cbn [serve]; unfold cancel_ops;
    destruct (reactor_data_ i) as [d|]; rewrite ?post_deferred_env; try done.
  by apply frame_on.
Qed.
Lemma cancel_operation_served i a key (m : machine) : good i (env m) -> served i (env m) i (env (cancel_operation i a key m)).
Proof.
  intros Hg. apply (cancel_served i (CancelOpsByKey (reactor_data_ i) (cancellation_queue a) key) m Hg eq_refl); cbn [serve]; unfold cancel_ops_by_key;
    destruct (reactor_data_ i) as [d|]; rewrite ?post_deferred_env; try done.
  intros d'. destruct (decide (d = d')) as [<-|Hne]; [|cbn -[state_of on_descriptor]; rewrite state_of_ne by done; apply state_frame_refl].
  cbn -[state_of on_descriptor]. rewrite state_of_on. split_and!; [done|done| |done]. cbn. intros ->. by destruct (cancellation_queue a).
Qed.
(** The wait for urgent data that [async_receive] queues is not one of them: the signal to
    cancel it goes nowhere. *)
Lemma urgent_not_cancelled i a key d (m : machine) : direction a = except_op -> reactor_data_ i = Some d ->
  of_except (op_queue_ (state_of d (env (cancel_operation i a key m)))) = of_except (op_queue_ (state_of d (env m))).
Proof.
  intros Ha Hd. unfold cancel_operation, cancel_ops_by_key. rewrite Hd, post_deferred_env.
  cbn -[state_of on_descriptor]. rewrite state_of_on. by destruct a.
Qed.

Lemma call_served c i x (m : machine) : good i (env m) -> keeps_descriptor c = true -> reactor_ x = env m -> call_ok c i x ->
  served i (env m) (perform_call c i m).1 (env (perform_call c i m).2).
Proof.
  intros Hg Hk Hx Hok. destruct c as [| | | |a key|mode|mode|data flags key h cont|size flags key h cont|data flags to key h cont
    |size flags key h cont|key h cont peer|addr key h cont]; try done; cbn [perform_call].
  - unfold cancel. destruct (is_open i); cbn; [by apply cancel_ops_served|by apply served_refl].
  - by apply cancel_operation_served.
  - assert (mode = false -> idle i (env m)) as Hidle by (intros ->; cbn in Hok; by rewrite Hx in Hok).
    pose proof (user_served i mode m Hg Hidle). by destruct (user_non_blocking i mode m) as [[ec i'] m'].
  - assert (mode = false -> idle i (env m)) as Hidle by (intros ->; cbn in Hok; by rewrite Hx in Hok).
    pose proof (native_served i mode m Hg Hidle) as Hn. destruct (native_non_blocking i mode m) as [[ec i'] m']. by destruct Hn.
  - unfold async_send. pose proof (async_op_served i (SocketService.Send data flags) key h cont true
      (has stream_oriented (state_ i) && (length data =? 0)%nat) m Hg) as Hs.
    destruct (async_op _ _ _ _ _ _ _ _). apply Hs. cbn. intros Hn Hst. rewrite Hst in Hn. by destruct data.
  - unfold async_receive. pose proof (async_op_served i (Receive size flags) key h cont (negb (oob flags))
      (has stream_oriented (state_ i) && (size =? 0)%nat) m Hg) as Hs.
    destruct (async_op _ _ _ _ _ _ _ _). apply Hs. cbn. intros Hn Hst. rewrite Hst in Hn. destruct size; [done|lia].
  - unfold async_send_to. pose proof (async_op_served i (SendTo data flags to) key h cont true false m Hg) as Hs.
    destruct (async_op _ _ _ _ _ _ _ _). by apply Hs.
  - unfold async_receive_from. pose proof (async_op_served i (ReceiveFrom size flags) key h cont true false m Hg) as Hs.
    destruct (async_op _ _ _ _ _ _ _ _). by apply Hs.
  - unfold async_accept, do_start_accept_op. destruct peer; cbn [negb fst snd]; [rewrite post_now_env; by apply served_refl|].
    pose proof (do_start_served i read_op (new_op (socket_ i) (state_ i) Accept key h) cont true false m Hg) as Hs.
    destruct (do_start_op _ _ _ _ _ _ _ _). by apply Hs.
  - unfold async_connect. pose proof (do_connect_served i (new_op (socket_ i) (state_ i) Connect key h) cont addr m Hg) as Hs.
    destruct (do_start_connect_op _ _ _ _ _). by apply Hs.
Qed.

(** *** Closing *)

Lemma restore_quiet s state k : mode_quiet s k (restore_blocking s state k).
Proof.
  unfold restore_blocking.
  assert (forall k1, mode_quiet s k k1 -> mode_quiet s k (let '(r, k) := sys_getfl s k1 in
    match r with Done flags => (sys_setfl s (Z.ldiff flags O_NONBLOCK) k).2 | Errno _ => k end)) as Hfl.
  { intros k1 Hk1. apply (mode_quiet_trans s k k1 _ Hk1). pose proof (getfl_quiet s k1) as Hg.
    destruct (sys_getfl s k1) as [[flags|e] k2]; [|done]. by apply (mode_quiet_trans s k1 k2), setfl_quiet. }
  destruct (has possible_dup state); cbn [orb]; [apply Hfl, mode_quiet_refl|].
  pose proof (fionbio_quiet s false k) as Hf. destruct (sys_fionbio s false k) as [r k1].
  destruct (ec_is _ _); [by apply Hfl|done].
Qed.
Definition gone_quiet (s : Z) (k k' : K) : Prop := calm k k' /\ settled_but s k k'.
Lemma gone_trans s k1 k2 k3 : gone_quiet s k1 k2 -> gone_quiet s k2 k3 -> gone_quiet s k1 k3.
Proof. intros [Hc1 Hb1] [Hc2 Hb2]. split; [by eapply calm_trans|by apply (settled_but_trans s k1 k2)]. Qed.
Lemma close_gone s state ec k : gone_quiet s k (close s state ec k).2.
Proof.
  unfold close. destruct (_ =? _); [split; [apply calm_refl|apply settled_but_refl]|].
  pose proof (close_quiet s k) as Hc. destruct (sys_close s k) as [r k1]. destruct (would_wait _); [|done].
  apply (gone_trans s k k1); [done|]. destruct (restore_quiet s state k1) as (Hr1 & Hr2 & _).
  apply (gone_trans s k1 (restore_blocking s state k1)); [done|]. pose proof (close_quiet s (restore_blocking s state k1)) as Hc2.
  by destruct (sys_close s (restore_blocking s state k1)) as [r2 k2].
Qed.

Lemma close_impl_leaves i ec (m : machine) : wakeful (env m) -> is_open i = true -> owned (env m) i ->
  wakeful (env (close_impl i ec m).2) /\ leaves_others i (env m) (env (close_impl i ec m).2).
Proof.
  intros Hw Ho [(d & Hd & Hsd & Hfd & Hq & _) Hu Hm]. unfold close_impl. set (closing := negb _).
  assert (wakeful (env (deregister_descriptor (socket_ i) (reactor_data_ i) closing m).2)) as Hw1.
  { by apply (serve_wakeful (DeregisterDescriptor (socket_ i) (reactor_data_ i) closing) m). }
  rewrite Hd in *. unfold deregister_descriptor in *. rewrite Hsd in *. cbn [snd] in Hw1. rewrite post_deferred_env in Hw1.
  set (m1 := if _ : bool then _ else m) in *.
  assert (settled_but (socket_ i) (kern (env m)) (kern (env m1)) /\ (forall d', state_of d' (env m1) = state_of d' (env m)) /\
    free_list_ (env m1) = free_list_ (env m)) as (Hk1 & Hst1 & Hf1).
  { unfold m1. destruct (_ && _); [|split; [apply settled_but_refl|done]]. split; [|done]. cbn. apply ctl_settled. }
  set (m2 := post_deferred_completions _ _). assert (env m2 = on_descriptor d (fun s =>
    set_shutdown true (set_descriptor (-1) (set_ops (all_types []) s))) (env m1)) as He2 by (unfold m2; by rewrite post_deferred_env).
  unfold on_kern. pose proof (close_gone (socket_ i) (state_ i) ec (kern (env m2))) as [Hc Hb]. change (@Kern socket_epoll) with K.
  destruct (close _ _ _ _) as [[st' ec'] k]; cbn [snd] in *. cbn [cleanup_descriptor_data env on_env].
  assert (wakeful (@set_kern socket_epoll k (env m2))) as Hw2 by (apply wakeful_kern; [done|by rewrite He2]).
  split.
  - apply (serve_wakeful (CleanupDescriptorData (Some d)) (@on_env socket_epoll (@set_kern socket_epoll k) m2)); [exact Hw2|].
    cbn. change (state_of d (@set_kern socket_epoll k (env m2))) with (state_of d (env m2)). rewrite He2, state_of_on. split; [done|].
    cbn. rewrite Hf1. intros Hin. pose proof (wk_free _ Hw d Hin). congruence.
  - split.
    + intros d' Hne _ _. cbn. change (state_of d' (free_descriptor_state d (@set_kern socket_epoll k (env m2)))) with (state_of d' (env m2)).
      rewrite He2, state_of_ne, Hst1; [apply state_frame_refl|]. intros ->. by apply Hne.
    + cbn. apply (settled_but_trans _ _ (kern (env m2))); [|done]. by rewrite He2.
Qed.

Lemma close_system x n i (m : machine) : system_ok x -> sockets x !! n = Some i -> reactor_ x = env m ->
  system_ok (System (<[n := (perform_call Close i m).1]> (sockets x)) (env (perform_call Close i m).2)).
Proof.
  intros Hx Hi Hr. assert (wakeful (env (perform_call Close i m).2) /\ leaves_others i (env m) (env (perform_call Close i m).2) /\
    (perform_call Close i m).1 = construct) as (Hw & Hl & ->).
  { cbn [perform_call]. unfold close_socket. pose proof (sy_wakeful _ Hx) as Hw. rewrite Hr in Hw. destruct (is_open i) eqn:Ho.
    - pose proof (sy_open _ Hx n i Hi Ho) as Hown. rewrite Hr in Hown.
      pose proof (close_impl_leaves i None m Hw Ho Hown) as Hc. destruct (close_impl i None m) as [ec m'], Hc; by split_and!.
    - split_and!; [done|apply leaves_refl|done]. }
  apply (system_call x n i); try done. by rewrite Hr.
Qed.
Lemma destroy_leaves x n i (m : machine) : system_ok x -> sockets x !! n = Some i -> reactor_ x = env m ->
  wakeful (env (destroy i m)) /\ leaves_others i (reactor_ x) (env (destroy i m)).
Proof.
  intros Hx Hi Hr. pose proof (sy_wakeful _ Hx) as Hw. rewrite Hr in *. unfold destroy. destruct (is_open i) eqn:Ho.
  - pose proof (sy_open _ Hx n i Hi Ho) as Hown. rewrite Hr in Hown. by apply close_impl_leaves.
  - split; [done|apply leaves_refl].
Qed.

(** *** Opening *)

(** What registering a new descriptor gives. *)
Record registered_as (s : Z) (d : nat) (err : error_code) (r r' : reactor) : Prop := {
  ra_wakeful : wakeful r';
  ra_state : err = None -> descriptor_ (state_of d r') = s /\ shutdown_ (state_of d r') = false /\
    op_queue_ (state_of d r') = all_types [] /\
    (registered_events_ (state_of d r') <> 0 -> registered_with d s (kern r'));
  ra_others : forall d', shutdown_ (state_of d' r) = false -> descriptor_ (state_of d' r) <> invalid_socket ->
    frame_state (state_of d' r) (state_of d' r');
  ra_settled : settled (kern r) (kern r');
}.
Lemma allocate_states r : wakeful r -> let '(d, r1) := allocate_descriptor_state r in
  (forall d', shutdown_ (state_of d' r) = false -> descriptor_ (state_of d' r) <> invalid_socket ->
     d' <> d /\ state_of d' r1 = state_of d' r) /\ kern r1 = kern r /\ op_queue_ (state_of d r1) = all_types [].
Proof.
  intros Hr. pose proof (allocate_wakeful r Hr) as Ha. revert Ha. unfold allocate_descriptor_state.
  destruct (free_list_ r) as [|d l] eqn:Hl.
  - set (d := fresh (dom (registered_descriptors_ r))).
    assert (state_of d r = new_descriptor_state) as Hd.
    { unfold state_of. by rewrite (proj1 (not_elem_of_dom (registered_descriptors_ r) d)) by apply is_fresh. }
    intros (_ & _ & Hq & _). split_and!; [|done|done]. intros d' _ Hfd. assert (d' <> d) as Hne by (intros ->; by rewrite Hd in Hfd).
    split; [done|by rewrite state_of_ne].
  - intros (_ & _ & Hq & _). split_and!; [|done|done]. intros d' Hsd _. split; [|done]. intros ->.
    rewrite (wk_free _ Hr) in Hsd; [done|]. rewrite Hl. by left.
Qed.
Lemma register_spec s (m : machine) : wakeful (env m) -> watched (kern (env m)) s = None ->
  let '((d, err), m') := register s m in registered_as s d err (env m) (env m').
Proof.
  intros Hw Hs. pose proof (register_wakeful s (env m) Hw Hs) as Hw'. unfold register. unfold register_descriptor in *.
  pose proof (allocate_states (env m) Hw) as Ha. destruct (allocate_descriptor_state (env m)) as [d r1]. destruct Ha as (Hoth & Hk & Hq).
  set (f := fun s0 => set_registered all_events _) in *. change (kern (on_descriptor d f r1)) with (kern r1) in *.
  pose proof (ctl_settled CtlAdd s all_events d (kern r1)) as (Hb & Hu & Hn).
  pose proof (ctl_add s all_events d (kern r1)) as Hadd. cbn in Hb, Hu, Hn, Hadd, Hw' |- *.
  destruct (sys_epoll_ctl CtlAdd s all_events d (kern r1)) as [ec k]; cbn [snd] in *. specialize (Hadd _ _ eq_refl). rewrite Hk in *.
  specialize (Hadd Hs). assert (settled (kern (env m)) k) as Hc.
  { intros fd. destruct (decide (fd = s)) as [->|Hne]; [|by apply Hb]. intros Huse. split_and!; [by rewrite Hu|done|]. intros d' [ev Hev]. congruence. }
  assert (forall d', shutdown_ (state_of d' (env m)) = false -> descriptor_ (state_of d' (env m)) <> invalid_socket ->
    frame_state (state_of d' (env m)) (state_of d' (on_descriptor d f r1))) as Hf.
  { intros d' Hsd Hfd. destruct (Hoth d' Hsd Hfd) as [Hne <-]. rewrite state_of_ne by done. apply state_frame_refl. }
  assert (descriptor_ (state_of d (on_descriptor d f r1)) = s /\ shutdown_ (state_of d (on_descriptor d f r1)) = false /\
    op_queue_ (state_of d (on_descriptor d f r1)) = all_types []) as (Hst1 & Hst2 & Hst3) by (by rewrite state_of_on).
  destruct (ec_is ec EPERM); cbn [env Scheduler.set_env]; split; try done.
  - intros _. by rewrite state_of_on.
  - intros d' Hsd Hfd. apply (state_frame_trans _ (state_of d' (on_descriptor d f r1))); [by apply Hf|].
    change (state_of d' (on_descriptor d f r1)) with (state_of d' (@set_kern socket_epoll k (on_descriptor d f r1))). by apply frame_on.
  - intros ->. split_and!; [done..|]. intros _. destruct Hadd as [Hadd _]. by eexists.
Qed.

(** A socket that has just been registered. *)
Lemma opened_system x n i s d state r' : system_ok x -> sockets x !! n = Some i -> is_open i = false -> s <> invalid_socket ->
  wakeful r' -> leaves_others i (reactor_ x) r' ->
  descriptor_ (state_of d r') = s /\ shutdown_ (state_of d r') = false /\ op_queue_ (state_of d r') = all_types [] /\
    (registered_events_ (state_of d r') <> 0 -> registered_with d s (kern r')) ->
  in_use s (kern r') = true -> nonblock s (kern r') = false -> has non_blocking state = false ->
  (forall n' i', sockets x !! n' = Some i' -> is_open i' = true -> socket_ i' <> s) ->
  system_ok (System (<[n := Impl s state (Some d)]> (sockets x)) r').
Proof.
  intros Hx Hi Ho Hs Hw Hl (Hfd & Hsd & Hq & He) Hu Hnb Hst Hne. apply (system_call x n i); try done.
  - intros _. split; [exists d; by split_and!|done|unfold mirrors; cbn; congruence].
  - unfold is_open; cbn. by rewrite (proj2 (Z.eqb_neq _ _) Hs).
  - intros _ n' i' _. apply Hne.
Qed.
Lemma initial_blocking type : has non_blocking (initial_state type) = false /\ has non_blocking (raise possible_dup (initial_state type)) = false.
Proof.
  unfold initial_state, extra_state_. destruct (_ =? SOCK_STREAM); [|destruct (_ =? SOCK_DGRAM)]; destruct config_reset_edge; by split.
Qed.

Lemma failed_system x n i d r' : system_ok x -> sockets x !! n = Some i -> is_open i = false -> wakeful r' ->
  leaves_others i (reactor_ x) r' -> system_ok (System (<[n := Impl (socket_ i) (state_ i) d]> (sockets x)) r').
Proof.
  intros Hx Hi Ho Hw Hl. apply (system_same x n i); try done; [congruence|]. intros _. cbn. by apply (sy_closed _ Hx n).
Qed.
Lemma others_in_use x n i : system_ok x -> sockets x !! n = Some i -> is_open i = true -> in_use (socket_ i) (kern (reactor_ x)) = true.
Proof. intros Hx Hi Ho. apply (ow_used _ _ (sy_open _ Hx n i Hi Ho)). Qed.

Lemma assign_system x n i type s (m : machine) : system_ok x -> sockets x !! n = Some i -> reactor_ x = env m ->
  call_ok (Assign type s) i x ->
  system_ok (System (<[n := (perform_call (Assign type s) i m).1]> (sockets x)) (env (perform_call (Assign type s) i m).2)).
Proof.
  intros Hx Hi Hr (Hs & Hwatch & Hu & Hnb & Hne). cbn [perform_call]. unfold do_assign.
  destruct (is_open i) eqn:Ho.
  { cbn [fst snd]. rewrite <- Hr, insert_id by done. by destruct x. }
  pose proof (sy_wakeful _ Hx) as Hw. rewrite Hr in *. pose proof (register_spec s m Hw Hwatch) as Hreg.
  destruct (register s m) as [[d err] m1]. destruct Hreg as [Hw1 Hst Hoth Hset].
  assert (leaves_others i (reactor_ x) (env m1)) as Hl by (rewrite Hr; split; [auto|by apply settled_weaken]).
  destruct err as [e|]; cbn [fst snd]; [by apply failed_system|].
  destruct (Hset s Hu) as (Hu1 & Hm1 & _). apply (opened_system x n i); try done; [by apply Hst|congruence|apply initial_blocking|].
  intros n' i' Hi' _. by apply (Hne n').
Qed.
Lemma open_system x n i af type protocol (m : machine) : system_ok x -> sockets x !! n = Some i -> reactor_ x = env m ->
  system_ok (System (<[n := (perform_call (Open af type protocol) i m).1]> (sockets x)) (env (perform_call (Open af type protocol) i m).2)).
Proof.
  intros Hx Hi Hr. cbn [perform_call]. unfold do_open. destruct (is_open i) eqn:Ho.
  { cbn [fst snd]. rewrite <- Hr, insert_id by done. by destruct x. }
  pose proof (sy_wakeful _ Hx) as Hw. rewrite Hr in Hw. unfold on_kern, socket. change (@Kern socket_epoll) with K.
  pose proof (socket_fresh af type protocol (kern (env m))) as Hfresh.
  destruct (sys_socket af type protocol (kern (env m))) as [[s|e] k1]; destruct Hfresh as (Hc1 & Hs1 & Hfresh).
  - destruct Hfresh as (Hinv & Hnew & Hu & Hmode & Hwatch). rewrite (proj2 (Z.eqb_neq _ _) Hinv).
    set (m1 := on_env _ m). assert (wakeful (env m1)) as Hw1 by by apply wakeful_kern.
    pose proof (register_spec s m1 Hw1 Hwatch) as Hreg. destruct (register s m1) as [[d err] m2]. destruct Hreg as [Hw2 Hst Hoth Hset].
    change (kern (env m1)) with k1 in *.
    assert (leaves_others i (reactor_ x) (env m2)) as Hl.
    { rewrite Hr. split; [intros d' _; apply Hoth|]. apply settled_weaken, (settled_trans _ k1); done. }
    destruct err as [e|]; cbn [fst snd].
    + pose proof (close_gone s 0 None (kern (env m2))) as [Hcc Hcb].
      destruct (close s 0 None _) as [[st ec] k2]; cbn [fst snd] in *. apply failed_system; try done.
      * by apply wakeful_kern.
      * destruct Hl as [Hla Hlb]. split; [done|]. intros fd Hne Hfd. apply (settled_at_trans fd _ (kern (env m2))); [by apply Hlb| |done].
        apply Hcb. intros ->. rewrite Hr in Hfd. congruence.
    + destruct (Hset s Hu) as (Hu2 & Hm2 & _). apply (opened_system x n i); try done; [by apply Hst|congruence|apply initial_blocking|].
      intros n' i' Hi' Ho' Heq. pose proof (others_in_use x n' i' Hx Hi' Ho') as Hused. rewrite Hr in Hused. congruence.
  - rewrite Z.eqb_refl. cbn [fst snd]. apply (system_same x n i); try done.
    + by apply wakeful_kern.
    + rewrite Hr. by apply leaves_kern, settled_weaken.
    + congruence.
    + intros _. by apply (sy_closed _ Hx n).
Qed.

(** *** Steps *)

(** The sockets stay as they are, and so do their descriptors. *)
Lemma kept_system x r' : system_ok x -> wakeful r' -> (forall d, frame_state (state_of d (reactor_ x)) (state_of d r')) ->
  settled (kern (reactor_ x)) (kern r') -> system_ok (System (sockets x) r').
Proof.
  intros Hx Hw Hf Hk. destruct Hx as [_ Ho Hc Ha]. split; cbn [sockets reactor_]; try done.
  intros n i Hi Hop. pose proof (Ho n i Hi Hop) as Hown. by apply (owned_framed (reactor_ x)); [|intros; apply Hf|].
Qed.
Lemma new_system x n : system_ok x -> sockets x !! n = None -> system_ok (System (<[n := construct]> (sockets x)) (reactor_ x)).
Proof.
  intros [Hw Ho Hc Ha] Hn. split; cbn [sockets reactor_]; [done| | |].
  - intros n1 i1 [[-> <-]|[Hne Hi1]]%lookup_insert_Some Ho1; [done|by apply (Ho n1)].
  - intros n1 i1 [[-> <-]|[Hne Hi1]]%lookup_insert_Some; [done|by apply (Hc n1)].
  - intros n1 n2 i1 i2 H1' H2' Ho1 Heq. assert (is_open i2 = true) as Ho2 by (unfold is_open in *; by rewrite <- Heq).
    apply lookup_insert_Some in H1' as [[-> <-]|[Hne1 H1']]; [done|].
    apply lookup_insert_Some in H2' as [[-> <-]|[Hne2 H2']]; [done|]. by apply (Ha n1 n2 i1 i2).
Qed.
Lemma delete_system x n i r' : system_ok x -> sockets x !! n = Some i -> wakeful r' -> leaves_others i (reactor_ x) r' ->
  system_ok (System (delete n (sockets x)) r').
Proof.
  intros Hx Hi Hw Hl. split; cbn [sockets reactor_]; [done| | |].
  - intros n1 i1 [Hne Hi1]%lookup_delete_Some Ho1. by apply (others_owned x n i r' n1).
  - intros n1 i1 [Hne Hi1]%lookup_delete_Some. by apply (sy_closed _ Hx n1).
  - intros n1 n2 i1 i2 [_ H1']%lookup_delete_Some [_ H2']%lookup_delete_Some. by apply (sy_apart _ Hx n1 n2 i1 i2).
Qed.
(** A socket goes from one holder to another, whose own is gone. *)
Lemma handed_system x n n' other : system_ok x -> n <> n' -> sockets x !! n = None -> sockets x !! n' = Some other ->
  system_ok (System (<[n := other]> (<[n' := construct]> (sockets x))) (reactor_ x)).
Proof.
  intros Hx Hne Hn Hn'. pose proof Hx as [Hw Ho Hc Ha].
  assert (forall n1 i1, (<[n := other]> (<[n' := construct]> (sockets x))) !! n1 = Some i1 ->
    i1 = construct \/ sockets x !! (if decide (n1 = n) then n' else n1) = Some i1 /\ (n1 = n \/ n1 <> n')) as Hback.
  { intros n1 i1 [[-> <-]|[Hne1 Hi1]]%lookup_insert_Some; [right; rewrite decide_True by done; split; [done|by left]|].
    apply lookup_insert_Some in Hi1 as [[-> <-]|[Hne2 Hi1]]; [by left|]. right. rewrite decide_False by done. split; [done|by right]. }
  split; cbn [sockets reactor_]; [done| | |].
  - intros n1 i1 [->|[H1' _]]%Hback Ho1; [done|]. by eapply Ho.
  - intros n1 i1 [->|[H1' _]]%Hback Hc1; [done|]. by eapply Hc.
  - intros n1 n2 i1 i2 [->|[H1' Hn1]]%Hback Hi2 Ho1 Heq; [done|].
    assert (is_open i2 = true) as Ho2 by (unfold is_open in *; by rewrite <- Heq).
    apply Hback in Hi2 as [->|[H2' Hn2]]; [done|]. pose proof (Ha _ _ _ _ H1' H2' Ho1 Heq) as Hsame.
    destruct (decide (n1 = n)), (decide (n2 = n)); naive_solver.
Qed.

Lemma timer_frame rq (m : machine) :
  match rq with ScheduleTimer _ _ _ | CancelTimer _ _ | CancelTimerByKey _ _ => True | _ => False end ->
  wakeful (env m) -> wakeful (env (serve rq m)) /\ (forall d, state_of d (env (serve rq m)) = state_of d (env m)) /\
  settled (kern (env m)) (kern (env (serve rq m))).
Proof.
  intros Hrq Hw. split; [apply serve_wakeful; [done|by destruct rq]|]. destruct rq as [| | | | | | |time t w|t n|t key|]; try done; cbn [serve].
  - unfold schedule_timer. destruct (stopping (env m)); [rewrite post_immediate_env; split; [done|apply settled_refl]|].
    destruct (TimerQueue.enqueue_timer _ _ _ _) as [earliest q]. destruct earliest; cbn [env Scheduler.work_started on_env Scheduler.set_env];
      [|split; [done|apply settled_refl]].
    unfold update_timeout, set_timer_fd. destruct (_ =? -1); (split; [done|]); [apply interrupt_settled|apply settime_settled].
  - unfold cancel_timer. destruct (TimerQueue.cancel_timer _ _ _) as [ws q]. rewrite post_deferred_env. split; [done|apply settled_refl].
  - unfold cancel_timer_by_key. destruct (TimerQueue.cancel_timer_by_key _ _ _) as [ws q]. rewrite post_deferred_env.
    split; [done|apply settled_refl].
Qed.
Lemma run_frame usec r : wakeful r -> wakeful (run usec r).2 /\ (forall d, frame_state (state_of d r) (state_of d (run usec r).2)) /\
  settled (kern r) (kern (run usec r).2).
Proof.
  intros Hw. split; [by apply run_wakeful|]. unfold run. pose proof (wait_settled (epoll_timeout usec r) (kern r)) as Hs. cbn.
  destruct (sys_epoll_wait _ _) as [es k]; cbn [snd] in Hs.
  destruct (dispatch_all_notified es (timer_fd_ r =? -1, [], @set_kern socket_epoll k r)) as (Hnt & Hk & _).
  destruct (foldl _ _ es) as [[check ops] r1]; cbn [snd] in Hnt, Hk. change (kern (@set_kern socket_epoll k r)) with k in Hk.
  assert (forall d, frame_state (state_of d r) (state_of d r1)) as Hf.
  { intros d. destruct (Hnt d) as [Hd He Ho _ Hsd _ _]. split_and!; [done|done|by rewrite Ho|by rewrite He]. }
  rewrite <- Hk in Hs. destruct (check : bool); [|done]. destruct (TimerQueue.get_ready_timers _ _) as [ws q]. cbn [snd].
  change (timer_fd_ (set_timers q r1)) with (timer_fd_ r1). destruct (timer_fd_ r1 =? -1); (split; [exact Hf|]); [done|]. apply (settled_trans _ (kern r1)); [done|]. apply settime_settled.
Qed.

Lemma perform_queue_settled q k : let '(_, rest, _, k') := perform_queue q k in (q = [] -> rest = []) /\ settled k k'.
Proof.
  revert k. induction q as [|o q IH]; intros k; cbn [perform_queue]; [split; [done|apply settled_refl]|].
  pose proof (perform_settled o k) as Hp. cbn. destruct (perform_op o k) as [[st o'] k1]; cbn [snd] in Hp. destruct st; [done| |done].
  specialize (IH k1). destruct (perform_queue q k1) as [[[en rest] ex] k2]. destruct IH as [_ IH]. split; [done|by apply (settled_trans _ k1)].
Qed.
Lemma perform_type_frame ev j ops s k : let '(_, s', k') := perform_type ev j (ops, s, k) in frame_state s s' /\ settled k k'.
Proof.
  unfold perform_type. destruct (hits j ev); [|split; [done|apply settled_refl]].
  pose proof (perform_queue_settled (get j (op_queue_ s)) k) as Hq. destruct (perform_queue _ k) as [[[en rest] ex] k'].
  destruct Hq as [Hr Hk]. split; [|done]. split_and!; [done|done| |done]. cbn. intros Hall. rewrite Hall in Hr |- *.
  rewrite Hr by (by destruct j). by destruct j.
Qed.
Lemma perform_frame d (m : machine) : wakeful (env m) -> wakeful (env (perform_descriptor d m).2) /\
  (forall d', frame_state (state_of d' (env m)) (state_of d' (env (perform_descriptor d m).2))) /\
  settled (kern (env m)) (kern (env (perform_descriptor d m).2)).
Proof.
  intros Hw. split; [by apply perform_descriptor_wakeful|]. unfold perform_descriptor. set (s := set_queued false (state_of d (env m))).
  unfold perform_io; cbn [foldl]. pose proof (perform_type_frame (task_result_ s) except_op [] s (kern (env m))) as Ht1.
  destruct (perform_type _ except_op _) as [[o1 s1] k1]. destruct Ht1 as [Hf1 Hk1].
  pose proof (perform_type_frame (task_result_ s) write_op o1 s1 k1) as Ht2.
  destruct (perform_type _ write_op _) as [[o2 s2] k2]. destruct Ht2 as [Hf2 Hk2].
  pose proof (perform_type_frame (task_result_ s) read_op o2 s2 k2) as Ht3.
  destruct (perform_type _ read_op _) as [[o3 s3] k3]. destruct Ht3 as [Hf3 Hk3].
  set (m1 := on_env _ m). assert ((forall d', frame_state (state_of d' (env m)) (state_of d' (env m1))) /\
    settled (kern (env m)) (kern (env m1))) as Hm1.
  { split; [|apply (settled_trans _ k1); [done|by apply (settled_trans _ k2)]].
    intros d'. change (state_of d' (env m1)) with (state_of d' (on_descriptor d (fun _ => s3) (env m))).
    destruct (decide (d = d')) as [<-|Hne]; [|rewrite state_of_ne by done; apply state_frame_refl]. rewrite state_of_on.
    apply (state_frame_trans _ s1); [exact Hf1|by apply (state_frame_trans _ s2)]. }
  destruct o3 as [|o o3]; cbn [snd]; [exact Hm1|]. by rewrite post_deferred_env.
Qed.

Lemma sstep_ok x x' : sstep x x' -> system_ok x -> system_ok x'.
Proof.
  destruct 1 as [n x Hn|n i c x m Hi Hr Hok|n i x m Hi Hr|n i n' other x m Hne Hi Hi' Hr|rq x m Hr Hrq|usec x|d x m Hr|k x Hc Hs]; intros Hx.
  - by apply new_system.
  - destruct (keeps_descriptor c) eqn:Hk.
    + pose proof (good_system x n i Hx Hi) as Hg. rewrite Hr in Hg. apply (served_system x n i); [done..|]. rewrite Hr.
      by apply (call_served c i x).
    + destruct c; try done; [by apply open_system|by apply assign_system|by apply close_system].
  - destruct (destroy_leaves x n i m Hx Hi Hr). by apply (delete_system x n i).
  - destruct (destroy_leaves x n i m Hx Hi Hr) as [Hw Hl]. cbn [base_move_assign fst snd].
    pose proof (handed_system _ n n' other (delete_system x n i _ Hx Hi Hw Hl) Hne) as Hh. cbn [sockets reactor_] in Hh.
    rewrite lookup_delete_eq, lookup_delete_ne in Hh by done. specialize (Hh eq_refl Hi').
    rewrite (insert_insert_ne _ n n'), insert_delete_eq, <- insert_insert_ne in Hh by done. exact Hh.
  - pose proof (sy_wakeful _ Hx) as Hw. rewrite Hr in Hw. destruct (timer_frame rq m Hrq Hw) as (Hw' & Hst & Hk).
    apply kept_system; [done|done| |by rewrite Hr]. intros d. rewrite Hr, Hst. apply state_frame_refl.
  - destruct (run_frame usec (reactor_ x) (sy_wakeful _ Hx)) as (Hw & Hf & Hk). by apply kept_system.
  - pose proof (sy_wakeful _ Hx) as Hw. rewrite Hr in Hw. destruct (perform_frame d m Hw) as (Hw' & Hf & Hk).
    apply kept_system; rewrite ?Hr; done.
  - apply kept_system; [done| |intros; apply state_frame_refl|done]. apply wakeful_kern; [done|apply Hx].
Qed.

(** The program before its first socket. *)
Definition start_system (tfd : Z) (k : K) : system := System ∅ (@new_reactor socket_epoll tfd k).
Lemma start_system_ok tfd k : system_ok (start_system tfd k).
Proof. split; [apply new_wakeful|done..]. Qed.
Lemma sockets_reachable_ok tfd k x : rtc sstep (start_system tfd k) x -> system_ok x.
Proof.
  intros Hx. pose proof (start_system_ok tfd k) as H0'. revert H0'. induction Hx as [|x1 x2 x3 Hst _ IH]; [done|].
  intros H1'. by apply IH, (sstep_ok x1).
Qed.
End proof.

(** ** Properties *)

(** C5: Sockets do not fall asleep.  Whatever a program does with its sockets - opens,
    assigns, moves, closes and destroys them, changes their modes, starts and cancels
    operations - and however the event loop, the timers and the network come in between: while
    an operation waits on an open socket, epoll watches the descriptor of that socket, for
    that socket's state and for the operation's kind; and when the socket is ready for the
    operation, epoll is about to say so, or the descriptor is queued to try the operation, or
    the stream has ended in that direction.  Two things are asked of the program: a descriptor
    that it assigns is its own, in blocking mode and unknown to epoll, and it does not take
    non-blocking mode from a socket while operations are pending on it. *)
Theorem sockets_not_forgotten `{SocketLaws} (tfd : Z) (k : K) (x : system) (n : nat) (i : impl) (d : nat) (j : op_type)
  (Hreach : rtc sstep (start_system tfd k) x)
  (Hsocket : sockets x !! n = Some i) (Hopen : is_open i = true) (Hdata : reactor_data_ i = Some d)
  (Hwaits : get j (op_queue_ (state_of d (reactor_ x))) <> []) :
  let s := state_of d (reactor_ x) in
  exists events, watched (kern (reactor_ x)) (socket_ i) = Some (d, events) /\ watches j events = true /\
  (ready (kern (reactor_ x)) (socket_ i) j = true ->
     announced (kern (reactor_ x)) (socket_ i) j = true \/ (queued s = true /\ hits j (task_result_ s) = true) \/
     ended (kern (reactor_ x)) (socket_ i) j = true).
Proof.
  pose proof (sockets_reachable_ok tfd k x Hreach) as Hx.
  destruct (ow_data _ _ (sy_open _ Hx n i Hsocket Hopen)) as (d0 & Hd0 & Hsd & Hfd & _ & Hreg).
  assert (d0 = d) as -> by congruence.
  pose proof (sh_asked _ (aw_shape _ _ _ (wk_states _ (sy_wakeful _ Hx) d)) j Hwaits) as Hasked.
  destruct Hreg as [events Hwatched]; [intros Hzero; rewrite Hzero in Hasked; by destruct j|]. exists events. split; [done|].
  rewrite <- Hfd in *. by apply (wakeful_notices (reactor_ x) d j events (sy_wakeful _ Hx)).
Qed.

(** C6: No attempt of a pending operation can block the event loop.  In any such program, under
    the same two conditions (it does not take non-blocking mode from a socket while
    operations are pending on it, and assigns only its own, new, blocking descriptors), an open socket has a descriptor state of its own; the operations pending there were made
    for that socket and that queue; and while there is one, the descriptor is in
    non-blocking mode. *)
Theorem pending_never_blocks `{SocketLaws} (tfd : Z) (k : K) (x : system) (n : nat) (i : impl)
  (Hreach : rtc sstep (start_system tfd k) x) (Hsocket : sockets x !! n = Some i) (Hopen : is_open i = true) :
  exists d, reactor_data_ i = Some d /\ descriptor_ (state_of d (reactor_ x)) = socket_ i /\
    (forall n' i', sockets x !! n' = Some i' -> is_open i' = true -> reactor_data_ i' = Some d -> n' = n) /\
    forall j o, o ∈ get j (op_queue_ (state_of d (reactor_ x))) ->
      op_socket o = socket_ i /\ direction (op_attempt o) = j /\ nonblock (socket_ i) (kern (reactor_ x)) = true.
Proof.
  pose proof (sockets_reachable_ok tfd k x Hreach) as Hx. destruct (sy_open _ Hx n i Hsocket Hopen) as [(d & Hd & Hsd & Hfd & Hq & _) Hu Hm].
  exists d. split_and!; [done|done| |].
  - intros n' i' Hi' Ho' Hd'. destruct (ow_data _ _ (sy_open _ Hx n' i' Hi' Ho')) as (d0 & Hd0 & _ & Hfd0 & _).
    apply (sy_apart _ Hx n' n i' i); [done..|congruence].
  - intros j o Ho. pose proof (sh_ops _ (aw_shape _ _ _ (wk_states _ (sy_wakeful _ Hx) d)) j) as Hops.
    rewrite Forall_forall in Hops. destruct (Hops o Ho) as (Hs & Hj & _). split_and!; [by rewrite <- Hfd|done|].
    unfold mirrors in Hm. rewrite <- Hm. destruct (has non_blocking (state_ i)); [done|].
    rewrite Hq in Ho by done. destruct j; cbn in Ho; by apply elem_of_nil in Ho.
Qed.

(** C7: Closing a socket ends what is pending on it, once.  However such a program came there,
    closing an open socket hands every operation pending on it to the event loop with
    [operation_aborted], the reads first, then the writes, then the waits for urgent data,
    behind what was queued; nothing stays pending; the descriptor state is shut down and goes
    back to the pool, where it was not yet; and the socket is as good as new. *)
Theorem close_aborts `{SocketLaws} (tfd : Z) (k : K) (x : system) (n : nat) (i : impl) (d : nat) (m : @Scheduler.machine (@epoll_task socket_epoll))
  (Hreach : rtc sstep (start_system tfd k) x) (Hsocket : sockets x !! n = Some i) (Hopen : is_open i = true)
  (Hdata : reactor_data_ i = Some d) (Hm : reactor_ x = env m) :
  let '((_, i'), m') := close_socket i m in
  let q := op_queue_ (state_of d (env m)) in
  i' = construct /\
  Scheduler.op_queue_ (sched m') = Scheduler.op_queue_ (sched m) ++
    ((fun o => Scheduler.UserOperation (ReactorOp (set_ec (Some operation_aborted) o))) <$> (of_read q ++ of_write q ++ of_except q)) /\
  op_queue_ (state_of d (env m')) = all_types [] /\ shutdown_ (state_of d (env m')) = true /\
  free_list_ (env m') = d :: free_list_ (env m) /\ d ∉ free_list_ (env m).
Proof.
  pose proof (sockets_reachable_ok tfd k x Hreach) as Hx. destruct (ow_data _ _ (sy_open _ Hx n i Hsocket Hopen)) as (d0 & Hd0 & Hsd & _).
  assert (d0 = d) as -> by congruence. assert (d ∉ free_list_ (env m)) as Hfree.
  { intros Hin. rewrite <- Hm in Hin. pose proof (wk_free _ (sy_wakeful _ Hx) d Hin). congruence. }
  unfold close_socket, close_impl. rewrite Hopen, Hdata. unfold deregister_descriptor. rewrite Hm in Hsd. rewrite Hsd.
  set (m1 := if _ : bool then _ else m).
  assert (sched m1 = sched m /\ free_list_ (env m1) = free_list_ (env m)) as [Hs1 Hf1] by (unfold m1; by destruct (_ && _)).
  set (m2 := post_deferred_completions _ _). unfold on_kern. change (@Kern socket_epoll) with K.
  destruct (close _ _ _ _) as [[st ec] k']. cbn iota zeta.
  assert (env m2 = on_descriptor d (fun s => set_shutdown true (set_descriptor (-1) (set_ops (all_types []) s))) (env m1)) as He2
    by (unfold m2; by rewrite post_deferred_env).
  assert (sched m2 = Scheduler.push (Scheduler.UserOperation <$> aborted (state_of d (env m))) (sched m)) as Hs2
    by (unfold m2; rewrite post_deferred_is; cbn; by rewrite Hs1).
  cbn [cleanup_descriptor_data sched env on_env Scheduler.set_env]. 
  change (state_of d (free_descriptor_state d (@set_kern socket_epoll k' (env m2)))) with (state_of d (env m2)).
  split_and!; [done| |by rewrite He2, state_of_on|by rewrite He2, state_of_on|cbn; by rewrite He2, <- Hf1|done].
  rewrite Hs2. unfold aborted. rewrite <- list_fmap_compose. done.
Qed.

(** ** A concrete system

    One socket, descriptor 5, over the epoll of [EpollWakeups] for one socket: whether the
    descriptor is in use, and its mode.  There is always room to send. *)
Record toy_kernel := ToyKernel { pipe : EpollWakeups.toy; used : bool; mode : bool }.
Definition on_pipe (p : EpollWakeups.toy) (k : toy_kernel) : toy_kernel := ToyKernel p (used k) (mode k).

Definition toy_recv (s : Z) (size : nat) (flags : Z) (k : toy_kernel) : sysres (list ascii) * toy_kernel :=
  if negb (s =? toy_socket) then (Errno bad_descriptor, k)
  else if oob flags then (Errno try_again, k)
  else
    match arrived (pipe k) with
    | [] => if closed (pipe k) then (Done [], k) else (Errno try_again, k)
    | bytes => (Done (take size bytes), on_pipe (Toy (drop size bytes) (closed (pipe k)) (registered (pipe k)) (due (pipe k))) k)
    end.
Definition toy_send (s : Z) (data : list ascii) (k : toy_kernel) : sysres nat * toy_kernel :=
  if s =? toy_socket then (Done (length data), k) else (Errno bad_descriptor, k).
Definition toy_set_mode (s : Z) (v : bool) (k : toy_kernel) : sysres unit * toy_kernel :=
  if s =? toy_socket then (Done tt, ToyKernel (pipe k) (used k) v) else (Errno bad_descriptor, k).
Definition toy_endpoint : endpoint_t := Endpoint any_v4 0.
Definition toy_unused : EpollWakeups.toy := Toy [] false None false.

#[local] Instance toy_sys : Sys := {|
  K := toy_kernel;
  sys_recv := toy_recv;
  sys_send := fun s data _ => toy_send s data;
  sys_recvfrom := fun s size flags k => let '(r, k) := toy_recv s size flags k in
    (match r with Done bytes => Done (bytes, toy_endpoint) | Errno e => Errno e end, k);
  sys_sendto := fun s data _ _ => toy_send s data;
  sys_accept := fun _ k => (Errno invalid_argument, k);
  sys_connect := fun _ _ k => (Done tt, k);
  sys_poll := fun _ _ _ k => (Done 1, k);
  sys_so_error := fun _ k => (Done None, k);
  sys_fionread := fun _ k => (Done 0, k);
  sys_fionbio := toy_set_mode;
  sys_getfl := fun s k => (Done (if (s =? toy_socket) && mode k then O_NONBLOCK else 0), k);
  sys_setfl := fun s flags => toy_set_mode s (Z.testbit flags 11);
  sys_shutdown := fun _ _ k => (Done tt, k);
  sys_close := fun s k => if s =? toy_socket then (Done tt, ToyKernel toy_unused false false) else (Errno bad_descriptor, k);
|}.
#[local] Instance toy_system : SocketSystem := {|
  sys_socket := fun _ _ _ k => if used k then (Errno (other_error 24), k) else (Done toy_socket, ToyKernel toy_unused true false);
  eintr := 1;
  config_reset_edge := false;
  sys_epoll_ctl := fun c fd events d k => let '(ec, p) := toy_ctl c fd events d (pipe k) in (ec, on_pipe p k);
  sys_epoll_wait := fun timeout k => let '(es, p) := toy_wait timeout (pipe k) in (es, on_pipe p k);
  sys_timerfd_settime := fun _ _ k => k;
  sys_interrupt := fun k => k;
  sys_clock := fun _ => 0;
|}.
#[local] Instance toy_events : @EpollState (@socket_epoll toy_system) := {|
  watched := fun k => @watched toy_epoll toy_state (pipe k);
  ready := fun k => @ready toy_epoll toy_state (pipe k);
  announced := fun k => @announced toy_epoll toy_state (pipe k);
  ended := fun k => @ended toy_epoll toy_state (pipe k);
|}.
#[local] Instance toy_descriptors : @Descriptors toy_system := {| in_use := fun s k => (s =? toy_socket) && used k |}.
#[local] Instance toy_modes : @SysModes (@calls toy_system).
Proof.
  refine {| nonblock := fun s k => (s =? toy_socket) && mode k |}.
  - intros s v k. cbn. unfold toy_set_mode. by destruct (s =? toy_socket).
  - intros s k. split; [done|]. intros flags [= <-]. by destruct ((s =? toy_socket) && mode k).
  - intros s flags k. cbn. unfold toy_set_mode. by destruct (s =? toy_socket).
Defined.

Lemma toy_pipe_calm (k k' : toy_kernel) : @calm toy_epoll toy_state (pipe k) (pipe k') -> calm k k'.
Proof. done. Qed.
Lemma toy_kept (k k' : toy_kernel) : pipe k' = pipe k -> calm k k'.
Proof. intros Hp. apply toy_pipe_calm. rewrite Hp. apply toy_same. Qed.

Definition toy_keeps (k k' : toy_kernel) : Prop :=
  used k' = used k /\ mode k' = mode k /\ registered (pipe k') = registered (pipe k).
(** What receiving makes of the pipe, and when it would have to wait. *)
Lemma toy_recv_spec s size flags k : let '(r, k') := toy_recv s size flags k in
  calm k k' /\ toy_keeps k k' /\
  match r with
  | Errno e => (e = try_again \/ e = bad_descriptor) /\
      @ready toy_epoll toy_state (pipe k') s (if oob flags then except_op else read_op) = false
  | Done bytes => s = toy_socket /\ oob flags = false /\ ((length bytes < size)%nat ->
      @ready toy_epoll toy_state (pipe k') s read_op = false \/ @ended toy_epoll toy_state (pipe k') s read_op = true)
  end.
Proof.
  unfold toy_recv. destruct (Z.eqb_spec s toy_socket) as [->|Hs]; cbn [negb].
  2: { split_and!; [by apply toy_kept|done..|by right|]. cbn. unfold toy_at. by rewrite (proj2 (Z.eqb_neq _ _) Hs). }
  destruct (oob flags); [split_and!; [by apply toy_kept|done..|by left|done]|].
  destruct (arrived (pipe k)) as [|b bs] eqn:Ha.
  - destruct (closed (pipe k)) eqn:Hc; (split_and!; [by apply toy_kept|done..| |]).
    + done.
    + intros _. right. cbn. unfold toy_at. by rewrite Ha, Hc.
    + by left.
    + cbn. unfold toy_at, toy_readable. by rewrite Ha, Hc.
  - split_and!; [|done..|].
    + apply toy_pipe_calm, toy_calm; cbn; [by left| |congruence]. unfold toy_readable; cbn. rewrite Ha. intros _ Hd.
      split; [by destruct (closed (pipe k))|done].
    + rewrite length_take. intros Hl. rewrite drop_ge by lia. cbn. unfold toy_at, toy_readable; cbn.
      destruct (closed (pipe k)); [by right|by left].
Qed.

Definition toy_result (s : Z) (j : op_type) (asks : Prop) (status : SocketOps.status) (k k' : toy_kernel) : Prop :=
  calm k k' /\ toy_keeps k k' /\
  (status = not_done -> @ready toy_epoll toy_state (pipe k') s j = false) /\
  (asks -> status = done_and_exhausted ->
     @ready toy_epoll toy_state (pipe k') s j = false \/ @ended toy_epoll toy_state (pipe k') s j = true).
Lemma toy_done s j asks k : toy_result s j asks done k k.
Proof. by split_and!; [apply toy_kept|..]. Qed.
Lemma toy_elsewhere s asks status k : toy_result s write_op asks status k k.
Proof.
  assert (@ready toy_epoll toy_state (pipe k) s write_op = false) by (cbn; unfold toy_at; by rewrite andb_false_r).
  split_and!; [by apply toy_kept|done|done|by left].
Qed.

Lemma toy_receives s st size flags k : match @recv_perform toy_sys 1 s st size flags k with
  | Some ((status, _, _), k') => toy_result s (if oob flags then except_op else read_op) (has stream_oriented st = true -> (0 < size)%nat) status k k'
  | None => False
  end.
Proof.
  unfold recv_perform, non_blocking_recv1, recv1. cbn [uninterrupted sys_recv toy_sys]. pose proof (toy_recv_spec s size flags k) as Hr.
  destruct (toy_recv s size flags k) as [[got|e] k1]; destruct Hr as (Hc & Hk & Hr); cbn [ec_is ec_of].
  - destruct Hr as (-> & -> & Hr).
    assert (forall b : bool, (b = true -> has stream_oriented st = true /\ (length got < size \/ length got < 1)%nat) ->
      toy_result toy_socket read_op (has stream_oriented st = true -> (0 < size)%nat) (status_of true b) k k1) as Hgen.
    { intros b Hb. split_and!; try done; [by destruct b|]. intros Hsz. destruct b; [|done]. intros _.
      destruct (Hb eq_refl) as [Hst Hl]. apply Hr. specialize (Hsz Hst). lia. }
    destruct (has stream_oriented st) eqn:Hst; cbn [andb]; [|by apply Hgen].
    destruct got as [|b got]; cbn [length Nat.eqb]; apply Hgen; intros Hl%Nat.ltb_lt;
      (split; [done|]); destruct (has reset_edge_on_partial_read st); cbn in *; lia.
  - destruct Hr as [[-> | ->] Hr]; cbn.
    + by split_and!.
    + split_and!; try done; by left.
Qed.
Lemma toy_receives_from s size flags k : match @recvfrom_perform toy_sys 1 s size flags k with
  | Some ((status, _, _, _), k') => toy_result s (if oob flags then except_op else read_op) True status k k'
  | None => False
  end.
Proof.
  unfold recvfrom_perform, non_blocking_recvfrom1, recvfrom1. cbn [uninterrupted sys_recvfrom toy_sys]. pose proof (toy_recv_spec s size flags k) as Hr.
  destruct (toy_recv s size flags k) as [[got|e] k1]; destruct Hr as (Hc & Hk & Hr); cbn [ec_is ec_of].
  - by split_and!.
  - destruct Hr as [[-> | ->] Hr]; by split_and!.
Qed.
Lemma toy_sends s st data flags k : match @send_perform toy_sys 1 s st data flags k with
  | Some ((status, _, _), k') => k' = k
  | None => False
  end.
Proof.
  unfold send_perform, non_blocking_send1, send1. cbn [uninterrupted sys_send toy_sys]. unfold toy_send.
  by destruct (s =? toy_socket).
Qed.
Lemma toy_sends_to s data flags to k : match @sendto_perform toy_sys 1 s data flags to k with
  | Some ((status, _, _), k') => k' = k
  | None => False
  end.
Proof.
  unfold sendto_perform, non_blocking_sendto1, sendto1. cbn [uninterrupted sys_sendto toy_sys]. unfold toy_send.
  by destruct (s =? toy_socket).
Qed.

Lemma toy_perform_spec o k : let '((status, o'), k') := @perform_op toy_system o k in
  toy_result (op_socket o) (direction (op_attempt o)) (valid o) status k k' /\
  op_socket o' = op_socket o /\ op_attempt o' = op_attempt o /\ op_state o' = op_state o.
Proof.
  destruct o as [s st a bytes sent from acc ec key h]. unfold perform_op; cbn [op_socket op_attempt op_state eintr toy_system valid].
  destruct a as [size flags|data flags|size flags|data flags to| |].
  - pose proof (toy_receives s st size flags k) as Hr. cbn [calls toy_system].
    by destruct (recv_perform _ _ _ _ _ _) as [[[[status got] e] k1]|].
  - pose proof (toy_sends s st data flags k) as Hr. cbn [calls toy_system].
    destruct (send_perform _ _ _ _ _ _) as [[[[status n] e] k1]|]; [|done]. subst k1. split; [apply toy_elsewhere|done].
  - pose proof (toy_receives_from s size flags k) as Hr. cbn [calls toy_system].
    destruct (recvfrom_perform _ _ _ _ _) as [[[[[status got] f] e] k1]|]; done.
  - pose proof (toy_sends_to s data flags to k) as Hr. cbn [calls toy_system].
    destruct (sendto_perform _ _ _ _ _ _) as [[[[status n] e] k1]|]; [|done]. subst k1. split; [apply toy_elsewhere|done].
  - unfold accept_perform; cbn [non_blocking_accept calls toy_system]. unfold accept.
    by destruct (s =? invalid_socket); cbn; (split; [apply toy_done|]).
  - cbn. split; [apply toy_elsewhere|done].
Qed.

#[local] Instance toy_epoll_ok : @EpollOk (@socket_epoll toy_system) (@socket_ops_of toy_system) toy_events.
Proof.
  split.
  - done.
  - intros o k st o' k' Hp. pose proof (toy_perform_spec o k) as Hs. cbn in Hp. rewrite Hp in Hs. apply Hs.
  - intros o k st o' k' Hp Hv. pose proof (toy_perform_spec o k) as Hs. cbn in Hp. rewrite Hp in Hs.
    destruct Hs as (_ & Hs & Ha & Ht). split_and!; cbn; [done|by rewrite Ha|]. cbn in Hv. unfold valid in *. by rewrite Ha, Ht.
  - intros o k o' k' Hp Hv. pose proof (toy_perform_spec o k) as Hs. cbn in Hp. rewrite Hp in Hs. by apply Hs.
  - intros o k o' k' Hp Hv. pose proof (toy_perform_spec o k) as Hs. cbn in Hp. rewrite Hp in Hs. by apply Hs.
  - intros c fd ev d k ec k' Hc. cbn in Hc. destruct (toy_ctl c fd ev d (pipe k)) as [ec1 p] eqn:Hp. simplify_eq.
    exact (@ctl_elsewhere toy_epoll toy_ops toy_state toy_ok c fd ev d (pipe k) ec p Hp).
  - intros fd ev d k ec k' Hc. cbn in Hc. destruct (toy_ctl CtlAdd fd ev d (pipe k)) as [ec1 p] eqn:Hp. simplify_eq.
    exact (@ctl_add toy_epoll toy_ops toy_state toy_ok fd ev d (pipe k) ec p Hp).
  - intros fd ev d k ec k' Hc. cbn in Hc. destruct (toy_ctl CtlMod fd ev d (pipe k)) as [ec1 p] eqn:Hp. simplify_eq.
    exact (@ctl_mod toy_epoll toy_ops toy_state toy_ok fd ev d (pipe k) ec p Hp).
  - intros fd ev d k ec k' Hc. cbn in Hc. destruct (toy_ctl CtlDel fd ev d (pipe k)) as [ec1 p] eqn:Hp. simplify_eq.
    exact (@ctl_del toy_epoll toy_ops toy_state toy_ok fd ev d (pipe k) ec p Hp).
  - intros usec k es k' Hw. cbn in Hw. destruct (toy_wait usec (pipe k)) as [es1 p] eqn:Hp. simplify_eq.
    exact (@wait_reports toy_epoll toy_ops toy_state toy_ok usec (pipe k) es p Hp).
  - intros. by apply toy_kept.
  - intros. by apply toy_kept.
Qed.

Lemma toy_gone (k k' : toy_kernel) : registered (pipe k') = None -> calm k k'.
Proof. intros Hr fd. split; cbn; rewrite Hr; destruct (fd =? toy_socket); (by right) || done. Qed.
(** The registration may be renewed, with other events. *)
Lemma toy_settled (k k' : toy_kernel) : used k' = used k -> mode k' = mode k ->
  (forall d ev, registered (pipe k) = Some (d, ev) -> exists ev', registered (pipe k') = Some (d, ev')) -> settled k k'.
Proof.
  intros Hu Hm Hr fd. unfold settled_at, registered_with. cbn. rewrite Hu, Hm. intros Hfd. split_and!; [done..|].
  intros d [ev Hw]. destruct (fd =? toy_socket); [|done]. by apply (Hr d ev).
Qed.
Lemma toy_settled_same (k k' : toy_kernel) : used k' = used k -> mode k' = mode k -> registered (pipe k') = registered (pipe k) -> settled k k'.
Proof. intros Hu Hm Hr. apply toy_settled; [done..|]. intros d ev Hw. rewrite Hr. by exists ev. Qed.
Lemma toy_elsewhere_settled (k k' : toy_kernel) : settled_but toy_socket k k'.
Proof. intros fd Hfd. unfold settled_at. cbn. by rewrite (proj2 (Z.eqb_neq _ _) Hfd). Qed.

#[local] Instance toy_laws : @SocketLaws toy_system toy_events toy_descriptors toy_modes.
Proof.
  split.
  - apply _.
  - done.
  - intros o k. pose proof (toy_perform_spec o k) as Hs. destruct (perform_op o k) as [[st o'] k']. destruct Hs as [(_ & (Hu & Hm & Hr) & _) _].
    by apply toy_settled_same.
  - intros c fd ev d k. cbn. unfold toy_ctl. destruct (Z.eqb_spec fd toy_socket) as [->|Hs].
    + destruct c, (registered (pipe k)); (split; [apply toy_elsewhere_settled|done]).
    + split; [intros fd' _; by apply toy_settled_same|done].
  - intros usec k. cbn. unfold toy_wait. destruct (registered (pipe k)) as [[d ev]|] eqn:Hr; [|by apply toy_settled_same].
    destruct (due (pipe k)); by apply toy_settled_same.
  - intros. by apply toy_settled_same.
  - intros. by apply toy_settled_same.
  - intros s addr k. split; [by apply toy_kept|by apply toy_settled_same].
  - intros s v k. cbn. unfold toy_set_mode. destruct (Z.eqb_spec s toy_socket) as [->|Hs]; cbn; (split_and!; [by apply toy_kept| |done|done]).
    + apply toy_elsewhere_settled.
    + apply settled_but_refl.
  - intros s k. cbn. split_and!; [by apply toy_kept|apply settled_but_refl|done|done].
  - intros s fl k. cbn. unfold toy_set_mode. destruct (Z.eqb_spec s toy_socket) as [->|Hs]; cbn; (split_and!; [by apply toy_kept| |done|done]).
    + apply toy_elsewhere_settled.
    + apply settled_but_refl.
  - intros s k. cbn. destruct (Z.eqb_spec s toy_socket) as [->|Hs]; cbn.
    + split; [by apply toy_gone|apply toy_elsewhere_settled].
    + split; [by apply toy_kept|apply settled_but_refl].
  - intros af type protocol k. cbn. destruct (used k) eqn:Hu.
    + split_and!; [by apply toy_kept|apply settled_refl|done].
    + split_and!; [by apply toy_gone| |done..]. intros fd. unfold settled_at. cbn. by rewrite Hu, andb_false_r.
Qed.

(** A program: a stream socket, a read that waits, and bytes that arrive. *)
Definition toy_on (r : @reactor (@socket_epoll toy_system)) : @Scheduler.machine (@epoll_task (@socket_epoll toy_system)) :=
  @Scheduler.Machine (@epoll_task (@socket_epoll toy_system)) Scheduler.new_scheduler None r.
Definition toy_call (c : call) (x : system) : system :=
  match sockets x !! 0%nat with
  | None => x
  | Some i => System (<[0%nat := (perform_call c i (toy_on (reactor_ x))).1]> (sockets x)) (env (perform_call c i (toy_on (reactor_ x))).2)
  end.
Definition toy_started : system := start_system 7 (ToyKernel toy_unused false false).
Definition toy_constructed : system := System (<[0%nat := construct]> (sockets toy_started)) (reactor_ toy_started).
Definition toy_opened : system := toy_call (Open 2 SOCK_STREAM 6) toy_constructed.
Definition toy_reading : system := toy_call (AsyncReceive 16 0 0 0 false) toy_opened.
Definition toy_reached : system :=
  System (sockets toy_reading) (set_kern (on_pipe (toy_deliver ["x"%char] false (pipe (kern (reactor_ toy_reading)))) (kern (reactor_ toy_reading)))
    (reactor_ toy_reading)).

Lemma toy_call_step c (x : system) i : sockets x !! 0%nat = Some i -> call_ok c i x -> sstep x (toy_call c x).
Proof. intros Hi Hok. unfold toy_call. rewrite Hi. by apply s_call. Qed.
Lemma toy_reach_reading : rtc sstep toy_started toy_reading.
Proof.
  apply (rtc_l _ _ toy_constructed); [by apply s_new|].
  apply (rtc_l _ _ toy_opened). { by apply (toy_call_step _ _ construct). }
  apply rtc_once. by apply (toy_call_step _ _ (Impl toy_socket stream_oriented (Some 0%nat))).
Qed.
Lemma toy_reach : rtc sstep toy_started toy_reached.
Proof.
  apply (rtc_r _ toy_reading); [apply toy_reach_reading|]. apply s_net; [|by apply toy_settled_same].
  apply toy_pipe_calm, toy_calm; [by left|vm_compute; discriminate|vm_compute; discriminate].
Qed.

Lemma sockets_not_forgotten_witness :
  let s := state_of 0%nat (reactor_ toy_reached) in
  exists events, watched (kern (reactor_ toy_reached)) toy_socket = Some (0%nat, events) /\ watches read_op events = true /\
  (ready (kern (reactor_ toy_reached)) toy_socket read_op = true ->
     announced (kern (reactor_ toy_reached)) toy_socket read_op = true \/ (queued s = true /\ hits read_op (task_result_ s) = true) \/
     ended (kern (reactor_ toy_reached)) toy_socket read_op = true).
Proof.
  apply (@sockets_not_forgotten toy_system toy_events toy_descriptors toy_modes toy_laws 7 (ToyKernel toy_unused false false) toy_reached
    0%nat (Impl toy_socket (Z.lor stream_oriented internal_non_blocking) (Some 0%nat)) 0%nat read_op).
  - exact toy_reach.
  - vm_compute. reflexivity.
  - reflexivity.
  - reflexivity.
  - vm_compute. discriminate.
Defined.

Lemma pending_never_blocks_witness :
  exists d, reactor_data_ (Impl toy_socket (Z.lor stream_oriented internal_non_blocking) (Some 0%nat)) = Some d /\
    descriptor_ (state_of d (reactor_ toy_reading)) = toy_socket /\
    (forall n' i', sockets toy_reading !! n' = Some i' -> is_open i' = true -> reactor_data_ i' = Some d -> n' = 0%nat) /\
    forall j o, o ∈ get j (op_queue_ (state_of d (reactor_ toy_reading))) ->
      op_socket o = toy_socket /\ direction (op_attempt o) = j /\ nonblock toy_socket (kern (reactor_ toy_reading)) = true.
Proof.
  apply (@pending_never_blocks toy_system toy_events toy_descriptors toy_modes toy_laws 7 (ToyKernel toy_unused false false) toy_reading
    0%nat (Impl toy_socket (Z.lor stream_oriented internal_non_blocking) (Some 0%nat))).
  - exact toy_reach_reading.
  - vm_compute. reflexivity.
  - reflexivity.
Defined.

Lemma close_aborts_witness :
  let '((_, i'), m') := close_socket (Impl toy_socket (Z.lor stream_oriented internal_non_blocking) (Some 0%nat)) (toy_on (reactor_ toy_reading)) in
  let q := op_queue_ (state_of 0%nat (reactor_ toy_reading)) in
  i' = construct /\
  Scheduler.op_queue_ (sched m') = Scheduler.op_queue_ (sched (toy_on (reactor_ toy_reading))) ++
    ((fun o => Scheduler.UserOperation (ReactorOp (set_ec (Some operation_aborted) o))) <$> (of_read q ++ of_write q ++ of_except q)) /\
  op_queue_ (state_of 0%nat (env m')) = all_types [] /\ shutdown_ (state_of 0%nat (env m')) = true /\
  free_list_ (env m') = 0%nat :: free_list_ (reactor_ toy_reading) /\ 0%nat ∉ free_list_ (reactor_ toy_reading).
Proof.
  apply (@close_aborts toy_system toy_events toy_descriptors toy_modes toy_laws 7 (ToyKernel toy_unused false false) toy_reading
    0%nat (Impl toy_socket (Z.lor stream_oriented internal_non_blocking) (Some 0%nat)) 0%nat (toy_on (reactor_ toy_reading))).
  - exact toy_reach_reading.
  - vm_compute. reflexivity.
  - reflexivity.
  - reflexivity.
  - reflexivity.
Defined.
