(* ===== verification/SocketOnce.v ===== *)
(** * Sockets over the reactor: every call is answered once

    The calls of a socket ([SocketService]) put each handler where [EpollOnce] follows it:
    an asynchronous call leaves one operation with its handler, ready or waiting, whatever
    becomes of it on the way; no other call makes an operation, and none loses one. *)
From S2P Require Import Prelude Endpoint SocketOps EpollReactor EpollOnce SocketService SocketSafety.
From S2P Require Scheduler.
Import Scheduler (machine, Machine, env, sched).
Open Scope Z_scope.

#[export] Instance socket_handlers `{SocketSystem} : @OpHandlers socket_epoll.
Proof.
  refine {| handler_of := op_handler : @rop socket_epoll -> nat |}; [|done].
  intros o k st o' k'. cbn. unfold perform_op. destruct (op_attempt o).
  - destruct (recv_perform _ _ _ _ _ _) as [[[[? ?] ?] ?]|]; by intros [= <- <- <-].
  - destruct (send_perform _ _ _ _ _ _) as [[[[? ?] ?] ?]|]; by intros [= <- <- <-].
  - destruct (recvfrom_perform _ _ _ _ _) as [[[[[? ?] ?] ?] ?]|]; by intros [= <- <- <-].
  - destruct (sendto_perform _ _ _ _ _ _) as [[[[? ?] ?] ?]|]; by intros [= <- <- <-].
  - destruct (accept_perform _ _ _ _) as [[[[? [? ?]] ?] ?]|]; by intros [= <- <- <-].
  - destruct (connect_perform _ _ _) as [[? ?] ?]; by intros [= <- <- <-].
Defined.

(** The handler that a call is made with. *)
Definition call_handler (c : call) : option nat :=
  match c with
  | AsyncSend _ _ _ h _ | AsyncReceive _ _ _ h _ | AsyncSendTo _ _ _ _ h _ | AsyncReceiveFrom _ _ _ h _
  | AsyncAccept _ h _ _ | AsyncConnect _ _ h _ => Some h
  | _ => None
  end.
Definition asks (w : owner) (c : call) : Z :=
  match call_handler c with Some h => if bool_decide (w = SocketHandler h) then 1 else 0 | None => 0 end.

Section once.
  Context `{SocketSystem} (w : owner).
  #[local] Abbreviation machine := (@Scheduler.machine (@epoll_task socket_epoll)).

(** One operation, for a handler. *)
Definition one (h : nat) : Z := if bool_decide (w = SocketHandler h) then 1 else 0.

Lemma tally_op (o : socket_op) : tally w [@ReactorOp socket_epoll o] = one (op_handler o).
Proof.
  unfold tally, one, owned_by; cbn -[Z.of_nat]. destruct (bool_decide_reflect (w = SocketHandler (op_handler o))) as [Hw|Hw].
  - rewrite bool_decide_true by congruence. done.
  - rewrite bool_decide_false by congruence. done.
Qed.

Lemma kern_starts (k : K) (m : machine) : starting w 0 m (on_env (set_kern k) m).
Proof. apply starting_env; [rewrite waiting_kern; lia|done]. Qed.
Lemma post_now_starts o c (m : machine) : starting w (one (op_handler o)) m (post_now o c m).
Proof. rewrite <- tally_op. apply post_immediate_starts. Qed.
Lemma start_starts j fd d (o : socket_op) c a (m : machine) : starting w (one (op_handler o)) m (start_op j fd d o c a m).
Proof. rewrite <- tally_op. apply start_op_starts. Qed.
Lemma then_starts n m1 m2 m3 : starting w 0 m1 m2 -> starting w n m2 m3 -> starting w n m1 m3.
Proof. rewrite <- (Z.add_0_l n) at 2. apply starting_trans. Qed.

Lemma on_kern_starts {A} (f : K -> A * K) (m : machine) : starting w 0 m (on_kern f m).2.
Proof. unfold on_kern. change (@Kern socket_epoll) with K. destruct (f _) as [a k]. apply kern_starts. Qed.
Lemma native_starts i mode (m : machine) : starting w 0 m (native_non_blocking i mode m).2.
Proof.
  unfold native_non_blocking. pose proof (on_kern_starts (set_internal_non_blocking (socket_ i) (state_ i) mode) m) as Hk.
  by destruct (on_kern _ m) as [[st ec] m'].
Qed.
Lemma user_starts i mode (m : machine) : starting w 0 m (user_non_blocking i mode m).2.
Proof.
  unfold user_non_blocking. pose proof (on_kern_starts (set_user_non_blocking (socket_ i) (state_ i) mode) m) as Hk.
  by destruct (on_kern _ m) as [[st ec] m'].
Qed.

Lemma do_start_starts i j o c a noop (m : machine) : starting w (one (op_handler o)) m (do_start_op i j o c a noop true m).2.
Proof.
  unfold do_start_op. destruct noop; [apply post_now_starts|]. destruct (_ || _); [apply start_starts|].
  pose proof (native_starts i true m) as Hn. destruct (native_non_blocking i true m) as [[[e|] i1] m1]; cbn [fst snd] in *;
    apply (then_starts _ _ _ _ Hn); [apply (post_now_starts (set_ec (Some e) o))|apply (start_starts _ _ _ (set_ec None o))].
Qed.
Lemma connecting_starts i o c addr (m : machine) : starting w (one (op_handler o)) m (start_connecting i o c addr m).
Proof.
  unfold start_connecting. pose proof (on_kern_starts (connect (socket_ i) addr) m) as Hk. destruct (on_kern _ m) as [ec m1].
  apply (then_starts _ _ _ _ Hk). destruct (_ || _); [apply (start_starts _ _ _ (set_ec None o))|apply (post_now_starts (set_ec ec o))].
Qed.
Lemma do_connect_starts i o c addr (m : machine) : starting w (one (op_handler o)) m (do_start_connect_op i o c addr m).2.
Proof.
  unfold do_start_connect_op. destruct (has _ _); [apply connecting_starts|].
  pose proof (native_starts i true m) as Hn. destruct (native_non_blocking i true m) as [[[e|] i1] m1]; cbn [fst snd] in *;
    apply (then_starts _ _ _ _ Hn); [apply (post_now_starts (set_ec (Some e) o))|apply (connecting_starts _ (set_ec None o))].
Qed.

Lemma close_starts i ec (m : machine) : starting w 0 m (close_impl i ec m).2.
Proof.
  unfold close_impl. set (closing := negb _).
  pose proof (serve_starts w (DeregisterDescriptor (socket_ i) (reactor_data_ i) closing) m) as Hd. cbn [serve starts] in Hd.
  destruct (deregister_descriptor _ _ _ m) as [data m1]; cbn [snd] in Hd. apply (then_starts _ _ _ _ Hd).
  pose proof (on_kern_starts (close (socket_ i) (state_ i) ec) m1) as Hk. destruct (on_kern _ m1) as [[st e] m2].
  apply (then_starts _ _ _ _ Hk). apply (serve_starts w (CleanupDescriptorData data) m2).
Qed.
Lemma register_op_starts s (m : machine) : starting w 0 m (register s m).2.
Proof.
  pose proof (serve_starts w (RegisterDescriptor s) m) as Hr. unfold register. cbn [serve starts] in Hr.
  by destruct (register_descriptor s (env m)) as [res r] eqn:He; unfold on_env in Hr; rewrite He in Hr.
Qed.
Lemma open_starts i af type protocol (m : machine) : starting w 0 m (do_open i af type protocol m).2.
Proof.
  unfold do_open. destruct (is_open i); [apply starting_refl|].
  pose proof (on_kern_starts (socket af type protocol) m) as Hk. destruct (on_kern _ m) as [[s ec] m1]; cbn [snd] in Hk.
  apply (then_starts _ _ _ _ Hk). destruct (_ =? _); [apply starting_refl|].
  pose proof (register_op_starts s m1) as Hr. destruct (register s m1) as [[d [e|]] m2]; cbn [snd] in Hr; [|done].
  pose proof (on_kern_starts (close s 0 None) m2) as Hc. destruct (on_kern _ m2) as [[st e2] m3]. by apply (then_starts _ _ _ _ Hr).
Qed.
Lemma assign_starts i type s (m : machine) : starting w 0 m (do_assign i type s m).2.
Proof.
  unfold do_assign. destruct (is_open i); [apply starting_refl|].
  pose proof (register_op_starts s m) as Hr. by destruct (register s m) as [[d [e|]] m2].
Qed.

Lemma call_starts c i (m : machine) : starting w (asks w c) m (perform_call c i m).2.
Proof.
  destruct c as [af type protocol|type s| | |a key|mode|mode|data flags key h cont|size flags key h cont|data flags to key h cont
    |size flags key h cont|key h cont peer|addr key h cont]; cbn [perform_call asks call_handler].
  - pose proof (open_starts i af type protocol m). by destruct (do_open _ _ _ _ m) as [[ec i'] m'].
  - pose proof (assign_starts i type s m). by destruct (do_assign _ _ _ m) as [[ec i'] m'].
  - unfold close_socket. destruct (is_open i); [|apply starting_refl].
    pose proof (close_starts i None m). by destruct (close_impl i None m).
  - unfold cancel. destruct (is_open i); [apply (serve_starts w (CancelOps (reactor_data_ i)) m)|apply starting_refl].
  - apply (serve_starts w (CancelOpsByKey (reactor_data_ i) (cancellation_queue a) key) m).
  - pose proof (user_starts i mode m). by destruct (user_non_blocking i mode m) as [[ec i'] m'].
  - pose proof (native_starts i mode m). by destruct (native_non_blocking i mode m) as [[ec i'] m'].
  - apply (do_start_starts i _ (new_op (socket_ i) (state_ i) (SocketService.Send data flags) key h)).
  - apply (do_start_starts i _ (new_op (socket_ i) (state_ i) (Receive size flags) key h)).
  - apply (do_start_starts i _ (new_op (socket_ i) (state_ i) (SendTo data flags to) key h)).
  - apply (do_start_starts i _ (new_op (socket_ i) (state_ i) (ReceiveFrom size flags) key h)).
  - unfold async_accept, do_start_accept_op. destruct peer; cbn [negb].
    + apply (post_now_starts (set_ec (Some already_open) (new_op (socket_ i) (state_ i) Accept key h))).
    + apply (do_start_starts i _ (new_op (socket_ i) (state_ i) Accept key h)).
  - apply (do_connect_starts i (new_op (socket_ i) (state_ i) Connect key h)).
Qed.
Lemma destroy_starts i (m : machine) : starting w 0 m (destroy i m).
Proof. unfold destroy. destruct (is_open i); [apply close_starts|apply starting_refl]. Qed.
Lemma release_starts i (m : machine) : starting w 0 m (release i m).2.
Proof.
  unfold release. destruct (is_open i); [|apply starting_refl]. cbn [negb].
  pose proof (serve_starts w (DeregisterDescriptor (socket_ i) (reactor_data_ i) false) m) as Hd. cbn [serve starts] in Hd.
  destruct (deregister_descriptor _ _ _ m) as [data m1]; cbn [snd] in *. apply (then_starts _ _ _ _ Hd).
  apply (serve_starts w (CleanupDescriptorData data) m1).
Qed.
End once.

(** Every asynchronous call is answered once.  Whatever the state of the socket - closed,
    in the wrong mode, refused by the system or by the reactor - an asynchronous call leaves
    exactly one operation with its handler, ready in the event loop or waiting in the reactor,
    and so does accept into a socket that is open already; it runs no handler itself.  Every
    other call - open, assign, close, cancel, the modes - and the end of a socket, by its
    destructor, by release or by moving another socket into it, makes no operation and loses
    none: an operation that it takes out of the reactor becomes ready. *)
Theorem calls_answered `{SocketSystem} (w : owner) (c : call) (i other : impl) (m : @Scheduler.machine (@epoll_task socket_epoll)) :
  let answered n m' :=
    tally w (Scheduler.held m') + waiting w (env m') = tally w (Scheduler.held m) + waiting w (env m) + n /\
    handled (env m') = handled (env m) in
  answered (asks w c) (perform_call c i m).2 /\ answered 0 (destroy i m) /\ answered 0 (release i m).2 /\
  answered 0 (base_move_assign i other m).2.
Proof.
  cbn zeta. destruct (call_starts w c i m), (destroy_starts w i m), (release_starts w i m). by split_and!.
Qed.
