(* ===== verification/BlockingIo.v ===== *)
(** * Blocking calls and the attempts of the reactor

    A blocking transfer of a socket loops in [socket_ops] ([sync_recv1], [sync_send1],
    [sync_recvfrom1], [sync_sendto1], [sync_accept]); an asynchronous one is attempted by the
    reactor ([SocketService.perform_op] over [non_blocking_recv1] and its like), at once or
    when epoll has announced the socket.  Both are compared at one state of the system. *)
From S2P Require Import Prelude Endpoint SocketOps EpollReactor SocketService SocketSafety.
From S2P Require EpollWakeups.
Open Scope Z_scope.

Section blocking.
  Context `{SocketSystem}.

(** The blocking call for what an operation asks for, its results stored in the operation;
    [None]: out of fuel.  ([connect] is not a loop.) *)
Definition blocking (fuel : nat) (o : socket_op) (k : K) : option (socket_op * K) :=
  let s := op_socket o in let state := op_state o in
  match op_attempt o with
  | Receive size flags =>
      (fun '((bytes, ec), k) => (set_results bytes 0 None invalid_socket ec o, k)) <$> sync_recv1 fuel s state size flags k
  | Send data flags =>
      (fun '((n, ec), k) => (set_results [] n None invalid_socket ec o, k)) <$> sync_send1 fuel s state data flags k
  | ReceiveFrom size flags =>
      (fun '((bytes, from, ec), k) => (set_results bytes 0 from invalid_socket ec o, k)) <$> sync_recvfrom1 fuel s state size flags k
  | SendTo data flags to =>
      (fun '((n, ec), k) => (set_results [] n None invalid_socket ec o, k)) <$> sync_sendto1 fuel s state data flags to k
  | Accept =>
      (fun '((new_s, peer, ec), k) => (set_results [] 0 peer new_s ec o, k)) <$> sync_accept fuel s state k
  | Connect => None
  end.
(** One system call of it: the error code. *)
Definition call_once (o : socket_op) (k : K) : error_code * K :=
  let s := op_socket o in
  match op_attempt o with
  | Receive size flags => let '(r, k) := recv1 s size flags k in (ec_of r, k)
  | Send data flags => let '(r, k) := send1 s data flags k in (ec_of r, k)
  | ReceiveFrom size flags => let '(r, k) := recvfrom1 s size flags k in (ec_of r, k)
  | SendTo data flags to => let '(r, k) := sendto1 s data flags to k in (ec_of r, k)
  | Accept => let '((_, _, ec), k) := accept s k in (ec, k)
  | Connect => (None, k)
  end.
(** How it waits. *)
Definition wait_for (o : socket_op) : K -> (Z * error_code) * K :=
  match op_attempt o with Send _ _ | SendTo _ _ _ => poll_write | _ => poll_read end (op_socket o) 0 (-1).
(** It fails. *)
Definition with_error (ec : error_code) (o : socket_op) : socket_op := set_results [] 0 None invalid_socket ec o.

(** So many calls in a row that a signal interrupts. *)
Inductive interruptions (call : K -> error_code * K) : nat -> K -> K -> Prop :=
  | not_interrupted k : interruptions call 0 k k
  | interrupted_once n k k1 k2 : call k = (Some interrupted, k1) -> interruptions call n k1 k2 -> interruptions call (S n) k k2.

(** What a blocking call makes of an attempt that leaves [k'] and has [o'] to show. *)
Definition blocking_does (st : status) (o o' : socket_op) (k' : K) (fuel : nat) (r : option (socket_op * K)) : Prop :=
  match st with
  | not_done =>
      let '((n, ec), k3) := wait_for o k' in
      if n <? 0 then exists ec', (forall e, ec = Some e -> ec' = Some e) /\ r = Some (with_error ec' o, k3)
      else r = blocking fuel o k3
  | _ => r = Some (o', k')
  end.

(** ** The loops *)

Lemma uninterrupted_calls {A} (try_ : K -> sysres A * K) fuel k :
  (forall k2, ~ interruptions (fun k => let '(r, k) := try_ k in (ec_of r, k)) fuel k k2) ->
  exists n k2, interruptions (fun k => let '(r, k) := try_ k in (ec_of r, k)) n k k2 /\ ec_of (try_ k2).1 <> Some interrupted /\
    uninterrupted try_ fuel k = Some (try_ k2).
Proof.
  revert k. induction fuel as [|fuel IH]; intros k Hno; [by destruct (Hno k); constructor|]. cbn [uninterrupted].
  destruct (try_ k) as [r k1] eqn:Ht. unfold ec_is. case_bool_decide as Hi.
  - destruct (IH k1) as (n & k2 & Hn & He & Hu).
    { intros k2 H2. apply (Hno k2). apply (interrupted_once _ _ _ k1); [by rewrite Ht, Hi|done]. }
    exists (S n), k2. split_and!; [|done|done]. apply (interrupted_once _ _ _ k1); [by rewrite Ht, Hi|done].
  - exists 0%nat, k. rewrite Ht. split_and!; [constructor|done|done].
Qed.
Lemma accept_calls fuel s state k :
  (forall k2, ~ interruptions (fun k => let '((_, _, ec), k) := accept s k in (ec, k)) fuel k k2) ->
  exists n k2, interruptions (fun k => let '((_, _, ec), k) := accept s k in (ec, k)) n k k2 /\ (accept s k2).1.2 <> Some interrupted /\
    non_blocking_accept fuel s state k =
      let '((new_s, addr, ec), k) := accept s k2 in
      Some (if negb (new_s =? invalid_socket) then (true, (new_s, addr), ec) else (negb (accept_again state ec), (invalid_socket, None), ec), k).
Proof.
  assert (forall k, (accept s k).1.2 = Some interrupted -> (accept s k).1.1.1 = invalid_socket) as Hfail.
  { intros k0. unfold accept. destruct (_ =? _); [done|]. by destruct (sys_accept s k0) as [[[a b]|e] k1]. }
  revert k. induction fuel as [|fuel IH]; intros k Hno; [by destruct (Hno k); constructor|]. cbn [non_blocking_accept].
  specialize (Hfail k). destruct (accept s k) as [[[new_s addr] ec] k1] eqn:Ht. cbn [fst snd] in Hfail. unfold ec_is.
  destruct (decide (ec = Some interrupted)) as [Hi|Hi].
  - rewrite (Hfail Hi), Z.eqb_refl. cbn [negb]. rewrite bool_decide_eq_true_2 by done.
    destruct (IH k1) as (n & k2 & Hn & He & Hu).
    { intros k2 H2. apply (Hno k2). apply (interrupted_once _ _ _ k1); [by rewrite Ht, Hi|done]. }
    exists (S n), k2. split_and!; [|done|done]. apply (interrupted_once _ _ _ k1); [by rewrite Ht, Hi|done].
  - exists 0%nat, k. rewrite Ht. split_and!; [constructor|done|]. destruct (negb (new_s =? invalid_socket)); [done|].
    by rewrite bool_decide_eq_false_2.
Qed.

(** One round of a blocking loop. *)
Lemma sync_loop_round {A} (try_ : K -> sysres A * K) wait state fuel k : has user_set_non_blocking state = false ->
  sync_loop try_ wait state (S fuel) k =
    let '(r, k1) := try_ k in
    if would_wait (ec_of r) then
      let '((n, ec), k2) := wait k1 in
      if n <? 0 then Some (Errno (default would_block (if ec_set ec then ec else ec_of r)), k2) else sync_loop try_ wait state fuel k2
    else Some (r, k1).
Proof.
  intros Hu. cbn [sync_loop]. destruct (try_ k) as [[a|e] k1]; cbn [ec_of]; [done|]. rewrite Hu. cbn [orb].
  destruct (would_wait (Some e)); cbn [negb]; [|done]. destruct (wait k1) as [[n [e'|]] k2]; done.
Qed.

Section attempts.
  Context (o : socket_op) (Hs : op_socket o <> invalid_socket) (Huser : has user_set_non_blocking (op_state o) = false).

(** A signal ends a blocking call. *)
Lemma interrupted_ends k0 k1 fuel : op_attempt o <> Connect -> valid o -> call_once o k0 = (Some interrupted, k1) ->
  blocking (S fuel) o k0 = Some (with_error (Some interrupted) o, k1).
Proof.
  intros Hc Hv Hcall. unfold call_once, valid in *. unfold blocking. destruct (op_attempt o) as [size flags|data flags|size flags|data flags to| |] eqn:Ha; [..|done].
  - unfold sync_recv1. rewrite (proj2 (Z.eqb_neq _ _) Hs). assert ((size =? 0)%nat && has stream_oriented (op_state o) = false) as ->.
    { destruct (has stream_oriented _); [|by rewrite andb_false_r]. specialize (Hv eq_refl). by destruct (Nat.eqb_spec size 0); [lia|]. }
    rewrite sync_loop_round by done. destruct (recv1 _ _ _ k0) as [[bytes|e] k2]; [done|]. injection Hcall as -> ->. done.
  - unfold sync_send1. rewrite (proj2 (Z.eqb_neq _ _) Hs). assert ((length data =? 0)%nat && has stream_oriented (op_state o) = false) as ->.
    { destruct (has stream_oriented _); [|by rewrite andb_false_r]. specialize (Hv eq_refl). by destruct data. }
    rewrite sync_loop_round by done. destruct (send1 _ _ _ k0) as [[n|e] k2]; [done|]. injection Hcall as -> ->. done.
  - unfold sync_recvfrom1. rewrite (proj2 (Z.eqb_neq _ _) Hs), sync_loop_round by done.
    destruct (recvfrom1 _ _ _ k0) as [[[bytes from]|e] k2]; [done|]. injection Hcall as -> ->. done.
  - unfold sync_sendto1. rewrite (proj2 (Z.eqb_neq _ _) Hs), sync_loop_round by done.
    destruct (sendto1 _ _ _ _ k0) as [[n|e] k2]; [done|]. injection Hcall as -> ->. done.
  - cbn [sync_accept]. unfold accept in *. rewrite (proj2 (Z.eqb_neq _ _) Hs) in *.
    destruct (sys_accept _ k0) as [[[new_s addr]|e] k2]; [done|]. injection Hcall as -> ->. done.
Qed.
(** What is to be shown of an attempt at [k2] that gave [st] and [o'], and left [k']. *)
Definition agrees_at (st : status) (o' : socket_op) (k' k2 : K) : Prop :=
  forall fuel, blocking_does st o o' k' fuel (blocking (S fuel) o k2).

(** What is to be shown of an operation attempted in [k]. *)
Definition attempt_agrees (k : K) : Prop :=
  let '(st, o', k') := perform_op o k in
  exists n k2, interruptions (call_once o) n k k2 /\ (call_once o k2).1 <> Some interrupted /\ agrees_at st o' k' k2.

Context (k : K) (Hsignals : forall k2, ~ interruptions (call_once o) eintr k k2).

(** A call whose blocking form is a loop of [try_] and [wait]. *)
Lemma loop_agrees {A} (try_ : K -> sysres A * K) (wait : K -> (Z * error_code) * K) (fin : sysres A -> socket_op)
  (Hcall : call_once o = fun k => let '(r, k) := try_ k in (ec_of r, k))
  (Hb : forall fuel k, blocking fuel o k = prod_map fin id <$> sync_loop try_ wait (op_state o) fuel k)
  (Hfail : forall e, fin (Errno e) = with_error (Some e) o) (Hwait : wait_for o = wait)
  (Hperform : forall r k', uninterrupted try_ eintr k = Some (r, k') -> exists st o', perform_op o k = (st, o', k') /\
     if would_wait (ec_of r) then st = not_done else st <> not_done /\ o' = fin r) : attempt_agrees k.
Proof.
  unfold attempt_agrees. rewrite Hcall in Hsignals |- *. destruct (uninterrupted_calls _ _ _ Hsignals) as (n & k2 & Hn & Hi & Hu).
  destruct (try_ k2) as [r k'] eqn:Ht. destruct (Hperform r k' Hu) as (st & o' & -> & Hst). exists n, k2. rewrite Ht. split_and!; [done|done|].
  intros fuel. unfold blocking_does. rewrite Hb, sync_loop_round, Ht, Hwait by done. destruct (would_wait (ec_of r)) eqn:Hw.
  - subst st. destruct r as [a|e]; [done|]. destruct (wait k') as [[m ec] k3]. destruct (m <? 0); [|by rewrite Hb]. cbn. rewrite Hfail.
    destruct ec as [e'|]; cbn; eexists; (split; [|done]); intros e0; congruence.
  - destruct Hst as [Hst ->]. by destruct st.
Qed.

(** [status_of true] is not [not_done]. *)
Lemma finished_done b : status_of true b <> not_done.
Proof. by destruct b. Qed.
Lemma failed_status e b : if would_wait (Some e) then status_of (negb (would_wait (Some e))) b = not_done
  else status_of (negb (would_wait (Some e))) b <> not_done /\ with_error (Some e) o = with_error (Some e) o.
Proof. destruct (would_wait (Some e)); [done|]. split; [apply finished_done|done]. Qed.

Lemma receive_agrees size flags : op_attempt o = Receive size flags -> valid o -> attempt_agrees k.
Proof.
  intros Ha Hv. unfold valid in Hv. rewrite Ha in Hv.
  apply (loop_agrees (recv1 (op_socket o) size flags) (poll_read (op_socket o) 0 (-1)) (fun r => match r with
    | Done bytes => if has stream_oriented (op_state o) && (length bytes =? 0)%nat then set_results [] 0 None invalid_socket (Some eof) o
                    else set_results bytes 0 None invalid_socket None o
    | Errno e => with_error (Some e) o end)); [unfold call_once; by rewrite Ha| |done|unfold wait_for; by rewrite Ha|].
  - intros fuel k0. unfold blocking. rewrite Ha. unfold sync_recv1. rewrite (proj2 (Z.eqb_neq _ _) Hs).
    assert ((size =? 0)%nat && has stream_oriented (op_state o) = false) as ->.
    { destruct (has stream_oriented _); [|by rewrite andb_false_r]. specialize (Hv eq_refl). by destruct (Nat.eqb_spec size 0); [lia|]. }
    destruct (sync_loop _ _ _ _ _) as [[[bytes|e] k1]|]; [|done..]. cbn. by destruct (_ && _).
  - intros r k' Hu. unfold perform_op. rewrite Ha. unfold recv_perform, non_blocking_recv1. rewrite Hu. destruct r as [bytes|e].
    + destruct (_ && (length bytes =? 0)%nat); eexists _, _; (split; [done|]); cbn; (split; [apply finished_done|done]).
    + eexists _, _. split; [done|]. apply failed_status.
Qed.
Lemma send_agrees data flags : op_attempt o = Send data flags -> valid o -> attempt_agrees k.
Proof.
  intros Ha Hv. unfold valid in Hv. rewrite Ha in Hv.
  apply (loop_agrees (send1 (op_socket o) data flags) (poll_write (op_socket o) 0 (-1)) (fun r => match r with
    | Done n => set_results [] n None invalid_socket None o | Errno e => with_error (Some e) o end));
    [unfold call_once; by rewrite Ha| |done|unfold wait_for; by rewrite Ha|].
  - intros fuel k0. unfold blocking. rewrite Ha. unfold sync_send1. rewrite (proj2 (Z.eqb_neq _ _) Hs).
    assert ((length data =? 0)%nat && has stream_oriented (op_state o) = false) as ->.
    { destruct (has stream_oriented _); [|by rewrite andb_false_r]. specialize (Hv eq_refl). by destruct data. }
    by destruct (sync_loop _ _ _ _ _) as [[[n|e] k1]|].
  - intros r k' Hu. unfold perform_op. rewrite Ha. unfold send_perform, non_blocking_send1. rewrite Hu. destruct r as [n|e].
    + eexists _, _. split; [done|]. cbn. split; [apply finished_done|done].
    + eexists _, _. split; [done|]. apply failed_status.
Qed.
Lemma receive_from_agrees size flags : op_attempt o = ReceiveFrom size flags -> attempt_agrees k.
Proof.
  intros Ha. apply (loop_agrees (recvfrom1 (op_socket o) size flags) (poll_read (op_socket o) 0 (-1)) (fun r => match r with
    | Done (bytes, from) => set_results bytes 0 (Some from) invalid_socket None o | Errno e => with_error (Some e) o end));
    [unfold call_once; by rewrite Ha| |done|unfold wait_for; by rewrite Ha|].
  - intros fuel k0. unfold blocking. rewrite Ha. unfold sync_recvfrom1. rewrite (proj2 (Z.eqb_neq _ _) Hs).
    by destruct (sync_loop _ _ _ _ _) as [[[[bytes from]|e] k1]|].
  - intros r k' Hu. unfold perform_op. rewrite Ha. unfold recvfrom_perform, non_blocking_recvfrom1. rewrite Hu. destruct r as [[bytes from]|e].
    + eexists _, _. split; [done|]. done.
    + eexists _, _. split; [done|]. apply failed_status.
Qed.
Lemma send_to_agrees data flags to : op_attempt o = SendTo data flags to -> attempt_agrees k.
Proof.
  intros Ha. apply (loop_agrees (sendto1 (op_socket o) data flags to) (poll_write (op_socket o) 0 (-1)) (fun r => match r with
    | Done n => set_results [] n None invalid_socket None o | Errno e => with_error (Some e) o end));
    [unfold call_once; by rewrite Ha| |done|unfold wait_for; by rewrite Ha|].
  - intros fuel k0. unfold blocking. rewrite Ha. unfold sync_sendto1. rewrite (proj2 (Z.eqb_neq _ _) Hs).
    by destruct (sync_loop _ _ _ _ _) as [[[n|e] k1]|].
  - intros r k' Hu. unfold perform_op. rewrite Ha. unfold sendto_perform, non_blocking_sendto1. rewrite Hu. destruct r as [n|e].
    + eexists _, _. split; [done|]. done.
    + eexists _, _. split; [done|]. apply failed_status.
Qed.
Lemma accept_agrees : op_attempt o = Accept -> attempt_agrees k.
Proof.
  intros Ha. assert (call_once o = fun k => let '((_, _, ec), k) := accept (op_socket o) k in (ec, k)) as Hcall by (unfold call_once; by rewrite Ha).
  unfold attempt_agrees, perform_op. rewrite Ha. rewrite Hcall in Hsignals |- *. unfold accept_perform.
  destruct (accept_calls _ _ (op_state o) _ Hsignals) as (n & k2 & Hn & Hi & ->).
  destruct (accept (op_socket o) k2) as [[[new_s addr] ec] k'] eqn:Hacc. cbn [fst snd] in Hi.
  assert (forall fuel, blocking (S fuel) o k2 = (fun '((new_s, peer, ec), k) => (set_results [] 0 peer new_s ec o, k)) <$> sync_accept (S fuel) (op_socket o) (op_state o) k2) as Hb
    by (intros; unfold blocking; by rewrite Ha).
  destruct (negb (new_s =? invalid_socket)) eqn:Hnew.
  - exists n, k2. rewrite Hacc. split_and!; [done|done|]. intros fuel. cbn. rewrite Hb. cbn [sync_accept]. by rewrite Hacc, Hnew.
  - exists n, k2. rewrite Hacc. split_and!; [done|done|]. intros fuel. unfold blocking_does. rewrite Hb. cbn [sync_accept]. rewrite Hacc, Hnew.
    assert ((if would_wait ec then has user_set_non_blocking (op_state o) else negb (accept_again (op_state o) ec)) = negb (accept_again (op_state o) ec)) as ->
      by (unfold accept_again; rewrite Huser; by destruct (would_wait ec)).
    destruct (accept_again (op_state o) ec); cbn [negb status_of]; [|done].
    unfold wait_for. rewrite Ha. destruct (poll_read _ 0 (-1) k') as [[m ec'] k3]. destruct (m <? 0); [|unfold blocking; by rewrite Ha].
    exists ec'. split; [by intros|done].
Qed.
End attempts.
End blocking.

(** ** Properties *)

(** C29: an attempt of the reactor and a blocking call do the same.  Take any read, write,
    datagram transfer or accept that the service hands to the reactor, of a socket whose user
    did not ask for non-blocking behaviour, attempted in any state of the system, while
    signals interrupt it fewer times than the attempt goes round.  After the interrupted
    calls, an attempt that completes the operation has exactly the results, the error and the
    state of the system of a blocking call made then; and one that has to wait is where the
    blocking call waits with [poll] and, once awake, tries again as if called anew.  Where
    they differ: a blocking call that a signal interrupts fails with [interrupted]. *)
Theorem blocking_io_agrees `{SocketSystem} (o : socket_op) (k : K) (Hs : op_socket o <> invalid_socket)
  (Huser : has user_set_non_blocking (op_state o) = false) (Hvalid : valid o) (Hc : op_attempt o <> Connect)
  (Hsignals : forall k2, ~ interruptions (call_once o) eintr k k2) :
  (let '(st, o', k') := perform_op o k in
   exists n k2, interruptions (call_once o) n k k2 /\ (call_once o k2).1 <> Some interrupted /\
     forall fuel, blocking_does st o o' k' fuel (blocking (S fuel) o k2)) /\
  forall k0 k1 fuel, call_once o k0 = (Some interrupted, k1) -> blocking (S fuel) o k0 = Some (with_error (Some interrupted) o, k1).
Proof.
  split; [|intros; by apply interrupted_ends].
  destruct (op_attempt o) as [size flags|data flags|size flags|data flags to| |] eqn:Ha; [| | | | |done].
  - by eapply receive_agrees.
  - by eapply send_agrees.
  - by eapply receive_from_agrees.
  - by eapply send_to_agrees.
  - by eapply accept_agrees.
Qed.

(** Two bytes have arrived; and none has. *)
Definition sample_op : socket_op := new_op EpollWakeups.toy_socket (Z.lor stream_oriented internal_non_blocking) (Receive 4 0) 0 0.
Definition arrived_kernel : toy_kernel := ToyKernel (EpollWakeups.Toy ["a"; "b"]%char false None false) true true.
Definition empty_kernel : toy_kernel := ToyKernel (EpollWakeups.Toy [] false None false) true true.
Lemma blocking_io_agrees_witness :
  let '(st, o', k') := @perform_op toy_system sample_op arrived_kernel in
  (st = done_and_exhausted \/ st = done) /\ op_bytes o' = ["a"; "b"]%char /\
  (exists n k2, interruptions (@call_once toy_system sample_op) n arrived_kernel k2 /\
     forall fuel, blocking_does st sample_op o' k' fuel (@blocking toy_system (S fuel) sample_op k2)) /\
  (let '(st, o', k') := @perform_op toy_system sample_op empty_kernel in
   st = not_done /\ exists n k2, interruptions (@call_once toy_system sample_op) n empty_kernel k2 /\
     forall fuel, blocking_does st sample_op o' k' fuel (@blocking toy_system (S fuel) sample_op k2)).
Proof.
  assert (forall k k2, (@call_once toy_system sample_op k).1 <> Some interrupted -> ~ interruptions (@call_once toy_system sample_op) 1 k k2) as Hno.
  { intros k k2 Hc Hi. inversion Hi as [|n k0 k1 k3 Hcall _]; subst. by rewrite Hcall in Hc. }
  pose proof (@blocking_io_agrees toy_system sample_op arrived_kernel ltac:(done) ltac:(done) ltac:(intros _; cbn; lia) ltac:(done)
    ltac:(intros k2; apply Hno; vm_compute; discriminate)) as [H1 _].
  pose proof (@blocking_io_agrees toy_system sample_op empty_kernel ltac:(done) ltac:(done) ltac:(intros _; cbn; lia) ltac:(done)
    ltac:(intros k2; apply Hno; vm_compute; discriminate)) as [H2 _].
  destruct (@perform_op toy_system sample_op arrived_kernel) as [[st o'] k'] eqn:Hp. vm_compute in Hp. injection Hp as Hst Ho Hk.
  destruct H1 as (n & k2 & Hn & _ & Hb). split; [subst st; tauto|]. split; [by subst o'|]. split; [by exists n, k2|].
  destruct (@perform_op toy_system sample_op empty_kernel) as [[st2 o2] k3] eqn:Hp2. vm_compute in Hp2. injection Hp2 as Hst2 _ _.
  split; [by subst st2|]. destruct H2 as (n2 & k4 & Hn2 & _ & Hb2). by exists n2, k4.
Defined.
