(* ===== verification/SocketObjects.v ===== *)
(** * Sockets and acceptors: options, names, listening, and whose descriptor is whose

    Models the rest of what the program asks of a socket: the calls of
    [detail/impl/socket_ops.ipp] that bind, listen, set and get options and report names (on
    Linux), the synchronous half of [detail/reactive_socket_service.hpp] and
    [detail/reactive_socket_service_base.hpp], and the objects that own an implementation:
    [detail/io_object_impl.hpp], [basic_socket.hpp], [basic_socket_acceptor.hpp].

    An option's value is its list of [int]s: one for the boolean and the integer options, two
    for [linger]. *)
From S2P Require Import Prelude Endpoint SocketOps EpollReactor SocketService.
From S2P Require Scheduler EpollWakeups.
Import Scheduler (machine, Machine, env, sched).
Open Scope Z_scope.

(** ** Levels, names and protocols of Linux *)

Definition custom_socket_option_level : Z := 2769289216 - 2 ^ 32.
Definition enable_connection_aborted_option : Z := 1.
Definition always_fail_option : Z := 2.
Definition SOL_SOCKET : Z := 1.
Definition SO_REUSEADDR : Z := 2.
Definition SO_BROADCAST : Z := 6.
Definition SO_SNDBUF : Z := 7.
Definition SO_RCVBUF : Z := 8.
Definition SO_KEEPALIVE : Z := 9.
Definition SO_LINGER : Z := 13.
Definition IPPROTO_TCP : Z := 6.
Definition IPPROTO_UDP : Z := 17.
Definition TCP_NODELAY : Z := 1.
Definition AF_INET : Z := 2.
Definition AF_INET6 : Z := 10.
(** [SOMAXCONN] *)
Definition max_listen_connections : Z := 4096.
Definition POLLPRI : Z := 2.
Definition POLLERR : Z := 8.
Definition POLLHUP : Z := 16.

(** The other system calls of a socket. *)
Class SetupSystem `{SocketSystem} := {
  sys_bind : Z -> endpoint_t -> K -> sysres unit * K;
  sys_listen : Z -> Z -> K -> sysres unit * K;
  (** descriptor, level, name, value *)
  sys_setsockopt : Z -> Z -> Z -> list Z -> K -> sysres unit * K;
  (** the size asked for, in [int]s *)
  sys_getsockopt : Z -> Z -> Z -> nat -> K -> sysres (list Z) * K;
  sys_getsockname : Z -> K -> sysres endpoint_t * K;
  sys_getpeername : Z -> K -> sysres endpoint_t * K;
  sys_atmark : Z -> K -> sysres Z * K;
}.

(** [ip::tcp] and [ip::udp]: the class and its [family_]. *)
Inductive transport := tcp | udp.
#[export] Instance transport_eq_dec : EqDecision transport.
Proof. solve_decision. Defined.
Record protocol := Protocol { transport_ : transport; family_ : Z }.
Definition type (p : protocol) : Z := match transport_ p with tcp => SOCK_STREAM | udp => SOCK_DGRAM end.
Definition protocol_number (p : protocol) : Z := match transport_ p with tcp => IPPROTO_TCP | udp => IPPROTO_UDP end.
(** [basic_endpoint::protocol] *)
Definition protocol_of (t : transport) (ep : endpoint_t) : protocol :=
  Protocol t (match ep_address ep with address_v4 _ => AF_INET | address_v6 _ _ => AF_INET6 end).
(** [endpoint_type()] *)
Definition no_endpoint : endpoint_t := Endpoint any_v4 0.

(** An option as [set_option] sees it. *)
Record socket_option := SocketOption { level : Z; name : Z; data : list Z }.
(** [socket_option::boolean(v)], [integer(v)], [linger(e, t)] *)
Definition boolean (level name : Z) (v : bool) : socket_option := SocketOption level name [if v then 1 else 0].
Definition integer (level name v : Z) : socket_option := SocketOption level name [v].
Definition linger (e : bool) (t : Z) : socket_option := SocketOption SOL_SOCKET SO_LINGER [if e then 1 else 0; t].
Definition reuse_address : bool -> socket_option := boolean SOL_SOCKET SO_REUSEADDR.
Definition broadcast : bool -> socket_option := boolean SOL_SOCKET SO_BROADCAST.
Definition keep_alive : bool -> socket_option := boolean SOL_SOCKET SO_KEEPALIVE.
Definition no_delay : bool -> socket_option := boolean IPPROTO_TCP TCP_NODELAY.

Section objects.
  Context `{SetupSystem}.
  #[local] Abbreviation machine := (@Scheduler.machine (@epoll_task socket_epoll)).

(** ** The calls of [socket_ops] *)

Definition bind (s : Z) (addr : endpoint_t) (k : K) : error_code * K :=
  if s =? invalid_socket then (Some bad_descriptor, k) else let '(r, k) := sys_bind s addr k in (ec_of r, k).
Definition listen (s backlog : Z) (k : K) : error_code * K :=
  if s =? invalid_socket then (Some bad_descriptor, k) else let '(r, k) := sys_listen s backlog k in (ec_of r, k).

Definition custom (lvl nam option : Z) : bool := (lvl =? custom_socket_option_level) && (nam =? option).

(** The new state, and the error code. *)
Definition setsockopt (s state : Z) (o : socket_option) (k : K) : (Z * error_code) * K :=
  if s =? invalid_socket then ((state, Some bad_descriptor), k)
  else if custom (level o) (name o) always_fail_option then ((state, Some invalid_argument), k)
  else if custom (level o) (name o) enable_connection_aborted_option then
    match data o with
    | [v] => (((if v =? 0 then clear else raise) enable_connection_aborted state, None), k)
    | _ => ((state, Some invalid_argument), k)
    end
  else
    let state := if (level o =? SOL_SOCKET) && (name o =? SO_LINGER) then raise user_set_linger state else state in
    let '(r, k) := sys_setsockopt s (level o) (name o) (data o) k in ((state, ec_of r), k).

(** The value, and the error code.  Linux doubles the sizes of the buffers. *)
Definition getsockopt (s state lvl nam : Z) (size : nat) (k : K) : (list Z * error_code) * K :=
  if s =? invalid_socket then (([], Some bad_descriptor), k)
  else if custom lvl nam always_fail_option then (([], Some invalid_argument), k)
  else if custom lvl nam enable_connection_aborted_option then
    if (size =? 1)%nat then (([if has enable_connection_aborted state then 1 else 0], None), k)
    else (([], Some invalid_argument), k)
  else
    let '(r, k) := sys_getsockopt s lvl nam size k in
    match r with
    | Errno e => (([], Some e), k)
    | Done [v] => (([if (lvl =? SOL_SOCKET) && ((nam =? SO_SNDBUF) || (nam =? SO_RCVBUF)) then Z.quot v 2 else v], None), k)
    | Done vs => ((vs, None), k)
    end.

Definition name_of (call : Z -> K -> sysres endpoint_t * K) (s : Z) (k : K) : (endpoint_t * error_code) * K :=
  if s =? invalid_socket then ((no_endpoint, Some bad_descriptor), k)
  else
    let '(r, k) := call s k in
    match r with Done ep => ((ep, None), k) | Errno e => ((no_endpoint, Some e), k) end.
Definition getsockname : Z -> K -> (endpoint_t * error_code) * K := name_of sys_getsockname.
Definition getpeername : Z -> K -> (endpoint_t * error_code) * K := name_of sys_getpeername.

Definition sockatmark (s : Z) (k : K) : (bool * error_code) * K :=
  if s =? invalid_socket then ((false, Some bad_descriptor), k)
  else
    let '(r, k) := sys_atmark s k in
    match r with
    | Done value => ((negb (value =? 0), None), k)
    | Errno e => ((false, Some (if bool_decide (e = ENOTTY) then not_socket else e)), k)
    end.
Definition poll_error : Z -> Z -> Z -> K -> (Z * error_code) * K :=
  poll_for (Z.lor (Z.lor POLLPRI POLLERR) POLLHUP).

(** [close] for a destructor, which must not wait for what lingers. *)
Definition close_destroying (s state : Z) (k : K) : (Z * error_code) * K :=
  if negb (s =? invalid_socket) && has user_set_linger state then
    let '((state, _), k) := setsockopt s state (linger false 0) k in close s state None k
  else close s state None k.

(** ** The service

    An implementation is that of the base service with its protocol. *)
Record object := Object { base : impl; protocol_ : protocol }.

Definition with_base (i : impl) (o : object) : object := Object i (protocol_ o).
(** [endpoint_type().protocol()] *)
Definition default_protocol (t : transport) : protocol := protocol_of t no_endpoint.
(** An object that is not open. *)
Definition object_construct (t : transport) : object := Object construct (default_protocol t).
Definition object_open (o : object) : bool := is_open (base o).

Definition open (o : object) (p : protocol) (m : machine) : (error_code * object) * machine :=
  let '((ec, i), m) := do_open (base o) (family_ p) (type p) (protocol_number p) m in
  ((ec, Object i (if ec_set ec then protocol_ o else p)), m).
Definition assign (o : object) (p : protocol) (native_socket : Z) (m : machine) : (error_code * object) * machine :=
  let '((ec, i), m) := do_assign (base o) (type p) native_socket m in
  ((ec, Object i (if ec_set ec then protocol_ o else p)), m).

(** A call on the descriptor that leaves the implementation as it is. *)
Definition on_socket {A} (f : Z -> K -> A * K) (o : object) (m : machine) : A * machine := on_kern (f (socket_ (base o))) m.

Definition bind_to (ep : endpoint_t) : object -> machine -> error_code * machine := on_socket (fun s => bind s ep).
Definition listen_on (backlog : Z) : object -> machine -> error_code * machine := on_socket (fun s => listen s backlog).
Definition set_option (opt : socket_option) (o : object) (m : machine) : (error_code * object) * machine :=
  let i := base o in
  let '((state, ec), m) := on_kern (setsockopt (socket_ i) (state_ i) opt) m in ((ec, with_base (with_state state i) o), m).
Definition get_option (lvl nam : Z) (size : nat) (o : object) (m : machine) : (list Z * error_code) * machine :=
  on_kern (getsockopt (socket_ (base o)) (state_ (base o)) lvl nam size) m.
Definition local_endpoint : object -> machine -> (endpoint_t * error_code) * machine := on_socket getsockname.
Definition remote_endpoint : object -> machine -> (endpoint_t * error_code) * machine := on_socket getpeername.
Definition shutdown_object (what : Z) : object -> machine -> error_code * machine := on_socket (fun s => shutdown s what).
Definition available_of : object -> machine -> (Z * error_code) * machine := on_socket available.
Definition at_mark : object -> machine -> (bool * error_code) * machine := on_socket sockatmark.
Definition connect_to (peer_endpoint : endpoint_t) : object -> machine -> error_code * machine :=
  on_socket (fun s => sync_connect s peer_endpoint).
Definition non_blocking_mode (mode : bool) (o : object) (m : machine) : (error_code * object) * machine :=
  let '((ec, i), m) := user_non_blocking (base o) mode m in ((ec, with_base i o), m).

Inductive wait_type := wait_read | wait_write | wait_error.
Definition wait (w : wait_type) (o : object) (m : machine) : error_code * machine :=
  let i := base o in
  let '((_, ec), m) :=
    on_kern (match w with
             | wait_read => poll_read (socket_ i) (state_ i) (-1)
             | wait_write => poll_write (socket_ i) (state_ i) (-1)
             | wait_error => poll_error (socket_ i) (state_ i) (-1)
             end) m in
  (ec, m).

(** A blocking call; [None] is out of fuel. *)
Definition on_kern_loop {A} (f : K -> option (A * K)) (m : machine) : option (A * machine) :=
  match f (kern (env m)) with
  | None => None
  | Some (a, k) => Some (a, on_env (set_kern k) m)
  end.
Definition send (fuel : nat) (bytes : list ascii) (flags : Z) (o : object) : machine -> option ((nat * error_code) * machine) :=
  on_kern_loop (sync_send1 fuel (socket_ (base o)) (state_ (base o)) bytes flags).
Definition receive (fuel size : nat) (flags : Z) (o : object) : machine -> option ((list ascii * error_code) * machine) :=
  on_kern_loop (sync_recv1 fuel (socket_ (base o)) (state_ (base o)) size flags).
Definition send_to (fuel : nat) (bytes : list ascii) (flags : Z) (destination : endpoint_t) (o : object)
    : machine -> option ((nat * error_code) * machine) :=
  on_kern_loop (sync_sendto1 fuel (socket_ (base o)) (state_ (base o)) bytes flags destination).
Definition receive_from (fuel size : nat) (flags : Z) (o : object)
    : machine -> option ((list ascii * option endpoint_t * error_code) * machine) :=
  on_kern_loop (sync_recvfrom1 fuel (socket_ (base o)) (state_ (base o)) size flags).

(** [accept] of [o] into [peer]: the code and the peer.  The descriptor that the peer could
    not take is closed by its holder, which knows no flags of it. *)
Definition accept_into (fuel : nat) (o peer : object) (m : machine) : option ((error_code * object) * machine) :=
  if object_open peer then Some ((Some already_open, peer), m)
  else
    match on_kern_loop (sync_accept fuel (socket_ (base o)) (state_ (base o))) m with
    | None => None
    | Some ((new_socket, _, ec), m) =>
        if new_socket =? invalid_socket then Some ((ec, peer), m)
        else
          let '((ec, peer), m) := assign peer (protocol_ o) new_socket m in
          Some ((ec, peer), if ec_set ec then (on_kern (close_destroying new_socket 0) m).2 else m)
    end.

(** [io_object_impl::~io_object_impl]: a socket that lingers is told not to. *)
Definition destroy_object (o : object) (m : machine) : machine :=
  let i := base o in
  if negb (is_open i) then m
  else
    let '(data, m) := deregister_descriptor (socket_ i) (reactor_data_ i) (negb (has possible_dup (state_ i))) m in
    let '(_, m) := on_kern (close_destroying (socket_ i) (state_ i)) m in
    cleanup_descriptor_data data m.
Definition close_object (o : object) (m : machine) : (error_code * object) * machine :=
  let '((ec, i), m) := close_socket (base o) m in ((ec, with_base i o), m).
(** The new object, and the one moved from. *)
Definition object_move (t : transport) (other : object) : object * object :=
  let '(i, i') := base_move_construct (base other) in (Object i (protocol_ other), Object i' (default_protocol t)).
Definition object_move_assign (t : transport) (o other : object) (m : machine) : (object * object) * machine :=
  (object_move t other, destroy_object o m).

(** ** The objects, whose members throw *)

#[local] Abbreviation owner := (object * machine)%type.

(** [throw_error] after a call of the service. *)
Definition call_unit (f : object -> machine -> error_code * machine) : M owner unit := fun '(o, m) =>
  let '(ec, m) := f o m in (match ec with Some e => Throw (system_error e) | None => Ok tt end, (o, m)).
Definition change (f : object -> machine -> (error_code * object) * machine) : M owner unit := fun '(o, m) =>
  let '((ec, o), m) := f o m in (match ec with Some e => Throw (system_error e) | None => Ok tt end, (o, m)).

(** [basic_socket_acceptor(context, endpoint, reuse_addr)]: what is thrown destroys [impl_]. *)
Definition acceptor_new (ep : endpoint_t) (reuse_addr : bool) (m : machine) : res object * machine :=
  let '(r, (o, m)) :=
    (change (fun o => open o (protocol_of tcp ep)) ;;;
     (if reuse_addr then change (set_option (reuse_address true)) else ret tt) ;;;
     call_unit (bind_to ep) ;;;
     call_unit (listen_on max_listen_connections)) (object_construct tcp, m) in
  match r with Ok _ => (Ok o, m) | Throw e => (Throw e, destroy_object o m) end.

(** [basic_socket::connect]: it opens a socket that is not. *)
Definition connect_object (t : transport) (ep : endpoint_t) : M owner unit :=
  opened <-- gets (fun '(o, _) => object_open o) ;;
  (if (opened : bool) then ret tt else change (fun o => open o (protocol_of t ep))) ;;;
  call_unit (connect_to ep).

(** ** A program of objects

    The objects by number.  A call on an object that does not exist, or that would make one
    that does, is not a call of a program: nothing happens. *)
Record space := Space { objects_ : gmap nat object; on_ : machine }.

Inductive member_call :=
  | Open (family : Z)
  | Bind (ep : endpoint_t)
  | Listen (backlog : Z)
  | ConnectTo (ep : endpoint_t)
  | SetOption (opt : socket_option)
  | GetOption (lvl nam : Z) (size : nat)
  | NonBlocking (mode : bool)
  | Shutdown (what : Z)
  | Available
  | AtMark
  | LocalEndpoint
  | RemoteEndpoint
  | Wait (w : wait_type)
  | SendBytes (bytes : list ascii) (flags : Z)
  | ReceiveBytes (size : nat) (flags : Z)
  | SendDatagram (bytes : list ascii) (flags : Z) (destination : endpoint_t)
  | ReceiveDatagram (size : nat) (flags : Z)
  | CancelAll
  | CloseObject.

Inductive object_call :=
  | NewObject (n : nat) (t : transport)
  | NewAcceptor (n : nat) (ep : endpoint_t) (reuse_addr : bool)
  | Member (n : nat) (c : member_call)
  | AcceptInto (n peer : nat)
  | MoveAssign (n other : nat)
  | DestroyObject (n : nat).

Definition unchanged {A} (o : object) (r : A * machine) : object * machine := (o, r.2).
Definition unchanged' {A} (o : object) (r : option (A * machine)) : option (object * machine) := unchanged o <$> r.
Definition changed {A} (r : (A * object) * machine) : object * machine := (r.1.2, r.2).

Definition perform_member (fuel : nat) (c : member_call) (o : object) (m : machine) : option (object * machine) :=
  match c with
  | Open family => Some (changed (open o (Protocol (transport_ (protocol_ o)) family) m))
  | Bind ep => Some (unchanged o (bind_to ep o m))
  | Listen backlog => Some (unchanged o (listen_on backlog o m))
  | ConnectTo ep => Some (connect_object (transport_ (protocol_ o)) ep (o, m)).2
  | SetOption opt => Some (changed (set_option opt o m))
  | GetOption lvl nam size => Some (unchanged o (get_option lvl nam size o m))
  | NonBlocking mode => Some (changed (non_blocking_mode mode o m))
  | Shutdown what => Some (unchanged o (shutdown_object what o m))
  | Available => Some (unchanged o (available_of o m))
  | AtMark => Some (unchanged o (at_mark o m))
  | LocalEndpoint => Some (unchanged o (local_endpoint o m))
  | RemoteEndpoint => Some (unchanged o (remote_endpoint o m))
  | Wait w => Some (unchanged o (wait w o m))
  | SendBytes bytes flags => unchanged' o (send fuel bytes flags o m)
  | ReceiveBytes size flags => unchanged' o (receive fuel size flags o m)
  | SendDatagram bytes flags to => unchanged' o (send_to fuel bytes flags to o m)
  | ReceiveDatagram size flags => unchanged' o (receive_from fuel size flags o m)
  | CancelAll => Some (unchanged o (cancel (base o) m))
  | CloseObject => Some (changed (close_object o m))
  end.

Definition same_class (o o' : object) : bool := bool_decide (transport_ (protocol_ o) = transport_ (protocol_ o')).

Definition perform_object_call (fuel : nat) (c : object_call) (x : space) : option space :=
  let os := objects_ x in
  match c with
  | NewObject n t =>
      Some (match os !! n with Some _ => x | None => Space (<[n := object_construct t]> os) (on_ x) end)
  | NewAcceptor n ep reuse_addr =>
      Some (match os !! n with
            | Some _ => x
            | None =>
                match acceptor_new ep reuse_addr (on_ x) with
                | (Ok o, m) => Space (<[n := o]> os) m
                | (Throw _, m) => Space os m
                end
            end)
  | Member n c =>
      match os !! n with
      | None => Some x
      | Some o => (fun '(o, m) => Space (<[n := o]> os) m) <$> perform_member fuel c o (on_ x)
      end
  | AcceptInto n n' =>
      match os !! n, os !! n' with
      | Some o, Some peer =>
          (fun '((_, peer), m) => Space (<[n' := peer]> os) m) <$> accept_into fuel o peer (on_ x)
      | _, _ => Some x
      end
  | MoveAssign n n' =>
      Some (match os !! n, os !! n' with
            | Some o, Some other =>
                if negb (n =? n')%nat && same_class o other then
                  let '((o, other), m) := object_move_assign (transport_ (protocol_ o)) o other (on_ x) in
                  Space (<[n := o]> (<[n' := other]> os)) m
                else x
            | _, _ => x
            end)
  | DestroyObject n =>
      Some (match os !! n with Some o => Space (delete n os) (destroy_object o (on_ x)) | None => x end)
  end.
Fixpoint perform_object_calls (fuel : nat) (cs : list object_call) (x : space) : option space :=
  match cs with
  | [] => Some x
  | c :: cs => match perform_object_call fuel c x with None => None | Some x => perform_object_calls fuel cs x end
  end.
End objects.

(** ** The descriptor table

    Which descriptors are open, and how long a blocking call can find what it waits for
    gone again. *)
Class OpenFiles `{SetupSystem} := {
  open_files : K -> gset Z;
  read_rounds : Z -> K -> nat;
  write_rounds : Z -> K -> nat;
  accept_rounds : Z -> K -> nat;
}.

Definition quiet `{OpenFiles} {A} (f : K -> A * K) : Prop := forall k, open_files (f k).2 = open_files k.
(** A call that may make a descriptor: it is new. *)
Definition makes `{OpenFiles} {A} (r : sysres A) (fd : A -> Z) (k k' : K) : Prop :=
  match r with
  | Done a => fd a <> invalid_socket /\ fd a ∉ open_files k /\ open_files k' = {[fd a]} ∪ open_files k
  | Errno _ => open_files k' = open_files k
  end.
(** An attempt that is to be made again is made again finitely often. *)
Definition waits `{OpenFiles} {A} (again : error_code -> bool) (try_ : K -> sysres A * K) (wait : K -> (Z * error_code) * K)
    (rounds : K -> nat) : Prop :=
  forall k, again (ec_of (try_ k).1) = true -> 0 <= (wait (try_ k).2).1.1 -> (rounds (wait (try_ k).2).2 < rounds k)%nat.

Class FileLaws `{OpenFiles} : Prop := {
  invalid_closed k : invalid_socket ∉ open_files k;
  socket_files af ty pr k : makes (sys_socket af ty pr k).1 (fun s => s) k (sys_socket af ty pr k).2;
  accept_files s k : makes (sys_accept s k).1 fst k (sys_accept s k).2;
  close_files s k : open_files (sys_close s k).2 = open_files k ∖ {[s]} /\ would_wait (ec_of (sys_close s k).1) = false;
  recv_files s size fl : quiet (sys_recv s size fl);
  send_files s bytes fl : quiet (sys_send s bytes fl);
  recvfrom_files s size fl : quiet (sys_recvfrom s size fl);
  sendto_files s bytes fl to : quiet (sys_sendto s bytes fl to);
  connect_files s ep : quiet (sys_connect s ep);
  poll_files s ev msec : quiet (sys_poll s ev msec);
  so_error_files s : quiet (sys_so_error s);
  fionread_files s : quiet (sys_fionread s);
  fionbio_files s v : quiet (sys_fionbio s v);
  getfl_files s : quiet (sys_getfl s);
  setfl_files s fl : quiet (sys_setfl s fl);
  shutdown_files s what : quiet (sys_shutdown s what);
  bind_files s ep : quiet (sys_bind s ep);
  listen_files s n : quiet (sys_listen s n);
  setsockopt_files s l n v : quiet (sys_setsockopt s l n v);
  getsockopt_files s l n size : quiet (sys_getsockopt s l n size);
  getsockname_files s : quiet (sys_getsockname s);
  getpeername_files s : quiet (sys_getpeername s);
  atmark_files s : quiet (sys_atmark s);
  ctl_files c fd ev d : quiet (sys_epoll_ctl c fd ev d);
  recv_waits s size fl : waits would_wait (recv1 s size fl) (poll_read s 0 (-1)) (read_rounds s);
  recvfrom_waits s size fl : waits would_wait (recvfrom1 s size fl) (poll_read s 0 (-1)) (read_rounds s);
  send_waits s bytes fl : waits would_wait (send1 s bytes fl) (poll_write s 0 (-1)) (write_rounds s);
  sendto_waits s bytes fl to : waits would_wait (sendto1 s bytes fl to) (poll_write s 0 (-1)) (write_rounds s);
  accept_waits s : waits (accept_again 0) (sys_accept s) (poll_read s 0 (-1)) (accept_rounds s);
}.

Section accounts.
  Context `{FileLaws}.
  #[local] Abbreviation machine := (@Scheduler.machine (@epoll_task socket_epoll)).
  #[local] Abbreviation owner := (object * machine)%type.
  Implicit Types (m : machine) (o : object).

Definition files (m : machine) : gset Z := open_files (kern (env m)).
Definition file_of (o : object) : gset Z := if object_open o then {[socket_ (base o)]} else ∅.

(** A call on an object, from these open files to those: the object owns what it holds, and
    all others are as they were. *)
Record moves (F : gset Z) (o : object) (F' : gset Z) (o' : object) : Prop := {
  mv_owns : file_of o' ⊆ F';
  mv_rest : F' ∖ file_of o' = F ∖ file_of o;
}.
Lemma moves_trans F1 o1 F2 o2 F3 o3 : moves F1 o1 F2 o2 -> moves F2 o2 F3 o3 -> moves F1 o1 F3 o3.
Proof. intros [_ Hr1] [Hs2 Hr2]. split; [done|congruence]. Qed.
Lemma file_of_same o o' : socket_ (base o') = socket_ (base o) -> file_of o' = file_of o.
Proof. unfold file_of, object_open, is_open. by intros ->. Qed.
Lemma moves_same F o o' : file_of o ⊆ F -> socket_ (base o') = socket_ (base o) -> moves F o F o'.
Proof. intros Hf Hs. split; by rewrite (file_of_same o o' Hs). Qed.

(** *** Calls that neither open nor close *)

Lemma quiet_if {A} (b : bool) (f g : K -> A * K) : quiet f -> quiet g -> quiet (fun k => if b then f k else g k).
Proof. by destruct b. Qed.
Lemma recv1_files s size fl : quiet (recv1 s size fl).
Proof. apply recv_files. Qed.
Lemma send1_files s bytes fl : quiet (send1 s bytes fl).
Proof. apply send_files. Qed.
Lemma recvfrom1_files s size fl : quiet (recvfrom1 s size fl).
Proof. apply recvfrom_files. Qed.
Lemma sendto1_files s bytes fl to : quiet (sendto1 s bytes fl to).
Proof. apply sendto_files. Qed.
#[local] Hint Resolve recv1_files send1_files recvfrom1_files sendto1_files recv_files send_files recvfrom_files sendto_files
  connect_files poll_files so_error_files fionread_files fionbio_files getfl_files setfl_files shutdown_files bind_files
  listen_files setsockopt_files getsockopt_files getsockname_files getpeername_files atmark_files ctl_files quiet_if : files.

(** Through the calls one after the other. *)
Ltac quiet_calls :=
  intros ?;
  repeat first
    [ reflexivity | congruence
    | match goal with |- context [let '(_, _) := ?f ?k in _] =>
        let Hq := fresh "Hq" in assert (quiet f) as Hq by eauto with files; specialize (Hq k); destruct (f k) as [? ?]; cbn [snd] in Hq
      end
    | match goal with |- open_files (match ?x with _ => _ end).2 = _ => destruct x end
    | match goal with |- open_files (?f ?k).2 = _ =>
        let Hq := fresh "Hq" in assert (quiet f) as Hq by eauto with files; rewrite (Hq k)
      end ]; cbn [snd]; try congruence.

Lemma poll_for_files ev s state msec : quiet (poll_for ev s state msec).
Proof. unfold poll_for. quiet_calls. Qed.
#[local] Hint Resolve poll_for_files : files.
Lemma poll_read_files s state msec : quiet (poll_read s state msec).
Proof. apply poll_for_files. Qed.
Lemma poll_write_files s state msec : quiet (poll_write s state msec).
Proof. apply poll_for_files. Qed.
Lemma poll_error_files s state msec : quiet (poll_error s state msec).
Proof. apply poll_for_files. Qed.
Lemma poll_connect_files s msec : quiet (poll_connect s msec).
Proof. unfold poll_connect. quiet_calls. Qed.
Lemma connect_call_files s ep : quiet (connect s ep).
Proof. unfold connect. quiet_calls. Qed.
#[local] Hint Resolve poll_read_files poll_write_files poll_error_files poll_connect_files connect_call_files : files.
Lemma sync_connect_files s ep : quiet (sync_connect s ep).
Proof. unfold sync_connect. quiet_calls. Qed.
Lemma fcntl_files s v : quiet (fcntl_non_blocking s v).
Proof. unfold fcntl_non_blocking. quiet_calls. Qed.
#[local] Hint Resolve fcntl_files : files.
Lemma descriptor_mode_files s state v : quiet (set_descriptor_non_blocking s state v).
Proof. unfold set_descriptor_non_blocking. quiet_calls. Qed.
#[local] Hint Resolve descriptor_mode_files : files.
Lemma user_mode_files s state v : quiet (set_user_non_blocking s state v).
Proof. unfold set_user_non_blocking. quiet_calls. Qed.
Lemma bind_call_files s ep : quiet (bind s ep).
Proof. unfold bind. quiet_calls. Qed.
Lemma listen_call_files s n : quiet (listen s n).
Proof. unfold listen. quiet_calls. Qed.
Lemma setsockopt_call_files s state opt : quiet (setsockopt s state opt).
Proof. unfold setsockopt. quiet_calls. Qed.
Lemma getsockopt_call_files s state l n size : quiet (getsockopt s state l n size).
Proof. unfold getsockopt. quiet_calls. Qed.
Lemma getsockname_call_files s : quiet (getsockname s).
Proof. unfold getsockname, name_of. quiet_calls. Qed.
Lemma getpeername_call_files s : quiet (getpeername s).
Proof. unfold getpeername, name_of. quiet_calls. Qed.
Lemma sockatmark_files s : quiet (sockatmark s).
Proof. unfold sockatmark. quiet_calls. Qed.
Lemma shutdown_call_files s what : quiet (shutdown s what).
Proof. unfold shutdown. quiet_calls. Qed.
Lemma available_files s : quiet (available s).
Proof. unfold available. quiet_calls. Qed.
#[local] Hint Resolve sync_connect_files user_mode_files bind_call_files listen_call_files setsockopt_call_files
  getsockopt_call_files getsockname_call_files getpeername_call_files sockatmark_files shutdown_call_files available_files : files.

(** *** Calls that block *)

(** With enough fuel, and then with any more, the call returns, and what it returns is so. *)
Definition ends {S A} (f : nat -> S -> option (A * S)) (x : S) (P : A -> S -> Prop) : Prop :=
  exists enough a x', (forall fuel, (enough <= fuel)%nat -> f fuel x = Some (a, x')) /\ P a x'.
(** One round of a loop. *)
Lemma ends_now {S A} (f : nat -> S -> option (A * S)) x a x' (P : A -> S -> Prop) :
  (forall fuel, f (Datatypes.S fuel) x = Some (a, x')) -> P a x' -> ends f x P.
Proof. intros Hf HP. exists 1%nat, a, x'. split; [|done]. intros [|fuel] Hfuel; [lia|apply Hf]. Qed.
Lemma ends_later {S A} (f : nat -> S -> option (A * S)) x y (P : A -> S -> Prop) :
  (forall fuel, f (Datatypes.S fuel) x = f fuel y) -> ends f y P -> ends f x P.
Proof.
  intros Hf (n & a & x' & Hn & HP). exists (Datatypes.S n), a, x'. split; [|done].
  intros [|fuel] Hfuel; [lia|]. rewrite Hf. apply Hn. lia.
Qed.
Lemma ends_map {S A B} (f : nat -> S -> option (A * S)) (g : A * S -> B * S) x (P : A -> S -> Prop) (Q : B -> S -> Prop) :
  ends f x P -> (forall a x', P a x' -> Q (g (a, x')).1 (g (a, x')).2) ->
  ends (fun fuel x => g <$> f fuel x) x Q.
Proof.
  intros (n & a & x' & Hn & HP) HQ. exists n, (g (a, x')).1, (g (a, x')).2. split; [|by apply HQ].
  intros fuel Hfuel. rewrite (Hn fuel Hfuel). cbn. by destruct (g (a, x')).
Qed.
Lemma ends_weaken {S A} (f : nat -> S -> option (A * S)) x (P Q : A -> S -> Prop) : ends f x P ->
  (forall a x', P a x' -> Q a x') -> ends f x Q.
Proof. intros (n & a & x' & Hn & HP) HQ. exists n, a, x'. auto. Qed.
Lemma ends_same {S A} (f g : nat -> S -> option (A * S)) x (P : A -> S -> Prop) : ends f x P ->
  (forall fuel, g fuel x = f fuel x) -> ends g x P.
Proof. intros (n & a & x' & Hn & HP) Hg. exists n, a, x'. split; [|done]. intros. rewrite Hg. auto. Qed.

Lemma sync_loop_returns {A} (try_ : K -> sysres A * K) wait rounds state k : waits would_wait try_ wait rounds ->
  quiet try_ -> quiet wait -> ends (sync_loop try_ wait state) k (fun _ k' => open_files k' = open_files k).
Proof.
  intros Hw Ht Hq. remember (rounds k) as n eqn:Hn. revert k Hn. induction (lt_wf n) as [n _ IH]. intros k ->.
  pose proof (Ht k) as Hk1. pose proof (Hw k) as Hr. destruct (try_ k) as [r k1] eqn:Htry. cbn [fst snd] in *.
  assert (forall fuel, sync_loop try_ wait state (S fuel) k = match r with
    | Done a => Some (Done a, k1)
    | Errno e => if has user_set_non_blocking state || negb (would_wait (Some e)) then Some (Errno e, k1)
                 else let '((n, ec), k) := wait k1 in
                      if n <? 0 then Some (Errno (default e ec), k) else sync_loop try_ wait state fuel k end) as Hstep
    by (intros; cbn; by rewrite Htry).
  destruct r as [a|e]; cbn [ec_of] in Hr; [by eapply ends_now|].
  destruct (_ || _) eqn:Hb; [by eapply ends_now|]. apply orb_false_iff in Hb as [_ Hb%negb_false_iff].
  pose proof (Hq k1) as Hk2. destruct (wait k1) as [[n ec] k2]; cbn [fst snd] in *.
  destruct (Z.ltb_spec n 0) as [Hn|Hn]; [eapply ends_now; [exact Hstep|congruence]|].
  apply (ends_later _ _ k2); [done|]. eapply ends_weaken; [by apply (IH (rounds k2)); [apply Hr|]|]. cbn. congruence.
Qed.
Definition stays {A} (f : nat -> K -> option (A * K)) : Prop := forall k, ends f k (fun _ k' => open_files k' = open_files k).
Lemma stays_ret {A} (a : A) : stays (fun _ k => Some (a, k)).
Proof. intros k. by exists 0%nat, a, k. Qed.
Lemma stays_loop {A B} (try_ : K -> sysres A * K) wait rounds state (g : sysres A -> B) :
  waits would_wait try_ wait rounds -> quiet try_ -> quiet wait ->
  stays (fun fuel k => (fun '(r, k) => (g r, k)) <$> sync_loop try_ wait state fuel k).
Proof.
  intros Hw Ht Hq k. by eapply ends_map; [by eapply sync_loop_returns|].
Qed.
Lemma stays_ext {A} (f g : nat -> K -> option (A * K)) : stays f -> (forall fuel k, g fuel k = f fuel k) -> stays g.
Proof. intros Hf Hg k. eapply ends_same; [apply Hf|]. auto. Qed.

Lemma sync_recv_stays s state size flags : stays (fun fuel => sync_recv1 fuel s state size flags).
Proof.
  unfold sync_recv1. destruct (_ =? _); [apply stays_ret|]. destruct (_ && _); [apply stays_ret|].
  eapply stays_ext; [apply (stays_loop _ _ _ state (fun r => match r with
    | Errno e => ([], Some e)
    | Done bytes => if has stream_oriented state && (length bytes =? 0)%nat then ([], Some eof) else (bytes, None)
    end) (recv_waits s size flags)); eauto with files|].
  intros fuel k. cbn. destruct (sync_loop _ _ _ _ _) as [[[bytes|e] k']|]; cbn; [|done..]. by destruct (_ && _).
Qed.
Lemma sync_send_stays s state bytes flags : stays (fun fuel => sync_send1 fuel s state bytes flags).
Proof.
  unfold sync_send1. destruct (_ =? _); [apply stays_ret|]. destruct (_ && _); [apply stays_ret|].
  eapply stays_ext; [apply (stays_loop _ _ _ state (fun r => match r with Errno e => (0%nat, Some e) | Done n => (n, None) end) (send_waits s bytes flags)); eauto with files|].
  intros fuel k. cbn. by destruct (sync_loop _ _ _ _ _) as [[[n|e] k']|].
Qed.
Lemma sync_recvfrom_stays s state size flags : stays (fun fuel => sync_recvfrom1 fuel s state size flags).
Proof.
  unfold sync_recvfrom1. destruct (_ =? _); [apply stays_ret|].
  eapply stays_ext; [apply (stays_loop _ _ _ state (fun r => match r with
    | Errno e => ([], None, Some e) | Done (bytes, from) => (bytes, Some from, None) end) (recvfrom_waits s size flags)); eauto with files|].
  intros fuel k. cbn. by destruct (sync_loop _ _ _ _ _) as [[[[bytes from]|e] k']|].
Qed.
Lemma sync_sendto_stays s state bytes flags to : stays (fun fuel => sync_sendto1 fuel s state bytes flags to).
Proof.
  unfold sync_sendto1. destruct (_ =? _); [apply stays_ret|].
  eapply stays_ext; [apply (stays_loop _ _ _ state (fun r => match r with Errno e => (0%nat, Some e) | Done n => (n, None) end) (sendto_waits s bytes flags to)); eauto with files|].
  intros fuel k. cbn. by destruct (sync_loop _ _ _ _ _) as [[[n|e] k']|].
Qed.

(** *** Calls that open and close *)

(** A descriptor, or [invalid_socket], and what it means for the table. *)
Definition opens (s : Z) (F F' : gset Z) : Prop :=
  (s = invalid_socket /\ F' = F) \/ (s <> invalid_socket /\ s ∉ F /\ F' = {[s]} ∪ F).

Lemma sync_accept_step fuel s state k : sync_accept (S fuel) s state k =
  let '((new_s, addr, ec), k) := accept s k in
  if negb (new_s =? invalid_socket) then Some ((new_s, addr, ec), k)
  else if (if would_wait ec then has user_set_non_blocking state else negb (accept_again state ec)) then
    Some ((invalid_socket, None, ec), k)
  else
    let '((n, ec), k) := poll_read s 0 (-1) k in
    if n <? 0 then Some ((invalid_socket, None, ec), k) else sync_accept fuel s state k.
Proof. done. Qed.
Lemma sync_accept_opens s state k :
  ends (fun fuel => sync_accept fuel s state) k (fun a k' => opens a.1.1 (open_files k) (open_files k')).
Proof.
  remember (accept_rounds s k) as n eqn:Hn. revert k Hn. induction (lt_wf n) as [n _ IH]. intros k ->.
  pose proof (fun fuel => sync_accept_step fuel s state k) as Hstep. unfold accept in Hstep.
  destruct (Z.eqb_spec s invalid_socket) as [->|Hs].
  { assert (forall fuel, sync_accept (S fuel) invalid_socket state k = Some ((invalid_socket, None, Some bad_descriptor), k)) as Hnow by done.
    eapply ends_now; [exact Hnow|by left]. }
  pose proof (accept_files s k) as Hk1. pose proof (accept_waits s k) as Hr. destruct (sys_accept s k) as [[[new_s addr]|e] k1]; cbn [fst snd makes ec_of] in *.
  - destruct Hk1 as (Hne & Hnew & Hk1). rewrite (proj2 (Z.eqb_neq _ _) Hne) in Hstep. eapply ends_now; [exact Hstep|by right].
  - rewrite Z.eqb_refl in Hstep. cbn [negb] in Hstep. destruct (if would_wait (Some e) then _ else _) eqn:Hb.
    { eapply ends_now; [exact Hstep|by left]. }
    assert (accept_again 0 (Some e) = true) as Hag.
    { unfold accept_again in *. destruct (would_wait (Some e)); [done|]. apply negb_false_iff in Hb. cbn [orb] in *.
      apply andb_prop in Hb as [-> _]. done. }
    pose proof (poll_read_files s 0 (-1) k1) as Hk2. destruct (poll_read s 0 (-1) k1) as [[n ec] k2]; cbn [fst snd] in *.
    destruct (Z.ltb_spec n 0) as [Hn|Hn]; [eapply ends_now; [exact Hstep|left; split; [done|congruence]]|].
    eapply ends_later; [exact Hstep|]. eapply ends_weaken; [by apply (IH (accept_rounds s k2)); [apply Hr|]|].
    intros a k'. cbn. by rewrite Hk2, Hk1.
Qed.

Lemma close_call_files s state ec k : open_files (close s state ec k).2 = open_files k ∖ {[s]}.
Proof.
  unfold close. destruct (Z.eqb_spec s invalid_socket) as [->|Hs]; cbn [snd].
  - pose proof (invalid_closed k). set_solver.
  - destruct (close_files s k) as [Hf Hw]. destruct (sys_close s k) as [r k1]; cbn [fst snd] in *. by rewrite Hw.
Qed.
Lemma close_destroying_files s state k : open_files (close_destroying s state k).2 = open_files k ∖ {[s]}.
Proof.
  unfold close_destroying. destruct (_ && _); [|apply close_call_files].
  pose proof (setsockopt_call_files s state (linger false 0) k) as Hq. destruct (setsockopt _ _ _ _) as [[st ec] k1]; cbn [snd] in Hq.
  by rewrite close_call_files, Hq.
Qed.

Lemma on_kern_files {A} (f : K -> A * K) m : quiet f -> files (on_kern f m).2 = files m.
Proof. intros Hf. unfold on_kern. pose proof (Hf (kern (env m))) as Hq. change (@Kern socket_epoll) with K. by destruct (f _). Qed.
Lemma on_kern_file {A} (f : K -> A * K) m : files (on_kern f m).2 = open_files (f (kern (env m))).2.
Proof. unfold on_kern. change (@Kern socket_epoll) with K. by destruct (f _). Qed.
Lemma register_files s m : files (register s m).2 = files m.
Proof.
  unfold register, register_descriptor. assert (kern (allocate_descriptor_state (env m)).2 = kern (env m)) as Ha
    by (unfold allocate_descriptor_state; by destruct (free_list_ (env m))).
  destruct (allocate_descriptor_state (env m)) as [d r1]; cbn [snd] in Ha. set (r2 := on_descriptor _ _ r1).
  pose proof (ctl_files CtlAdd s all_events d (kern r2)) as Hq. change (kern r2) with (kern r1) in *.
  cbn [epoll_ctl socket_epoll]. change (@Kern socket_epoll) with K in *.
  destruct (sys_epoll_ctl _ _ _ _ _) as [ec k]; cbn [snd] in Hq. unfold files. rewrite <- Ha, <- Hq. by destruct (ec_is ec EPERM).
Qed.
Lemma deregister_files s data closing m : files (deregister_descriptor s data closing m).2 = files m.
Proof.
  unfold deregister_descriptor. destruct data as [d|]; [|done]. destruct (shutdown_ _); [done|]. cbn [snd]. unfold files.
  rewrite EpollWakeups.post_deferred_env. destruct (_ && _); [|done]. cbn. apply ctl_files.
Qed.
Lemma cleanup_files data m : files (cleanup_descriptor_data data m) = files m.
Proof. by destruct data. Qed.
Lemma close_impl_files i ec m : files (close_impl i ec m).2 = files m ∖ {[socket_ i]}.
Proof.
  unfold close_impl. pose proof (deregister_files (socket_ i) (reactor_data_ i) (negb (has possible_dup (state_ i))) m) as Hd.
  destruct (deregister_descriptor _ _ _ m) as [data m1]; cbn [snd] in Hd.
  pose proof (on_kern_file (close (socket_ i) (state_ i) ec) m1) as Hc. destruct (on_kern _ m1) as [[st e] m2]; cbn [snd] in *.
  rewrite cleanup_files, Hc, close_call_files. by rewrite <- Hd.
Qed.
Lemma destroy_object_files o m : file_of o ⊆ files m -> files (destroy_object o m) = files m ∖ file_of o.
Proof.
  unfold destroy_object, file_of, object_open. intros _. destruct (is_open (base o)); cbn [negb]; [|set_solver]. set (i := base o).
  pose proof (deregister_files (socket_ i) (reactor_data_ i) (negb (has possible_dup (state_ i))) m) as Hd.
  destruct (deregister_descriptor _ _ _ m) as [data m1]; cbn [snd] in Hd.
  pose proof (on_kern_file (close_destroying (socket_ i) (state_ i)) m1) as Hc. destruct (on_kern _ m1) as [a m2]; cbn [snd] in *.
  rewrite cleanup_files, Hc, close_destroying_files. by rewrite <- Hd.
Qed.

(** *** Calls on an object *)

(** A step of a member function. *)
Definition accounts {A} (c : M owner A) : Prop := forall o m, file_of o ⊆ files m ->
  moves (files m) o (files (c (o, m)).2.2) (c (o, m)).2.1.
Lemma accounts_ret {A} (a : A) : accounts (ret a).
Proof. intros o m Hf. by apply moves_same. Qed.
Lemma accounts_gets {A} (f : owner -> A) : accounts (gets f).
Proof. intros o m Hf. by apply moves_same. Qed.
Lemma accounts_bind {A B} (c : M owner A) (k : A -> M owner B) : accounts c -> (forall a, accounts (k a)) -> accounts (Prelude.bind c k).
Proof.
  intros Hc Hk o m Hf. pose proof (Hc o m Hf) as Hm. unfold Prelude.bind. destruct (c (o, m)) as [[a|e] [o1 m1]]; cbn [fst snd] in *; [|done].
  apply (moves_trans _ _ _ _ _ _ Hm). apply Hk, Hm.
Qed.
Lemma accounts_change f : (forall o m, file_of o ⊆ files m -> moves (files m) o (files (f o m).2) (f o m).1.2) -> accounts (change f).
Proof. intros Hf o m Ho. specialize (Hf o m Ho). unfold change. destruct (f o m) as [[ec o1] m1]. exact Hf. Qed.
Lemma accounts_call f : (forall o m, files (f o m).2 = files m) -> accounts (call_unit f).
Proof.
  intros Hf o m Ho. specialize (Hf o m). unfold call_unit. destruct (f o m) as [ec m1]; cbn [fst snd] in *. rewrite Hf. by apply moves_same.
Qed.

(** What becomes of the descriptor of an implementation and of the table. *)
Definition settles (i : impl) (m : machine) (r : (error_code * impl) * machine) : Prop :=
  (socket_ r.1.2 = socket_ i /\ files r.2 = files m) \/
  (is_open i = false /\ r.1.1 = None /\ opens (socket_ r.1.2) (files m) (files r.2) /\ socket_ r.1.2 <> invalid_socket).
Lemma do_open_files i af ty pr m : settles i m (do_open i af ty pr m).
Proof.
  unfold do_open. destruct (is_open i) eqn:Ho; [by left|]. unfold on_kern at 1, socket. change (@Kern socket_epoll) with K.
  pose proof (socket_files af ty pr (kern (env m))) as Hs. destruct (sys_socket _ _ _ _) as [[s|e] k1]; cbn [fst snd makes] in Hs.
  - destruct Hs as (Hinv & Hnew & Hk1). rewrite (proj2 (Z.eqb_neq _ _) Hinv).
    pose proof (register_files s (on_env (set_kern k1) m)) as Hreg.
    assert (files (on_env (set_kern k1) m) = {[s]} ∪ files m) as Hm1 by exact Hk1. rewrite Hm1 in Hreg.
    destruct (register s _) as [[d [e|]] m1]; cbn [snd] in Hreg.
    + left. pose proof (on_kern_file (close s 0 None) m1) as Hc. destruct (on_kern _ m1) as [a m2]. rewrite close_call_files in Hc.
      split; [done|]. change (open_files (kern (env m1))) with (files m1) in Hc. rewrite Hreg in Hc. cbn [fst snd] in *. rewrite Hc.
      unfold files. set_solver.
    + right. split_and!; [done|done|by right|done].
  - rewrite Z.eqb_refl. left. split; [done|exact Hs].
Qed.
Lemma moves_settles F o F' o' : file_of o ⊆ F ->
  (socket_ (base o') = socket_ (base o) /\ F' = F) \/
  (object_open o = false /\ opens (socket_ (base o')) F F' /\ socket_ (base o') <> invalid_socket) -> moves F o F' o'.
Proof.
  intros Hf [[Hs ->]|(Ho & Hop & Hs)]; [by apply moves_same|]. destruct Hop as [[]|(_ & Hnew & ->)]; [done|].
  assert (file_of o' = {[socket_ (base o')]}) as Hown by (unfold file_of, object_open, is_open; by rewrite (proj2 (Z.eqb_neq _ _) Hs)).
  assert (file_of o = ∅) as Hnone by (unfold file_of; by rewrite Ho). split; rewrite Hown, ?Hnone; set_solver.
Qed.
Lemma open_moves p o m : file_of o ⊆ files m -> moves (files m) o (files (open o p m).2) (open o p m).1.2.
Proof.
  intros Hf. unfold open. pose proof (do_open_files (base o) (family_ p) (type p) (protocol_number p) m) as Hs.
  destruct (do_open _ _ _ _ m) as [[ec i] m1]. apply moves_settles; [done|]. destruct Hs as [Hs|(Ho & _ & Hs)]; [by left|by right].
Qed.
Lemma connect_accounts t ep : accounts (connect_object t ep).
Proof.
  apply accounts_bind; [apply accounts_gets|]. intros opened. apply accounts_bind.
  - destruct opened; [apply accounts_ret|]. apply accounts_change. intros o m. apply open_moves.
  - intros _. apply accounts_call. intros o m. apply on_kern_files. auto with files.
Qed.
Lemma set_option_moves opt o m : file_of o ⊆ files m -> moves (files m) o (files (set_option opt o m).2) (set_option opt o m).1.2.
Proof.
  intros Hf. unfold set_option. pose proof (on_kern_files (setsockopt (socket_ (base o)) (state_ (base o)) opt) m) as Hq.
  destruct (on_kern _ m) as [[state ec] m1]; cbn [fst snd] in *. rewrite Hq by auto with files. by apply moves_same.
Qed.
Lemma mode_moves mode o m : file_of o ⊆ files m -> moves (files m) o (files (non_blocking_mode mode o m).2) (non_blocking_mode mode o m).1.2.
Proof.
  intros Hf. unfold non_blocking_mode, user_non_blocking.
  pose proof (on_kern_files (set_user_non_blocking (socket_ (base o)) (state_ (base o)) mode) m) as Hq.
  destruct (on_kern _ m) as [[state ec] m1]; cbn [fst snd] in *. rewrite Hq by auto with files. by apply moves_same.
Qed.
Lemma close_moves o m : file_of o ⊆ files m -> moves (files m) o (files (close_object o m).2) (close_object o m).1.2.
Proof.
  intros Hf. unfold close_object, close_socket. destruct (is_open (base o)) eqn:Ho.
  - pose proof (close_impl_files (base o) None m) as Hc. destruct (close_impl (base o) None m) as [ec m1]; cbn [fst snd] in *.
    assert (file_of o = {[socket_ (base o)]}) as Hown by (unfold file_of, object_open; by rewrite Ho).
    split; rewrite Hc, ?Hown; cbn; set_solver.
  - cbn [fst snd]. apply moves_trans with (files m) o; [by apply moves_same|]. split; [set_solver|].
    unfold file_of, object_open. rewrite Ho. done.
Qed.

Lemma acceptor_files ep reuse_addr m : let '(r, m') := acceptor_new ep reuse_addr m in
  match r with
  | Ok o => moves (files m) (object_construct tcp) (files m') o
  | Throw _ => files m' = files m
  end.
Proof.
  unfold acceptor_new. set (c := (_ ;;; _) : M owner unit).
  assert (accounts c) as Hc.
  { unfold c. apply accounts_bind; [apply accounts_change; intros; by apply open_moves|]. intros _. apply accounts_bind.
    { destruct reuse_addr; [apply accounts_change; intros; by apply set_option_moves|apply accounts_ret]. }
    intros _. apply accounts_bind; intros; apply accounts_call; intros; apply on_kern_files; auto with files. }
  specialize (Hc (object_construct tcp) m). destruct (c _) as [[[]|e] [o1 m1]]; cbn [fst snd] in *; [apply Hc; set_solver|].
  destruct Hc as [Hs Hr]; [set_solver|]. rewrite destroy_object_files, Hr by done. set_solver.
Qed.

Lemma ends_kern {A} (f : nat -> K -> option (A * K)) m (P : A -> K -> Prop) : ends f (kern (env m)) P ->
  ends (fun fuel => on_kern_loop (f fuel)) m (fun a m' => P a (kern (env m'))).
Proof.
  intros (n & a & k & Hn & HP). exists n, a, (@on_env socket_epoll (@set_kern socket_epoll k) m). split; [|done].
  intros fuel Hfuel. unfold on_kern_loop. change (@Kern socket_epoll) with K in *. by rewrite Hn.
Qed.
Lemma do_assign_files i ty s m : let '((ec, i'), m') := do_assign i ty s m in
  files m' = files m /\ match ec with None => socket_ i' = s | Some _ => socket_ i' = socket_ i end.
Proof.
  unfold do_assign. destruct (is_open i); [done|]. pose proof (register_files s m) as Hr.
  by destruct (register s m) as [[d [e|]] m1].
Qed.
Lemma accept_moves o peer m : file_of peer ⊆ files m ->
  ends (fun fuel => accept_into fuel o peer) m (fun a m' => moves (files m) peer (files m') a.2).
Proof.
  intros Hf. unfold accept_into. destruct (object_open peer) eqn:Hpeer.
  { exists 0%nat, (Some already_open, peer), m. split; [done|by apply moves_same]. }
  destruct (ends_kern _ m _ (sync_accept_opens (socket_ (base o)) (state_ (base o)) (kern (env m)))) as (n & [[s addr] ec] & m1 & Hn & Hop).
  cbn [fst] in Hop. change (opens s (files m) (files m1)) in Hop.
  destruct (Z.eqb_spec s invalid_socket) as [->|Hs].
  - destruct Hop as [[_ Hm1]|[]]; [|done]. exists n, (ec, peer), m1. split; [intros fuel Hfuel; by rewrite Hn|].
    rewrite Hm1. by apply moves_same.
  - destruct Hop as [[]|(_ & Hnew & Hm1)]; [done|].
    pose proof (do_assign_files (base peer) (type (protocol_ o)) s m1) as Hd. unfold assign.
    assert (forall fuel, (n <= fuel)%nat -> on_kern_loop (sync_accept fuel (socket_ (base o)) (state_ (base o))) m = Some ((s, addr, ec), m1)) as Hn' by done.
    destruct (do_assign _ _ s m1) as [[ec' i] m2] eqn:Has. destruct Hd as [Hm2 Hi].
    eexists n, _, _. split.
    { intros fuel Hfuel. rewrite (Hn' fuel Hfuel), (proj2 (Z.eqb_neq _ _) Hs), Has. reflexivity. }
    destruct ec' as [e|]; cbn [ec_set fst snd] in *.
    + assert (files (on_kern (close_destroying s 0) m2).2 = files m) as ->.
      { rewrite on_kern_file, close_destroying_files. change (open_files (kern (env m2))) with (files m2). rewrite Hm2, Hm1. set_solver. }
      by apply moves_same.
    + apply moves_settles; [done|]. right. cbn. rewrite Hi, Hm2. split_and!; [done|by right|done].
Qed.

Lemma cancel_files i m : files (cancel i m).2 = files m.
Proof.
  unfold cancel, cancel_ops. destruct (is_open i); [|done]. destruct (reactor_data_ i) as [d|]; [|done].
  cbn [negb snd]. unfold files. by rewrite EpollWakeups.post_deferred_env.
Qed.
Lemma wait_files w o m : files (wait w o m).2 = files m.
Proof.
  unfold wait. assert (forall f : K -> (Z * error_code) * K, quiet f ->
    files (let '((_, ec), m) := on_kern f m in (ec, m)).2 = files m) as Hq.
  { intros f Hf. pose proof (on_kern_files f m Hf) as Hm. by destruct (on_kern f m) as [[? ?] ?]. }
  apply Hq. destruct w; auto with files.
Qed.

Section members.
  Context (o : object) (m : machine) (Hf : file_of o ⊆ files m).
Definition member_ok (f : nat -> machine -> option (object * machine)) : Prop :=
  ends f m (fun o' m' => moves (files m) o (files m') o').
Lemma member_now (r : object * machine) : moves (files m) o (files r.2) r.1 -> member_ok (fun _ _ => Some r).
Proof. intros Hm. destruct r as [o' m']. by exists 0%nat, o', m'. Qed.
Lemma member_same {A} (r : A * machine) : files r.2 = files m -> member_ok (fun _ _ => Some (unchanged o r)).
Proof. intros Hr. apply member_now. cbn. rewrite Hr. by apply moves_same. Qed.
Lemma member_quiet {A} (f : K -> A * K) : quiet f -> member_ok (fun _ _ => Some (unchanged o (on_kern f m))).
Proof. intros Hq. by apply member_same, on_kern_files. Qed.
Lemma member_stays {A} (f : nat -> K -> option (A * K)) : stays f -> member_ok (fun fuel m => unchanged' o (on_kern_loop (f fuel) m)).
Proof.
  intros Hs. apply (ends_map (fun fuel => on_kern_loop (f fuel)) (unchanged o) m _ _ (ends_kern f m _ (Hs _))).
  intros a m' Hm'. cbn. change (files m' = files m) in Hm'. rewrite Hm'. by apply moves_same.
Qed.
Lemma member_moves c : member_ok (fun fuel => perform_member fuel c o).
Proof.
  destruct c; try (apply member_quiet; auto with files; fail).
  - by apply member_now, open_moves.
  - by apply member_now, connect_accounts.
  - by apply member_now, set_option_moves.
  - by apply member_now, mode_moves.
  - apply member_same, wait_files.
  - apply member_stays, sync_send_stays.
  - apply member_stays, sync_recv_stays.
  - apply member_stays, sync_sendto_stays.
  - apply member_stays, sync_recvfrom_stays.
  - apply member_same, cancel_files.
  - by apply member_now, close_moves.
Qed.
End members.

(** *** The program *)

(** The open files are those of before ([B]) and those of the objects, each of one object. *)
Record accounted (B : gset Z) (x : space) : Prop := {
  ac_files : forall s, s ∈ files (on_ x) <-> s ∈ B \/ exists n o, objects_ x !! n = Some o /\ s ∈ file_of o;
  ac_foreign : forall n o, objects_ x !! n = Some o -> file_of o ## B;
  ac_apart : forall n n' o o', objects_ x !! n = Some o -> objects_ x !! n' = Some o' -> n <> n' -> file_of o ## file_of o';
}.
Lemma accounted_owned B x n o : accounted B x -> objects_ x !! n = Some o -> file_of o ⊆ files (on_ x).
Proof. intros [Hf _ _] Ho s Hs. apply Hf. right. by exists n, o. Qed.
(** One object changes, or is there at last. *)
Lemma accounted_change B x n o o' m' : accounted B x ->
  objects_ x !! n = Some o \/ (objects_ x !! n = None /\ file_of o = ∅) ->
  moves (files (on_ x)) o (files m') o' -> accounted B (Space (<[n := o']> (objects_ x)) m').
Proof.
  intros [Hf Hb Ha] Hn [Hs Hr].
  assert (forall s, s ∈ files m' <-> s ∈ file_of o' \/ (s ∈ files (on_ x) /\ s ∉ file_of o)) as Hm'
    by (intros s; assert (s ∈ files m' ∖ file_of o' <-> s ∈ files (on_ x) ∖ file_of o) by (by rewrite Hr);
        destruct (decide (s ∈ file_of o')); set_solver).
  assert (forall s, s ∈ file_of o' -> s ∈ files (on_ x) -> s ∈ file_of o) as Hnew by set_solver.
  assert (forall s n1 o1, objects_ x !! n1 = Some o1 -> n1 <> n -> s ∈ file_of o1 -> s ∉ file_of o) as Hoth.
  { intros s n1 o1 Ho1 Hne Hs1. destruct Hn as [Ho|[_ ->]]; [|set_solver]. intros Hso. by apply (Ha n1 n o1 o Ho1 Ho Hne s). }
  assert (forall s, s ∈ file_of o -> s ∉ B) as Hfor by (intros s; destruct Hn as [Ho|[_ ->]]; [pose proof (Hb n o Ho); set_solver|set_solver]).
  assert (forall s n1 o1, objects_ x !! n1 = Some o1 -> s ∈ file_of o1 -> s ∈ files (on_ x)) as Hin by (intros; apply Hf; eauto).
  split; cbn [objects_ on_].
  - intros s. rewrite Hm', Hf. split.
    + intros [Hso|[[HsB|(n1 & o1 & Ho1 & Hs1)] Hno]]; [right; exists n, o'; by rewrite lookup_insert_eq|by left|].
      right. exists n1, o1. rewrite lookup_insert_ne; [done|]. intros <-. destruct Hn as [Ho|[Hno' _]]; congruence.
    + intros [HsB|(n1 & o1 & [[-> <-]|[Hne Ho1]]%lookup_insert_Some & Hs1)]; [right; split; [by left|]; intros Hso; by apply (Hfor s)|by left|].
      right. split; [right; eauto|]. by apply (Hoth s n1 o1).
  - intros n1 o1 [[-> <-]|[Hne Ho1]]%lookup_insert_Some; [|by apply (Hb n1)]. intros s Hs1 HsB.
    apply (Hfor s); [|done]. apply Hnew; [done|]. apply Hf. by left.
  - intros n1 n2 o1 o2 Ho1 Ho2 Hne s Hs1 Hs2.
    apply lookup_insert_Some in Ho1 as [[-> <-]|[Hne1 Ho1]]; apply lookup_insert_Some in Ho2 as [[-> <-]|[Hne2 Ho2]]; [done|..].
    + apply (Hoth s n2 o2); eauto.
    + apply (Hoth s n1 o1); eauto.
    + by apply (Ha n1 n2 o1 o2 Ho1 Ho2 Hne s).
Qed.
Lemma accounted_delete B x n o m' : accounted B x -> objects_ x !! n = Some o -> moves (files (on_ x)) o (files m') (object_construct tcp) ->
  accounted B (Space (delete n (objects_ x)) m').
Proof.
  intros Hx Ho Hm. destruct (accounted_change B x n o _ m' Hx (or_introl Ho) Hm) as [Hf Hb Ha]. cbn [objects_ on_] in *.
  assert (forall n1 o1, delete n (objects_ x) !! n1 = Some o1 -> <[n := object_construct tcp]> (objects_ x) !! n1 = Some o1) as Hin.
  { intros n1 o1 [Hne Ho1]%lookup_delete_Some. by rewrite lookup_insert_ne. }
  split; cbn [objects_ on_]; [|eauto..]. intros s. rewrite Hf. split; (intros [HsB|(n1 & o1 & Ho1 & Hs1)]; [by left|right]).
  - apply lookup_insert_Some in Ho1 as [[-> <-]|[Hne Ho1]]; [unfold file_of in Hs1; cbn in Hs1; set_solver|].
    exists n1, o1. by rewrite lookup_delete_ne.
  - eauto.
Qed.
Lemma destroyed_moves o m : file_of o ⊆ files m -> moves (files m) o (files (destroy_object o m)) (object_construct tcp).
Proof.
  intros Hf. rewrite destroy_object_files by done. assert (file_of (object_construct tcp) = ∅) as Hnone by done.
  split; rewrite Hnone; set_solver.
Qed.
(** The descriptor of [n'] goes to [n], which has none. *)
Lemma accounted_hand B x n n' o other o1 o2 : accounted B x -> n <> n' -> objects_ x !! n = Some o -> file_of o = ∅ ->
  objects_ x !! n' = Some other -> file_of o1 = file_of other -> file_of o2 = ∅ ->
  accounted B (Space (<[n := o1]> (<[n' := o2]> (objects_ x))) (on_ x)).
Proof.
  intros [Hf Hb Ha] Hne Ho Hnone Hother Ho1 Ho2. set (os := <[n := o1]> _).
  assert (forall n1 p s, os !! n1 = Some p -> s ∈ file_of p ->
    exists q, objects_ x !! (if decide (n1 = n) then n' else n1) = Some q /\ s ∈ file_of q /\ n1 <> n') as Hback.
  { intros n1 p s [[<- <-]|[Hne1 Hp]]%lookup_insert_Some Hs; [rewrite decide_True by done; exists other; by rewrite <- Ho1|].
    apply lookup_insert_Some in Hp as [[<- <-]|[Hne2 Hp]]; [set_solver|]. rewrite decide_False by done. by exists p. }
  split; cbn [objects_ on_].
  - intros s. rewrite Hf. split; (intros [HsB|(n1 & p & Hp & Hs)]; [by left|right]).
    + destruct (decide (n1 = n')) as [->|Hn1]; [exists n, o1; unfold os; rewrite lookup_insert_eq, Ho1; split; [done|congruence]|].
      destruct (decide (n1 = n)) as [->|Hn2]; [set_solver|]. exists n1, p. unfold os. by rewrite !lookup_insert_ne.
    + destruct (Hback n1 p s Hp Hs) as (q & Hq & Hsq & _). eauto.
  - intros n1 p Hp s Hs HsB. destruct (Hback n1 p s Hp Hs) as (q & Hq & Hsq & _). by apply (Hb _ _ Hq s).
  - intros n1 n2 p1 p2 Hp1 Hp2 Hn s Hs1 Hs2.
    destruct (Hback n1 p1 s Hp1 Hs1) as (q1 & Hq1 & Hsq1 & Hm1). destruct (Hback n2 p2 s Hp2 Hs2) as (q2 & Hq2 & Hsq2 & Hm2).
    refine (Ha _ _ _ _ Hq1 Hq2 _ s Hsq1 Hsq2). destruct (decide (n1 = n)), (decide (n2 = n)); congruence.
Qed.

(** A call of the program returns, and the accounts are right again. *)
Definition call_accounts (B : gset Z) (f : nat -> option space) : Prop :=
  exists enough x', (forall fuel, (enough <= fuel)%nat -> f fuel = Some x') /\ accounted B x'.
Lemma call_now B x' : accounted B x' -> call_accounts B (fun _ => Some x').
Proof. intros Hx. by exists 0%nat, x'. Qed.
Lemma call_ends {A} B (f : nat -> machine -> option (A * machine)) (g : A * machine -> space) m P :
  ends f m P -> (forall a m', P a m' -> accounted B (g (a, m'))) -> call_accounts B (fun fuel => g <$> f fuel m).
Proof.
  intros (n & a & m' & Hn & HP) Hg. exists n, (g (a, m')). split; [|by apply Hg]. intros fuel Hfuel. by rewrite Hn.
Qed.
Lemma call_accounted B c x : accounted B x -> call_accounts B (fun fuel => perform_object_call fuel c x).
Proof.
  intros Hx. pose proof (accounted_owned B x) as Hown. unfold perform_object_call.
  destruct c as [n t|n ep reuse_addr|n c|n n'|n n'|n].
  - apply call_now. destruct (objects_ x !! n) eqn:Hn; [done|]. apply (accounted_change B x n (object_construct t)); [done|by right|].
    by apply moves_same.
  - apply call_now. destruct (objects_ x !! n) eqn:Hn; [done|]. pose proof (acceptor_files ep reuse_addr (on_ x)) as Ha.
    destruct (acceptor_new ep reuse_addr (on_ x)) as [[o|e] m].
    + apply (accounted_change B x n (object_construct tcp)); [done|by right|done].
    + destruct Hx as [Hf Hb Hap]. split; cbn [objects_ on_]; [|done..]. intros s. by rewrite Ha.
  - destruct (objects_ x !! n) as [o|] eqn:Hn; [|by apply call_now].
    apply (call_ends B (fun fuel => perform_member fuel c o) _ (on_ x) _ (member_moves o (on_ x) (Hown n o Hx Hn) c)).
    intros o' m' Hm. by apply (accounted_change B x n o); [|left|].
  - destruct (objects_ x !! n) as [o|] eqn:Hn; [|by apply call_now]. destruct (objects_ x !! n') as [peer|] eqn:Hn'; [|by apply call_now].
    apply (call_ends B (fun fuel => accept_into fuel o peer) _ (on_ x) _ (accept_moves o peer (on_ x) (Hown n' peer Hx Hn'))).
    intros [ec peer'] m' Hm. by apply (accounted_change B x n' peer); [|left|].
  - apply call_now. destruct (objects_ x !! n) as [o|] eqn:Hn; [|done]. destruct (objects_ x !! n') as [other|] eqn:Hn'; [|done].
    destruct (Nat.eqb_spec n n') as [|Hne]; [done|]. destruct (same_class o other); [|done].
    pose proof (accounted_change B x n o _ _ Hx (or_introl Hn) (destroyed_moves o (on_ x) (Hown n o Hx Hn))) as Hx1.
    cbn [negb andb object_move_assign object_move base_move_construct].
    pose proof (accounted_hand B _ n n' (object_construct tcp) other (Object (base other) (protocol_ other))
      (Object construct (default_protocol (transport_ (protocol_ o)))) Hx1 Hne) as Hh.
    cbn [objects_ on_] in Hh. rewrite lookup_insert_eq, lookup_insert_ne in Hh by done.
    specialize (Hh eq_refl eq_refl Hn' eq_refl eq_refl). by rewrite (insert_insert_ne _ n' n), insert_insert_eq in Hh by done.
  - apply call_now. destruct (objects_ x !! n) as [o|] eqn:Hn; [|done].
    by apply (accounted_delete B x n o); [..|apply destroyed_moves, (Hown n)].
Qed.
Lemma calls_accounted B cs x : accounted B x -> call_accounts B (fun fuel => perform_object_calls fuel cs x).
Proof.
  revert x. induction cs as [|c cs IH]; intros x Hx; [by apply call_now|].
  destruct (call_accounted B c x Hx) as (n1 & x1 & Hn1 & Hx1). destruct (IH x1 Hx1) as (n2 & x2 & Hn2 & Hx2).
  exists (Nat.max n1 n2), x2. split; [|done]. intros fuel Hfuel. cbn. rewrite Hn1 by lia. apply Hn2. lia.
Qed.
Lemma nothing_accounted m : accounted (files m) (Space ∅ m).
Proof. split; cbn; [|done..]. intros s. split; [by left|]. intros [Hs|(n & o & Ho & _)]; [done|]. done. Qed.
End accounts.

(** ** A listening socket *)

Class ListenState `{OpenFiles} := {
  bound_name : Z -> K -> option endpoint_t;
  listens : Z -> K -> bool;
  reuses : Z -> K -> bool;        (** [SO_REUSEADDR] *)
  bound_reusing : Z -> K -> bool; (** it was on when the descriptor was bound *)
}.
(** A name is what was asked for, but for a port the system chooses. *)
Definition named (ep ep' : endpoint_t) : Prop :=
  ep_address ep' = ep_address ep /\ (ep_port ep <> 0 -> ep_port ep' = ep_port ep).
Class ListenLaws `{ListenState} : Prop := {
  setsockopt_reuses s v k : let '(r, k') := sys_setsockopt s SOL_SOCKET SO_REUSEADDR [v] k in
    r = Done tt -> reuses s k' = negb (v =? 0);
  bind_named s ep k : let '(r, k') := sys_bind s ep k in
    r = Done tt -> reuses s k' = reuses s k /\ bound_reusing s k' = reuses s k /\ exists ep', bound_name s k' = Some ep' /\ named ep ep';
  listen_listens s n k : let '(r, k') := sys_listen s n k in
    r = Done tt -> reuses s k' = reuses s k /\ bound_reusing s k' = bound_reusing s k /\ bound_name s k' = bound_name s k /\
      listens s k' = true;
  getsockname_bound s k ep : bound_name s k = Some ep -> (sys_getsockname s k).1 = Done ep;
}.

Section listening.
  Context `{FileLaws} `{!ListenState} `{!ListenLaws}.
  #[local] Abbreviation machine := (@Scheduler.machine (@epoll_task socket_epoll)).
  #[local] Abbreviation owner := (object * machine)%type.
  Implicit Types (m : machine) (o : object).

(** What a member function throws is the error of a call. *)
Definition throws_errors {A} (c : M owner A) : Prop := forall x e, (c x).1 = Throw e -> exists err, e = system_error err.
Lemma throws_change f : throws_errors (change f).
Proof. intros [o m] e. unfold change. destruct (f o m) as [[[err|] o'] m']; cbn; [intros [= <-]; by exists err|done]. Qed.
Lemma throws_call f : throws_errors (call_unit f).
Proof. intros [o m] e. unfold call_unit. destruct (f o m) as [[err|] m']; cbn; [intros [= <-]; by exists err|done]. Qed.
Lemma throws_bind {A B} (c : M owner A) (k : A -> M owner B) : throws_errors c -> (forall a, throws_errors (k a)) -> throws_errors (Prelude.bind c k).
Proof.
  intros Hc Hk x e. pose proof (Hc x) as Hcx. unfold Prelude.bind. destruct (c x) as [[a|e'] x']; [apply Hk|]. intros [= <-]. by apply Hcx.
Qed.

(** The descriptor is registered, for the object and in the reactor. *)
Definition watched_by (i : impl) (m : machine) : Prop :=
  exists d, reactor_data_ i = Some d /\ descriptor_ (state_of d (env m)) = socket_ i /\ shutdown_ (state_of d (env m)) = false.
Lemma register_data s m : let '((d, _), m') := register s m in
  descriptor_ (state_of d (env m')) = s /\ shutdown_ (state_of d (env m')) = false.
Proof.
  unfold register, register_descriptor. destruct (allocate_descriptor_state (env m)) as [d0 r1]. set (r2 := on_descriptor d0 _ r1).
  assert (descriptor_ (state_of d0 r2) = s /\ shutdown_ (state_of d0 r2) = false) as Hs by (unfold r2; by rewrite state_of_on).
  destruct (epoll_ctl _ _ _ _ _) as [ec k]. destruct (ec_is ec EPERM); [cbn; by rewrite state_of_on|exact Hs].
Qed.
Lemma open_watched p o m o' m' : open o p m = ((None, o'), m') ->
  protocol_ o' = p /\ state_ (base o') = initial_state (type p) /\ watched_by (base o') m'.
Proof.
  unfold open, do_open. destruct (is_open (base o)); [done|].
  destruct (on_kern (socket (family_ p) (type p) (protocol_number p)) m) as [[s ec] m1] eqn:Hsock.
  destruct (Z.eqb_spec s invalid_socket) as [->|Hs].
  - intros [= -> <- <-]. exfalso. revert Hsock. unfold on_kern, socket. change (@Kern socket_epoll) with K.
    pose proof (socket_files (family_ p) (type p) (protocol_number p) (kern (env m))) as Hf.
    destruct (sys_socket _ _ _ _) as [[s|e] k]; cbn in Hf; [|done]. intros [= -> _]. by destruct Hf.
  - destruct (register s m1) as [[d [e|]] m2] eqn:Hreg; [by destruct (on_kern _ m2)|].
    intros [= <- <-]. pose proof (register_data s m1) as Hd. rewrite Hreg in Hd. destruct Hd as [Hd Hsd]. split_and!; [done..|]. by exists d.
Qed.

(** A socket whose registration failed is closed, but its state of the reactor is not given
    back: it stays in use with the object, whose destructor does nothing, and the next [open]
    of the object takes another. *)
Lemma failed_open_leaks p o m e o' m' : open o p m = ((Some e, o'), m') -> reactor_data_ (base o') <> reactor_data_ (base o) ->
  (exists d, reactor_data_ (base o') = Some d /\ shutdown_ (state_of d (env m')) = false /\
     descriptor_ (state_of d (env m')) <> invalid_socket) /\
  object_open o' = false /\ destroy_object o' m' = m'.
Proof.
  unfold open, do_open. destruct (is_open (base o)) eqn:Ho; [by intros [= _ <- _]|].
  destruct (on_kern (socket (family_ p) (type p) (protocol_number p)) m) as [[s ec] m1].
  destruct (Z.eqb_spec s invalid_socket) as [|Hs]; [by intros [= _ <- _]|].
  pose proof (register_data s m1) as Hreg. destruct (register s m1) as [[d [err|]] m2]; [|done]. destruct Hreg as [Hd Hsd].
  unfold on_kern. change (@Kern socket_epoll) with K. destruct (close s 0 None _) as [[st ec2] k]. intros [= _ <- <-] _.
  split; [exists d; split_and!; [done|exact Hsd|]|].
  - change (descriptor_ (state_of d (env m2)) <> invalid_socket). by rewrite Hd.
  - unfold destroy_object, object_open, is_open in *; cbn in *. by rewrite Ho.
Qed.

(** A call on a listening socket's descriptor: the object stays, and so does the reactor. *)
Lemma call_ok f o m o' m' : call_unit (on_socket f) (o, m) = (Ok tt, (o', m')) ->
  exists k', f (socket_ (base o)) (kern (env m)) = (None, k') /\ o' = o /\ m' = on_env (@set_kern socket_epoll k') m.
Proof.
  unfold call_unit, on_socket, on_kern. change (@Kern socket_epoll) with K. destruct (f _ _) as [[e|] k']; [done|]. intros [= <- <-]. by exists k'.
Qed.
Lemma bind_call_ok s ep k k' : bind s ep k = (None, k') ->
  reuses s k' = reuses s k /\ bound_reusing s k' = reuses s k /\ exists ep', bound_name s k' = Some ep' /\ named ep ep'.
Proof.
  unfold bind. destruct (_ =? _); [done|]. pose proof (bind_named s ep k) as Hb. destruct (sys_bind s ep k) as [[[]|e] k1]; intros [= <-]. by apply Hb.
Qed.
Lemma listen_call_ok s n k k' : listen s n k = (None, k') ->
  reuses s k' = reuses s k /\ bound_reusing s k' = bound_reusing s k /\ bound_name s k' = bound_name s k /\ listens s k' = true.
Proof.
  unfold listen. destruct (_ =? _); [done|]. pose proof (listen_listens s n k) as Hl. destruct (sys_listen s n k) as [[[]|e] k1]; intros [= <-]. by apply Hl.
Qed.
Lemma reuse_ok o m o' m' : change (set_option (reuse_address true)) (o, m) = (Ok tt, (o', m')) ->
  o' = o /\ reuses (socket_ (base o)) (kern (env m')) = true /\ forall d, state_of d (env m') = state_of d (env m).
Proof.
  unfold change, set_option, on_kern, setsockopt. change (@Kern socket_epoll) with K. destruct (_ =? _) eqn:Hs; [done|]. cbn [level name data reuse_address boolean].
  change (custom SOL_SOCKET SO_REUSEADDR always_fail_option) with false. change (custom SOL_SOCKET SO_REUSEADDR enable_connection_aborted_option) with false.
  cbn [andb Z.eqb]. change ((SOL_SOCKET =? SOL_SOCKET) && (SO_REUSEADDR =? SO_LINGER)) with false. cbn iota.
  pose proof (setsockopt_reuses (socket_ (base o)) 1 (kern (env m))) as Hr. destruct (sys_setsockopt _ _ _ _ _) as [[[]|e] k]; intros [= <- <-].
  split_and!; [by destruct o as [[]]|by apply Hr|done].
Qed.

Lemma then_ok {A B} (c : M owner A) (k : A -> M owner B) x b x' : Prelude.bind c k x = (Ok b, x') ->
  exists a x1, c x = (Ok a, x1) /\ k a x1 = (Ok b, x').
Proof. unfold Prelude.bind. destruct (c x) as [[a|e] x1]; [|done]. intros Hk. by exists a, x1. Qed.
Lemma change_ok f o m o' m' : change f (o, m) = (Ok tt, (o', m')) -> f o m = ((None, o'), m').
Proof. unfold change. destruct (f o m) as [[[e|] o1] m1]; [done|]. by intros [= -> ->]. Qed.

(** The calls that make an acceptor, and the error of the first that fails. *)
Definition keeping (f : object -> machine -> error_code * machine) (o : object) (m : machine) : (error_code * object) * machine :=
  let '(ec, m) := f o m in ((ec, o), m).
Fixpoint first_error (cs : list (object -> machine -> (error_code * object) * machine)) (o : object) (m : machine) : error_code :=
  match cs with
  | [] => None
  | c :: cs => let '((ec, o), m) := c o m in match ec with Some e => Some e | None => first_error cs o m end
  end.
Definition acceptor_calls (ep : endpoint_t) (reuse_addr : bool) : list (object -> machine -> (error_code * object) * machine) :=
  [fun o => open o (protocol_of tcp ep)] ++ (if reuse_addr then [set_option (reuse_address true)] else []) ++
  [keeping (bind_to ep); keeping (listen_on max_listen_connections)].
Lemma acceptor_error ep reuse_addr m :
  match (acceptor_new ep reuse_addr m).1, first_error (acceptor_calls ep reuse_addr) (object_construct tcp) m with
  | Ok _, None => True
  | Throw e, Some err => e = system_error err
  | _, _ => False
  end.
Proof.
  assert (forall o m, match (Prelude.bind (call_unit (bind_to ep)) (fun _ => call_unit (listen_on max_listen_connections)) (o, m)).1,
      first_error [keeping (bind_to ep); keeping (listen_on max_listen_connections)] o m with
    | Ok _, None => True | Throw e, Some err => e = system_error err | _, _ => False end) as Hlast.
  { intros o m1. unfold Prelude.bind, call_unit. cbn [first_error]. unfold keeping. destruct (bind_to ep o m1) as [[e|] m2]; [done|].
    by destruct (listen_on _ o m2) as [[e|] m3]. }
  unfold acceptor_new, acceptor_calls, Prelude.bind at 1, change at 1. cbn [app first_error].
  destruct (open (object_construct tcp) (protocol_of tcp ep) m) as [[[e|] o1] m1]; [done|]. destruct reuse_addr; cbn [app].
  - cbn [first_error]. unfold Prelude.bind at 1, change. destruct (set_option (reuse_address true) o1 m1) as [[[e|] o2] m2]; [done|].
    specialize (Hlast o2 m2). cbn [first_error] in Hlast. by destruct (Prelude.bind _ _ (o2, m2)) as [[[]|e] [o m3]].
  - specialize (Hlast o1 m1). cbn [first_error] in Hlast. unfold Prelude.bind at 1, ret. by destruct (Prelude.bind _ _ (o1, m1)) as [[[]|e] [o m3]].
Qed.

(** What an acceptor on [ep] is, made in [m] and now in [m']. *)
Record listening_on (ep : endpoint_t) (m m' : machine) (o : object) : Prop := {
  li_new : socket_ (base o) ∉ files m;
  li_files : files m' = {[socket_ (base o)]} ∪ files m;
  li_protocol : protocol_ o = protocol_of tcp ep;
  li_state : state_ (base o) = initial_state SOCK_STREAM;
  li_watched : watched_by (base o) m';
  li_listens : listens (socket_ (base o)) (kern (env m')) = true;
  li_name : exists ep', (local_endpoint o m').1 = (ep', None) /\ named ep ep';
}.
Lemma local_endpoint_named o m ep : socket_ (base o) <> invalid_socket -> bound_name (socket_ (base o)) (kern (env m)) = Some ep ->
  (local_endpoint o m).1 = (ep, None).
Proof.
  intros Hs Hb. unfold local_endpoint, on_socket, on_kern, getsockname, name_of. change (@Kern socket_epoll) with K.
  rewrite (proj2 (Z.eqb_neq _ _) Hs). pose proof (getsockname_bound _ _ _ Hb) as Hg. by destruct (sys_getsockname _ _) as [r k]; cbn in Hg; subst r.
Qed.
Lemma acceptor_ok ep reuse_addr m o m' : acceptor_new ep reuse_addr m = (Ok o, m') ->
  listening_on ep m m' o /\
  (reuse_addr = true -> reuses (socket_ (base o)) (kern (env m')) = true /\ bound_reusing (socket_ (base o)) (kern (env m')) = true).
Proof.
  intros Hnew. pose proof (acceptor_files ep reuse_addr m) as Hfiles. rewrite Hnew in Hfiles. revert Hnew. unfold acceptor_new.
  set (c := (_ ;;; _) : M owner unit). destruct (c _) as [[[]|e] [o4 m4]] eqn:Hc; [|done]. intros [= <- <-].
  apply then_ok in Hc as ([] & [o1 m1] & Hopen%change_ok & Hc). destruct (open_watched _ _ _ _ _ Hopen) as (Hp & Hst & Hw).
  apply then_ok in Hc as ([] & [o2 m2] & Hset & Hc).
  assert (o2 = o1 /\ (forall d, state_of d (env m2) = state_of d (env m1)) /\
    (reuse_addr = true -> reuses (socket_ (base o1)) (kern (env m2)) = true)) as (-> & Hsame & Hreuse).
  { destruct reuse_addr; [|by injection Hset as <- <-]. by destruct (reuse_ok _ _ _ _ Hset) as (-> & Hr & Hd). }
  apply then_ok in Hc as ([] & [o3 m3] & Hbind & Hlisten).
  destruct (call_ok _ _ _ _ _ Hbind) as (k3 & Hb & -> & ->). destruct (bind_call_ok _ _ _ _ Hb) as (Hr3 & Hb3 & ep' & Hname & Hnamed).
  destruct (call_ok _ _ _ _ _ Hlisten) as (k4 & Hl & -> & ->). destruct (listen_call_ok _ _ _ _ Hl) as (Hr4 & Hb4 & Hn4 & Hl4).
  assert (socket_ (base o1) <> invalid_socket) as Hs by (intros Heq; unfold bind in Hb; by rewrite Heq in Hb).
  destruct Hfiles as [Hown Hrest]. assert (file_of o1 = {[socket_ (base o1)]}) as Hone
    by (unfold file_of, object_open, is_open; by rewrite (proj2 (Z.eqb_neq _ _) Hs)).
  set (m' := on_env _ _) in *. change (kern (env m')) with k4. change (kern (env (on_env _ m2))) with k3 in *. split.
  - split; [set_solver|apply set_eq; intros s; destruct (decide (s = socket_ (base o1))); set_solver|done|by rewrite Hst| |done|].
    + destruct Hw as (d & Hd & Hfd & Hsd). exists d. by rewrite <- Hsame in Hfd, Hsd.
    + exists ep'. split; [|done]. apply local_endpoint_named; [done|]. change (kern (env m')) with k4. by rewrite Hn4.
  - intros Hru. rewrite Hr4, Hb4, Hr3, Hb3. by split; apply Hreuse.
Qed.
End listening.

(** ** Properties *)

(** C11: No descriptor is lost and none is closed by anyone but its owner.  Whatever sequence of
    blocking calls a program makes on its sockets and acceptors - constructing, opening,
    binding, listening, accepting, connecting, transferring, changing modes and options,
    moving, closing, destroying, with every call free to fail - the program returns, and then
    the descriptors open in the process are those open before it and one for each open object;
    the objects' are theirs alone and not among those before.  So when its objects are closed
    or destroyed, exactly the descriptors of before are open. *)
Theorem descriptors_accounted `{FileLaws} (cs : list object_call) (m : @Scheduler.machine (@epoll_task socket_epoll)) :
  exists enough x, (forall fuel, (enough <= fuel)%nat -> perform_object_calls fuel cs (Space ∅ m) = Some x) /\
    (forall s, s ∈ files (on_ x) <-> s ∈ files m \/
       exists n o, objects_ x !! n = Some o /\ object_open o = true /\ socket_ (base o) = s) /\
    (forall n o, objects_ x !! n = Some o -> object_open o = true -> socket_ (base o) ∉ files m) /\
    (forall n n' o o', objects_ x !! n = Some o -> objects_ x !! n' = Some o' -> object_open o = true ->
       socket_ (base o) = socket_ (base o') -> n = n') /\
    ((forall n o, objects_ x !! n = Some o -> object_open o = false) -> files (on_ x) = files m).
Proof.
  destruct (calls_accounted (files m) cs (Space ∅ m) (nothing_accounted m)) as (n & x & Hn & [Hf Hb Ha]).
  assert (forall o s, s ∈ file_of o <-> object_open o = true /\ socket_ (base o) = s) as Hown
    by (intros o s; unfold file_of; destruct (object_open o); set_solver).
  assert (forall s, s ∈ files (on_ x) <-> s ∈ files m \/
    exists n o, objects_ x !! n = Some o /\ object_open o = true /\ socket_ (base o) = s) as Hall by (intros s; rewrite Hf; by setoid_rewrite Hown).
  exists n, x. split_and!; [done|done| | |].
  - intros n1 o Ho Hop. specialize (Hb n1 o Ho (socket_ (base o))). rewrite Hown in Hb. naive_solver.
  - intros n1 n2 o1 o2 Ho1 Ho2 Hop Hs. destruct (decide (n1 = n2)) as [|Hne]; [done|]. exfalso.
    assert (object_open o2 = true) as Hop2 by (unfold object_open, is_open in *; by rewrite <- Hs).
    apply (Ha n1 n2 o1 o2 Ho1 Ho2 Hne (socket_ (base o1))); by apply Hown.
  - intros Hclosed. apply set_eq. intros s. rewrite Hall. split; [|by left]. intros [|(n1 & o & Ho & Hop & _)]; [done|].
    rewrite (Hclosed n1 o Ho) in Hop. done.
Qed.

(** C13: Making an acceptor on an endpoint either gives an acceptor that owns one new descriptor,
    of the endpoint's family, registered with the reactor, with address reuse on when it was
    bound if that was asked for, bound to the endpoint (with the port the system chose if it
    was 0), listening, and able to block; or it throws the error of the first call that failed
    among opening, setting the option, binding and listening, in this order, and leaves no
    descriptor behind.  It throws exactly when one of them failed. *)
Theorem acceptor_listens `{FileLaws} `{!ListenState} `{!ListenLaws} (ep : endpoint_t) (reuse_addr : bool)
    (m : @Scheduler.machine (@epoll_task socket_epoll)) :
  let failure := first_error (acceptor_calls ep reuse_addr) (object_construct tcp) m in
  match acceptor_new ep reuse_addr m with
  | (Ok o, m') =>
      failure = None /\ listening_on ep m m' o /\
      (reuse_addr = true -> reuses (socket_ (base o)) (kern (env m')) = true /\ bound_reusing (socket_ (base o)) (kern (env m')) = true) /\
      has non_blocking (state_ (base o)) = false
  | (Throw e, m') => (exists err, failure = Some err /\ e = system_error err) /\ files m' = files m
  end.
Proof.
  intros failure. pose proof (acceptor_error ep reuse_addr m) as He. fold failure in He.
  pose proof (acceptor_files ep reuse_addr m) as Hf. destruct (acceptor_new ep reuse_addr m) as [[o|e] m'] eqn:Hnew; cbn [fst] in He.
  - destruct (acceptor_ok ep reuse_addr m o m' Hnew) as [Hl Hr]. split_and!; [by destruct failure|done|done|]. rewrite (li_state _ _ _ _ Hl).
    unfold initial_state, extra_state_. by destruct config_reset_edge.
  - split; [|done]. destruct failure as [err|]; [by exists err|done].
Qed.

(** ** A concrete system

    Descriptors are handed out above all that are open; so many connections wait on any
    listening socket; every connection has ended. *)
Record toy := Toy { opened : gset Z; names : gmap Z endpoint_t; listening : gset Z; reusing : gset Z; sharing : gset Z; backlog : nat }.
Definition toy_top (F : gset Z) : Z := foldr Z.max 2 (elements F).
Definition toy_set_open (F : gset Z) (k : toy) : toy := Toy F (names k) (listening k) (reusing k) (sharing k) (backlog k).
Definition toy_make (k : toy) : Z * toy :=
  let s := toy_top (opened k) + 1 in (s, toy_set_open ({[s]} ∪ opened k) k).
Lemma toy_top_above F s : s ∈ F -> s <= toy_top F.
Proof.
  intros Hs%elem_of_elements. unfold toy_top. induction (elements F) as [|x l IH]; [by apply elem_of_nil in Hs|].
  apply elem_of_cons in Hs as [->|Hs]; cbn; [lia|]. specialize (IH Hs). lia.
Qed.
Lemma toy_top_positive F : 2 <= toy_top F.
Proof. unfold toy_top. induction (elements F) as [|x l IH]; cbn; lia. Qed.

#[local] Instance toy_sys : Sys := {|
  K := toy;
  sys_recv := fun _ _ _ k => (Done [], k);
  sys_send := fun _ bytes _ k => (Done (length bytes), k);
  sys_recvfrom := fun _ _ _ k => (Errno bad_descriptor, k);
  sys_sendto := fun _ bytes _ _ k => (Done (length bytes), k);
  sys_accept := fun s k =>
    match backlog k with
    | S n => if bool_decide (s ∈ listening k) then
               let '(new_s, k) := toy_make k in (Done (new_s, no_endpoint), Toy (opened k) (names k) (listening k) (reusing k) (sharing k) n)
             else (Errno invalid_argument, k)
    | O => (Errno invalid_argument, k)
    end;
  sys_connect := fun _ _ k => (Done tt, k);
  sys_poll := fun _ _ _ k => (Done 1, k);
  sys_so_error := fun _ k => (Done None, k);
  sys_fionread := fun _ k => (Done 0, k);
  sys_fionbio := fun _ _ k => (Done tt, k);
  sys_getfl := fun _ k => (Done 0, k);
  sys_setfl := fun _ _ k => (Done tt, k);
  sys_shutdown := fun _ _ k => (Done tt, k);
  sys_close := fun s k => (Done tt, toy_set_open (opened k ∖ {[s]}) k);
|}.
#[local] Instance toy_system : SocketSystem := {|
  sys_socket := fun _ _ _ k => let '(s, k) := toy_make k in (Done s, k);
  eintr := 1;
  config_reset_edge := false;
  sys_epoll_ctl := fun _ _ _ _ k => (None, k);
  sys_epoll_wait := fun _ k => ([], k);
  sys_timerfd_settime := fun _ _ k => k;
  sys_interrupt := fun k => k;
  sys_clock := fun _ => 0;
|}.
#[local] Instance toy_setup : SetupSystem := {|
  sys_bind := fun s ep k =>
    let ep := if ep_port ep =? 0 then Endpoint (ep_address ep) 40000 else ep in
    (Done tt, Toy (opened k) (<[s := ep]> (names k)) (listening k) (reusing k)
       (if decide (s ∈ reusing k) then {[s]} ∪ sharing k else sharing k ∖ {[s]}) (backlog k));
  sys_listen := fun s _ k => (Done tt, Toy (opened k) (names k) ({[s]} ∪ listening k) (reusing k) (sharing k) (backlog k));
  sys_setsockopt := fun s l n v k =>
    match v with
    | [v] => if (l =? SOL_SOCKET) && (n =? SO_REUSEADDR) then
               (Done tt, Toy (opened k) (names k) (listening k) (if v =? 0 then reusing k ∖ {[s]} else {[s]} ∪ reusing k) (sharing k) (backlog k))
             else (Done tt, k)
    | _ => (Errno invalid_argument, k)
    end;
  sys_getsockopt := fun _ _ _ size k => (Done (replicate size 0), k);
  sys_getsockname := fun s k => (match names k !! s with Some ep => Done ep | None => Errno bad_descriptor end, k);
  sys_getpeername := fun s k => (Done no_endpoint, k);
  sys_atmark := fun _ k => (Done 0, k);
|}.
#[local] Instance toy_open_files : OpenFiles := {|
  open_files := fun k => opened k ∖ {[invalid_socket]};
  read_rounds := fun _ _ => 0%nat;
  write_rounds := fun _ _ => 0%nat;
  accept_rounds := fun _ _ => 0%nat;
|}.
#[local] Instance toy_listen_state : ListenState := {|
  bound_name := fun s k => names k !! s;
  listens := fun s k => bool_decide (s ∈ listening k);
  reuses := fun s k => bool_decide (s ∈ reusing k);
  bound_reusing := fun s k => bool_decide (s ∈ sharing k);
|}.

Lemma toy_makes (k k' : toy) s : toy_make k = (s, k') ->
  s <> invalid_socket /\ s ∉ @open_files _ _ toy_open_files k /\ @open_files _ _ toy_open_files k' = {[s]} ∪ @open_files _ _ toy_open_files k.
Proof.
  intros [= <- <-]. pose proof (toy_top_positive (opened k)) as Hp.
  assert (toy_top (opened k) + 1 <> invalid_socket) as Hs by (unfold invalid_socket; lia).
  assert (toy_top (opened k) + 1 ∉ opened k) as Hnew by (intros Hin%toy_top_above; lia).
  cbn. split_and!; [done|set_solver|set_solver].
Qed.
#[local] Instance toy_file_laws : FileLaws.
Proof.
  split; try done.
  - intros k. cbn. set_solver.
  - intros af ty pr k. exact (toy_makes k _ _ eq_refl).
  - intros s k. cbn. destruct (backlog k) as [|n]; [done|]. destruct (bool_decide _); [|done].
    exact (toy_makes k _ _ eq_refl).
  - intros s k. cbn. split; [set_solver|done].
  - intros s l n v k. cbn. destruct v as [|v [|]]; [done| |done]. by destruct (_ && _).
  - intros s k. cbn. destruct (backlog k); [done|]. by destruct (bool_decide _).
Qed.
#[local] Instance toy_listen_laws : ListenLaws.
Proof.
  split.
  - intros s v k. cbn. intros _. destruct (Z.eqb_spec v 0); cbn; [apply bool_decide_eq_false|apply bool_decide_eq_true]; set_solver.
  - intros s ep k. cbn. intros _. split; [done|]. split.
    { case_decide; [rewrite !bool_decide_eq_true_2|rewrite !bool_decide_eq_false_2]; set_solver. }
    eexists. rewrite lookup_insert_eq. split; [done|]. unfold named.
    destruct (Z.eqb_spec (ep_port ep) 0); cbn; split; done || lia.
  - intros s n k. cbn. intros _. split_and!; [done|done|done|]. apply bool_decide_eq_true. set_solver.
  - intros s k ep. cbn. by intros ->.
Qed.

(** Three descriptors are open, and a connection waits. *)
Definition toy_machine : @Scheduler.machine (@epoll_task socket_epoll) := @new_machine socket_epoll 2 (Toy {[0; 1; 2]} ∅ ∅ ∅ ∅ 1).
Definition toy_port : endpoint_t := Endpoint any_v4 0.
(** A server that accepts a connection and then another there is not, and a client that is
    moved and closed. *)
Definition toy_program : list object_call :=
  [NewAcceptor 0 toy_port true; NewObject 1 tcp; AcceptInto 0 1; NewObject 4 tcp; AcceptInto 0 4;
   NewObject 2 tcp; Member 2 (ConnectTo toy_port); Member 2 (SetOption (linger true 5)); Member 2 (SendBytes ["a"]%char 0);
   NewObject 3 tcp; MoveAssign 3 2; Member 3 (ReceiveBytes 8 0); Member 3 CloseObject; DestroyObject 0].
Example toy_runs : (fun x => (elements (files (on_ x)), (fun o => socket_ (base o)) <$> objects_ x)) <$>
    perform_object_calls 1 toy_program (Space ∅ toy_machine) =
  Some ([4; 2; 1; 0], {[1%nat := 4; 2%nat := -1; 3%nat := -1; 4%nat := -1]}).
Proof. vm_compute. reflexivity. Qed.

Lemma descriptors_accounted_witness :
  exists enough x, (forall fuel, (enough <= fuel)%nat -> perform_object_calls fuel toy_program (Space ∅ toy_machine) = Some x) /\
    (forall s, s ∈ files (on_ x) <-> s ∈ files toy_machine \/
       exists n o, objects_ x !! n = Some o /\ object_open o = true /\ socket_ (base o) = s).
Proof.
  destruct (@descriptors_accounted toy_system toy_setup toy_open_files toy_file_laws toy_program toy_machine) as (n & x & Hn & Hf & _).
  exists n, x. by split.
Defined.
Lemma toy_acceptor : match (acceptor_new toy_port true toy_machine).1 with Ok o => socket_ (base o) = 3 | Throw _ => False end.
Proof. vm_compute. reflexivity. Qed.
Lemma acceptor_listens_witness :
  exists o m', acceptor_new toy_port true toy_machine = (Ok o, m') /\ listening_on toy_port toy_machine m' o /\ socket_ (base o) = 3.
Proof.
  pose proof (@acceptor_listens toy_system toy_setup toy_open_files toy_file_laws toy_listen_state toy_listen_laws toy_port true toy_machine) as Ha.
  pose proof toy_acceptor as Hs. destruct (acceptor_new toy_port true toy_machine) as [[o|e] m']; [|destruct Hs].
  exists o, m'. split; [reflexivity|]. split; [apply Ha|apply Hs].
Defined.
