(* ===== verification/UdpTransport.v ===== *)
(** * The UDP socket of scripts over asio's sockets

    [UdpSocket] takes the transport as a class; here the transport is asio's
    ([SocketObjects]): the [asio::ip::udp::socket] of [network.hpp] is an object of the
    program, its members those of [basic_socket.hpp] and [basic_datagram_socket.hpp].  A
    blocking call has fuel for the rounds that the system takes; [never_returns] stands for a
    call that would need more, and the theorem shows that there is none. *)
From S2P Require Import Prelude Endpoint Atomics Admission Reservations UdpSocket.
From S2P Require Import SocketOps EpollReactor SocketService SocketObjects.
From S2P Require Scheduler.
Import Scheduler (env).
Import Admission.Udp.
Open Scope Z_scope.

Definition never_returns : exn := runtime_error "This call never returns.".

Section transport.
  Context `{OpenFiles}.
  #[local] Abbreviation machine := (@Scheduler.machine (@epoll_task socket_epoll)).
  #[local] Abbreviation owner := (object * machine)%type.

(** A member function of the [n]-th object. *)
Definition on_object {A} (c : M owner A) (n : nat) (x : space) : res A * space :=
  match objects_ x !! n with
  | None => (Throw (system_error bad_descriptor), x)
  | Some o => let '(r, (o, m)) := c (o, on_ x) in (r, Space (<[n := o]> (objects_ x)) m)
  end.
(** A call of the service with a result, and its [throw_error]. *)
Definition call_value {A} (f : object -> machine -> (A * error_code) * machine) : M owner A := fun '(o, m) =>
  let '((a, ec), m) := f o m in (match ec with Some e => Throw (system_error e) | None => Ok a end, (o, m)).
(** One that blocks. *)
Definition call_blocking {A} (rounds : Z -> K -> nat) (f : nat -> object -> machine -> option ((A * error_code) * machine))
    : M owner A := fun '(o, m) =>
  match f (S (rounds (socket_ (base o)) (kern (env m)))) o m with
  | None => (Throw never_returns, (o, m))
  | Some ((a, ec), m) => (match ec with Some e => Throw (system_error e) | None => Ok a end, (o, m))
  end.

Definition member_open (family : Z) : M owner unit := change (fun o => open o (Protocol udp family)).
Definition member_bind (ep : endpoint_t) : M owner unit := call_unit (bind_to ep).
Definition member_close : M owner unit := change close_object.
Definition member_set_option (opt : socket_option) : M owner unit := change (set_option opt).
Definition member_available : M owner Z := call_value available_of.
Definition member_receive_from (size : nat) : M owner (list ascii * endpoint_t) :=
  got <-- call_blocking read_rounds (fun fuel => receive_from fuel size 0) ;;
  ret (got.1, default no_endpoint got.2).
Definition member_send_to (bytes : list ascii) (ep : endpoint_t) : M owner nat :=
  call_blocking write_rounds (fun fuel => send_to fuel bytes 0 ep).
Definition member_local_endpoint : M owner endpoint_t := call_value local_endpoint.
Definition member_remote_endpoint : M owner endpoint_t := call_value remote_endpoint.

#[export] Instance udp_over_asio : UdpExternal := {|
  UW := space;
  uraw := nat;
  usock_option := socket_option;
  udp_raw_is_open := fun n x => match objects_ x !! n with Some o => object_open o | None => false end;
  udp_raw_open_v4 := on_object (member_open AF_INET);
  udp_raw_open_v6 := on_object (member_open AF_INET6);
  udp_raw_bind := fun n ep => on_object (member_bind ep) n;
  udp_raw_connect := fun n ep => on_object (connect_object udp ep) n;
  udp_raw_close := on_object member_close;
  udp_raw_set_option := fun n opt => on_object (member_set_option opt) n;
  udp_raw_available := on_object member_available;
  udp_raw_receive_from := fun n size => on_object (member_receive_from size) n;
  udp_raw_send_to := fun n bytes ep => on_object (member_send_to bytes ep) n;
  udp_raw_local_endpoint := fun n x => (on_object member_local_endpoint n x).1;
  udp_raw_remote_endpoint := fun n x => (on_object member_remote_endpoint n x).1;
|}.

(** [udp::socket()]: the object is not open yet. *)
Definition new_udp_socket (m : machine) : @udp_state udp_over_asio :=
  @UdpState udp_over_asio (@udp_socket_new udp_over_asio 0%nat) (Space {[0%nat := object_construct udp]} m).
End transport.

Section proof.
  Context `{FileLaws}.
  #[local] Abbreviation machine := (@Scheduler.machine (@epoll_task socket_epoll)).
  #[local] Abbreviation owner := (object * machine)%type.
  #[local] Existing Instance udp_over_asio.
  Implicit Types (m : machine) (o : object) (x : space).

(** *** Enough fuel *)

Lemma sync_loop_enough {A} (try_ : K -> sysres A * K) wait rounds state fuel k : waits would_wait try_ wait rounds ->
  quiet try_ -> quiet wait -> (rounds k < fuel)%nat ->
  exists r k', sync_loop try_ wait state fuel k = Some (r, k') /\ open_files k' = open_files k.
Proof.
  intros Hw Ht Hq. revert k. induction fuel as [|fuel IH]; intros k Hf; [lia|]. cbn [sync_loop].
  pose proof (Ht k) as Hk1. pose proof (Hw k) as Hr. destruct (try_ k) as [r k1]; cbn [fst snd] in *.
  destruct r as [a|e]; [by exists (Done a), k1|]. destruct (_ || _) eqn:Hb; [by exists (Errno e), k1|].
  apply orb_false_iff in Hb as [_ Hb%negb_false_iff]. specialize (Hr Hb).
  pose proof (Hq k1) as Hk2. destruct (wait k1) as [[n ec] k2]; cbn [fst snd] in *.
  destruct (Z.ltb_spec n 0) as [Hn|Hn]; [exists (Errno (default e ec)), k2; split; [done|congruence]|].
  destruct (IH k2 ltac:(lia)) as (r & k' & Hl & Hk'). exists r, k'. split; [done|congruence].
Qed.

(** What a member function of the object does: it accounts for its descriptor, and throws
    only errors of calls. *)
Definition member_good {A} (c : M owner A) : Prop := accounts c /\ throws_errors c.
Lemma good_bind {A B} (c : M owner A) (k : A -> M owner B) : member_good c -> (forall a, member_good (k a)) -> member_good (Prelude.bind c k).
Proof. intros [Ha Ht] Hk. split; [apply accounts_bind|apply throws_bind]; try done; intros a; apply Hk. Qed.
Lemma good_ret {A} (a : A) : member_good (ret a).
Proof. split; [apply accounts_ret|by intros x e]. Qed.
Lemma good_change f : (forall o m, file_of o ⊆ files m -> moves (files m) o (files (f o m).2) (f o m).1.2) -> member_good (change f).
Proof. intros Hf. split; [by apply accounts_change|apply throws_change]. Qed.
Lemma good_call f : (forall o m, files (f o m).2 = files m) -> member_good (call_unit f).
Proof. intros Hf. split; [by apply accounts_call|apply throws_call]. Qed.
Lemma good_value {A} (f : object -> machine -> (A * error_code) * machine) : (forall o m, files (f o m).2 = files m) -> member_good (call_value f).
Proof.
  intros Hf. split.
  - intros o m Ho. specialize (Hf o m). unfold call_value. destruct (f o m) as [[a ec] m']; cbn [fst snd] in *. rewrite Hf. by apply moves_same.
  - intros [o m] e. unfold call_value. destruct (f o m) as [[a [err|]] m']; cbn; [intros [= <-]; by exists err|done].
Qed.
Lemma good_blocking {A} rounds (f : nat -> Z -> Z -> K -> option ((A * error_code) * K)) :
  (forall s state k, exists r k', f (S (rounds s k)) s state k = Some (r, k') /\ open_files k' = open_files k) ->
  member_good (call_blocking rounds (fun fuel o => on_kern_loop (f fuel (socket_ (base o)) (state_ (base o))))).
Proof.
  intros Hf. assert (forall o m, exists a ec m',
    on_kern_loop (f (S (rounds (socket_ (base o)) (kern (env m)))) (socket_ (base o)) (state_ (base o))) m = Some ((a, ec), m') /\
    files m' = files m) as Hm.
  { intros o m. destruct (Hf (socket_ (base o)) (state_ (base o)) (kern (env m))) as ([a ec] & k' & Hk & Hfk).
    unfold on_kern_loop. change (@Kern socket_epoll) with K in *. rewrite Hk. by eexists _, _, _. }
  split.
  - intros o m Ho. unfold call_blocking. destruct (Hm o m) as (a & ec & m' & -> & Hm'). cbn [fst snd]. rewrite Hm'. by apply moves_same.
  - intros [o m] e. unfold call_blocking. destruct (Hm o m) as (a & [err|] & m' & -> & _); cbn; [intros [= <-]; by exists err|done].
Qed.

Lemma receive_from_enough size flags s state k :
  exists r k', sync_recvfrom1 (S (read_rounds s k)) s state size flags k = Some (r, k') /\ open_files k' = open_files k.
Proof.
  unfold sync_recvfrom1. destruct (_ =? _); [by eexists _, _|].
  destruct (sync_loop_enough (recvfrom1 s size flags) (poll_read s 0 (-1)) (read_rounds s) state (S (read_rounds s k)) k) as (r & k' & -> & Hk');
    [apply recvfrom_waits|intros ?; apply recvfrom_files|apply poll_read_files|lia|].
  destruct r as [[bytes from]|e]; by eexists _, _.
Qed.
Lemma send_to_enough bytes flags to s state k :
  exists r k', sync_sendto1 (S (write_rounds s k)) s state bytes flags to k = Some (r, k') /\ open_files k' = open_files k.
Proof.
  unfold sync_sendto1. destruct (_ =? _); [by eexists _, _|].
  destruct (sync_loop_enough (sendto1 s bytes flags to) (poll_write s 0 (-1)) (write_rounds s) state (S (write_rounds s k)) k) as (r & k' & -> & Hk');
    [apply sendto_waits|intros ?; apply sendto_files|apply poll_write_files|lia|].
  destruct r as [n|e]; by eexists _, _.
Qed.

Lemma open_good family : member_good (member_open family).
Proof. apply good_change. intros o m. apply open_moves. Qed.
Lemma bind_good ep : member_good (member_bind ep).
Proof. apply good_call. intros o m. apply on_kern_files, bind_call_files. Qed.
Lemma connect_good ep : member_good (connect_object udp ep).
Proof.
  apply good_bind; [split; [apply accounts_gets|by intros x e]|]. intros opened. apply good_bind.
  - destruct opened; [apply good_ret|apply good_change; intros o m; apply open_moves].
  - intros _. apply good_call. intros o m. apply on_kern_files, sync_connect_files.
Qed.
Lemma close_good : member_good member_close.
Proof. apply good_change. intros o m. apply close_moves. Qed.
Lemma set_option_good opt : member_good (member_set_option opt).
Proof. apply good_change. intros o m. apply set_option_moves. Qed.
Lemma available_good : member_good member_available.
Proof. apply good_value. intros o m. apply on_kern_files, available_files. Qed.
Lemma local_good : member_good member_local_endpoint.
Proof. apply good_value. intros o m. apply on_kern_files, getsockname_call_files. Qed.
Lemma remote_good : member_good member_remote_endpoint.
Proof. apply good_value. intros o m. apply on_kern_files, getpeername_call_files. Qed.
Lemma receive_good size : member_good (member_receive_from size).
Proof.
  apply good_bind; [|intros; apply good_ret].
  apply (good_blocking read_rounds (fun fuel s state => sync_recvfrom1 fuel s state size 0)). intros. apply receive_from_enough.
Qed.
Lemma send_good bytes ep : member_good (member_send_to bytes ep).
Proof.
  apply (good_blocking write_rounds (fun fuel s state => sync_sendto1 fuel s state bytes 0 ep)). intros. apply send_to_enough.
Qed.

(** *** The script's calls *)

(** A value, or the error of a system call: not a refusal, and not a call without end. *)
Definition answered {A} (r : res A) : Prop := match r with Ok _ => True | Throw e => exists err, e = system_error err end.

Section calls.
  Context (B : gset Z).
  #[local] Abbreviation ustate := (@udp_state udp_over_asio).

(** The one object, and the accounts. *)
Definition alone (x : space) : Prop := accounted B x /\ exists o, objects_ x = {[0%nat := o]}.
Definition goes {A} (r : res A * space) : Prop := answered r.1 /\ alone r.2.
Lemma object_goes {A} (c : M owner A) x : member_good c -> alone x -> goes (on_object c 0%nat x).
Proof.
  intros [Ha Ht] [Hx [o Ho]]. unfold on_object. rewrite Ho, lookup_singleton_eq.
  assert (objects_ x !! 0%nat = Some o) as Hlook by (by rewrite Ho, lookup_singleton_eq).
  pose proof (Ha o (on_ x) (accounted_owned B x 0 o Hx Hlook)) as Hm. specialize (Ht (o, on_ x)).
  destruct (c (o, on_ x)) as [r [o' m']]; cbn [fst snd] in *. split; cbn [fst snd].
  - destruct r as [a|e]; [done|]. by apply Ht.
  - rewrite <- Ho. split; [by apply (accounted_change B x 0 o); [|left|]|]. exists o'. cbn. by rewrite Ho, insert_singleton_eq.
Qed.

(** Inside a reservation. *)
Definition inside {A} (c : M ustate A) : Prop := forall st, udp_sock (udp_self st) = 0%nat -> alone (udp_world st) ->
  goes ((c st).1, udp_world (c st).2) /\ udp_sock (udp_self (c st).2) = 0%nat.
Lemma inside_call {A} (f : nat -> space -> res A * space) : (forall x, alone x -> goes (f 0%nat x)) -> inside (@udp_call udp_over_asio A f).
Proof. intros Hf st Hs Hx. specialize (Hf _ Hx). unfold udp_call. rewrite Hs. by destruct (f 0%nat (udp_world st)). Qed.
Lemma inside_ret {A} (a : A) : inside (ret a).
Proof. by intros st Hs Hx. Qed.
Lemma inside_gets {A} (f : ustate -> A) : inside (gets f).
Proof. by intros st Hs Hx. Qed.
Lemma inside_bind {A A'} (c : M ustate A) (k : A -> M ustate A') : inside c -> (forall a, inside (k a)) -> inside (Prelude.bind c k).
Proof.
  intros Hc Hk st Hs Hx. destruct (Hc st Hs Hx) as [[Ha Hx'] Hs']. unfold Prelude.bind. destruct (c st) as [[a|e] st']; cbn [fst snd] in *; [|done].
  by apply Hk.
Qed.
Lemma inside_object {A} (c : nat -> M owner A) : (forall n, member_good (c n)) -> inside (@udp_call udp_over_asio A (fun n => on_object (c n) n)).
Proof. intros Hc. apply inside_call. intros x Hx. by apply object_goes. Qed.
Lemma inside_look {A} (c : M owner A) : member_good c -> inside (@udp_call udp_over_asio A (fun n x => ((on_object c n x).1, x))).
Proof. intros Hc. apply inside_call. intros x Hx. destruct (object_goes c x Hc Hx). by split. Qed.

(** With all reservations free. *)
Definition admitted {A} (c : M ustate A) : Prop := forall st, udp_atoms (udp_self st) = initial_atoms ->
  udp_sock (udp_self st) = 0%nat -> alone (udp_world st) ->
  goes ((c st).1, udp_world (c st).2) /\ udp_sock (udp_self (c st).2) = 0%nat.
Lemma admitted_inside {A} (c : M ustate A) : inside c -> admitted c.
Proof. intros Hc st _. apply Hc. Qed.
Lemma admitted_map {A A'} (c : M ustate A) (f : A -> A') : admitted c -> admitted (x <-- c ;; ret (f x)).
Proof.
  intros Hc st Ha Hs Hx. destruct (Hc st Ha Hs Hx) as [[Hans Hx'] Hs']. unfold Prelude.bind. by destruct (c st) as [[a|e] st'].
Qed.
Lemma released {A} (c : M ustate A) p st : inside c -> udp_sock (udp_self st) = 0%nat -> alone (udp_world st) ->
  goes ((finally c (udp_release p) st).1, udp_world (finally c (udp_release p) st).2) /\
  udp_sock (udp_self (finally c (udp_release p) st).2) = 0%nat.
Proof.
  intros Hc Hs Hx. specialize (Hc st Hs Hx). unfold finally. destruct (c st) as [r st']; cbn [fst snd] in *.
  unfold udp_release, udp_atomically. by destruct (exec p _).
Qed.
Lemma admitted_close {A} (c : M ustate A) : inside c -> admitted (scoped_exclusive_close c).
Proof.
  intros Hc st Ha Hs Hx. unfold scoped_exclusive_close, Prelude.bind, udp_atomically. rewrite Ha.
  destruct (exec begin_exclusive_close initial_atoms) as [[[]|e] a] eqn:He; [|vm_compute in He; discriminate]. by apply released.
Qed.
Lemma admitted_io_job {A} d (c : M ustate A) : inside c -> admitted (udp_scoped_io_job d c).
Proof.
  intros Hc st Ha Hs Hx. unfold udp_scoped_io_job, Prelude.bind, udp_atomically. rewrite Ha.
  destruct (exec (udp_begin_io_job d) initial_atoms) as [[[]|e] a] eqn:He; [|destruct d; vm_compute in He; discriminate]. by apply released.
Qed.
Lemma admitted_available : admitted (@udp_available udp_over_asio).
Proof.
  intros st Ha Hs Hx. unfold udp_available, Prelude.bind, udp_atomically. rewrite Ha.
  destruct (exec (udp_try_begin_io_job dir_read) initial_atoms) as [[[]|e] a] eqn:He; [|vm_compute in He; discriminate..].
  apply released; [|done..]. apply inside_object. intros _. apply available_good.
Qed.
Lemma call_admitted c : admitted (@run_udp_call udp_over_asio c).
Proof.
  destruct c; cbn [run_udp_call]; apply admitted_map;
    try (apply admitted_inside; (apply inside_object || apply inside_look || apply inside_gets)).
  - intros _. apply open_good.
  - intros _. apply open_good.
  - intros _. apply bind_good.
  - intros _. apply connect_good.
  - apply admitted_close, inside_object. intros _. apply close_good.
  - intros _. apply set_option_good.
  - apply admitted_available.
  - apply admitted_io_job, inside_object. intros _. apply receive_good.
  - apply admitted_io_job, inside_bind; [apply inside_object; intros _; apply send_good|intros; apply inside_ret].
  - apply local_good.
  - apply remote_good.
Qed.

(** The socket between calls. *)
Record at_rest (st : ustate) : Prop := {
  re_atoms : udp_atoms (udp_self st) = initial_atoms;
  re_sock : udp_sock (udp_self st) = 0%nat;
  re_alone : alone (udp_world st);
}.
Lemma call_rests c st : at_rest st -> answered (@run_udp_call udp_over_asio c st).1 /\ at_rest (@run_udp_call udp_over_asio c st).2.
Proof.
  intros [Ha Hs Hx]. destruct (call_admitted c st Ha Hs Hx) as [[Hans Hx'] Hs']. split; [done|]. split; [|done|done].
  rewrite ukeeps_run; [done|]. rewrite Ha. by split; vm_compute.
Qed.
Lemma calls_rest cs st : at_rest st ->
  Forall answered (@run_udp_calls udp_over_asio cs st).1 /\ at_rest (@run_udp_calls udp_over_asio cs st).2.
Proof.
  revert st. induction cs as [|c cs IH]; intros st Hst; [by split|]. cbn. destruct (call_rests c st Hst) as [Hans Hst1].
  destruct (run_udp_call c st) as [r st1]; cbn [fst snd] in *. destruct (IH st1 Hst1) as [Hrs Hst2].
  destruct (run_udp_calls cs st1) as [rs st2]. split; [by constructor|done].
Qed.
(** The descriptors, when the object is all there is. *)
Lemma alone_files x : alone x -> forall s, s ∈ files (on_ x) <-> s ∈ B \/
  exists o, objects_ x !! 0%nat = Some o /\ object_open o = true /\ socket_ (base o) = s.
Proof.
  intros [[Hf _ _] [o Ho]] s. rewrite Hf. split; (intros [HsB|Hex]; [by left|right]).
  - destruct Hex as (n & o' & Hn & Hs). rewrite Ho in Hn. apply lookup_singleton_Some in Hn as [<- <-].
    exists o. rewrite Ho, lookup_singleton_eq. unfold file_of in Hs. destruct (object_open o); [|done]. by apply elem_of_singleton in Hs as ->.
  - destruct Hex as (o' & Ho' & Hop & <-). exists 0%nat, o'. split; [done|]. unfold file_of. rewrite Hop. set_solver.
Qed.
Lemma close_closes st : at_rest st ->
  exists o, objects_ (udp_world (@run_udp_call udp_over_asio UClose st).2) !! 0%nat = Some o /\ object_open o = false.
Proof.
  intros [Ha Hs [_ [o Ho]]]. cbn [run_udp_call]. unfold udp_returning, udp_close, scoped_exclusive_close, finally, Prelude.bind, udp_atomically.
  rewrite Ha. destruct (exec begin_exclusive_close initial_atoms) as [[[]|e] a] eqn:He; [|vm_compute in He; discriminate].
  unfold udp_call. cbn [udp_raw_close udp_over_asio]. unfold on_object. cbn [udp_sock udp_self set_udp_atoms udp_world]. rewrite Hs, Ho, lookup_singleton_eq.
  unfold member_close, change, close_object. destruct (close_socket (base o) (on_ (udp_world st))) as [[ec i] m'] eqn:Hc.
  assert (i = construct) as ->.
  { revert Hc. unfold close_socket. destruct (is_open (base o)); [destruct (close_impl _ _ _)|]; by intros [= _ <- _]. }
  unfold udp_release, udp_atomically. destruct ec as [err|]; cbn; destruct (exec _ _) as [r a']; cbn; eexists; by rewrite lookup_insert_eq.
Qed.
End calls.

Lemma new_socket_rests m : at_rest (files m) (new_udp_socket m).
Proof.
  split; [done|done|]. split; [|by eexists]. cbn [new_udp_socket udp_world].
  apply (accounted_change (files m) (Space ∅ m) 0 (object_construct udp)); [apply nothing_accounted|by right|by apply moves_same].
Qed.
End proof.

(** ** Properties *)

(** C12: A script's UDP socket works on asio's socket and the system's.  Whatever sequence of its
    member functions a script runs on a new socket - open, bind, connect, options, sending,
    receiving, closing, in any order - each is admitted, returns, and answers with its value
    or throws the error of a system call; afterwards every reservation is free, and of the
    descriptors in the process only the socket's own, if it is open, is new; closing it leaves
    exactly those of before. *)
Theorem udp_script_socket `{FileLaws} (cs : list (@udp_call_t udp_over_asio)) (m : @Scheduler.machine (@epoll_task socket_epoll)) :
  let '(rs, st) := run_udp_calls cs (new_udp_socket m) in
  Forall answered rs /\ udp_atoms (udp_self st) = initial_atoms /\
  (forall s, s ∈ files (on_ (udp_world st)) <-> s ∈ files m \/
     exists o, objects_ (udp_world st) !! 0%nat = Some o /\ object_open o = true /\ socket_ (base o) = s) /\
  files (on_ (udp_world (run_udp_call UClose st).2)) = files m.
Proof.
  destruct (calls_rest (files m) cs (new_udp_socket m) (new_socket_rests m)) as [Hrs Hst].
  destruct (run_udp_calls cs (new_udp_socket m)) as [rs st]; cbn [fst snd] in *.
  split_and!; [done|apply Hst|apply alone_files, Hst|]. apply set_eq. intros s.
  destruct (call_rests (files m) UClose st Hst) as [_ Hclosed]. destruct (close_closes (files m) st Hst) as (o & Ho & Hop).
  rewrite (alone_files (files m) _ (re_alone _ _ Hclosed)). split; [|by left]. intros [|(o' & Ho' & Hop' & _)]; [done|]. congruence.
Qed.

(** ** A concrete system: that of [SocketObjects] *)

#[local] Existing Instances toy_sys toy_system toy_setup toy_open_files.

Definition toy_calls : list (@udp_call_t (@udp_over_asio toy_system toy_setup toy_open_files)) :=
  [UBind toy_port; UOpenV4; UBind toy_port; @USetOption (@udp_over_asio toy_system toy_setup toy_open_files) (broadcast true);
   USendTo ["a"; "b"]%char toy_port; UReceiveFrom 8; UConnect toy_port; UOpenV6; ULocalEndpoint; UIsOpen].
Example toy_answers :
  (@run_udp_calls (@udp_over_asio toy_system toy_setup toy_open_files) toy_calls (new_udp_socket toy_machine)).1 =
  [Throw (system_error bad_descriptor); Ok UVUnit; Ok UVUnit; Ok UVUnit; Ok UVUnit; Throw (system_error bad_descriptor); Ok UVUnit;
   Throw (system_error already_open); Ok (UVEndpoint (Endpoint any_v4 40000)); Ok (UVBool true)].
Proof. vm_compute. reflexivity. Qed.
Lemma udp_script_socket_witness :
  let '(rs, st) := @run_udp_calls (@udp_over_asio toy_system toy_setup toy_open_files) toy_calls (new_udp_socket toy_machine) in
  Forall answered rs /\ udp_atoms (udp_self st) = initial_atoms /\
  (forall s, s ∈ files (on_ (udp_world st)) <-> s ∈ files toy_machine \/
     exists o, objects_ (udp_world st) !! 0%nat = Some o /\ object_open o = true /\ socket_ (base o) = s) /\
  files (on_ (udp_world (run_udp_call UClose st).2)) = files toy_machine.
Proof. exact (@udp_script_socket toy_system toy_setup toy_open_files toy_file_laws toy_calls toy_machine). Defined.
