(* ===== verification/Strand.v ===== *)
(** * [asio::detail::strand_executor_service]: the strand of a TLS socket

    The handlers of an asynchronous operation on a TLS socket are bound to its strand
    ([tls_strand] of [network.hpp]), which is to run them one at a time although several
    threads run the io_context.  Models [detail/impl/strand_executor_service.ipp] and
    [.hpp]: the flag [locked_], the two queues, and what a thread does between two
    critical sections.  A critical section of the strand's mutex is one step; so is every
    access to [ready_queue_], which the code makes without the mutex.

    A thread is the stack of what it is doing for the strand ([frame]).  The executor under
    the strand is the io_context: it holds [scheduled] invokers, and any thread may take one
    and run it, or run one at once ([ex.execute] of an executor that may block). *)
From S2P Require Import Prelude.
From stdpp Require Import relations.
Open Scope nat_scope.

(** ** The strand *)

(** A [scheduler_operation], by its identity. *)
Definition operation := nat.

(** [strand_impl] *)
Record strand := Strand {
  locked_ : bool;
  shutdown_ : bool;
  waiting_queue_ : list operation;
  ready_queue_ : list operation;
}.
Definition new_strand : strand := Strand false false [] [].

(** The critical section of [enqueue].  [Refused]: the operation is destroyed. [First]: the
    caller holds the strand and has to schedule it. *)
Inductive submission := RunsNow | Refused | Waits | First.

Definition enqueue (op : operation) (s : strand) : submission * strand :=
  if shutdown_ s then (Refused, s)
  else if locked_ s then
    (Waits, Strand (locked_ s) (shutdown_ s) (waiting_queue_ s ++ [op]) (ready_queue_ s))
  else (First, Strand true (shutdown_ s) (waiting_queue_ s) (ready_queue_ s)).

(** [impl->ready_queue_.push(op)] of the caller that is first. *)
Definition push_ready (op : operation) (s : strand) : strand :=
  Strand (locked_ s) (shutdown_ s) (waiting_queue_ s) (ready_queue_ s ++ [op]).

Definition push_waiting_to_ready (s : strand) : bool * strand :=
  let ready := ready_queue_ s ++ waiting_queue_ s in
  let more_handlers := negb (bool_decide (ready = [])) in
  (more_handlers, Strand more_handlers (shutdown_ s) [] ready).

(** [impl->ready_queue_.pop()] *)
Definition pop_ready (s : strand) : strand :=
  Strand (locked_ s) (shutdown_ s) (waiting_queue_ s) (tail (ready_queue_ s)).

(** What [shutdown] does to one strand: the operations it destroys. *)
Definition shutdown (s : strand) : list operation * strand :=
  (waiting_queue_ s ++ ready_queue_ s, Strand (locked_ s) true [] []).

(** ** The threads *)

Inductive frame :=
  | Pushing (op : operation)    (** after [enqueue]'s critical section, first *)
  | Scheduling                  (** before [ex.execute(invoker)] *)
  | Invoking                    (** at the loop of [run_ready_handlers] *)
  | Completing (op : operation) (** inside a handler *)
  | Exiting                     (** in [~on_invoker_exit], before [push_waiting_to_ready] *)
  | Rescheduling.               (** before it schedules the invoker again *)

(** [running_in_this_thread]: the context of [run_ready_handlers] is on the call stack. *)
Definition in_strand (f : frame) : bool :=
  match f with Invoking | Completing _ => true | _ => false end.
Definition running_in_this_thread (st : list frame) : bool := existsb in_strand st.

(** [do_execute], for an executor that never blocks or may. *)
Definition do_execute (never_blocking : bool) (st : list frame) (op : operation) (s : strand) : submission * strand :=
  if negb never_blocking && running_in_this_thread st then (RunsNow, s) else enqueue op s.

Definition dispatch (st : list frame) (op : operation) (s : strand) : submission * strand :=
  if running_in_this_thread st then (RunsNow, s) else enqueue op s.
Definition post (op : operation) (s : strand) : submission * strand := enqueue op s.
Definition defer (op : operation) (s : strand) : submission * strand := enqueue op s.

Inductive manner := Execute (never_blocking : bool) | Dispatch | Post | Defer.

Definition request (how : manner) (st : list frame) (op : operation) (s : strand) : submission * strand :=
  match how with
  | Execute never_blocking => do_execute never_blocking st op s
  | Dispatch => dispatch st op s
  | Post => post op s
  | Defer => defer op s
  end.

(** The strand among its threads; the last three fields record what has happened: what was
    submitted and did not run at once, what the loop has started, what was destroyed. *)
Record system := System {
  impl : strand;
  threads : list (list frame);
  scheduled : nat;
  submitted : list operation;
  ran : list operation;
  destroyed : list operation;
}.

Definition initial (n : nat) : system := System new_strand (replicate n []) 0 [] [] [].

Definition set_impl (s : strand) (x : system) : system :=
  System s (threads x) (scheduled x) (submitted x) (ran x) (destroyed x).
Definition set_thread (i : nat) (st : list frame) (x : system) : system :=
  System (impl x) (<[i := st]> (threads x)) (scheduled x) (submitted x) (ran x) (destroyed x).
Definition set_scheduled (n : nat) (x : system) : system :=
  System (impl x) (threads x) n (submitted x) (ran x) (destroyed x).
Definition log_submitted (op : operation) (x : system) : system :=
  System (impl x) (threads x) (scheduled x) (submitted x ++ [op]) (ran x) (destroyed x).
Definition log_ran (op : operation) (x : system) : system :=
  System (impl x) (threads x) (scheduled x) (submitted x) (ran x ++ [op]) (destroyed x).
Definition log_destroyed (ops : list operation) (x : system) : system :=
  System (impl x) (threads x) (scheduled x) (submitted x) (ran x) (destroyed x ++ ops).

(** A thread submits [op], from inside a handler or not. *)
Definition submit (how : manner) (i : nat) (st : list frame) (op : operation) (x : system) : system :=
  match request how st op (impl x) with
  | (RunsNow, _) => x
  | (Refused, _) => log_destroyed [op] (log_submitted op x)
  | (Waits, s) => set_impl s (log_submitted op x)
  | (First, s) => set_thread i (Pushing op :: st) (set_impl s (log_submitted op x))
  end.

(** A step of the strand itself, by thread [i]. *)
Inductive work : system -> system -> Prop :=
  | work_push x i st op : threads x !! i = Some (Pushing op :: st) ->
      work x (set_thread i (Scheduling :: st) (set_impl (push_ready op (impl x)) x))
  | work_schedule x i st : threads x !! i = Some (Scheduling :: st) ->
      work x (set_thread i st (set_scheduled (S (scheduled x)) x))
  | work_run_at_once x i st : threads x !! i = Some (Scheduling :: st) ->
      work x (set_thread i (Invoking :: st) x)
  | work_pick x i st n : threads x !! i = Some st -> scheduled x = S n ->
      work x (set_thread i (Invoking :: st) (set_scheduled n x))
  | work_start x i st op ready : threads x !! i = Some (Invoking :: st) -> ready_queue_ (impl x) = op :: ready ->
      work x (set_thread i (Completing op :: st) (log_ran op (set_impl (pop_ready (impl x)) x)))
  | work_return x i st op : threads x !! i = Some (Completing op :: st) ->
      work x (set_thread i (Invoking :: st) x)
  | work_throw x i st op : threads x !! i = Some (Completing op :: st) ->
      work x (set_thread i (Exiting :: st) x)
  | work_exit x i st : threads x !! i = Some (Invoking :: st) -> ready_queue_ (impl x) = [] ->
      work x (set_thread i (Exiting :: st) x)
  | work_more x i st s : threads x !! i = Some (Exiting :: st) -> push_waiting_to_ready (impl x) = (true, s) ->
      work x (set_thread i (Rescheduling :: st) (set_impl s x))
  | work_done x i st s : threads x !! i = Some (Exiting :: st) -> push_waiting_to_ready (impl x) = (false, s) ->
      work x (set_thread i st (set_impl s x))
  | work_reschedule x i st : threads x !! i = Some (Rescheduling :: st) ->
      work x (set_thread i st (set_scheduled (S (scheduled x)) x)).

(** The strand works, a thread submits an operation, or the io_context, no thread running
    it any more, shuts its services down and destroys the invokers it holds. *)
Inductive step : system -> system -> Prop :=
  | step_work x x' : work x x' -> step x x'
  | step_submit x i st how op : threads x !! i = Some st -> step x (submit how i st op x)
  | step_shutdown x : concat (threads x) = [] ->
      step x (log_destroyed (shutdown (impl x)).1 (set_impl (shutdown (impl x)).2 (set_scheduled 0 x))).

(** ** The invariant: one token *)

Definition frames (x : system) : list frame := concat (threads x).

(** Where the right to run the strand is. *)
Inductive token := Free | InExecutor | At (f : frame).

Definition frame_ok (f : frame) (ready : list operation) : Prop :=
  match f with
  | Pushing _ => ready = []
  | Scheduling | Rescheduling => ready <> []
  | _ => True
  end.

Definition token_ok (k : token) (x : system) : Prop :=
  match k with
  | Free => frames x = [] /\ scheduled x = 0 /\ locked_ (impl x) = false /\
      ready_queue_ (impl x) = [] /\ waiting_queue_ (impl x) = []
  | InExecutor => frames x = [] /\ scheduled x = 1 /\ locked_ (impl x) = true /\ ready_queue_ (impl x) <> []
  | At f => frames x = [f] /\ scheduled x = 0 /\ locked_ (impl x) = true /\ frame_ok f (ready_queue_ (impl x))
  end.

(** What has been submitted and has neither run nor been destroyed, in order. *)
Definition pushed (f : frame) : option operation := match f with Pushing op => Some op | _ => None end.
Definition pending (x : system) : list operation :=
  omap pushed (frames x) ++ ready_queue_ (impl x) ++ waiting_queue_ (impl x).

Definition live_ok (x : system) : Prop :=
  (exists k, token_ok k x) /\ submitted x = ran x ++ pending x /\ destroyed x = [].
Definition shut_ok (x : system) : Prop :=
  frames x = [] /\ scheduled x = 0 /\ ready_queue_ (impl x) = [] /\ waiting_queue_ (impl x) = [] /\
  submitted x ≡ₚ ran x ++ destroyed x.
Definition strand_inv (x : system) : Prop := if shutdown_ (impl x) then shut_ok x else live_ok x.

(** ** The frames of all threads *)

Lemma frames_update x i st : threads x !! i = Some st ->
  exists before after, frames x = before ++ st ++ after /\
    forall st', frames (set_thread i st' x) = before ++ st' ++ after.
Proof.
  unfold frames. cbn. generalize (threads x). intros l Hi.
  exists (concat (take i l)), (concat (drop (S i) l)). split.
  - rewrite <- (take_drop_middle l i st Hi) at 1. by rewrite concat_app.
  - intros st'. rewrite insert_take_drop by (by eapply lookup_lt_Some). by rewrite concat_app.
Qed.

(** With one frame in all, the thread that has it has nothing else, and nobody else has any. *)
Lemma frames_one x i f st k : threads x !! i = Some (f :: st) -> token_ok k x ->
  k = At f /\ st = [] /\ forall st', concat (<[i := st']> (threads x)) = st'.
Proof.
  intros Hi Hk. destruct (frames_update x i _ Hi) as (before & after & H1 & H2).
  assert (k = At f /\ before = [] /\ st ++ after = []) as (-> & -> & [-> ->]%app_eq_nil).
  { destruct k as [| |f']; destruct Hk as [Hf _]; rewrite Hf in H1; destruct before as [|b before]; simplify_eq/=; try done.
    by destruct before. }
  split_and!; [done..|]. intros st'. specialize (H2 st'). rewrite app_nil_r in H2. exact H2.
Qed.

Lemma frames_none x i st k : threads x !! i = Some st -> token_ok k x -> frames x = [] ->
  st = [] /\ forall st', concat (<[i := st']> (threads x)) = st'.
Proof.
  intros Hi Hk Hf. destruct (frames_update x i _ Hi) as (before & after & H1 & H2). rewrite Hf in H1.
  symmetry in H1. apply app_eq_nil in H1 as [-> [-> ->]%app_eq_nil]. split; [done|]. intros st'. specialize (H2 st'). rewrite app_nil_r in H2. exact H2.
Qed.

(** ** Every step keeps the invariant *)

Lemma push_waiting_cases s :
  push_waiting_to_ready s =
    (negb (bool_decide (ready_queue_ s ++ waiting_queue_ s = [])),
     Strand (negb (bool_decide (ready_queue_ s ++ waiting_queue_ s = []))) (shutdown_ s) [] (ready_queue_ s ++ waiting_queue_ s)).
Proof. done. Qed.

Ltac strand_case :=
  unfold token_ok, frame_ok, frames in *; cbn in *;
  repeat match goal with
    | H : forall st', concat _ = st' |- _ => rewrite H in *
    | H : concat _ = [] |- _ => rewrite H in *
    | H : concat _ = [_] |- _ => rewrite H in *
    | H : ready_queue_ _ = _ |- _ => rewrite H in *
    end;
  cbn in *; rewrite ?app_nil_r; split_and?; try done.

Lemma work_keeps x x' k : token_ok k x -> submitted x = ran x ++ pending x -> work x x' ->
  (exists k', token_ok k' x') /\ submitted x' = ran x' ++ pending x' /\
  shutdown_ (impl x') = shutdown_ (impl x) /\ destroyed x' = destroyed x.
Proof.
  intros Hk Hs Hw. unfold pending in *. destruct Hw as [x i st op Hi|x i st Hi|x i st Hi|x i st n Hi Hn|x i st op r Hi Hr|x i st op Hi
    |x i st op Hi|x i st Hi Hr|x i st s Hi Hp|x i st s Hi Hp|x i st Hi].
  all: try (destruct (frames_one x i _ st k Hi Hk) as (-> & -> & Hf); destruct Hk as (Hf0 & Hsch & Hl & Hok)).
  - split; [exists (At Scheduling)|]; strand_case.
  - split; [exists InExecutor|]; strand_case. by rewrite Hsch.
  - split; [exists (At Invoking)|]; strand_case.
  - assert (k = InExecutor) as -> by (destruct k as [| |f]; [destruct Hk as (_ & Hz & _); congruence|done|destruct Hk as (_ & Hz & _); congruence]).
    destruct (frames_none x i st InExecutor Hi Hk (proj1 Hk)) as [-> Hf]. destruct Hk as (Hf0 & Hsch & Hl & Hok).
    split; [exists (At Invoking)|]; strand_case. congruence.
  - split; [exists (At (Completing op))|]; strand_case. by rewrite Hs, <- app_assoc.
  - split; [exists (At Invoking)|]; strand_case.
  - split; [exists (At Exiting)|]; strand_case.
  - split; [exists (At Exiting)|]; strand_case.
  - rewrite push_waiting_cases in Hp. injection Hp as Hm <-. rewrite Hm. apply negb_true_iff, bool_decide_eq_false in Hm.
    split; [exists (At Rescheduling)|]; strand_case.
  - rewrite push_waiting_cases in Hp. injection Hp as Hm <-. rewrite Hm. apply negb_false_iff, bool_decide_eq_true in Hm.
    split; [exists Free|]; strand_case.
  - split; [exists InExecutor|]; strand_case. by rewrite Hsch.
Qed.

Lemma request_cases how st op s : request how st op s = (RunsNow, s) \/ request how st op s = enqueue op s.
Proof.
  destruct how as [nb| | |]; cbn; unfold do_execute, dispatch; [|destruct (running_in_this_thread st)|..]; auto.
  destruct (negb nb && running_in_this_thread st); auto.
Qed.

Lemma submit_keeps how i st op x : threads x !! i = Some st -> strand_inv x -> strand_inv (submit how i st op x).
Proof.
  intros Hi Hx. unfold submit. destruct (request_cases how st op (impl x)) as [->| ->]; [done|].
  unfold enqueue. unfold strand_inv in Hx. destruct (shutdown_ (impl x)) eqn:Hsh.
  - unfold strand_inv; cbn. rewrite Hsh. destruct Hx as (? & ? & ? & ? & Hp). split_and!; try done. cbn.
    by rewrite Hp, app_assoc.
  - destruct Hx as ([k Hk] & Hs & Hd). unfold pending in Hs. destruct (locked_ (impl x)) eqn:Hl; unfold strand_inv; cbn; rewrite ?Hsh.
    + split; [|split; [|done]].
      * exists k. destruct k; unfold token_ok in *; cbn; destruct_and?; split_and?; first [done|congruence].
      * unfold pending; cbn. unfold frames in *; cbn. rewrite Hs. by rewrite <- !app_assoc.
    + destruct k as [| |f]; destruct Hk as (Hf0 & Hk); [|destruct Hk as (_ & Hl' & _); congruence..].
      destruct (frames_none x i st Free Hi (conj Hf0 Hk) Hf0) as [-> Hf]. destruct Hk as (Hsch & _ & Hr & Hw).
      split; [exists (At (Pushing op))|]; [|split; [|done]].
      * strand_case.
      * unfold pending. strand_case. rewrite Hs, Hw. by rewrite !app_nil_r.
Qed.

Lemma step_keeps x x' : step x x' -> strand_inv x -> strand_inv x'.
Proof.
  intros [x0 x0' Hw|x0 i st nb op Hi|x0 Hf] Hx.
  - unfold strand_inv in Hx. destruct (shutdown_ (impl x0)) eqn:Hsh.
    + exfalso. destruct Hx as (Hf & Hsch & _). unfold frames in Hf.
      assert (forall i f st, threads x0 !! i = Some (f :: st) -> False) as Hno.
      { intros i f st Hi. destruct (frames_update x0 i _ Hi) as (b & a & H1 & _). unfold frames in H1.
        rewrite Hf in H1. by destruct b. }
      destruct Hw; first [by eapply Hno|congruence].
    + destruct Hx as ([k Hk] & Hs & Hd). destruct (work_keeps _ _ _ Hk Hs Hw) as (Hk' & Hs' & Hsh' & Hd').
      unfold strand_inv. rewrite Hsh', Hsh. split_and!; [done..|congruence].
  - by apply submit_keeps.
  - unfold strand_inv; cbn. unfold strand_inv in Hx. unfold shut_ok, frames; cbn. split_and!; [done..|].
    destruct (shutdown_ (impl x0)).
    + destruct Hx as (_ & _ & Hr & Hw & Hp). rewrite Hr, Hw. by rewrite !app_nil_r.
    + destruct Hx as (_ & Hs & Hd). rewrite Hs, Hd. unfold pending, frames. rewrite Hf. cbn. by rewrite (Permutation_app_comm (ready_queue_ _)).
Qed.

Lemma initial_inv n : strand_inv (initial n).
Proof.
  assert (concat (replicate n ([] : list frame)) = []) as Hc by (induction n; by cbn).
  split_and!; [|by unfold pending, frames; cbn; rewrite Hc|done]. exists Free. by unfold token_ok, frames; cbn.
Qed.

Lemma reachable_inv n x : rtc step (initial n) x -> strand_inv x.
Proof.
  intros Hr. remember (initial n) as x0 eqn:He. assert (strand_inv x0) as Hx by (subst; apply initial_inv). clear He.
  induction Hr; [done|]. eauto using step_keeps.
Qed.

(** ** The strand gets its work done *)

Definition rank (x : system) : nat :=
  match frames x with
  | [] => if scheduled x =? 0 then 0 else 3
  | Pushing _ :: _ => 5
  | Scheduling :: _ | Rescheduling :: _ => 4
  | Invoking :: _ => if bool_decide (ready_queue_ (impl x) = []) then 6 else 2
  | Completing _ :: _ => 7
  | Exiting :: _ => 5
  end.
Definition measure (x : system) : nat := 8 * length (pending x) + rank x.

Lemma rank_le x : rank x <= 7.
Proof. unfold rank. destruct (frames x) as [|[] ?]; [destruct (_ =? _)|..]; try case_bool_decide; lia. Qed.

Lemma work_decreases x x' k : token_ok k x -> work x x' -> measure x' < measure x.
Proof.
  intros Hk Hw. unfold measure, pending, rank.
  destruct Hw as [x i st op Hi|x i st Hi|x i st Hi|x i st n Hi Hn|x i st op r Hi Hr|x i st op Hi
    |x i st op Hi|x i st Hi Hr|x i st s Hi Hp|x i st s Hi Hp|x i st Hi].
  all: try (destruct (frames_one x i _ st k Hi Hk) as (-> & -> & Hf); destruct Hk as (Hf0 & Hsch & Hl & Hok)).
  4: { assert (k = InExecutor) as -> by (destruct k as [| |f]; [destruct Hk as (_ & Hz & _); congruence|done|destruct Hk as (_ & Hz & _); congruence]).
       destruct (frames_none x i st InExecutor Hi Hk (proj1 Hk)) as [-> Hf]. destruct Hk as (Hf0 & Hsch & Hl & Hok).
       rewrite Hf0. unfold frames; cbn. rewrite Hf, Hsch. cbn. rewrite bool_decide_eq_false_2 by done. lia. }
  all: try (rewrite push_waiting_cases in Hp; injection Hp as _ <-).
  all: rewrite Hf0; unfold frames; cbn; rewrite ?Hf; cbn; rewrite ?length_app; cbn; rewrite ?length_app.
  all: try lia.
  all: rewrite ?Hsch, ?Hr; cbn; try lia.
  - rewrite bool_decide_eq_false_2 by done. lia.
  - case_bool_decide; lia.
Qed.

Lemma work_submitted x x' : work x x' -> submitted x' = submitted x /\ length (threads x') = length (threads x).
Proof. intros []; cbn; by rewrite ?length_insert. Qed.

(** What a run of the strand alone keeps. *)
Lemma works_keep m x x' : nsteps work m x x' -> shutdown_ (impl x) = false -> live_ok x ->
  live_ok x' /\ shutdown_ (impl x') = false /\ submitted x' = submitted x /\
  length (threads x') = length (threads x) /\ m + measure x' <= measure x.
Proof.
  induction 1 as [x|m x y z Hw Hn IH]; intros Hsh Hx; [split_and!; done || lia|].
  destruct Hx as ([k Hk] & Hs & Hd). destruct (work_keeps _ _ _ Hk Hs Hw) as (Hk' & Hs' & Hsh' & Hd').
  pose proof (work_decreases _ _ _ Hk Hw). destruct (work_submitted _ _ Hw) as [Hsub Hlen].
  destruct IH as (? & ? & Hsub' & Hlen' & ?); [congruence|split_and!; [done..|congruence]|]. split_and!; [done..|congruence|congruence|lia].
Qed.

Lemma work_enabled x k : token_ok k x -> 0 < length (threads x) -> k <> Free -> exists x', work x x'.
Proof.
  intros Hk Hn Hne. destruct k as [| |f]; [done|..]; destruct Hk as (Hf & Hsch & Hl & Hok).
  - destruct (lookup_lt_is_Some_2 (threads x) 0 Hn) as [st Hi]. eexists. by eapply (work_pick x 0 st 0).
  - assert (exists i st, threads x !! i = Some (f :: st)) as (i & st & Hi).
    { assert (f ∈ concat (threads x)) as Hin by (unfold frames in Hf; rewrite Hf; left).
      apply list_elem_of_In, in_concat in Hin as (st & Hst & Hin). apply list_elem_of_In, list_elem_of_lookup in Hst as [i Hi].
      destruct st as [|g st]; [by destruct Hin|]. exists i, st. rewrite Hi.
      destruct (frames_one x i g st (At f) Hi ltac:(by split_and!)) as ([= ->] & _). done. }
    destruct f as [op| | |op| |].
    + eexists. by eapply work_push.
    + eexists. by eapply work_schedule.
    + destruct (ready_queue_ (impl x)) as [|op r] eqn:Hr; eexists; [by eapply work_exit|by eapply work_start].
    + eexists. by eapply work_return.
    + destruct (push_waiting_to_ready (impl x)) as [[|] s] eqn:Hp; eexists; [by eapply work_more|by eapply work_done].
    + eexists. by eapply work_reschedule.
Qed.

Lemma reachable_threads n x : rtc step (initial n) x -> length (threads x) = n.
Proof.
  intros Hr. remember (initial n) as x0 eqn:He. assert (length (threads x0) = n) as Hx by (subst; apply length_replicate).
  clear He. induction Hr as [|x y z Hs Hr IH]; [done|]. apply IH. destruct Hs as [x y Hw|x i st nb op Hi|x Hf].
  - by rewrite (proj2 (work_submitted _ _ Hw)).
  - unfold submit. destruct (request nb st op (impl x)) as [[]]; cbn; by rewrite ?length_insert.
  - done.
Qed.

(** ** The theorems *)

Section strand.
Context (n : nat) (x : system) (Hreach : rtc step (initial n) x).

(** C16: handlers of a strand never overlap.  However threads submit operations, run the
    io_context inside handlers, or throw out of a handler: at every moment at most one
    thread is in the strand, and it is in it once. *)
Theorem strand_exclusive i j st st' :
  threads x !! i = Some st -> threads x !! j = Some st' ->
  running_in_this_thread st = true -> running_in_this_thread st' = true ->
  i = j /\ length st = 1.
Proof.
  intros Hi Hj Hs Hs'. pose proof (reachable_inv n x Hreach) as Hx.
  assert (exists k, token_ok k x) as [k Hk].
  { unfold strand_inv in Hx. destruct (shutdown_ (impl x)); [|by destruct Hx]. destruct Hx as (Hf & _).
    destruct (frames_update x i _ Hi) as (b & a & H1 & _). rewrite Hf in H1. symmetry in H1.
    by apply app_eq_nil in H1 as [_ [-> _]%app_eq_nil]. }
  destruct st as [|f st]; [done|]. destruct (frames_one x i f st k Hi Hk) as (-> & -> & Hf). split; [|done].
  destruct (decide (i = j)) as [->|Hne]; [done|]. specialize (Hf []).
  destruct (frames_update (set_thread i [] x) j st') as (b & a & H1 & _); [cbn; by rewrite list_lookup_insert_ne|].
  unfold frames in H1; cbn in H1. rewrite Hf in H1. symmetry in H1. by apply app_eq_nil in H1 as [_ [-> _]%app_eq_nil].
Qed.

(** C17: handlers run in the order in which they were submitted, none twice and none lost:
    until the io_context shuts down, what was submitted is what has run followed by what is
    pending; in the end each operation has run or has been destroyed. *)
Theorem strand_fifo :
  (shutdown_ (impl x) = false -> submitted x = ran x ++ pending x /\ destroyed x = []) /\
  submitted x ≡ₚ ran x ++ pending x ++ destroyed x.
Proof.
  pose proof (reachable_inv n x Hreach) as Hx. unfold strand_inv in Hx. destruct (shutdown_ (impl x)).
  - destruct Hx as (Hf & _ & Hr & Hw & Hp). split; [done|]. unfold pending. by rewrite Hf, Hr, Hw.
  - destruct Hx as (_ & Hs & Hd). split; [done|]. by rewrite Hd, app_nil_r, Hs.
Qed.

(** No operation waits for ever.  With a thread to run the io_context, the strand on its
    own takes at most eight steps for each pending operation and seven more, and where it
    can go no further everything submitted has run and the strand is free again. *)
Theorem strand_drains : 0 < n -> shutdown_ (impl x) = false ->
  (forall m x', nsteps work m x x' -> m <= 8 * length (pending x) + 7) /\
  (forall x', rtc work x x' -> (forall x'', ~ work x' x'') -> ran x' = submitted x /\ locked_ (impl x') = false).
Proof.
  intros Hn Hsh. pose proof (reachable_inv n x Hreach) as Hx. unfold strand_inv in Hx. rewrite Hsh in Hx. split.
  - intros m x' Hm. destruct (works_keep m x x' Hm Hsh Hx) as (_ & _ & _ & _ & Hle).
    unfold measure in Hle. pose proof (rank_le x). lia.
  - intros x' Hr Hstuck. apply rtc_nsteps_1 in Hr as [m Hm].
    destruct (works_keep m x x' Hm Hsh Hx) as ((([| |f] & Hk) & Hs & _) & _ & Hsub & Hlen & _).
    2,3: exfalso; rewrite (reachable_threads n x Hreach) in Hlen; destruct (work_enabled x' _ Hk) as [x'' Hw]; [lia|done|by eapply Hstuck].
    destruct Hk as (Hf & _ & Hl & Hr & Hw). split; [|done]. rewrite <- Hsub, Hs. unfold pending. rewrite Hf, Hr, Hw. cbn. by rewrite app_nil_r.
Qed.
End strand.

(** ** A run *)

(** Thread 0 runs the handler 1 while 2, submitted by thread 1, waits. *)
Definition busy : system :=
  System (Strand true false [2] []) [[Completing 1]; []] 0 [1; 2] [1] [].

Lemma busy_reachable : rtc step (initial 2) busy.
Proof.
  eapply rtc_l; [eapply (step_submit _ 0 [] Dispatch 1); reflexivity|].
  eapply rtc_l; [eapply (step_submit _ 1 [] Post 2); reflexivity|].
  eapply rtc_l; [apply step_work; eapply (work_push _ 0 [] 1); reflexivity|].
  eapply rtc_l; [apply step_work; eapply (work_run_at_once _ 0 []); reflexivity|].
  eapply rtc_l; [apply step_work; eapply (work_start _ 0 [] 1 []); reflexivity|]. apply rtc_refl.
Defined.

(** Thread 1 runs the other one. *)
Definition finished : system := System (Strand false false [] []) [[]; []] 0 [1; 2] [1; 2] [].

Lemma busy_finishes : rtc work busy finished.
Proof.
  eapply rtc_l; [eapply (work_return _ 0 [] 1); reflexivity|].
  eapply rtc_l; [eapply (work_exit _ 0 []); reflexivity|].
  eapply rtc_l; [eapply (work_more _ 0 []); reflexivity|].
  eapply rtc_l; [eapply (work_reschedule _ 0 []); reflexivity|].
  eapply rtc_l; [eapply (work_pick _ 1 [] 0); reflexivity|].
  eapply rtc_l; [eapply (work_start _ 1 [] 2 []); reflexivity|].
  eapply rtc_l; [eapply (work_throw _ 1 [] 2); reflexivity|].
  eapply rtc_l; [eapply (work_done _ 1 []); reflexivity|]. apply rtc_refl.
Defined.

Lemma finished_stuck x : ~ work finished x.
Proof.
  intros Hw. inversion Hw as [x0 i ? ? Hi|x0 i ? Hi|x0 i ? Hi|x0 i ? ? Hi Hn|x0 i ? ? ? Hi|x0 i ? ? Hi|x0 i ? ? Hi|x0 i ? Hi|x0 i ? ? Hi|x0 i ? ? Hi|x0 i ? Hi];
    subst; try discriminate Hn; destruct i as [|[|i]]; discriminate Hi.
Qed.

Lemma strand_exclusive_witness : 0 = 0 /\ length [Completing 1] = 1.
Proof. exact (strand_exclusive 2 busy busy_reachable 0 0 _ _ eq_refl eq_refl eq_refl eq_refl). Defined.

Lemma strand_fifo_witness : submitted busy = ran busy ++ pending busy.
Proof. exact (proj1 (proj1 (strand_fifo 2 busy busy_reachable) eq_refl)). Defined.

Lemma strand_drains_witness : ran finished = submitted busy /\ locked_ (impl finished) = false.
Proof. exact (proj2 (strand_drains 2 busy busy_reachable ltac:(lia) eq_refl) finished busy_finishes finished_stuck). Defined.
