(* ===== verification/StrandPool.v ===== *)
(** * The service of the strands

    Models the rest of [detail/impl/strand_executor_service.ipp]: the strands of an
    io_context in a linked list, the pool of mutexes they share, and the end of a strand and
    of the service.  What a strand does between threads is in [Strand]; here a call on a
    strand is one step, and [enqueue] with the [push] of its first caller is one call. *)
From S2P Require Import Prelude LinkedList.
From S2P Require Strand.
Import Strand (strand, operation).
Open Scope Z_scope.

Definition num_mutexes : Z := 193.

(** [strand_impl] besides its links: its mutex, by its place in the pool, and the strand. *)
Record strand_impl := StrandImpl { mutex_ : Z; state : strand }.

(** A strand is known by its address. *)
Record strand_service := StrandService {
  mutexes_ : gset Z;
  salt_ : Z;
  impl_list_ : chain;
  impls : gmap nat strand_impl;
}.

Definition new_strand_service : strand_service := StrandService ∅ 0 (Chain None ∅) ∅.

(** The place in the pool, in [std::size_t]. *)
Definition select_mutex (address salt : Z) : Z :=
  let mutex_index := wrap64 (address + Z.shiftr address 3) in
  let mutex_index := Z.lxor mutex_index (wrap64 (salt + 2654435769 + Z.shiftl mutex_index 6 + Z.shiftr mutex_index 2)) in
  mutex_index `mod` num_mutexes.

(** [create_implementation], at an address that [allocate_shared] gives. *)
Definition create_implementation (a : nat) (x : strand_service) : strand_service :=
  let index := select_mutex (Z.of_nat a) (salt_ x) in
  StrandService ({[index]} ∪ mutexes_ x) (wrap64 (salt_ x + 1)) (push_front a (impl_list_ x))
    (<[a := StrandImpl index Strand.new_strand]> (impls x)).

(** [~strand_impl], with the destructors of its queues. *)
Definition destroy_implementation (a : nat) (x : strand_service) : list operation * strand_service :=
  (match impls x !! a with Some i => Strand.waiting_queue_ (state i) ++ Strand.ready_queue_ (state i) | None => [] end,
   StrandService (mutexes_ x) (salt_ x) (unlink a (impl_list_ x)) (delete a (impls x))).

(** The loop of [shutdown]; the operations are destroyed when it is over. *)
Definition shutdown_one (acc : list operation * gmap nat strand_impl) (a : nat) : list operation * gmap nat strand_impl :=
  match acc.2 !! a with
  | Some i => let '(ops, s) := Strand.shutdown (state i) in (acc.1 ++ ops, <[a := StrandImpl (mutex_ i) s]> acc.2)
  | None => acc
  end.
Definition shutdown (x : strand_service) : list operation * strand_service :=
  let '(ops, f) := foldl shutdown_one ([], impls x) (walk (size (impls x)) (first (impl_list_ x)) (impl_list_ x)) in
  (ops, StrandService (mutexes_ x) (salt_ x) (impl_list_ x) f).

(** A change of one strand. *)
Definition on_strand (a : nat) (f : strand -> strand) (x : strand_service) : strand_service :=
  match impls x !! a with
  | Some i => StrandService (mutexes_ x) (salt_ x) (impl_list_ x) (<[a := StrandImpl (mutex_ i) (f (state i))]> (impls x))
  | None => x
  end.

(** ** The service in use *)

(** The service, and what was handed to its strands, ran, and was destroyed. *)
Record ledger := Ledger { service : strand_service; given : list operation; ran : list operation; destroyed : list operation }.

Inductive strand_request :=
  | Create (a : nat)
  | Destroy (a : nat)
  | Submit (a : nat) (op : operation)
  | PushWaiting (a : nat)
  | RunReady (a : nat)
  | Shutdown.

(** What a request does; a strand that is not alive is not asked for anything, and a new one
    has an address of its own. *)
Definition serve (r : strand_request) (l : ledger) : ledger :=
  let x := service l in
  match r with
  | Create a => match impls x !! a with None => Ledger (create_implementation a x) (given l) (ran l) (destroyed l) | Some _ => l end
  | Destroy a =>
      match impls x !! a with
      | Some _ => let '(ops, x) := destroy_implementation a x in Ledger x (given l) (ran l) (destroyed l ++ ops)
      | None => l
      end
  | Submit a op =>
      match impls x !! a with
      | Some i =>
          match Strand.enqueue op (state i) with
          | (Strand.Refused, _) => Ledger x (given l ++ [op]) (ran l) (destroyed l ++ [op])
          | (Strand.First, s) => Ledger (on_strand a (fun _ => Strand.push_ready op s) x) (given l ++ [op]) (ran l) (destroyed l)
          | (_, s) => Ledger (on_strand a (fun _ => s) x) (given l ++ [op]) (ran l) (destroyed l)
          end
      | None => l
      end
  | PushWaiting a => Ledger (on_strand a (fun s => (Strand.push_waiting_to_ready s).2) x) (given l) (ran l) (destroyed l)
  | RunReady a =>
      match impls x !! a with
      | Some i =>
          Ledger (on_strand a Strand.pop_ready x) (given l)
            (ran l ++ match Strand.ready_queue_ (state i) with op :: _ => [op] | [] => [] end) (destroyed l)
      | None => l
      end
  | Shutdown => let '(ops, x) := shutdown x in Ledger x (given l) (ran l) (destroyed l ++ ops)
  end.
Definition serve_all (rs : list strand_request) (l : ledger) : ledger := foldl (flip serve) l rs.

(** *** The invariant *)

(** What a strand holds, counted. *)
Definition count (op : nat) (ops : list nat) : Z := Z.of_nat (length (List.filter (Nat.eqb op) ops)).
Definition holds (op : operation) (i : strand_impl) : Z :=
  count op (Strand.waiting_queue_ (state i)) + count op (Strand.ready_queue_ (state i)).

Record service_ok (L : list nat) (x : strand_service) : Prop := {
  sv_linked : linked L (impl_list_ x);
  sv_alive : forall a, a ∈ L <-> is_Some (impls x !! a);
  sv_mutex : forall a i, impls x !! a = Some i -> mutex_ i ∈ mutexes_ x /\ 0 <= mutex_ i < num_mutexes;
}.
Definition ledger_ok (l : ledger) : Prop :=
  (exists L, service_ok L (service l)) /\
  forall op, count op (given l) = count op (ran l) + count op (destroyed l) + map_sum (holds op) (impls (service l)).

Lemma count_ops_app op a b : count op (a ++ b) = count op a + count op b.
Proof. unfold count. rewrite List.filter_app, length_app. lia. Qed.
Lemma count_one op o : count op [o] = if decide (op = o) then 1 else 0.
Proof. unfold count. cbn. destruct (Nat.eqb_spec op o), (decide (op = o)); done. Qed.
Definition idle : strand_impl := StrandImpl 0 Strand.new_strand.

Lemma sum_insert op a i f : map_sum (holds op) (<[a := i]> f) = map_sum (holds op) f + holds op i - holds op (default idle (f !! a)).
Proof. by apply (map_sum_insert (holds op) f a i idle). Qed.

(** A change of one strand, by what it does to the operations the strand holds. *)
Lemma on_strand_ok L a f x : service_ok L x -> service_ok L (on_strand a f x).
Proof.
  intros [Hl Ha Hm]. unfold on_strand. destruct (impls x !! a) as [i|] eqn:Hi; [|done]. split; cbn.
  - done.
  - intros b. rewrite Ha. destruct (decide (a = b)) as [<-|Hne]; [rewrite Hi, lookup_insert_eq; split; by eexists|by rewrite lookup_insert_ne].
  - intros b j [[<- <-]|[_ Hj]]%lookup_insert_Some; [by apply (Hm a i)|by apply (Hm b)].
Qed.
Lemma on_strand_sum op a f x i : impls x !! a = Some i ->
  map_sum (holds op) (impls (on_strand a f x)) = map_sum (holds op) (impls x) + holds op (StrandImpl (mutex_ i) (f (state i))) - holds op i.
Proof. intros Hi. unfold on_strand. rewrite Hi. cbn [impls]. by rewrite sum_insert, Hi. Qed.

Lemma select_mutex_range a s : 0 <= select_mutex a s < num_mutexes.
Proof. apply Z.mod_pos_bound. done. Qed.
Lemma create_ok L a x : service_ok L x -> impls x !! a = None -> service_ok (a :: L) (create_implementation a x).
Proof.
  intros [Hl Ha Hm] Hnone. assert (a ∉ L) as HaL by (rewrite Ha, Hnone; apply is_Some_None). split; cbn.
  - by apply push_front_linked.
  - intros b. rewrite elem_of_cons. destruct (decide (b = a)) as [->|Hne]; [rewrite lookup_insert_eq; split; [by eexists|by left]|].
    rewrite lookup_insert_ne, <- Ha by done. tauto.
  - intros b j [[<- <-]|[_ Hj]]%lookup_insert_Some; cbn; [split; [set_solver|apply select_mutex_range]|].
    destruct (Hm b j Hj). split; [set_solver|done].
Qed.
Lemma destroy_ok L a x : service_ok L x -> is_Some (impls x !! a) -> exists L', service_ok L' (destroy_implementation a x).2.
Proof.
  intros [Hl Ha Hm] Hsome. assert (a ∈ L) as HaL by by apply Ha. apply list_elem_of_lookup in HaL as [i Hi].
  exists (delete i L). pose proof (unlink_linked i a L _ Hl Hi) as Hl'. split; cbn; [done| |].
  - intros b. assert (b ∈ delete i L <-> b ∈ L /\ b <> a) as ->.
    { destruct Hl as [Hn _ _]. pose proof (proj1 (NoDup_alt L) Hn) as Huniq. rewrite !list_elem_of_lookup. split.
      - intros [k Hk]. destruct (decide (k < i)%nat).
        + rewrite list_lookup_delete_lt in Hk by done. split; [by exists k|]. intros ->. pose proof (Huniq _ _ _ Hk Hi). lia.
        + rewrite list_lookup_delete_ge in Hk by lia. split; [by exists (S k)|]. intros ->. pose proof (Huniq _ _ _ Hk Hi). lia.
      - intros [[k Hk] Hne]. destruct (decide (k < i)%nat); [exists k; by rewrite list_lookup_delete_lt|].
        destruct (decide (k = i)) as [->|]; [congruence|]. exists (k - 1)%nat. rewrite list_lookup_delete_ge by lia. by replace (S (k - 1)) with k by lia. }
    rewrite Ha. destruct (decide (b = a)) as [->|Hne]; [rewrite lookup_delete_eq; split; [by intros [_ ?]|by intros [? [=]]]|].
    rewrite lookup_delete_ne by done. tauto.
  - intros b j [_ Hj]%lookup_delete_Some. by apply (Hm b).
Qed.

(** [shutdown] reaches every strand, once. *)
Definition shut (i : strand_impl) : strand_impl := StrandImpl (mutex_ i) (Strand.shutdown (state i)).2.
Lemma shutdown_loop L ops f : NoDup L -> (forall a, a ∈ L -> is_Some (f !! a)) ->
  let r := foldl shutdown_one (ops, f) L in
  (forall a, r.2 !! a = if decide (a ∈ L) then shut <$> f !! a else f !! a) /\
  forall op, count op r.1 + map_sum (holds op) r.2 = count op ops + map_sum (holds op) f.
Proof.
  revert ops f. induction L as [|a L IH]; intros ops f Hn Hin; cbn [foldl]; [by split|].
  apply NoDup_cons in Hn as [Ha Hn]. destruct (Hin a ltac:(left)) as [i Hi].
  destruct (Strand.shutdown (state i)) as [os s] eqn:Hs.
  assert (shutdown_one (ops, f) a = (ops ++ os, <[a := StrandImpl (mutex_ i) s]> f)) as -> by (unfold shutdown_one; cbn [fst snd]; by rewrite Hi, Hs).
  destruct (IH (ops ++ os) (<[a := StrandImpl (mutex_ i) s]> f)) as [Hmap Hsum]; [done| |].
  { intros b Hb. rewrite lookup_insert_ne by (by intros ->). apply Hin. by right. }
  split.
  - intros b. rewrite Hmap. destruct (decide (b = a)) as [->|Hne].
    + rewrite decide_False, decide_True by (done || left). rewrite lookup_insert_eq, Hi. cbn. unfold shut. by rewrite Hs.
    + rewrite lookup_insert_ne by done. destruct (decide (b ∈ L)); [rewrite decide_True by (by right)|rewrite decide_False; [done|]]; [done|].
      rewrite elem_of_cons. tauto.
  - intros op. rewrite Hsum, count_ops_app, sum_insert, Hi. cbn [default]. unfold holds at 2 3. cbn [state].
    injection Hs as <- <-. cbn. rewrite count_ops_app. change (count op []) with 0. lia.
Qed.
(** Walking the list with as many steps as there are strands meets them all. *)
Lemma walk_alive L x : service_ok L x -> walk (size (impls x)) (first (impl_list_ x)) (impl_list_ x) = L.
Proof.
  intros [Hl Ha _]. apply walk_linked; [done|]. destruct Hl as [Hn _ _].
  rewrite <- size_dom, <- (size_list_to_set (C := gset nat) L) by done.
  assert (dom (impls x) = list_to_set L) as ->; [|done]. apply set_eq. intros a. by rewrite elem_of_dom, elem_of_list_to_set, Ha.
Qed.

Lemma shutdown_spec L x : service_ok L x ->
  service_ok L (shutdown x).2 /\ (forall a, impls (shutdown x).2 !! a = shut <$> impls x !! a) /\
  forall op, count op (shutdown x).1 + map_sum (holds op) (impls (shutdown x).2) = map_sum (holds op) (impls x).
Proof.
  intros Hok. unfold shutdown. rewrite (walk_alive L) by done. destruct Hok as [Hl Ha Hm].
  destruct (shutdown_loop L [] (impls x) (lk_nodup _ _ Hl) ltac:(intros a; by apply Ha)) as [Hmap Hsum].
  destruct (foldl shutdown_one ([], impls x) L) as [ops f]. cbn [fst snd impls] in *.
  assert (forall a, f !! a = shut <$> impls x !! a) as Hmap'.
  { intros a. rewrite Hmap. destruct (decide (a ∈ L)) as [|Hout]; [done|]. rewrite Ha in Hout.
    apply eq_None_not_Some in Hout. by rewrite Hout. }
  split_and!; [|done|done]. split; [exact Hl| |]; cbn [snd impls mutexes_].
  - intros a. rewrite Ha, Hmap'. by rewrite fmap_is_Some.
  - intros a i. rewrite Hmap'. intros (j & Hj & ->)%fmap_Some_1. by apply (Hm a j).
Qed.

(** *** Every request keeps the accounts *)

Definition balanced (l : ledger) : Prop :=
  forall op, count op (given l) = count op (ran l) + count op (destroyed l) + map_sum (holds op) (impls (service l)).

Lemma balanced_step l l' : balanced l ->
  (forall op, count op (given l') - count op (ran l') - count op (destroyed l') - map_sum (holds op) (impls (service l')) =
    count op (given l) - count op (ran l) - count op (destroyed l) - map_sum (holds op) (impls (service l))) -> balanced l'.
Proof. intros Hb Hs op. pose proof (Hb op). pose proof (Hs op). lia. Qed.

Lemma destroy_sum op a i x : impls x !! a = Some i ->
  map_sum (holds op) (impls (destroy_implementation a x).2) = map_sum (holds op) (impls x) - holds op i.
Proof. intros Hi. cbn. rewrite (map_sum_delete _ (impls x) a i) by done. lia. Qed.

Ltac by_counting := intros op'; cbn [given ran destroyed service]; rewrite ?count_ops_app.

Lemma submit_ok a op l : ledger_ok l -> ledger_ok (serve (Submit a op) l).
Proof.
  intros [[L Hok] Hb]. change (balanced l) in Hb. cbn [serve]. destruct (impls (service l) !! a) as [i|] eqn:Hi; [|by split; [by exists L|]].
  unfold Strand.enqueue. destruct (Strand.shutdown_ (state i)); [|destruct (Strand.locked_ (state i))];
    (split; [exists L; cbn [service]; first [done|by apply on_strand_ok]|]); apply (balanced_step l); try done; by_counting;
    [lia| |]; rewrite (on_strand_sum op' a _ _ i Hi); unfold holds; cbn; rewrite ?count_ops_app; lia.
Qed.

Lemma run_ready_ok a l : ledger_ok l -> ledger_ok (serve (RunReady a) l).
Proof.
  intros [[L Hok] Hb]. change (balanced l) in Hb. cbn [serve]. destruct (impls (service l) !! a) as [i|] eqn:Hi; [|by split; [by exists L|]].
  split; [exists L; by apply on_strand_ok|]. apply (balanced_step l); [done|]. by_counting.
  rewrite (on_strand_sum op' a _ _ i Hi). unfold holds, Strand.pop_ready. cbn.
  destruct (Strand.ready_queue_ (state i)) as [|o r]; cbn [tail]; [change (count op' []) with 0; lia|].
  change (o :: r) with ([o] ++ r). rewrite count_ops_app. lia.
Qed.

Lemma push_waiting_ok a l : ledger_ok l -> ledger_ok (serve (PushWaiting a) l).
Proof.
  intros [[L Hok] Hb]. change (balanced l) in Hb. split; [exists L; by apply on_strand_ok|].
  apply (balanced_step l); [done|]. by_counting. cbn [serve service given ran destroyed].
  destruct (impls (service l) !! a) as [i|] eqn:Hi; [|unfold on_strand; by rewrite Hi].
  rewrite (on_strand_sum op' a _ _ i Hi). unfold holds. cbn. rewrite count_ops_app. change (count op' []) with 0. lia.
Qed.

Lemma serve_ok r l : ledger_ok l -> ledger_ok (serve r l).
Proof.
  destruct r as [a|a|a op|a|a|]; [| |apply submit_ok|apply push_waiting_ok|apply run_ready_ok|];
    intros [[L Hok] Hb]; change (balanced l) in Hb; cbn [serve].
  - destruct (impls (service l) !! a) eqn:Hi; [by split; [by exists L|]|].
    split; [exists (a :: L); by apply create_ok|]. apply (balanced_step l); [done|]. by_counting.
    cbn [impls create_implementation]. rewrite sum_insert, Hi. cbn. unfold holds. cbn. change (count op' []) with 0. lia.
  - destruct (impls (service l) !! a) as [i|] eqn:Hi; [|by split; [by exists L|]].
    destruct (destroy_implementation a (service l)) as [ops x] eqn:Hd.
    assert (x = (destroy_implementation a (service l)).2) as -> by by rewrite Hd.
    split; [by apply (destroy_ok L)|]. apply (balanced_step l); [done|]. by_counting.
    rewrite (destroy_sum op' a i) by done. injection Hd as <-. rewrite Hi, count_ops_app. unfold holds. lia.
  - destruct (shutdown_spec L _ Hok) as (Hok' & _ & Hsum). destruct (shutdown (service l)) as [ops x]. cbn [fst snd] in *.
    split; [by exists L|]. apply (balanced_step l); [done|]. by_counting. pose proof (Hsum op'). lia.
Qed.

Definition opened : ledger := Ledger new_strand_service [] [] [].
Lemma opened_ok : ledger_ok opened.
Proof.
  split; [|intros op; by cbn; unfold map_sum; rewrite map_fold_empty].
  exists []. split; cbn; [by apply linked_empty|intros a|intros a i Hi]; rewrite ?lookup_empty in *; [|done].
  split; [intros Ha; by apply elem_of_nil in Ha|by intros [? ?]].
Qed.
Lemma serve_all_ok rs l : ledger_ok l -> ledger_ok (serve_all rs l).
Proof. revert l. induction rs as [|r rs IH]; intros l H; [done|]. by apply IH, serve_ok. Qed.

(** The service of the strands never loses one, nor an operation.  Whatever requests it
    was given, walking its list meets exactly the strands that are alive, each once, and every
    one has a mutex that exists in the pool.  Every operation that was handed to a strand is
    exactly once held by a strand, or has run, or was destroyed.  And [shutdown] at any time
    leaves every strand empty and refusing whatever comes, and destroys what they held. *)
Theorem strand_service_accounts rs :
  let l := serve_all rs opened in
  let x := service l in
  let alive := walk (size (impls x)) (first (impl_list_ x)) (impl_list_ x) in
  (NoDup alive /\ forall a, a ∈ alive <-> is_Some (impls x !! a)) /\
  (forall a i, impls x !! a = Some i -> mutex_ i ∈ mutexes_ x /\ 0 <= mutex_ i < num_mutexes) /\
  (forall op, count op (given l) = count op (ran l) + count op (destroyed l) + map_sum (holds op) (impls x)) /\
  let '(ops, x') := shutdown x in
  (forall op, count op ops = map_sum (holds op) (impls x)) /\
  forall a, is_Some (impls x !! a) <-> exists i, impls x' !! a = Some i /\ (forall op, holds op i = 0 /\ Strand.enqueue op (state i) = (Strand.Refused, state i)).
Proof.
  destruct (serve_all_ok rs opened opened_ok) as [[L Hok] Hb]. intros l x alive.
  assert (alive = L) as -> by exact (walk_alive L x Hok). destruct (shutdown_spec L x Hok) as (_ & Hshut & Hsum).
  split_and!; [apply Hok|apply Hok|apply Hok|done|]. destruct (shutdown x) as [ops x']. cbn [fst snd] in *.
  assert (forall a i, impls x' !! a = Some i -> forall op, holds op i = 0 /\ Strand.enqueue op (state i) = (Strand.Refused, state i)) as Hall.
  { intros a i. rewrite Hshut. intros (j & _ & ->)%fmap_Some_1 op. done. }
  split; [|intros a; rewrite <- (fmap_is_Some shut), <- Hshut; split; [intros [i Hi]; exists i; eauto|by intros (i & Hi & _); exists i]].
  intros op. rewrite <- (Hsum op). rewrite map_sum_zero; [lia|]. intros a i Hi. by apply (Hall a i Hi op).
Qed.
