(* ===== verification/ServiceRegistry.v ===== *)
(** * [asio::detail::service_registry]: the services of an io_context

    Models [detail/impl/service_registry.ipp]: one object of each service, made when it is
    first asked for, by any number of threads.  The factory of a service runs without the
    registry's mutex, since the constructor of a service asks for others (the socket service
    for the reactor, the reactor for the scheduler); so two threads may make the same
    service, and the one that comes second destroys its own.

    A critical section of the mutex is one step; a thread is the stack of the calls of
    [do_use_service] it is in. *)
From S2P Require Import Prelude.
From stdpp Require Import relations.
Open Scope nat_scope.

(** [execution_context::service::key], pointers as numbers. *)
Record key := Key { type_info_ : option nat; id_ : option nat }.

#[export] Instance key_eq_dec : EqDecision key.
Proof. solve_decision. Defined.

Definition both_equal (a b : option nat) : bool :=
  match a, b with Some a, Some b => a =? b | _, _ => false end.
Definition keys_match (key1 key2 : key) : bool :=
  both_equal (id_ key1) (id_ key2) || both_equal (type_info_ key1) (type_info_ key2).

(** [init_key_from_id], of an [id] and of a [service_id<Service>]. *)
Definition key_of_id (id : nat) : key := Key None (Some id).
Definition key_of_type (type_info : nat) : key := Key (Some type_info) None.

(** [destroy_] *)
Inductive destructor := destroy_allocated | destroy_added.

(** A service, known by its address. *)
Record service := Service { key_ : key; address : nat; destroy_ : destructor }.

(** The search from [first_service_] on. *)
Definition find_service (k : key) (l : list service) : option service := List.find (fun s => keys_match (key_ s) k) l.

(** The second critical section of [do_use_service]: the service the caller gets, the list,
    and the object that [auto_service_ptr] destroys. *)
Definition insert_service (k : key) (new_service : nat) (l : list service) : nat * list service * list nat :=
  match find_service k l with
  | Some s => (address s, l, [new_service])
  | None => (new_service, Service k new_service destroy_allocated :: l, [])
  end.
(** What [do_add_service] throws; [d] is the [destroy_] that [make_service] has set. *)
Inductive add_error := invalid_service_owner | service_already_exists.
Definition do_add_service (same_owner : bool) (d : option destructor) (k : key) (new_service : nat) (l : list service)
    : list service + add_error :=
  if negb same_owner then inr invalid_service_owner
  else
    match find_service k l with
    | Some _ => inr service_already_exists
    | None => inl (Service k new_service (default destroy_added d) :: l)
    end.
Definition do_has_service (k : key) (l : list service) : bool :=
  match find_service k l with Some _ => true | None => false end.

(** The order in which the services are called, and what is left of the list. *)
Definition shutdown_services (l : list service) : list nat := address <$> l.
Definition destroy_services (l : list service) : list nat * list service := (address <$> l, []).
Inductive fork_event := fork_prepare | fork_parent | fork_child.
Definition notify_fork (ev : fork_event) (l : list service) : list nat :=
  match ev with fork_prepare => address <$> l | _ => address <$> reverse l end.

(** ** Threads *)

Inductive frame :=
  | Looking (k : key)                    (** before the first critical section *)
  | Making (k : key) (todo : list key)   (** in the factory: the services it has yet to ask for *)
  | Checking (k : key) (s : nat).        (** with a new object, before the second *)

(** [obtained]: what the calls have returned; [discarded]: the objects destroyed again. *)
Record registry := Registry {
  services : list service;
  threads : list (list frame);
  next : nat;
  obtained : list (key * nat);
  discarded : list nat;
}.
Definition start (n : nat) : registry := Registry [] (replicate n []) 0 [] [].

Definition set_thread (i : nat) (st : list frame) (x : registry) : registry :=
  Registry (services x) (<[i := st]> (threads x)) (next x) (obtained x) (discarded x).

(** [init_key] and [init_key_from_id] set one of the two pointers. *)
Definition wf_key (k : key) : bool :=
  match type_info_ k, id_ k with Some _, None | None, Some _ => true | _, _ => false end.

Section steps.
  (** What the constructor of a service asks for. *)
  Context (deps : key -> list key).

(** A step of thread [i]; a thread that is in no call may make one, or add a service of its
    own.  The duplicate of the second critical section is destroyed inside it
    ([auto_service_ptr] is declared after the lock). *)
Inductive rstep (i : nat) : registry -> registry -> Prop :=
  | r_call k x : threads x !! i = Some [] -> wf_key k = true -> rstep i x (set_thread i [Looking k] x)
  | r_found k st s x : threads x !! i = Some (Looking k :: st) -> find_service k (services x) = Some s ->
      rstep i x (Registry (services x) (<[i := st]> (threads x)) (next x) (obtained x ++ [(k, address s)]) (discarded x))
  | r_make k st x : threads x !! i = Some (Looking k :: st) -> find_service k (services x) = None ->
      rstep i x (set_thread i (Making k (deps k) :: st) x)
  | r_nested k k' todo st x : threads x !! i = Some (Making k (k' :: todo) :: st) ->
      rstep i x (set_thread i (Looking k' :: Making k todo :: st) x)
  | r_made k st x : threads x !! i = Some (Making k [] :: st) ->
      rstep i x (Registry (services x) (<[i := Checking k (next x) :: st]> (threads x)) (S (next x)) (obtained x) (discarded x))
  | r_insert k s st x a l gone : threads x !! i = Some (Checking k s :: st) -> insert_service k s (services x) = (a, l, gone) ->
      rstep i x (Registry l (<[i := st]> (threads x)) (next x) (obtained x ++ [(k, a)]) (discarded x ++ gone))
  | r_add same_owner k x l : threads x !! i = Some [] -> wf_key k = true ->
      do_add_service same_owner None k (next x) (services x) = inl l ->
      rstep i x (Registry l (threads x) (S (next x)) (obtained x) (discarded x)).
Definition some_step (x x' : registry) : Prop := exists i, rstep i x x'.

(** ** The invariant *)

Definition registered (l : list service) (k : key) : Prop := find_service k l <> None.

(** [above]: the call that the next frame down is waiting for. *)
Fixpoint stack_ok (l : list service) (above : option key) (st : list frame) : Prop :=
  match st with
  | [] => True
  | Looking k :: st => above = None /\ wf_key k = true /\ stack_ok l (Some k) st
  | Making k todo :: st =>
      (exists done, deps k = done ++ option_list above ++ todo /\ Forall (registered l) done) /\ wf_key k = true /\ stack_ok l (Some k) st
  | Checking k _ :: st => above = None /\ Forall (registered l) (deps k) /\ wf_key k = true /\ stack_ok l (Some k) st
  end.

(** How often an object is held by a thread. *)
Definition frame_holds (n : nat) (f : frame) : nat := match f with Checking _ s => if decide (s = n) then 1 else 0 | _ => 0 end.
Definition stack_holds (n : nat) (st : list frame) : nat := sum_list_with (frame_holds n) st.
Definition occurs (n : nat) (l : list nat) : nat := length (filter (fun a => a = n) l).

Record registry_ok (x : registry) : Prop := {
  ro_keys : Forall (fun s => wf_key (key_ s) = true) (services x);
  ro_distinct : NoDup (key_ <$> services x);
  ro_obtained : forall k a, (k, a) ∈ obtained x -> exists s, s ∈ services x /\ key_ s = k /\ address s = a;
  ro_deps : forall i s k, services x !! i = Some s -> destroy_ s = destroy_allocated -> k ∈ deps (key_ s) ->
    exists j t, i < j /\ services x !! j = Some t /\ key_ t = k;
  ro_stacks : Forall (stack_ok (services x) None) (threads x);
  ro_objects : forall n, occurs n (address <$> services x) + occurs n (discarded x) + sum_list_with (stack_holds n) (threads x)
    = if decide (n < next x) then 1 else 0;
}.
End steps.

(** ** The invariant holds *)

Lemma both_equal_spec a b : both_equal a b = true <-> exists x, a = Some x /\ b = Some x.
Proof.
  destruct a as [a|], b as [b|]; cbn; rewrite ?Nat.eqb_eq; split; try done; try (by intros (x & [=] & [=])); [intros ->; by exists b|].
  by intros (x & [= ->] & [= ->]).
Qed.
Lemma keys_match_spec k1 k2 : wf_key k1 = true -> wf_key k2 = true -> keys_match k1 k2 = true <-> k1 = k2.
Proof.
  intros H1 H2. unfold keys_match. rewrite orb_true_iff, !both_equal_spec. split.
  - destruct k1 as [[t1|] [i1|]], k2 as [[t2|] [i2|]]; try done; cbn;
      intros [(y & [=] & [=])|(y & [=] & [=])]; congruence.
  - intros <-. destruct k1 as [[t|] [i|]]; try done; cbn; [right|left]; eauto.
Qed.

Lemma find_some k l s : find_service k l = Some s -> s ∈ l /\ keys_match (key_ s) k = true.
Proof. intros Hf. apply List.find_some in Hf as [Hin Hk]. split; [by apply list_elem_of_In|done]. Qed.
Lemma find_key k l s : wf_key k = true -> Forall (fun s => wf_key (key_ s) = true) l -> find_service k l = Some s -> s ∈ l /\ key_ s = k.
Proof.
  intros Hk Hl [Hin Hm]%find_some. split; [done|]. rewrite Forall_forall in Hl. by apply keys_match_spec in Hm; auto.
Qed.
Lemma find_none k l : wf_key k = true -> find_service k l = None -> k ∉ key_ <$> l.
Proof.
  intros Hk Hf Hin. apply list_elem_of_fmap in Hin as (s & -> & Hs). apply list_elem_of_In in Hs.
  pose proof (List.find_none _ _ Hf s Hs) as Hm. cbn in Hm. by rewrite (proj2 (keys_match_spec (key_ s) (key_ s) Hk Hk)) in Hm.
Qed.
Lemma registered_cons s l k : registered l k -> registered (s :: l) k.
Proof. unfold registered, find_service. cbn. by destruct (keys_match _ _). Qed.
Lemma registered_first s l : wf_key (key_ s) = true -> registered (s :: l) (key_ s).
Proof. intros Hk. unfold registered, find_service. cbn. by rewrite (proj2 (keys_match_spec _ _ Hk Hk)). Qed.
Lemma registered_key k l : wf_key k = true -> Forall (fun s => wf_key (key_ s) = true) l -> registered l k -> exists s, s ∈ l /\ key_ s = k.
Proof.
  intros Hk Hl Hr. unfold registered in Hr. destruct (find_service k l) as [s|] eqn:Hf; [|done]. exists s. by apply find_key.
Qed.

Lemma sum_insert_list {A} (f : A -> nat) (l : list A) i a b : l !! i = Some a ->
  sum_list_with f (<[i := b]> l) + f a = sum_list_with f l + f b.
Proof.
  revert i. induction l as [|c l IH]; intros [|i] Hi; simpl in *; simplify_eq; [lia|].
  specialize (IH i Hi). unfold insert in *. lia.
Qed.
Lemma occurs_cons n a l : occurs n (a :: l) = (if decide (a = n) then 1 else 0) + occurs n l.
Proof. unfold occurs. rewrite filter_cons. by destruct (decide (a = n)). Qed.
Lemma occurs_app n l l' : occurs n (l ++ l') = occurs n l + occurs n l'.
Proof. unfold occurs. by rewrite filter_app, length_app. Qed.

Section proof.
  Context (deps : key -> list key) (Hdeps : forall k, Forall (fun k => wf_key k = true) (deps k)).

Lemma stack_grows l l' above st : (forall k, registered l k -> registered l' k) -> stack_ok deps l above st -> stack_ok deps l' above st.
Proof.
  intros Hl. revert above. induction st as [|[k|k todo|k s] st IH]; intros above; cbn; [done|..].
  - intros (Ha & Hk & Hs). auto.
  - intros ((done & Hd & Hf) & Hk & Hs). split; [|auto]. exists done. split; [done|]. by eapply Forall_impl.
  - intros (Ha & Hf & Hk & Hs). split_and!; [done|by eapply Forall_impl|done|auto].
Qed.
(** A call returns to the one that waits for it. *)
Lemma stack_returns l k st : stack_ok deps l (Some k) st -> registered l k -> stack_ok deps l None st.
Proof.
  destruct st as [|[k'|k' todo|k' s] st]; cbn; [done|by intros []| |by intros []].
  intros ((done & Hd & Hf) & Hk & Hs) Hr. split; [|done]. exists (done ++ [k]). cbn. rewrite <- app_assoc. split; [exact Hd|].
  apply Forall_app. by split; [|apply Forall_singleton].
Qed.

Lemma threads_insert l (ts : list (list frame)) i st : Forall (stack_ok deps l None) ts -> stack_ok deps l None st ->
  Forall (stack_ok deps l None) (<[i := st]> ts).
Proof. intros Hf Hst. by apply Forall_insert. Qed.
Lemma thread_stack x i st : registry_ok deps x -> threads x !! i = Some st -> stack_ok deps (services x) None st.
Proof. intros Hx Hi. pose proof (ro_stacks _ _ Hx) as Hf. rewrite Forall_forall in Hf. apply Hf. by eapply list_elem_of_lookup_2. Qed.

(** A service that joins the list, with what it was made with below it. *)
Lemma joins_ok x k n d ts : registry_ok deps x -> wf_key k = true -> find_service k (services x) = None ->
  (d = destroy_allocated -> Forall (registered (services x)) (deps k)) ->
  let l := Service k n d :: services x in
  Forall (fun s => wf_key (key_ s) = true) l /\ NoDup (key_ <$> l) /\
  (forall i s k', l !! i = Some s -> destroy_ s = destroy_allocated -> k' ∈ deps (key_ s) -> exists j t, i < j /\ l !! j = Some t /\ key_ t = k') /\
  (Forall (stack_ok deps (services x) None) ts -> Forall (stack_ok deps l None) ts).
Proof.
  intros [Hkeys Hn _ Hd _ _] Hk Hf Hreg l. split_and!.
  - by constructor.
  - cbn. constructor; [by apply find_none|done].
  - intros [|i] s k' Hi Hs Hk'; cbn in Hi.
    + injection Hi as <-. cbn in Hs, Hk'. specialize (Hreg Hs). rewrite Forall_forall in Hreg. pose proof (Hdeps k) as Hw. rewrite Forall_forall in Hw.
      destruct (registered_key k' (services x)) as (t & Ht & <-); [by apply Hw|done|by apply Hreg|].
      apply list_elem_of_lookup in Ht as [j Hj]. exists (S j), t. split_and!; [lia|done|done].
    + destruct (Hd i s k' Hi Hs Hk') as (j & t & Hj & Ht & Hkt). exists (S j), t. split_and!; [lia|done|done].
  - intros Hst. eapply Forall_impl; [exact Hst|]. intros st. apply stack_grows. intros k'. apply registered_cons.
Qed.

Lemma stack_holds_cons n f st : stack_holds n (f :: st) = frame_holds n f + stack_holds n st.
Proof. done. Qed.

Lemma rstep_ok i x x' : rstep deps i x x' -> registry_ok deps x -> registry_ok deps x'.
Proof.
  intros Hstep Hx. pose proof Hx as [Hkeys Hn Ho Hd Hst Hobj].
  destruct Hstep as [k x Hi Hk|k st s x Hi Hf|k st x Hi Hf|k k' todo st x Hi|k st x Hi|k s st x a l gone Hi Hins|own k x l Hi Hk Hadd].
  - split; cbn [services obtained set_thread threads discarded next]; [done..| |].
    + by apply threads_insert.
    + intros n. pose proof (sum_insert_list (stack_holds n) (threads x) i [] [Looking k] Hi) as Hs. cbn in Hs. specialize (Hobj n). lia.
  - pose proof (thread_stack x i _ Hx Hi) as (_ & Hk & Hs0). destruct (find_key k _ s Hk Hkeys Hf) as [Hs1 Hs2].
    split; cbn [services obtained set_thread threads discarded next]; [done|done| |done| |].
    + intros k0 a [Hin|Hin]%elem_of_app; [by apply Ho|]. apply list_elem_of_singleton in Hin as [= -> ->]. by exists s.
    + apply threads_insert; [done|]. apply (stack_returns _ k); [done|]. unfold registered. by rewrite Hf.
    + intros n. pose proof (sum_insert_list (stack_holds n) (threads x) i _ st Hi) as Hs. rewrite stack_holds_cons in Hs. cbn in Hs. specialize (Hobj n). lia.
  - pose proof (thread_stack x i _ Hx Hi) as (_ & Hk & Hs0). split; cbn [services obtained set_thread threads discarded next]; [done..| |].
    + apply threads_insert; [done|]. cbn. split; [|done]. exists []. by split.
    + intros n. pose proof (sum_insert_list (stack_holds n) (threads x) i _ (Making k (deps k) :: st) Hi) as Hs. rewrite !stack_holds_cons in Hs. cbn in Hs. specialize (Hobj n). lia.
  - pose proof (thread_stack x i _ Hx Hi) as ((done & Hdone & Hf) & Hk & Hs0). split; cbn [services obtained set_thread threads discarded next]; [done..| |].
    + apply threads_insert; [done|]. cbn. cbn in Hdone. split_and!; [done| |by exists done|done|done].
      pose proof (Hdeps k) as Hw. rewrite Hdone, Forall_app, Forall_cons in Hw. tauto.
    + intros n. pose proof (sum_insert_list (stack_holds n) (threads x) i _ (Looking k' :: Making k todo :: st) Hi) as Hs. rewrite !stack_holds_cons in Hs. cbn in Hs. specialize (Hobj n). lia.
  - pose proof (thread_stack x i _ Hx Hi) as ((done & Hdone & Hf) & Hk & Hs0). cbn in Hdone. rewrite app_nil_r in Hdone. subst done.
    split; cbn [services obtained set_thread threads discarded next]; [done..| |].
    + apply threads_insert; [done|]. cbn. by split_and!.
    + intros n. pose proof (sum_insert_list (stack_holds n) (threads x) i _ (Checking k (next x) :: st) Hi) as Hs. rewrite !stack_holds_cons in Hs. cbn in Hs. specialize (Hobj n).
      repeat case_decide; try lia; subst; lia.
  - pose proof (thread_stack x i _ Hx Hi) as (_ & Hf & Hk & Hs0). unfold insert_service in Hins.
    assert (forall n, sum_list_with (stack_holds n) (<[i:=st]> (threads x)) + (if decide (s = n) then 1 else 0) = sum_list_with (stack_holds n) (threads x)) as Hheld.
    { intros n. pose proof (sum_insert_list (stack_holds n) (threads x) i _ st Hi) as Hs. rewrite !stack_holds_cons in Hs. cbn in Hs. lia. }
    destruct (find_service k (services x)) as [s0|] eqn:Hfind; injection Hins as <- <- <-.
    + destruct (find_key k _ s0 Hk Hkeys Hfind) as [Hs1 Hs2]. split; cbn [services obtained set_thread threads discarded next]; [done|done| |done| |].
      * intros k0 a [Hin|Hin]%elem_of_app; [by apply Ho|]. apply list_elem_of_singleton in Hin as [= -> ->]. by exists s0.
      * apply threads_insert; [done|]. apply (stack_returns _ k); [done|]. unfold registered. by rewrite Hfind.
      * intros n. specialize (Hobj n). specialize (Hheld n). rewrite occurs_app, (occurs_cons n s []). change (occurs n []) with 0. lia.
    + destruct (joins_ok x k s destroy_allocated (<[i:=st]> (threads x)) Hx Hk Hfind (fun _ => Hf)) as (H1 & H2 & H3 & H4).
      split; cbn [services obtained set_thread threads discarded next]; [done|done| |done| |].
      * intros k0 a [Hin|Hin]%elem_of_app; [destruct (Ho k0 a Hin) as (t & Ht & ?); exists t; split; [by right|done]|].
        apply list_elem_of_singleton in Hin as [= -> ->]. eexists. split; [by left|done].
      * apply Forall_insert; [by apply joins_ok|]. apply (stack_returns _ k); [|by apply (registered_first (Service k s destroy_allocated))].
        apply (stack_grows (services x)); [intros k'; apply registered_cons|done].
      * intros n. specialize (Hobj n). specialize (Hheld n). rewrite app_nil_r. cbn [fmap list_fmap]. rewrite occurs_cons. cbn [address]. lia.
  - unfold do_add_service in Hadd. destruct own; [cbn [negb] in Hadd|done]. destruct (find_service k (services x)) as [s0|] eqn:Hfind; [done|]. injection Hadd as <-.
    destruct (joins_ok x k (next x) destroy_added (threads x) Hx Hk Hfind ltac:(done)) as (H1 & H2 & H3 & H4).
    split; cbn [services obtained set_thread threads discarded next]; [done|done| |done|by apply H4|].
    + intros k0 a Hin. destruct (Ho k0 a Hin) as (t & Ht & ?). exists t. split; [by right|done].
    + intros n. specialize (Hobj n). cbn [fmap list_fmap]. rewrite occurs_cons. cbn [address]. repeat case_decide; try lia; subst; lia.
Qed.
Lemma registry_start_ok n : registry_ok deps (start n).
Proof.
  split; cbn.
  - constructor.
  - constructor.
  - by intros k a ?%elem_of_nil.
  - intros i s k Hi. by rewrite lookup_nil in Hi.
  - apply Forall_replicate. done.
  - intros m. rewrite decide_False by lia. induction n as [|n IH]; [done|]. cbn in *. lia.
Qed.
Lemma registry_reachable_ok n x : rtc (some_step deps) (start n) x -> registry_ok deps x.
Proof.
  intros Hr. pose proof (registry_start_ok n) as H0. revert H0. induction Hr as [|x1 x2 x3 [i Hs] _ IH]; [done|].
  intros H0. apply IH. by apply (rstep_ok i x1).
Qed.
End proof.

(** ** Calls come to an end *)

(** When the services need each other without a cycle: a rank goes down. *)
Section ending.
  Context (deps : key -> list key) (rank : key -> nat) (Hrank : forall k, Forall (fun k' => rank k' < rank k) (deps k)).

(** The steps of a call, at most. *)
Fixpoint call_cost (fuel : nat) (k : key) : nat :=
  3 + match fuel with O => 0 | S fuel => sum_list_with (fun k' => S (call_cost fuel k')) (deps k) end.
Definition cost (k : key) : nat := call_cost (rank k) k.
Definition frame_cost (f : frame) : nat :=
  match f with Looking k => cost k | Making _ todo => 2 + sum_list_with (fun k' => S (cost k')) todo | Checking _ _ => 1 end.
Definition stack_cost (st : list frame) : nat := sum_list_with frame_cost st.

Lemma sum_ext {A} (f g : A -> nat) l : Forall (fun a => f a = g a) l -> sum_list_with f l = sum_list_with g l.
Proof. induction 1 as [|a l Ha _ IH]; [done|]. cbn. by rewrite Ha, IH. Qed.
Lemma call_cost_enough fuel k : rank k <= fuel -> call_cost fuel k = cost k.
Proof.
  unfold cost. revert k. induction fuel as [fuel IH] using lt_wf_ind. intros k Hf.
  destruct fuel as [|fuel]; [by replace (rank k) with 0 by lia|]. pose proof (Hrank k) as Hd. destruct (rank k) as [|r] eqn:Hr.
  - destruct (deps k) as [|k' ks] eqn:Hk; [cbn; by rewrite Hk|]. apply Forall_cons in Hd as [Hd _]. lia.
  - cbn [call_cost]. rewrite (sum_ext (fun k' => S (call_cost fuel k')) (fun k' => S (call_cost r k'))); [done|].
    eapply Forall_impl; [exact Hd|]. intros k' Hk'. cbn beta in Hk'. rewrite (IH fuel) by lia. by rewrite (IH r) by lia.
Qed.
Lemma cost_spec k : cost k = 3 + sum_list_with (fun k' => S (cost k')) (deps k).
Proof.
  rewrite <- (call_cost_enough (S (rank k))) by lia. cbn [call_cost].
  rewrite (sum_ext (fun k' => S (call_cost (rank k) k')) (fun k' => S (cost k'))); [done|].
  eapply Forall_impl; [apply Hrank|]. intros k' Hk'. cbn beta in *. by rewrite call_cost_enough by lia.
Qed.

(** A step of a thread that is in a call brings it nearer to the end, whatever the others
    have done in between, and leaves their stacks alone. *)
Lemma step_cost i x x' : rstep deps i x x' ->
  (forall j, j <> i -> threads x' !! j = threads x !! j) /\
  (threads x !! i = Some [] \/ exists st st', threads x !! i = Some st /\ threads x' !! i = Some st' /\ stack_cost st' < stack_cost st).
Proof.
  intros Hs. assert (forall st st' (ts : list (list frame)), ts !! i = Some st -> <[i := st']> ts !! i = Some st') as Hset.
  { intros st st' ts Hi. apply list_lookup_insert_eq. by eapply lookup_lt_Some. }
  split.
  - intros j Hj. destruct Hs; cbn [threads set_thread]; try done; by rewrite list_lookup_insert_ne.
  - destruct Hs as [k x Hi Hk|k st s x Hi Hf|k st x Hi Hf|k k' todo st x Hi|k st x Hi|k s st x a l gone Hi Hins|own k x l Hi Hk Hadd];
      [by left|right..|by left]; do 2 eexists; (split; [exact Hi|]); (split; [by eapply Hset|]); unfold stack_cost; cbn [sum_list_with frame_cost];
      rewrite ?(cost_spec k); cbn; lia.
Qed.
(** And there is always one: no call waits for another. *)
Lemma step_possible i x f st : threads x !! i = Some (f :: st) -> exists x', rstep deps i x x'.
Proof.
  intros Hi. destruct f as [k|k [|k' todo]|k s].
  - destruct (find_service k (services x)) eqn:Hf; eexists; [by eapply r_found|by eapply r_make].
  - eexists. by eapply r_made.
  - eexists. by eapply r_nested.
  - destruct (insert_service k s (services x)) as [[a l] gone] eqn:He. eexists. by eapply r_insert.
Qed.
End ending.

(** ** Properties *)

(** C38: one service of each kind.  However many threads ask for services, add them and race
    for the mutex: there is never more than one service with a key; all calls for a key return
    the same object, which stays registered; every object that a factory made is registered,
    held by the call that made it, or destroyed, exactly one of the three; the services that
    the constructor of a service asked for come after it in the list, so they are shut down
    and destroyed after it; and a call is never blocked by another. *)
Theorem registry_one_service (deps : key -> list key) (n : nat) (x : registry) :
  (forall k, Forall (fun k => wf_key k = true) (deps k)) -> rtc (some_step deps) (start n) x ->
  NoDup (key_ <$> services x) /\
  (forall k a b, (k, a) ∈ obtained x -> (k, b) ∈ obtained x -> a = b /\ a ∈ shutdown_services (services x)) /\
  (forall a, a < next x -> occurs a (shutdown_services (services x)) + occurs a (discarded x) + sum_list_with (stack_holds a) (threads x) = 1) /\
  (forall i s k, services x !! i = Some s -> destroy_ s = destroy_allocated -> k ∈ deps (key_ s) ->
     exists j t, key_ t = k /\ i < j /\ shutdown_services (services x) !! i = Some (address s) /\
       shutdown_services (services x) !! j = Some (address t)) /\
  (forall i f st, threads x !! i = Some (f :: st) -> exists x', rstep deps i x x').
Proof.
  intros Hdeps Hr. pose proof (registry_reachable_ok deps Hdeps n x Hr) as [_ Hn Ho Hd _ Hobj]. unfold shutdown_services. split_and!.
  - done.
  - intros k a b (s & Hs & Hks & <-)%Ho (t & Ht & Hkt & <-)%Ho. split; [|by apply list_elem_of_fmap_2].
    apply list_elem_of_lookup in Hs as [i Hi], Ht as [j Hj]. rewrite NoDup_alt in Hn.
    assert (i = j) as <-; [|congruence]. apply (Hn i j k); rewrite list_lookup_fmap; [by rewrite Hi, <- Hks|by rewrite Hj, <- Hkt].
  - intros a Ha. specialize (Hobj a). by rewrite decide_True in Hobj.
  - intros i s k Hi Hs Hk. destruct (Hd i s k Hi Hs Hk) as (j & t & Hj & Ht & Hkt). exists j, t.
    rewrite !list_lookup_fmap, Hi, Ht. by split_and!.
  - intros i f st. apply step_possible.
Qed.

(** ** The services of a socket

    A reactive socket service asks for the reactor, the reactor for the scheduler. *)
Definition scheduler_key : key := key_of_type 0.
Definition reactor_key : key := key_of_type 1.
Definition socket_key : key := key_of_type 2.
Definition lab_deps (k : key) : list key :=
  if decide (k = socket_key) then [reactor_key] else if decide (k = reactor_key) then [scheduler_key] else [].

(** Two threads make the socket service at once; the second destroys what it made. *)
Definition lab_registry : registry :=
  Registry [Service socket_key 2 destroy_allocated; Service reactor_key 1 destroy_allocated; Service scheduler_key 0 destroy_allocated]
    [[]; []] 4 [(scheduler_key, 0); (reactor_key, 1); (reactor_key, 1); (socket_key, 2); (socket_key, 2)] [3].

Ltac lab_step i c :=
  eapply rtc_l; [exists i; eapply c; reflexivity|];
  match goal with |- rtc _ ?x _ => let y := eval vm_compute in x in change x with y end.
Ltac lab_insert i :=
  eapply rtc_l; [exists i; eapply r_insert; [reflexivity|vm_compute; reflexivity]|];
  match goal with |- rtc _ ?x _ => let y := eval vm_compute in x in change x with y end.
Lemma lab_reached : rtc (some_step lab_deps) (start 2) lab_registry.
Proof.
  lab_step 0 (r_call lab_deps 0 socket_key). lab_step 1 (r_call lab_deps 1 socket_key).
  lab_step 0 r_make. lab_step 1 r_make.
  lab_step 0 r_nested. lab_step 0 r_make. lab_step 0 r_nested. lab_step 0 r_make. lab_step 0 r_made. lab_insert 0.
  lab_step 0 r_made. lab_insert 0. lab_step 1 r_nested. lab_step 1 r_found.
  lab_step 0 r_made. lab_step 1 r_made. lab_insert 0. lab_insert 1. apply rtc_refl.
Defined.
Lemma registry_one_service_witness :
  NoDup (key_ <$> services lab_registry) /\ shutdown_services (services lab_registry) = [2; 1; 0] /\
  forall a b, (socket_key, a) ∈ obtained lab_registry -> (socket_key, b) ∈ obtained lab_registry -> a = b.
Proof.
  destruct (registry_one_service lab_deps 2 lab_registry) as (Hn & Ho & _).
  - intros k. unfold lab_deps. repeat case_decide; repeat constructor.
  - exact lab_reached.
  - split; [exact Hn|split; [reflexivity|]]. intros a b Ha Hb. exact (proj1 (Ho _ a b Ha Hb)).
Defined.
