(* ===== verification/TlsEngine.v ===== *)
(** * [asio::ssl::detail::engine] and [io]: the TLS stream over its transport

    [asio::ssl::stream] hands every operation to an [engine] ([ssl/detail/impl/engine.ipp]),
    which runs OpenSSL over a pair of memory BIOs, and to [io] ([ssl/detail/io.hpp]), which
    moves bytes between the BIOs and the transport until the operation is done.  OpenSSL is
    the class [OpenSsl]; what is relied on is [OpenSslOk].  The transport is a pair of
    [read_some] and [write_some], as [TcpSocket] has them. *)
From S2P Require Import Prelude.
From S2P Require Transfer.
From S2P Require Import TcpSocket.
Open Scope nat_scope.

(** ** OpenSSL *)

Inductive ssl_status :=
  | SSL_ERROR_NONE | SSL_ERROR_SSL | SSL_ERROR_WANT_READ | SSL_ERROR_WANT_WRITE | SSL_ERROR_SYSCALL
  | SSL_ERROR_ZERO_RETURN | SSL_ERROR_OTHER.
#[export] Instance ssl_status_eq_dec : EqDecision ssl_status.
Proof. solve_decision. Defined.

(** An [SSL] object with its BIO pair and the error queue.  [bio_ctrl_pending] counts the
    bytes OpenSSL has put out, [bio_wpending] those it has been given and not consumed. *)
Class OpenSsl := {
  ssl : Type;
  ssl_connect : ssl -> Z * ssl;
  ssl_accept : ssl -> Z * ssl;
  ssl_shutdown : ssl -> Z * ssl;
  ssl_read : nat -> ssl -> (Z * list ascii) * ssl;
  ssl_write : list ascii -> ssl -> Z * ssl;
  ssl_get_error : ssl -> Z -> ssl_status;
  err_clear_error : ssl -> ssl;
  err_get_error : ssl -> Z * ssl;
  bio_ctrl_pending : ssl -> nat;
  bio_wpending : ssl -> nat;
  bio_read : nat -> ssl -> list ascii * ssl;
  bio_write : list ascii -> ssl -> nat * ssl;
  received_shutdown : ssl -> bool;
}.

Inductive want := want_input_and_retry | want_output_and_retry | want_nothing | want_output.
#[export] Instance want_eq_dec : EqDecision want.
Proof. solve_decision. Defined.

(** The operations: [handshake_op], [shutdown_op], [read_op] of a buffer of [n] bytes and
    [write_op]. *)
Inductive tls_op := HandshakeOp (client : bool) | ShutdownOp | ReadOp (n : nat) | WriteOp (data : list ascii).

(** What an operation leaves in its references: [ec], [bytes_transferred], and for a read
    the bytes in the buffer. *)
Record progress := Progress { op_ec : error_code; bytes_transferred : nat; op_data : list ascii }.
Definition no_progress : progress := Progress None 0 [].

Section engine.
Context `{OpenSsl}.

Definition INT_MAX : Z := (2 ^ 31 - 1)%Z.
(** [length < INT_MAX ? static_cast<int>(length) : INT_MAX] *)
Definition int_length (length : nat) : nat := if (Z.of_nat length <? INT_MAX)%Z then length else Z.to_nat INT_MAX.

Definition do_accept (s : ssl) : (Z * list ascii) * ssl := let '(r, s) := ssl_accept s in ((r, []), s).
Definition do_connect (s : ssl) : (Z * list ascii) * ssl := let '(r, s) := ssl_connect s in ((r, []), s).
Definition do_shutdown (s : ssl) : (Z * list ascii) * ssl :=
  let '(result, s) := ssl_shutdown s in
  let '(result, s) := if (result =? 0)%Z then ssl_shutdown s else (result, s) in ((result, []), s).
Definition do_read (length : nat) (s : ssl) : (Z * list ascii) * ssl := ssl_read (int_length length) s.
Definition do_write (data : list ascii) (s : ssl) : (Z * list ascii) * ssl :=
  let '(r, s) := ssl_write (take (int_length (length data)) data) s in ((r, []), s).

(** [asio::error_code(sys_error, ssl_category)]: 0 is no error. *)
Definition ssl_code (sys_error : Z) : error_code := if (sys_error =? 0)%Z then None else Some (ssl_error sys_error).

(** [perform]; [counts]: the caller gave [bytes_transferred]. *)
Definition perform (op : ssl -> (Z * list ascii) * ssl) (counts : bool) (p : progress) (s : ssl)
    : (want * progress) * ssl :=
  let pending_output_before := bio_ctrl_pending s in
  let '((result, data), s) := op (err_clear_error s) in
  let status := ssl_get_error s result in
  let '(sys_error, s) := err_get_error s in
  let more_output := pending_output_before <? bio_ctrl_pending s in
  let failed ec := ((if more_output then want_output else want_nothing, Progress ec (bytes_transferred p) (op_data p)), s) in
  let p := if (0 <? result)%Z && counts then Progress None (Z.to_nat result) data
           else Progress None (bytes_transferred p) (op_data p) in
  if decide (status = SSL_ERROR_SSL) then failed (ssl_code sys_error)
  else if decide (status = SSL_ERROR_SYSCALL) then
    failed (if (sys_error =? 0)%Z then Some unspecified_system_error else ssl_code sys_error)
  else if decide (status = SSL_ERROR_WANT_WRITE) then ((want_output_and_retry, p), s)
  else if more_output then ((if (0 <? result)%Z then want_output else want_output_and_retry, p), s)
  else if decide (status = SSL_ERROR_WANT_READ) then ((want_input_and_retry, p), s)
  else if decide (status = SSL_ERROR_ZERO_RETURN) then
    ((want_nothing, Progress (Some eof) (bytes_transferred p) (op_data p)), s)
  else if decide (status = SSL_ERROR_NONE) then ((want_nothing, p), s)
  else ((want_nothing, Progress (Some unexpected_result) (bytes_transferred p) (op_data p)), s).

Definition handshake (client : bool) (p : progress) : ssl -> (want * progress) * ssl :=
  perform (if client then do_connect else do_accept) false p.
Definition engine_shutdown (p : progress) : ssl -> (want * progress) * ssl := perform do_shutdown false p.
Definition engine_write (data : list ascii) (p : progress) (s : ssl) : (want * progress) * ssl :=
  if length data =? 0 then ((want_nothing, Progress None (bytes_transferred p) (op_data p)), s)
  else perform (do_write data) true p s.
Definition engine_read (n : nat) (p : progress) (s : ssl) : (want * progress) * ssl :=
  if n =? 0 then ((want_nothing, Progress None (bytes_transferred p) (op_data p)), s)
  else perform (do_read n) true p s.

(** [get_output] into a buffer of [n] bytes; [put_input]: what is left of [data]. *)
Definition get_output (n : nat) (s : ssl) : list ascii * ssl := bio_read n s.
Definition put_input (data : list ascii) (s : ssl) : list ascii * ssl :=
  let '(k, s) := bio_write data s in (drop k data, s).

Definition map_error_code (ec : error_code) (s : ssl) : error_code :=
  if negb (ec_is ec eof) then ec
  else if negb (bio_wpending s =? 0) then Some stream_truncated
  else if negb (received_shutdown s) then Some stream_truncated
  else ec.

(** The operations' [operator()]. *)
Definition handshake_op (client : bool) (p : progress) (s : ssl) : (want * progress) * ssl :=
  handshake client (Progress (op_ec p) 0 (op_data p)) s.
Definition shutdown_op (p : progress) (s : ssl) : (want * progress) * ssl :=
  engine_shutdown (Progress (op_ec p) 0 (op_data p)) s.
Definition read_op (n : nat) (p : progress) (s : ssl) : (want * progress) * ssl := engine_read n p s.
Definition write_op (data : list ascii) (p : progress) (s : ssl) : (want * progress) * ssl := engine_write data p s.

(** [op(core.engine_, ec, bytes_transferred)] *)
Definition op_call (op : tls_op) (p : progress) (s : ssl) : (want * progress) * ssl :=
  match op with
  | HandshakeOp client => handshake_op client p s
  | ShutdownOp => shutdown_op p s
  | ReadOp n => read_op n p s
  | WriteOp data => write_op data p s
  end.

(** [complete_sync] and the error of [call_handler]. *)
Definition complete (op : tls_op) (ec : error_code) : error_code :=
  match op with ShutdownOp => if ec_is ec eof then None else ec | _ => ec end.

(** ** The synchronous [io] *)

(** [stream_core] without its timers. *)
Record tls_core := TlsCore { engine_ : ssl; input_ : list ascii }.

Definition max_tls_record_size : nat := 17 * 1024.

Section io.
Context {T : Type} (next_read_some : nat -> T -> (list ascii * error_code) * T)
  (next_write_some : list ascii -> T -> (nat * error_code) * T).

(** [asio::write(next_layer, b, io_ec)] *)
Definition next_write (b : list ascii) (w : T) : option (error_code * T) :=
  match Transfer.write (fun off n => next_write_some (take n (drop off b))) (S (length b)) (length b) w with
  | Some (ec, _, w) => Some (ec, w)
  | None => None
  end.

Definition write_output (s : ssl) (w : T) : option (error_code * ssl * T) :=
  let '(out, s) := get_output max_tls_record_size s in
  match next_write out w with Some (ec, w) => Some (ec, s, w) | None => None end.

(** [if (!ec) ec = io_ec;] *)
Definition first_error (ec io_ec : error_code) : error_code := if ec_set ec then ec else io_ec.

Definition io_result : Type := (error_code * nat * list ascii) * (tls_core * T).

(** Operation is complete, resp. failed. *)
Definition io_done (op : tls_op) (ec : error_code) (p : progress) (c : tls_core) (w : T) : io_result :=
  ((complete op (map_error_code ec (engine_ c)), bytes_transferred p, op_data p), (c, w)).
Definition io_failed (op : tls_op) (ec : error_code) (c : tls_core) (w : T) : io_result :=
  ((complete op (map_error_code ec (engine_ c)), 0, []), (c, w)).

(** [None] when the fuel runs out. *)
Fixpoint io_loop (fuel : nat) (op : tls_op) (p : progress) (c : tls_core) (w : T) : option io_result :=
  match fuel with
  | O => None
  | S fuel =>
      let '((want, p), s) := op_call op p (engine_ c) in
      match want with
      | want_input_and_retry =>
          let '(input, io_ec, w) :=
            if length (input_ c) =? 0 then
              let '((b, io_ec), w) := next_read_some max_tls_record_size w in (b, io_ec, w)
            else (input_ c, None, w) in
          let '(rest, s) := put_input input s in
          let ec := first_error (op_ec p) io_ec in
          if ec_set ec then Some (io_failed op ec (TlsCore s rest) w)
          else io_loop fuel op p (TlsCore s rest) w
      | want_output_and_retry =>
          match write_output s w with
          | None => None
          | Some (io_ec, s, w) =>
              let ec := first_error (op_ec p) io_ec in
              if ec_set ec then Some (io_failed op ec (TlsCore s (input_ c)) w)
              else io_loop fuel op p (TlsCore s (input_ c)) w
          end
      | want_output =>
          match write_output s w with
          | None => None
          | Some (io_ec, s, w) => Some (io_done op (first_error (op_ec p) io_ec) p (TlsCore s (input_ c)) w)
          end
      | want_nothing => Some (io_done op (op_ec p) p (TlsCore s (input_ c)) w)
      end
  end.
Definition io (fuel : nat) (op : tls_op) (c : tls_core) (w : T) : option io_result := io_loop fuel op no_progress c w.
End io.
End engine.

(** ** What is relied on *)

(** The bytes that have gone through the BIOs, and the plain text [SSL_read] has given. *)
Class OpenSslOk `{OpenSsl} := {
  drained : ssl -> list ascii;
  fed : ssl -> list ascii;
  plain : ssl -> list ascii;
  bio_read_flow : forall n s, drained (bio_read n s).2 = drained s ++ (bio_read n s).1 /\
    fed (bio_read n s).2 = fed s /\ plain (bio_read n s).2 = plain s;
  bio_write_flow : forall d s, fed (bio_write d s).2 = fed s ++ take (bio_write d s).1 d /\
    drained (bio_write d s).2 = drained s /\ plain (bio_write d s).2 = plain s;
  (** The other calls do not touch the transport's side of the BIOs. *)
  other_flow : forall f, f = ssl_connect \/ f = ssl_accept \/ f = ssl_shutdown \/ f = err_get_error \/
      (f = fun s => (0%Z, err_clear_error s)) \/ (exists d, f = ssl_write d) ->
    forall s, fed (f s).2 = fed s /\ drained (f s).2 = drained s /\ plain (f s).2 = plain s;
  ssl_read_flow : forall n s, fed (ssl_read n s).2 = fed s /\ drained (ssl_read n s).2 = drained s /\
    plain (ssl_read n s).2 = plain s ++ (ssl_read n s).1.2 /\
    length (ssl_read n s).1.2 = Z.to_nat (ssl_read n s).1.1 /\ length (ssl_read n s).1.2 <= n;
  ssl_write_bound : forall d s, Z.to_nat (ssl_write d s).1 <= length d;
  (** "This result code is returned if and only if ret > 0." *)
  ssl_error_none : forall s r, ssl_get_error s r = SSL_ERROR_NONE <-> (0 < r)%Z;
  (** "the OpenSSL error queue contains more information on the error" *)
  ssl_error_queued : forall s r, ssl_get_error s r = SSL_ERROR_SSL -> (err_get_error s).1 <> 0%Z;
}.

Section engine_facts.
Context `{HO : OpenSsl, HOk : !OpenSslOk}.

Lemma int_length_le n : int_length n <= n.
Proof. unfold int_length. destruct (Z.ltb_spec (Z.of_nat n) INT_MAX); lia. Qed.

Definition same_flow (s s' : ssl) : Prop := fed s' = fed s /\ drained s' = drained s.

Record raw_call_ok (f : ssl -> (Z * list ascii) * ssl) : Prop := {
  rc_flow : forall s, same_flow s (f s).2;
  rc_plain : forall s, plain (f s).2 = plain s ++ (f s).1.2;
  rc_data : forall s, ((f s).1.1 <= 0)%Z -> (f s).1.2 = [];
}.

Lemma quiet_call (f : ssl -> Z * ssl) g : (forall s, g s = let '(r, s') := f s in ((r, []), s')) ->
  (forall s, fed (f s).2 = fed s /\ drained (f s).2 = drained s /\ plain (f s).2 = plain s) -> raw_call_ok g.
Proof.
  intros Hg Hf. split; intros s; rewrite Hg; destruct (Hf s) as (H1 & H2 & H3); destruct (f s) as [r s']; cbn in *;
    [done|by rewrite app_nil_r|done].
Qed.

Lemma do_connect_ok : raw_call_ok do_connect.
Proof. apply (quiet_call ssl_connect); [done|]. apply other_flow. auto. Qed.
Lemma do_accept_ok : raw_call_ok do_accept.
Proof. apply (quiet_call ssl_accept); [done|]. apply other_flow. auto. Qed.
Lemma do_write_ok d : raw_call_ok (do_write d).
Proof. apply (quiet_call (ssl_write (take (int_length (length d)) d))); [done|]. apply other_flow. eauto 10. Qed.
Lemma do_shutdown_ok : raw_call_ok do_shutdown.
Proof.
  apply (quiet_call (fun s => let '(r, s) := ssl_shutdown s in if (r =? 0)%Z then ssl_shutdown s else (r, s))).
  - intros s. unfold do_shutdown. destruct (ssl_shutdown s) as [r s']. by destruct (r =? 0)%Z.
  - intros s. pose proof (other_flow ssl_shutdown ltac:(auto)) as Hs. destruct (ssl_shutdown s) as [r s'] eqn:He.
    pose proof (Hs s) as H1. rewrite He in H1; cbn in H1. destruct (r =? 0)%Z; [|done].
    destruct (Hs s') as (H2 & H3 & H4). destruct H1 as (<- & <- & <-). done.
Qed.
Lemma do_read_ok n : raw_call_ok (do_read n).
Proof.
  split; intros s; unfold do_read; destruct (ssl_read_flow (int_length n) s) as (H1 & H2 & H3 & H4 & H5); [done|done|].
  intros Hr. apply length_zero_iff_nil. rewrite H4. lia.
Qed.

Definition retries (w : want) : bool := match w with want_input_and_retry | want_output_and_retry => true | _ => false end.

(** What [perform] reports: the call was done, or it was not and gave nothing. *)
Lemma perform_spec f counts p s w p' s' : raw_call_ok f -> perform f counts p s = ((w, p'), s') ->
  let r := (f (err_clear_error s)).1.1 in let d := (f (err_clear_error s)).1.2 in
  same_flow s s' /\ (w <> want_nothing -> op_ec p' <> Some eof) /\
  (((0 < r)%Z /\ retries w = false /\ plain s' = plain s ++ d /\
     p' = if counts then Progress None (Z.to_nat r) d else Progress None (bytes_transferred p) (op_data p)) \/
   ((r <= 0)%Z /\ plain s' = plain s /\ bytes_transferred p' = bytes_transferred p /\ op_data p' = op_data p /\
     ec_set (op_ec p') = negb (retries w))).
Proof.
  intros [Hfl Hpl Hda] Hp r d. unfold perform in Hp.
  pose proof (other_flow (fun s => (0%Z, err_clear_error s)) ltac:(tauto) s) as (Hc1 & Hc2 & Hc3). cbn in Hc1, Hc2, Hc3.
  pose proof (Hfl (err_clear_error s)) as [Hf1 Hf2]. pose proof (Hpl (err_clear_error s)) as Hf3.
  pose proof (Hda (err_clear_error s)) as Hf4. subst r d.
  destruct (f (err_clear_error s)) as [[r d] s1]. cbn -[Nat.ltb] in *.
  pose proof (other_flow err_get_error ltac:(tauto) s1) as (He1 & He2 & He3).
  pose proof (ssl_error_none s1 r) as Hnone. pose proof (ssl_error_queued s1 r) as Hqueued. destruct (err_get_error s1) as [sys s2]. cbn -[Nat.ltb] in *.
  set (more := bio_ctrl_pending s <? bio_ctrl_pending s2) in Hp. clearbody more.
  destruct (Z.ltb_spec 0 r) as [Hr|Hr].
  - apply proj2 in Hnone. rewrite (Hnone Hr) in Hp. repeat (rewrite decide_False in Hp by done). rewrite decide_True in Hp by done.
    assert (s' = s2 /\ op_ec p' <> Some eof /\ retries w = false /\ p' = if counts then Progress None (Z.to_nat r) d else Progress None (bytes_transferred p) (op_data p))
      as (-> & Heof & Hw & ->) by (destruct more, counts; injection Hp as <- <- <-; done).
    split; [split; congruence|]. split; [done|]. left. split_and!; [done|done|congruence|done].
  - specialize (Hf4 Hr) as ->. rewrite app_nil_r in Hf3. cbn [andb] in Hp.
    assert (ssl_get_error s1 r <> SSL_ERROR_NONE) as Hne by (intros Hn; apply Hnone in Hn; lia).
    assert (s' = s2 /\ (w <> want_nothing -> op_ec p' <> Some eof) /\ bytes_transferred p' = bytes_transferred p /\ op_data p' = op_data p /\ ec_set (op_ec p') = negb (retries w))
      as (-> & Heof & Hb & Hd & Hw).
    { unfold ssl_code in Hp. destruct (Z.eqb_spec sys 0) as [->|], more; by repeat (case_decide; [congruence || (exfalso; by apply Hqueued) || (injection Hp as <- <- <-; done)|]); injection Hp as <- <- <-. }
    split; [split; congruence|]. split; [done|]. right. split_and!; [done|congruence|done..].
Qed.

(** What an operation has to show when it reports [p'] to a caller that has no result yet. *)
Definition answers (op : tls_op) (before : list ascii) (p' : progress) (after : list ascii) : Prop :=
  match op with
  | ReadOp n => bytes_transferred p' = length (op_data p') /\ length (op_data p') <= n /\
      after = before ++ op_data p' /\ (op_ec p' = None -> 0 < n -> op_data p' <> [])
  | WriteOp d => bytes_transferred p' <= length d /\ (op_ec p' = None -> d <> [] -> 0 < bytes_transferred p')
  | _ => bytes_transferred p' = 0
  end.
Definition idle (p : progress) : Prop := bytes_transferred p = 0 /\ op_data p = [].

Lemma op_call_spec op p s w p' s' : idle p -> op_call op p s = ((w, p'), s') ->
  same_flow s s' /\ (w <> want_nothing -> op_ec p' <> Some eof) /\
  (retries w = true -> idle p' /\ op_ec p' = None /\ plain s' = plain s) /\
  (retries w = false -> answers op (plain s) p' (plain s')).
Proof.
  intros [Hb Hd]. destruct op as [client| |n|d]; unfold op_call, handshake_op, shutdown_op, read_op, write_op.
  - intros Hp. apply perform_spec in Hp as (Hf & He & Hc); [|destruct client; [apply do_connect_ok|apply do_accept_ok]].
    split_and!; [done|done|..]; intros Hw; destruct Hc as [(_ & Hw' & _ & ->)|(_ & Hpl & Hb' & Hd' & Hec)]; cbn in *; try congruence.
    rewrite Hw in Hec. split_and!; [split; congruence|by destruct (op_ec p')|done].
  - intros Hp. apply perform_spec in Hp as (Hf & He & Hc); [|apply do_shutdown_ok].
    split_and!; [done|done|..]; intros Hw; destruct Hc as [(_ & Hw' & _ & ->)|(_ & Hpl & Hb' & Hd' & Hec)]; cbn in *; try congruence.
    rewrite Hw in Hec. split_and!; [split; congruence|by destruct (op_ec p')|done].
  - unfold engine_read. destruct (Nat.eqb_spec n 0) as [->|Hn].
    { intros [= <- <- <-]. cbn. rewrite Hb, Hd. split_and!; [done..|]. intros _. rewrite app_nil_r. split_and!; intros; cbn in *; first [done | lia]. }
    intros Hp. pose proof (ssl_read_flow (int_length n) (err_clear_error s)) as (_ & _ & _ & Hl & Hle).
    pose proof (int_length_le n).
    apply perform_spec in Hp as (Hf & He & Hc); [|apply do_read_ok]. unfold do_read in Hc.
    split_and!; [done|done|..]; intros Hw; destruct Hc as [(Hr & Hw' & Hpl & ->)|(_ & Hpl & Hb' & Hd' & Hec)]; cbn [retries answers] in *; try congruence.
    + rewrite Hw in Hec. split_and!; [|by destruct (op_ec p')|done]. split; congruence.
    + cbn. split_and!; [done|lia|done|]. intros _ _ Hnil. rewrite Hnil in Hl. cbn in Hl. lia.
    + rewrite Hb', Hd', Hb, Hd, app_nil_r. split_and!; [done|cbn; lia|done|]. intros Hnone. rewrite Hnone, Hw in Hec. done.
  - unfold engine_write. destruct (Nat.eqb_spec (length d) 0) as [Hn|Hn].
    { intros [= <- <- <-]. cbn. rewrite Hb, Hd. split_and!; [done..|]. intros _. split; [lia|]. intros _ Hne.
      apply length_zero_iff_nil in Hn. done. }
    intros Hp. pose proof (ssl_write_bound (take (int_length (length d)) d) (err_clear_error s)) as Hle. rewrite length_take in Hle.
    apply perform_spec in Hp as (Hf & He & Hc); [|apply do_write_ok]. unfold do_write in Hc.
    destruct (ssl_write (take (int_length (length d)) d) (err_clear_error s)) as [r s1]. cbn [fst snd] in *.
    split_and!; [done|done|..]; intros Hw; destruct Hc as [(Hr & Hw' & Hpl & ->)|(_ & Hpl & Hb' & Hd' & Hec)]; cbn [retries answers] in *; try congruence.
    + rewrite Hw in Hec. split_and!; [|by destruct (op_ec p')|done]. split; congruence.
    + cbn. split; [lia|]. intros _ _. lia.
    + rewrite Hb', Hb. split; [lia|]. intros Hnone. rewrite Hnone, Hw in Hec. done.
Qed.
End engine_facts.

(** ** The bytes [io] moves *)

Lemma map_error_code_none `{OpenSsl} ec s : map_error_code ec s = None <-> ec = None.
Proof.
  unfold map_error_code. destruct ec as [e|]; [|done]. by repeat case_match.
Qed.

Lemma map_error_code_eof `{OpenSsl} ec s : map_error_code ec s = Some eof ->
  ec = Some eof /\ received_shutdown s = true /\ bio_wpending s = 0.
Proof.
  unfold map_error_code, ec_is. case_bool_decide as He; cbn [negb]; [subst ec|intros ->; done].
  destruct (Nat.eqb_spec (bio_wpending s) 0); cbn [negb]; [|done]. by destruct (received_shutdown s).
Qed.

Lemma complete_none op ec : complete op ec = None -> ec = None \/ (op = ShutdownOp /\ ec = Some eof).
Proof. destruct op; cbn; auto. unfold ec_is. case_bool_decide; auto. Qed.
Lemma complete_eof op ec : complete op ec = Some eof -> ec = Some eof.
Proof. destruct op; cbn; auto. unfold ec_is. case_bool_decide; auto. Qed.

(** ** A transport whose last errors are noted *)

Record notes := Notes { noted_by_read : error_code; noted_by_write : error_code }.
Definition nothing_noted : notes := Notes None None.

Section notes.
Context {T : Type} (next_read_some : nat -> T -> (list ascii * error_code) * T)
  (next_write_some : list ascii -> T -> (nat * error_code) * T).

Definition noted_read (n : nat) (w : T * notes) : (list ascii * error_code) * (T * notes) :=
  let '((b, ec), w1) := next_read_some n w.1 in ((b, ec), (w1, Notes ec (noted_by_write w.2))).
Definition noted_write (b : list ascii) (w : T * notes) : (nat * error_code) * (T * notes) :=
  let '((k, ec), w1) := next_write_some b w.1 in ((k, ec), (w1, Notes (noted_by_read w.2) ec)).

Lemma noted_loop b fuel c ec w ec' k w' : ec = noted_by_write w.2 ->
  Transfer.transfer_loop (fun off n => noted_write (take n (drop off b))) fuel c ec w = Some (ec', k, w') ->
  w'.2 = Notes (noted_by_read w.2) ec'.
Proof.
  revert c ec w. induction fuel as [|fuel IH]; intros c ec w Hec; cbn [Transfer.transfer_loop]; [done|].
  destruct (Transfer.consuming_empty c); [intros [= <- _ <-]; rewrite Hec; by destruct w as [? []]|].
  case_match; [intros [= <- _ <-]; rewrite Hec; by destruct w as [? []]|].
  destruct (Transfer.prepare _ c) as [off n]. unfold noted_write at 1.
  destruct (next_write_some _ w.1) as [[k1 ec1] w1]. intros Hl. by apply IH in Hl.
Qed.
Lemma noted_output `{OpenSsl} s w ec s' w' : noted_by_write w.2 = None -> write_output noted_write s w = Some (ec, s', w') ->
  w'.2 = Notes (noted_by_read w.2) ec.
Proof.
  intros Hw. unfold write_output, next_write, Transfer.write. destruct (get_output _ s) as [out s1].
  destruct (Transfer.transfer_loop _ _ _ _ w) as [[[ec1 k] w1]|] eqn:Hl; [|done]. intros [= <- _ <-]. by eapply noted_loop.
Qed.

Lemma retry_no_error `{OpenSsl} op p s w p' s' : op_call op p s = ((w, p'), s') ->
  w = want_input_and_retry \/ w = want_output_and_retry -> op_ec p' = None.
Proof.
  assert (forall f counts q, perform f counts q s = ((w, p'), s') ->
    w = want_input_and_retry \/ w = want_output_and_retry -> op_ec p' = None) as Hperform.
  { intros f counts q. unfold perform. destruct (f (err_clear_error s)) as [[r d] s1]. destruct (err_get_error s1) as [sys s2].
    destruct ((0 <? r)%Z && counts); repeat case_match; intros [= <- <- <-] Hw; cbn; destruct Hw; congruence. }
  destruct op; cbn [op_call]; unfold handshake_op, shutdown_op, read_op, write_op, handshake, engine_shutdown, engine_read, engine_write;
    try apply Hperform; destruct (_ =? 0); try apply Hperform; intros [= <- <- <-] [|]; congruence.
Qed.

(** The error that an operation ends with, before it is looked at. *)
Lemma io_ends `{OpenSsl} fuel op c w e n data c' w' l :
  io noted_read noted_write fuel op c (w, nothing_noted) = Some ((e, n, data), (c', (w', l))) ->
  exists ec, e = complete op (map_error_code ec (engine_ c')) /\
    (forall x, noted_by_read l = Some x -> ec = Some x) /\ (ec = None -> l = nothing_noted).
Proof.
  unfold io. generalize no_progress as p. revert c w. induction fuel as [|fuel IH]; intros c w p; cbn [io_loop]; [done|].
  pose proof (retry_no_error op p (engine_ c)) as Hretry. destruct (op_call op p (engine_ c)) as [[wnt p1] s].
  specialize (Hretry _ _ _ eq_refl). destruct wnt.
  - rewrite Hretry by by left. destruct (length (input_ c) =? 0).
    + unfold noted_read at 1. cbn [fst snd]. destruct (next_read_some _ w) as [[b io_ec] w1]. destruct (put_input b s) as [rest s1].
      cbn [first_error ec_set]. destruct io_ec as [x|]; cbn [ec_set is_Some_dec]; [|apply IH].
      intros [= <- _ _ <- _ <-]. exists (Some x). by split_and!.
    + destruct (put_input (input_ c) s) as [rest s1]. apply IH.
  - rewrite Hretry by by right. destruct (write_output noted_write s (w, nothing_noted)) as [[[io_ec s1] [w1 l1]]|] eqn:Hout; [|done].
    pose proof (noted_output s (w, nothing_noted) io_ec s1 (w1, l1) eq_refl Hout) as Hl. cbn in Hl. subst l1.
    cbn [first_error ec_set]. destruct io_ec as [x|]; cbn [ec_set]; [|apply IH].
    intros [= <- _ _ <- _ <-]. exists (Some x). by split_and!.
  - intros [= <- _ _ <- _ <-]. exists (op_ec p1). by split_and!.
  - destruct (write_output noted_write s (w, nothing_noted)) as [[[io_ec s1] [w1 l1]]|] eqn:Hout; [|done].
    pose proof (noted_output s (w, nothing_noted) io_ec s1 (w1, l1) eq_refl Hout) as Hl. cbn in Hl. subst l1.
    intros [= <- _ _ <- _ <-]. eexists. split; [done|]. split; [done|]. unfold first_error. destruct (op_ec p1); [done|]. cbn. by intros ->.
Qed.
End notes.

Section flow.
Context `{HO : OpenSsl, HOk : !OpenSslOk}.
Context {T : Type} (next_read_some : nat -> T -> (list ascii * error_code) * T)
  (next_write_some : list ascii -> T -> (nat * error_code) * T).

(** The bytes that have crossed the transport, and what its calls do to them. *)
Context (received sent : T -> list ascii).
Context (read_flow : forall n w, received (next_read_some n w).2 = received w ++ (next_read_some n w).1.1 /\
    sent (next_read_some n w).2 = sent w)
  (write_flow : forall b w, sent (next_write_some b w).2 = sent w ++ take (next_write_some b w).1.1 b /\
    received (next_write_some b w).2 = received w)
  (write_eof : forall b w, (next_write_some b w).1.2 <> Some eof)
  (write_ok : write_call_ok next_write_some).

Lemma next_write_spec b w ec w' : next_write next_write_some b w = Some (ec, w') ->
  received w' = received w /\ ec <> Some eof /\
  exists k, sent w' = sent w ++ take k b /\ (ec = None -> k = length b).
Proof.
  unfold next_write, Transfer.write, Transfer.new_consuming.
  set (dev := fun off n => next_write_some (take n (drop off b))).
  assert (Transfer.progresses dev (length b)) as Hdev by exact (write_call_progresses b next_write_some write_ok).
  destruct (Transfer.transfer_loop_spec dev (length b) Hdev (S (length b)) 0 w ltac:(lia) ltac:(lia)) as (ec1 & k & w1 & He & Hk & Hall).
  intros Hw. rewrite He in Hw. injection Hw as -> ->. split_and!.
  - refine (Transfer.loop_invariant dev (fun w1 _ => received w1 = received w) (S (length b)) (length b) 0 w ec k w' Hdev _ _ _ He); [|lia|done].
    intros w1 total n k1 ec1 w2 _ Hr Hd _. pose proof (write_flow (take n (drop total b)) w1) as [_ Hx].
    unfold dev in Hd. rewrite Hd in Hx. cbn in Hx. congruence.
  - refine (Transfer.loop_error dev (fun e => e <> Some eof) _ _ _ _ _ _ _ _ _ He); [|done]. intros off n w1. apply write_eof.
  - exists k. split; [|by intros ->; apply Hall].
    refine (Transfer.loop_invariant dev (fun w1 total => sent w1 = sent w ++ take total b) (S (length b)) (length b) 0 w ec k w' Hdev _ _ _ He);
      [|lia|by rewrite take_0, app_nil_r].
    intros w1 total n k1 ec1 w2 _ Hr Hd Hk1. pose proof (write_flow (take n (drop total b)) w1) as [Hx _].
    unfold dev in Hd. rewrite Hd in Hx. cbn in Hx. rewrite Hx, Hr, <- app_assoc. f_equal.
    rewrite take_take, Nat.min_l by done. by rewrite <- take_take_drop.
Qed.

(** What has been received has been fed to the engine or waits in [input_]; what the engine
    has given out has been sent. *)
Definition flows (c : tls_core) (w : T) : Prop :=
  received w = fed (engine_ c) ++ input_ c /\ sent w = drained (engine_ c).
Definition flows_unless (failed : Prop) (c : tls_core) (w : T) : Prop :=
  received w = fed (engine_ c) ++ input_ c /\ (sent w = drained (engine_ c) \/ failed /\ sent w `prefix_of` drained (engine_ c)).

Lemma write_output_spec s c w io_ec s' w' : flows c w -> same_flow (engine_ c) s ->
  write_output next_write_some s w = Some (io_ec, s', w') ->
  io_ec <> Some eof /\ plain s' = plain s /\ flows_unless (ec_set io_ec = true) (TlsCore s' (input_ c)) w' /\
  (io_ec = None -> flows (TlsCore s' (input_ c)) w').
Proof.
  intros [Hr Hs] [Hf Hd]. unfold write_output, get_output.
  pose proof (bio_read_flow max_tls_record_size s) as (B1 & B2 & B3).
  destruct (bio_read max_tls_record_size s) as [out s1]. cbn in B1, B2, B3.
  destruct (next_write next_write_some out w) as [[ec w1]|] eqn:Hw; [|done]. intros [= <- <- <-].
  apply next_write_spec in Hw as (W1 & W2 & k & W3 & W4). split_and!; [done|done| |].
  - unfold flows_unless; cbn. split; [congruence|]. destruct ec as [e|].
    + right. split; [done|]. rewrite W3, Hs, B1, Hd. apply prefix_app, prefix_take.
    + left. rewrite W3, W4, Hs, B1, Hd by done. by rewrite take_ge by done.
  - intros ->. split; cbn; [congruence|]. rewrite W3, W4, Hs, B1, Hd by done. by rewrite take_ge by done.
Qed.

Lemma put_input_spec c s input rest s' w : same_flow (engine_ c) s ->
  received w = fed (engine_ c) ++ input -> sent w = drained (engine_ c) -> put_input input s = (rest, s') ->
  flows (TlsCore s' rest) w /\ plain s' = plain s.
Proof.
  intros [Hf Hd] Hr Hs. unfold put_input. pose proof (bio_write_flow input s) as (B1 & B2 & B3).
  destruct (bio_write input s) as [k s1]. cbn in B1, B2, B3. intros [= <- <-]. split; [|done]. split; cbn.
  - rewrite Hr, B1, Hf, <- app_assoc. by rewrite take_drop.
  - congruence.
Qed.

(** What the caller of [io] is told. *)
Definition reports (op : tls_op) (before : list ascii) (r : error_code * nat * list ascii) (after : list ascii) : Prop :=
  let '(ec, n, data) := r in
  match op with
  | ReadOp m => n = length data /\ n <= m /\ (ec = None -> after = before ++ data /\ (0 < m -> data <> []))
  | WriteOp d => n <= length d /\ (ec = None -> d <> [] -> 0 < n)
  | _ => n = 0
  end.

Lemma answers_reports op before p after ec s : answers op before p after ->
  (ec = None -> op_ec p = None) ->
  reports op before (complete op (map_error_code ec s), bytes_transferred p, op_data p) after.
Proof.
  intros Ha Hec. unfold reports. destruct op; cbn [answers complete] in *; [done|done|..].
  - destruct Ha as (-> & H2 & H3 & H4). split_and!; [done|done|]. intros He%map_error_code_none. auto.
  - destruct Ha as [H1 H2]. split; [done|]. intros He%map_error_code_none. auto.
Qed.

Lemma failed_reports op before after ec : ec_set ec = true -> forall s, reports op before (complete op (map_error_code ec s), 0, []) after.
Proof.
  intros He s. assert (map_error_code ec s <> None) as Hne by (rewrite map_error_code_none; by destruct ec).
  unfold reports. destruct op; cbn; [done|done|..]; split_and?; try lia; done.
Qed.

Lemma first_error_none ec io_ec : first_error ec io_ec = None <-> ec = None /\ io_ec = None.
Proof. unfold first_error. destruct ec; cbn; split; [done|by intros []|auto|by intros []]. Qed.

Lemma first_error_ok ec io_ec : ec = None -> first_error ec io_ec = io_ec.
Proof. by intros ->. Qed.

Lemma io_loop_flow fuel op p c w r c' w' : idle p -> flows c w ->
  io_loop next_read_some next_write_some fuel op p c w = Some (r, (c', w')) ->
  flows_unless (r.1.1 <> None) c' w' /\ reports op (plain (engine_ c)) r (plain (engine_ c')).
Proof.
  revert p c w. induction fuel as [|fuel IH]; intros p c w Hp Hfl; cbn [io_loop]; [done|].
  destruct (op_call op p (engine_ c)) as [[wnt p1] s] eqn:Hop.
  apply op_call_spec in Hop as (Hsf & Heof & Hretry & Hdone); [|done].
  destruct wnt; cbn [retries] in *.
  - destruct (Hretry eq_refl) as (Hp1 & Hec & Hpl).
    destruct (if length (input_ c) =? 0 then _ else _) as [[input io_ec] w1] eqn:Hin.
    assert (received w1 = fed (engine_ c) ++ input /\ sent w1 = drained (engine_ c)) as [Hr1 Hs1].
    { destruct Hfl as [Hr Hs]. destruct (Nat.eqb_spec (length (input_ c)) 0) as [Hl|Hl].
      - destruct (read_flow max_tls_record_size w) as [R1 R2]. destruct (next_read_some max_tls_record_size w) as [[b e] w2].
        injection Hin as <- <- <-. cbn in *. apply length_zero_iff_nil in Hl. rewrite Hl, app_nil_r in Hr. split; congruence.
      - by injection Hin as <- <- <-. }
    destruct (put_input input s) as [rest s1] eqn:Hput.
    destruct (put_input_spec c s input rest s1 w1 Hsf Hr1 Hs1 Hput) as [Hfl1 Hpl1].
    rewrite first_error_ok by done. destruct (ec_set io_ec) eqn:Hio.
    + intros [= <- <- <-]. split; [by destruct Hfl1; split; [|left]|]. by apply failed_reports.
    + intros Hrun. destruct (IH _ _ _ Hp1 Hfl1 Hrun) as [Hfl2 Hrep]. split; [done|]. cbn in Hrep. by rewrite Hpl1, Hpl in Hrep.
  - destruct (Hretry eq_refl) as (Hp1 & Hec & Hpl).
    destruct (write_output next_write_some s w) as [[[io_ec s1] w1]|] eqn:Hw; [|done].
    destruct (write_output_spec s c w _ _ _ Hfl Hsf Hw) as (Hne & Hpl1 & Hu & Hok).
    rewrite first_error_ok by done. destruct (ec_set io_ec) eqn:Hio.
    + intros [= <- <- <-]. split; [|by apply failed_reports]. destruct Hu as [Hu1 Hu2]. split; [done|].
      destruct Hu2 as [?|[_ ?]]; [by left|right]. split; [|done]. cbn. intros [Hn|[-> Hn]]%complete_none.
      * apply map_error_code_none in Hn. by subst.
      * by apply map_error_code_eof in Hn as [-> _].
    + destruct io_ec; [done|]. intros Hrun. destruct (IH _ _ _ Hp1 (Hok eq_refl) Hrun) as [Hfl2 Hrep]. split; [done|].
      cbn in Hrep. by rewrite Hpl1, Hpl in Hrep.
  - intros [= <- <- <-]. destruct Hsf as [Hf Hd]. destruct Hfl as [Hr Hs]. split; [split; [cbn; congruence|left; cbn; congruence]|].
    apply answers_reports; [by apply Hdone|done].
  - destruct (write_output next_write_some s w) as [[[io_ec s1] w1]|] eqn:Hw; [|done].
    destruct (write_output_spec s c w _ _ _ Hfl Hsf Hw) as (Hne & Hpl1 & Hu & Hok).
    intros [= <- <- <-]. split.
    + destruct Hu as [Hu1 Hu2]. split; [done|]. destruct Hu2 as [?|[Hio ?]]; [by left|right]. split; [|done]. cbn.
      intros [Hn|[-> Hn]]%complete_none.
      * apply map_error_code_none, first_error_none in Hn as [_ ->]. done.
      * apply map_error_code_eof in Hn as [Hn _]. unfold first_error in Hn. by destruct (ec_set (op_ec p1)); [apply Heof in Hn|].
    + cbn. rewrite Hpl1. apply answers_reports; [by apply Hdone|]. by intros [? _]%first_error_none.
Qed.
End flow.

(** ** The theorems *)

Section theorems.
Context `{HO : OpenSsl, HOk : !OpenSslOk}.
Context {T : Type} (next_read_some : nat -> T -> (list ascii * error_code) * T)
  (next_write_some : list ascii -> T -> (nat * error_code) * T).

(** C18: the TLS stream neither loses, repeats nor reorders a byte.  Whatever operation
    runs: what the transport has delivered is what the engine was fed followed by the
    unconsumed input; what was sent is what the engine gave out, all of it unless the
    operation reports an error; a read hands over exactly the plain text the engine gave. *)
Theorem tls_io_conserves (received sent : T -> list ascii)
  (read_flow : forall n w, received (next_read_some n w).2 = received w ++ (next_read_some n w).1.1 /\
    sent (next_read_some n w).2 = sent w)
  (write_flow : forall b w, sent (next_write_some b w).2 = sent w ++ take (next_write_some b w).1.1 b /\
    received (next_write_some b w).2 = received w)
  (write_eof : forall b w, (next_write_some b w).1.2 <> Some eof)
  (write_ok : write_call_ok next_write_some)
  fuel op c w ec n data c' w' :
  received w = fed (engine_ c) ++ input_ c -> sent w = drained (engine_ c) ->
  io next_read_some next_write_some fuel op c w = Some ((ec, n, data), (c', w')) ->
  received w' = fed (engine_ c') ++ input_ c' /\ sent w' `prefix_of` drained (engine_ c') /\
  (ec = None -> sent w' = drained (engine_ c')) /\
  reports op (plain (engine_ c)) (ec, n, data) (plain (engine_ c')).
Proof.
  intros Hr Hs Hio. destruct (io_loop_flow next_read_some next_write_some received sent read_flow write_flow write_eof write_ok
    fuel op no_progress c w _ c' w' ltac:(done) (conj Hr Hs) Hio) as [[H1 H2] H3].
  split_and!; [done|by destruct H2 as [->|[_ ?]]|by intros ->; destruct H2 as [|[]]|done].
Qed.

(** C19: how a TLS operation reports the end of its connection.  Over a transport whose last
    errors are noted, it reports eof only when the engine has the peer's close_notify and the
    BIO is empty; when a read of the transport fails, its error is the result, but for an eof
    without them, which becomes [stream_truncated] whatever the operation is, and for an eof
    with them, which is the success of a shutdown; and without an error either nothing failed
    on the transport or the operation is a shutdown and the close_notify was there.  So a
    connection cut by anybody else never looks like an end or a success. *)
Theorem tls_eof_authentic fuel op c w e n data c' w' l :
  io (noted_read next_read_some) (noted_write next_write_some) fuel op c (w, nothing_noted) = Some ((e, n, data), (c', (w', l))) ->
  let authentic := received_shutdown (engine_ c') && (bio_wpending (engine_ c') =? 0) in
  (e = Some eof -> authentic = true) /\
  (forall x, noted_by_read l = Some x ->
     e = if decide (x = eof) then
           if authentic then match op with ShutdownOp => None | _ => Some eof end else Some stream_truncated
         else Some x) /\
  (e = None -> l = nothing_noted \/ op = ShutdownOp /\ authentic = true).
Proof.
  intros Hio. pose proof (io_ends next_read_some next_write_some fuel op c w e n data c' w' l Hio) as (ec & -> & Hread & Hnone).
  intros authentic. assert (map_error_code ec (engine_ c') = if decide (ec = Some eof) then if authentic then Some eof else Some stream_truncated else ec) as Hmap.
  { unfold map_error_code, ec_is, authentic. destruct (decide (ec = Some eof)) as [->|Hne]; [|by rewrite bool_decide_eq_false_2].
    rewrite bool_decide_eq_true_2 by done. cbn [negb]. by destruct (bio_wpending _ =? 0), (received_shutdown _). }
  rewrite Hmap. split_and!.
  - intros He. apply complete_eof in He. by destruct (decide (ec = Some eof)), authentic.
  - intros x Hx. rewrite (Hread x Hx). destruct (decide (x = eof)) as [->|Hne].
    + rewrite decide_True by done. by destruct authentic, op.
    + rewrite decide_False by congruence. destruct op; cbn; unfold ec_is; by rewrite ?bool_decide_eq_false_2 by congruence.
  - intros He%complete_none. destruct (decide (ec = Some eof)) as [Heof|Hne]; [right|left].
    + destruct He as [He|[-> He]]; by destruct authentic.
    + destruct He as [He|[_ He]]; [by apply Hnone|done].
Qed.

(** An operation on a TLS stream returns.  When an operation that keeps putting out
    bytes gets nearer to its end ([effort]), the engine takes some of the input it asked
    for, and the transport delivers finitely much ([left]), then some fuel is enough. *)
Theorem tls_io_ends (effort : ssl -> nat) (left : T -> nat)
  (output_effort : forall op p s r s', op_call op p s = ((want_output_and_retry, r), s') ->
    effort (bio_read max_tls_record_size s').2 < effort s)
  (input_taken : forall op p s r s' d, op_call op p s = ((want_input_and_retry, r), s') -> d <> [] -> 0 < (bio_write d s').1)
  (read_ends : forall n w, (next_read_some n w).1.2 = None -> left (next_read_some n w).2 < left w)
  (write_left : forall b w, left (next_write_some b w).2 = left w)
  (write_ok : write_call_ok next_write_some) op c w :
  exists fuel r, io next_read_some next_write_some fuel op c w = Some r.
Proof.
  unfold io. generalize no_progress as p.
  assert (forall s w, exists io_ec s1 w1, write_output next_write_some s w = Some (io_ec, s1, w1) /\ left w1 = left w /\
    s1 = (bio_read max_tls_record_size s).2) as Hwrite.
  { intros s w1. unfold write_output, get_output. destruct (bio_read max_tls_record_size s) as [out s1].
    unfold next_write, Transfer.write, Transfer.new_consuming. pose proof (write_call_progresses out next_write_some write_ok) as Hdev.
    destruct (Transfer.transfer_loop_spec _ _ Hdev (S (length out)) 0 w1 ltac:(lia) ltac:(lia)) as (ec & k & w2 & He & _).
    rewrite He. exists ec, s1, w2. split_and!; [done| |done].
    refine (Transfer.loop_invariant _ (fun w _ => left w = left w1) (S (length out)) (length out) 0 w1 ec k w2 Hdev _ _ _ He); [|lia|done].
    intros w3 total n k1 ec1 w4 _ Hl Hd _. pose proof (write_left (take n (drop total out)) w3) as Hx. rewrite Hd in Hx. cbn in Hx. congruence. }
  remember (left w) as l eqn:Hl. revert c w Hl. induction (lt_wf l) as [l _ IHl]. intros c w Hl.
  remember (length (input_ c)) as i eqn:Hi. revert c w Hl Hi. induction (lt_wf i) as [i _ IHi]. intros c w Hl Hi.
  remember (effort (engine_ c)) as e eqn:He. revert c w Hl Hi He. induction (lt_wf e) as [e _ IHe]. intros c w Hl Hi He p.
  destruct (op_call op p (engine_ c)) as [[wnt p1] s] eqn:Hop. destruct wnt.
  - destruct (Nat.eqb_spec (length (input_ c)) 0) as [Hi0|Hi0].
    + pose proof (read_ends max_tls_record_size w) as Hread. destruct (next_read_some max_tls_record_size w) as [[b io_ec] w1] eqn:Hr.
      destruct (put_input b s) as [rest s1] eqn:Hput. cbn in Hread.
      destruct (ec_set (first_error (op_ec p1) io_ec)) eqn:Hec.
      * exists 1. cbn [io_loop]. rewrite Hop, Hi0, Nat.eqb_refl, Hr, Hput, Hec. by eexists.
      * assert (io_ec = None) as -> by (unfold first_error in Hec; destruct (ec_set (op_ec p1)) eqn:Hx; [congruence|by destruct io_ec]).
        destruct (IHl (left w1) ltac:(rewrite Hl; auto) (TlsCore s1 rest) w1 eq_refl p1) as (fuel & r & Hrun).
        exists (S fuel), r. cbn [io_loop]. by rewrite Hop, Hi0, Nat.eqb_refl, Hr, Hput, Hec.
    + pose proof (input_taken _ _ _ _ _ (input_ c) Hop ltac:(by intros Hn; rewrite Hn in Hi0)) as Htaken.
      destruct (put_input (input_ c) s) as [rest s1] eqn:Hput.
      assert (length rest < length (input_ c)) as Hlt.
      { unfold put_input in Hput. destruct (bio_write (input_ c) s) as [k s2]. injection Hput as <- <-. rewrite length_drop. cbn in Htaken. lia. }
      destruct (ec_set (first_error (op_ec p1) None)) eqn:Hec.
      * exists 1. cbn [io_loop]. rewrite Hop, (proj2 (Nat.eqb_neq _ _) Hi0), Hput, Hec. by eexists.
      * destruct (IHi (length rest) ltac:(lia) (TlsCore s1 rest) w Hl eq_refl p1) as (fuel & r & Hrun).
        exists (S fuel), r. cbn [io_loop]. by rewrite Hop, (proj2 (Nat.eqb_neq _ _) Hi0), Hput, Hec.
  - destruct (Hwrite s w) as (io_ec & s1 & w1 & Hw & Hl1 & Hs1). destruct (ec_set (first_error (op_ec p1) io_ec)) eqn:Hec.
    + exists 1. cbn [io_loop]. rewrite Hop, Hw, Hec. by eexists.
    + pose proof (output_effort _ _ _ _ _ Hop) as Hlt. rewrite <- Hs1 in Hlt.
      destruct (IHe (effort s1) ltac:(lia) (TlsCore s1 (input_ c)) w1 ltac:(congruence) Hi eq_refl p1) as (fuel & r & Hrun).
      exists (S fuel), r. cbn [io_loop]. by rewrite Hop, Hw, Hec.
  - exists 1. cbn [io_loop]. rewrite Hop. by eexists.
  - destruct (Hwrite s w) as (io_ec & s1 & w1 & Hw & _). exists 1. cbn [io_loop]. rewrite Hop, Hw. by eexists.
Qed.
End theorems.

(** ** An engine to evaluate with

    It talks in the clear: a handshake is one byte each way, ["!"] is the close_notify, ["~"]
    a record without application data, and [ssl_read] gives one byte at a time. *)
Record toy_ssl := ToySsl {
  toy_in : list ascii;
  toy_out : list ascii;
  toy_drained : list ascii;
  toy_fed : list ascii;
  toy_plain : list ascii;
  toy_handshake : nat;
  toy_sent_close : bool;
  toy_closed : bool;
  toy_status : ssl_status;
}.

Definition toy_set (i o p : list ascii) (h : nat) (sc cl : bool) (st : ssl_status) (s : toy_ssl) : toy_ssl :=
  ToySsl i o (toy_drained s) (toy_fed s) p h sc cl st.

Definition toy_connect (s : toy_ssl) : Z * toy_ssl :=
  let go i o h st := toy_set i o (toy_plain s) h (toy_sent_close s) (toy_closed s) st s in
  match toy_handshake s, toy_in s with
  | 0, _ => ((-1)%Z, go (toy_in s) (toy_out s ++ ["H"%char]) 1 SSL_ERROR_WANT_READ)
  | 1, [] => ((-1)%Z, go [] (toy_out s) 1 SSL_ERROR_WANT_READ)
  | 1, _ :: i => (1%Z, go i (toy_out s) 2 SSL_ERROR_OTHER)
  | h, i => (1%Z, go i (toy_out s) h SSL_ERROR_OTHER)
  end.
Definition toy_read (n : nat) (s : toy_ssl) : (Z * list ascii) * toy_ssl :=
  let go i p cl st := toy_set i (toy_out s) p (toy_handshake s) (toy_sent_close s) cl st s in
  match n, toy_in s with
  | 0, _ => ((0%Z, []), go (toy_in s) (toy_plain s) (toy_closed s) SSL_ERROR_OTHER)
  | _, [] => (((-1)%Z, []), go [] (toy_plain s) (toy_closed s) SSL_ERROR_WANT_READ)
  | _, c :: i =>
      if decide (c = "!"%char) then ((0%Z, []), go i (toy_plain s) true SSL_ERROR_ZERO_RETURN)
      else if decide (c = "~"%char) then (((-1)%Z, []), go i (toy_plain s) (toy_closed s) SSL_ERROR_WANT_READ)
      else ((1%Z, [c]), go i (toy_plain s ++ [c]) (toy_closed s) SSL_ERROR_OTHER)
  end.
Definition toy_write (d : list ascii) (s : toy_ssl) : Z * toy_ssl :=
  (Z.of_nat (length d), toy_set (toy_in s) (toy_out s ++ d) (toy_plain s) (toy_handshake s) (toy_sent_close s) (toy_closed s) SSL_ERROR_OTHER s).
Definition toy_shutdown (s : toy_ssl) : Z * toy_ssl :=
  let go i o cl st := toy_set i o (toy_plain s) (toy_handshake s) true cl st s in
  if toy_sent_close s then
    match toy_in s with
    | c :: i => if decide (c = "!"%char) then (1%Z, go i (toy_out s) true SSL_ERROR_OTHER)
                else ((-1)%Z, go (toy_in s) (toy_out s) (toy_closed s) SSL_ERROR_SSL)
    | [] => ((-1)%Z, go [] (toy_out s) (toy_closed s) SSL_ERROR_WANT_READ)
    end
  else (0%Z, go (toy_in s) (toy_out s ++ ["!"%char]) (toy_closed s) SSL_ERROR_OTHER).

Definition toy_get_error (s : toy_ssl) (r : Z) : ssl_status :=
  if (0 <? r)%Z then SSL_ERROR_NONE else match toy_status s with SSL_ERROR_NONE => SSL_ERROR_OTHER | st => st end.

#[local] Instance toy_openssl : OpenSsl := {|
  ssl := toy_ssl;
  ssl_connect := toy_connect;
  ssl_accept := toy_connect;
  ssl_shutdown := toy_shutdown;
  ssl_read := toy_read;
  ssl_write := toy_write;
  ssl_get_error := toy_get_error;
  err_clear_error := fun s => s;
  err_get_error := fun s => (match toy_status s with SSL_ERROR_SSL => 1%Z | _ => 0%Z end, s);
  bio_ctrl_pending := fun s => length (toy_out s);
  bio_wpending := fun s => length (toy_in s);
  bio_read := fun n s => (take n (toy_out s),
    ToySsl (toy_in s) (drop n (toy_out s)) (toy_drained s ++ take n (toy_out s)) (toy_fed s) (toy_plain s)
      (toy_handshake s) (toy_sent_close s) (toy_closed s) (toy_status s));
  bio_write := fun d s => (length d,
    ToySsl (toy_in s ++ d) (toy_out s) (toy_drained s) (toy_fed s ++ d) (toy_plain s)
      (toy_handshake s) (toy_sent_close s) (toy_closed s) (toy_status s));
  received_shutdown := toy_closed;
|}.

#[local] Instance toy_openssl_ok : OpenSslOk.
Proof.
  refine {| drained := toy_drained; fed := toy_fed; plain := toy_plain : @ssl toy_openssl -> list ascii |}.
  - done.
  - intros d s. cbn. by rewrite firstn_all.
  - intros f [->|[->|[->|[->|[->|[d ->]]]]]] s; cbn; [| |unfold toy_shutdown|done|done|done].
    1,2: unfold toy_connect; by destruct (toy_handshake s) as [|[|]], (toy_in s).
    destruct (toy_sent_close s); [|done]. destruct (toy_in s); [done|]. by case_decide.
  - intros n s. cbn. unfold toy_read. destruct n; [cbn; by rewrite app_nil_r|].
    destruct (toy_in s); [cbn; rewrite app_nil_r; split_and!; try done; lia|].
    repeat case_decide; cbn; rewrite ?app_nil_r; split_and!; try done; lia.
  - intros d s. cbn. lia.
  - intros s r. cbn. unfold toy_get_error. destruct (Z.ltb_spec 0 r); [done|]. split; [by destruct (toy_status s)|lia].
  - intros s r. cbn. unfold toy_get_error. destruct (0 <? r)%Z; [done|]. by destruct (toy_status s).
Defined.

Record toy_wire := ToyWire { chunks : list (list ascii); got : list ascii; gone : list ascii }.
Definition toy_read_some (n : nat) (w : toy_wire) : (list ascii * error_code) * toy_wire :=
  match chunks w with
  | [] => (([], Some eof), w)
  | b :: bs => ((take n b, None), ToyWire bs (got w ++ take n b) (gone w))
  end.
Definition toy_write_some (b : list ascii) (w : toy_wire) : (nat * error_code) * toy_wire :=
  ((length b, None), ToyWire (chunks w) (got w) (gone w ++ b)).

Lemma toy_write_ok : write_call_ok toy_write_some.
Proof. intros b w. cbn. split; [lia|]. by destruct b. Qed.

Definition toy_core : tls_core := TlsCore (ToySsl [] [] [] [] [] 0 false false SSL_ERROR_OTHER) [].
Definition toy_connected : tls_core := TlsCore (ToySsl [] [] [] [] [] 2 false false SSL_ERROR_OTHER) [].
Definition toy_io := io toy_read_some toy_write_some.

(** A handshake, a read that has to wait for its byte, and a shutdown the peer answers. *)
Example toy_session :
  match toy_io 9 (HandshakeOp true) toy_core (ToyWire [["h"]; ["x"; "y"]; ["!"]]%char [] []) with
  | Some ((None, 0, []), (c, w)) =>
      match toy_io 9 (ReadOp 4) c w with
      | Some ((None, 1, ["x"%char]), (c, w)) =>
          match toy_io 9 (ReadOp 4) c w with
          | Some ((None, 1, ["y"%char]), (c, w)) =>
              match toy_io 9 ShutdownOp c w with
              | Some ((None, 0, []), (_, w)) => gone w = ["H"; "!"]%char
              | _ => False
              end
          | _ => False
          end
      | _ => False
      end
  | _ => False
  end.
Proof. vm_compute. reflexivity. Qed.

(** A connection cut in the middle is no end of file. *)
Example toy_truncated :
  option_map (fun r => r.1.1.1) (toy_io 9 (ReadOp 4) toy_connected (ToyWire [] [] [])) = Some (Some stream_truncated).
Proof. vm_compute. reflexivity. Qed.

Lemma tls_io_conserves_witness :
  let w := ToyWire [["x"]%char] [] [] in
  let w' := ToyWire [] ["x"%char] [] in
  let c' := TlsCore (ToySsl [] [] [] ["x"%char] ["x"%char] 2 false false SSL_ERROR_OTHER) [] in
  toy_io 3 (ReadOp 4) toy_connected w = Some ((None, 1, ["x"%char]), (c', w')) /\
  got w' = fed (engine_ c') ++ input_ c'.
Proof.
  intros w w' c'. assert (toy_io 3 (ReadOp 4) toy_connected w = Some ((None, 1, ["x"%char]), (c', w'))) as Hio by reflexivity.
  split; [exact Hio|].
  refine (proj1 (tls_io_conserves toy_read_some toy_write_some got gone _ _ _ toy_write_ok 3 (ReadOp 4) toy_connected w
    None 1 ["x"%char] c' w' eq_refl eq_refl Hio)).
  - intros n [[|b bs] g s]; cbn; [by rewrite app_nil_r|done].
  - intros b u. cbn. by rewrite firstn_all.
  - done.
Defined.

(** The peer closes; and a connection is cut while it is shut down. *)
Lemma tls_eof_authentic_witness :
  let closed := TlsCore (ToySsl [] [] [] ["!"%char] [] 2 false true SSL_ERROR_ZERO_RETURN) [] in
  received_shutdown (engine_ closed) && (bio_wpending (engine_ closed) =? 0) = true /\
  option_map (fun r => r.1.1.1) (io (noted_read toy_read_some) (noted_write toy_write_some) 9 ShutdownOp toy_connected
    (ToyWire [] [] [], nothing_noted)) = Some (Some stream_truncated).
Proof.
  intros closed. split.
  - exact (proj1 (tls_eof_authentic toy_read_some toy_write_some 3 (ReadOp 4) toy_connected (ToyWire [["!"]%char] [] []) (Some eof) 0 []
      closed (ToyWire [] ["!"%char] []) nothing_noted eq_refl) eq_refl).
  - destruct (io _ _ 9 ShutdownOp toy_connected _) as [[[[e n] d] [c' [w' l]]]|] eqn:Hio; [|vm_compute in Hio; discriminate].
    destruct (tls_eof_authentic toy_read_some toy_write_some 9 ShutdownOp toy_connected (ToyWire [] [] []) e n d c' w' l Hio) as (_ & Hread & _).
    cbn [option_map fst]. vm_compute in Hio. injection Hio as <- <- <- <- <- <-. by rewrite (Hread eof eq_refl).
Defined.

(** How many times the engine will still put out bytes of its own. *)
Definition toy_effort (s : @ssl toy_openssl) : nat :=
  match toy_handshake s with 0 => 1 | _ => 0 end + (if toy_sent_close s then 0 else 1).

Lemma toy_perform_retry f counts p s w r s' : perform f counts p s = ((w, r), s') -> w = want_output_and_retry ->
  toy_status (f s).2 <> SSL_ERROR_WANT_WRITE -> length (toy_out s) < length (toy_out (f s).2) /\ s' = (f s).2.
Proof.
  intros Hp -> Hst. unfold perform in Hp. cbn -[Nat.ltb] in Hp. destruct (f s) as [[z d] s1]. cbn -[Nat.ltb] in *.
  unfold toy_get_error in Hp. destruct (Nat.ltb_spec (length (toy_out s)) (length (toy_out s1))) as [Hlt|Hge].
  - split; [done|]. repeat case_match; simplify_eq; done.
  - exfalso. repeat case_match; simplify_eq; done.
Qed.

Lemma toy_output_effort op p s r s' : op_call op p s = ((want_output_and_retry, r), s') ->
  toy_effort (bio_read max_tls_record_size s').2 < toy_effort s.
Proof.
  intros Hop. change (toy_effort (bio_read max_tls_record_size s').2) with (toy_effort s').
  assert (forall (f : toy_ssl -> (Z * list ascii) * toy_ssl) c q, perform f c q s = ((want_output_and_retry, r), s') ->
    toy_status (f s).2 <> SSL_ERROR_WANT_WRITE ->
    (length (toy_out s) < length (toy_out (f s).2) -> toy_effort (f s).2 < toy_effort s) -> toy_effort s' < toy_effort s) as Hgen.
  { intros f c q Hp Hst He. destruct (toy_perform_retry f c q s _ r s' Hp eq_refl Hst) as [Hlt ->]. auto. }
  destruct op as [client| |n|d]; unfold op_call, handshake_op, shutdown_op, read_op, write_op in Hop.
  - unfold handshake in Hop. apply Hgen in Hop; [done|..]; clear Hop Hgen; destruct client; unfold do_connect, do_accept; cbn;
      unfold toy_connect, toy_effort; destruct (toy_handshake s) as [|[|h]], (toy_in s); cbn; lia || done.
  - apply Hgen in Hop; [done|..]; clear Hop Hgen; unfold do_shutdown; cbn; unfold toy_shutdown, toy_effort;
      destruct (toy_sent_close s) eqn:Hc; destruct (toy_in s) as [|c i] eqn:Hi; cbn; rewrite ?Hi; try case_decide; cbn; lia || done.
  - unfold engine_read in Hop. destruct (n =? 0); [done|]. apply Hgen in Hop; [done|..]; clear Hop Hgen; unfold do_read; cbn;
      unfold toy_read, toy_effort; destruct (int_length n), (toy_in s); cbn; repeat case_decide; cbn; lia || done.
  - unfold engine_write in Hop. destruct (length d =? 0) eqn:Hd; [done|]. exfalso.
    unfold perform, do_write in Hop. cbn -[Nat.ltb] in Hop. unfold toy_get_error in Hop; cbn -[Nat.ltb] in Hop.
    assert (0 < length (take (int_length (length d)) d)) as Hpos.
    { apply Nat.eqb_neq in Hd. rewrite length_take. unfold int_length. destruct (Z.ltb_spec (Z.of_nat (length d)) INT_MAX); unfold INT_MAX in *; lia. }
    rewrite (proj2 (Z.ltb_lt _ _)) in Hop by lia. cbn -[Nat.ltb] in Hop. by destruct (_ <? _).
Qed.

Lemma tls_io_ends_witness :
  exists fuel r, io toy_read_some toy_write_some fuel (HandshakeOp true) toy_core (ToyWire [["h"]%char] [] []) = Some r.
Proof.
  apply (tls_io_ends toy_read_some toy_write_some toy_effort (fun w => length (chunks w))).
  - exact toy_output_effort.
  - intros op p s r s' d _ Hd. cbn. destruct d; [done|cbn; lia].
  - intros n [[|b bs] g q]; cbn; [done|]. intros _. lia.
  - done.
  - exact toy_write_ok.
Defined.
