(* ===== verification/TlsVerify.v ===== *)
(** * The verification of a TLS peer, and who owns its pieces

    An [asio::ssl::detail::engine] owns an SSL object, one end of its BIO pair, and - through
    the application data of the SSL object - the callback that judges the peer's
    certificates ([ssl/detail/impl/engine.ipp]).  First the objects: engines are made, moved,
    given callbacks and destroyed, and every SSL object, BIO and callback is freed once.
    Then what a callback is for: [configure_client_stream] of [network.hpp] ([TrustStore])
    with the options a script may give ([TlsOptions]) makes a client that accepts only a
    verified chain for its host ([Address.host_name_verification]).

    OpenSSL's objects are a heap; freeing what is not there, or using it, is [None]. *)
From S2P Require Import Prelude TlsOptions TrustStore.
From S2P Require Address.
Import Address (AddressSystem, VerifyContext).
Open Scope nat_scope.

(** A [verify_callback_base]: its [call]. *)
Definition callback := VerifyContext -> bool -> bool.

(** An SSL object, with the end of the BIO pair that [SSL_set_bio] gave it: the application
    data, the mode and the depth, and whether [verify_callback_function] is installed. *)
Record ssl_object := SslObject { app_data : option nat; mode_ : verify_mode; depth_ : Z; installed : bool }.
Definition set_app_data (c : option nat) (o : ssl_object) : ssl_object := SslObject c (mode_ o) (depth_ o) (installed o).

Record heap := Heap { ssls : gmap nat ssl_object; bios : gset nat; callbacks : gmap nat callback }.
Definition empty_heap : heap := Heap ∅ ∅ ∅.
Definition on_ssls (f : gmap nat ssl_object -> gmap nat ssl_object) (h : heap) : heap := Heap (f (ssls h)) (bios h) (callbacks h).
Definition set_bios (b : gset nat) (h : heap) : heap := Heap (ssls h) b (callbacks h).
Definition set_callbacks (c : gmap nat callback) (h : heap) : heap := Heap (ssls h) (bios h) c.

(** ** The engine *)

Record engine := Engine { ssl_ : option nat; ext_bio_ : option nat }.
Definition no_engine : engine := Engine None None.

(** The constructor from a context; [None] for the engine: [SSL_new] failed and it throws.  The mode of
    the context is the default, to verify nothing. *)
Definition new_engine (allocated : bool) (h : heap) : option engine * heap :=
  if negb allocated then (None, h)
  else
    let s := fresh (dom (ssls h)) in
    let b := fresh (bios h) in
    (Some (Engine (Some s) (Some b)),
     set_bios ({[b]} ∪ bios h) (on_ssls (insert s (SslObject None verify_none_mode (-1) false)) h)).

(** The engine moved to, and the one moved from. *)
Definition move_construct (other : engine) : engine * engine := (other, no_engine).

(** [delete] of the application data. *)
Definition delete_callback (s : nat) (h : heap) : option heap :=
  match ssls h !! s with
  | None => None
  | Some o =>
      match app_data o with
      | None => Some h
      | Some c =>
          match callbacks h !! c with
          | None => None
          | Some _ => Some (set_callbacks (delete c (callbacks h)) h)
          end
      end
  end.
Definition clear_app_data (s : nat) (h : heap) : heap := on_ssls (alter (set_app_data None) s) h.
Definition bio_free (b : nat) (h : heap) : option heap := if decide (b ∈ bios h) then Some (set_bios (bios h ∖ {[b]}) h) else None.
Definition ssl_free (s : nat) (h : heap) : option heap :=
  match ssls h !! s with None => None | Some _ => Some (on_ssls (delete s) h) end.

(** What the destructor does. *)
Definition destroy (e : engine) (h : heap) : option heap :=
  h ← match ssl_ e with Some s => h ← delete_callback s h; Some (clear_app_data s h) | None => Some h end;
  h ← match ext_bio_ e with Some b => bio_free b h | None => Some h end;
  match ssl_ e with Some s => ssl_free s h | None => Some h end.

(** [operator=] of another engine: the engine assigned to, the one moved from. *)
Definition move_assign (e other : engine) (h : heap) : option (engine * engine * heap) :=
  h ← destroy e h; Some (other, no_engine, h).

Definition set_verify_mode (v : verify_mode) (e : engine) (h : heap) : option heap :=
  s ← ssl_ e; _ ← ssls h !! s; Some (on_ssls (alter (fun o => SslObject (app_data o) v (depth_ o) (installed o)) s) h).
Definition set_verify_depth (depth : Z) (e : engine) (h : heap) : option heap :=
  s ← ssl_ e; _ ← ssls h !! s; Some (on_ssls (alter (fun o => SslObject (app_data o) (mode_ o) depth (installed o)) s) h).
(** [stream::set_verify_callback] makes the callback and hands it to the engine. *)
Definition set_verify_callback (f : callback) (e : engine) (h : heap) : option heap :=
  let c := fresh (dom (callbacks h)) in
  let h := set_callbacks (<[c := f]> (callbacks h)) h in
  s ← ssl_ e; h ← delete_callback s h;
  Some (on_ssls (alter (fun o => SslObject (Some c) (mode_ o) (depth_ o) true) s) h).

(** [verify_callback_function], for the SSL object of the verification. *)
Definition verify_callback_function (preverified : bool) (ctx : VerifyContext) (s : nat) (h : heap) : option bool :=
  o ← ssls h !! s;
  match app_data o with
  | Some c => f ← callbacks h !! c; Some (f ctx preverified)
  | None => Some false
  end.

(** ** Programs with engines *)

(** An engine is a variable; the modes and callbacks are set on engines that were not moved
    from. *)
Inductive command :=
  | New (n : nat) (allocated : bool)
  | MoveTo (n n' : nat)                      (** a new engine [n] from [n'] *)
  | Assign (n n' : nat)
  | SetMode (n : nat) (v : verify_mode)
  | SetDepth (n : nat) (depth : Z)
  | SetCallback (n : nat) (f : callback)
  | Destroy (n : nat).

Notation store := (gmap nat engine) (only parsing).

(** [None]: an object was freed twice or used after it was freed. *)
Definition execute (c : command) (x : store * heap) : option (store * heap) :=
  let '(es, h) := x in
  match c with
  | New n allocated =>
      match es !! n with
      | Some _ => Some x
      | None => let '(e, h) := new_engine allocated h in Some (match e with Some e => <[n := e]> es | None => es end, h)
      end
  | MoveTo n n' =>
      match es !! n, es !! n' with
      | None, Some other => let '(e, other) := move_construct other in Some (<[n := e]> (<[n' := other]> es), h)
      | _, _ => Some x
      end
  | Assign n n' =>
      match es !! n, es !! n' with
      | Some e, Some other =>
          if decide (n = n') then Some x
          else '(e, other, h) ← move_assign e other h; Some (<[n := e]> (<[n' := other]> es), h)
      | _, _ => Some x
      end
  | SetMode n v =>
      match es !! n with
      | Some (Engine (Some s) b) => h ← set_verify_mode v (Engine (Some s) b) h; Some (es, h)
      | _ => Some x
      end
  | SetDepth n depth =>
      match es !! n with
      | Some (Engine (Some s) b) => h ← set_verify_depth depth (Engine (Some s) b) h; Some (es, h)
      | _ => Some x
      end
  | SetCallback n f =>
      match es !! n with
      | Some (Engine (Some s) b) => h ← set_verify_callback f (Engine (Some s) b) h; Some (es, h)
      | _ => Some x
      end
  | Destroy n =>
      match es !! n with
      | Some e => h ← destroy e h; Some (delete n es, h)
      | None => Some x
      end
  end.
Fixpoint execute_all (cs : list command) (x : store * heap) : option (store * heap) :=
  match cs with [] => Some x | c :: cs => x ← execute c x; execute_all cs x end.

(** ** Everything has one owner *)

(** [f]: what an owner owns; [live]: what there is.  Each thing has exactly one owner. *)
Definition exact (f : nat -> option nat) (live : nat -> Prop) : Prop :=
  (forall a, live a <-> exists n, f n = Some a) /\ (forall n n' a, f n = Some a -> f n' = Some a -> n = n').
Definition upd (n : nat) (v : option nat) (f : nat -> option nat) (m : nat) : option nat := if decide (m = n) then v else f m.

Lemma exact_ext f g (live live' : nat -> Prop) : (forall n, g n = f n) -> (forall a, live' a <-> live a) -> exact f live -> exact g live'.
Proof.
  intros Hfg Hl [He Hi]. split.
  - intros a. rewrite Hl, He. by setoid_rewrite Hfg.
  - intros n n' a. rewrite !Hfg. apply Hi.
Qed.
Lemma exact_at f g live : (forall n, g n = f n) -> exact f live -> exact g live.
Proof. intros Hfg. by apply exact_ext. Qed.
Lemma upd_same n v f : upd n v f n = v.
Proof. unfold upd. by rewrite decide_True. Qed.
Lemma upd_other n v f m : m <> n -> upd n v f m = f m.
Proof. intros Hm. unfold upd. by rewrite decide_False. Qed.
Lemma upd_ext n v f g m : (forall i, f i = g i) -> upd n v f m = upd n v g m.
Proof. intros Hfg. unfold upd. by rewrite Hfg. Qed.
Lemma exact_drop n a f live : exact f live -> f n = Some a -> exact (upd n None f) (fun b => live b /\ b <> a).
Proof.
  intros [He Hi] Hn. split.
  - intros b. rewrite He. split.
    + intros [[m Hm] Hb]. exists m. rewrite upd_other; [done|]. intros ->. congruence.
    + intros [m Hm]. unfold upd in Hm. destruct (decide (m = n)) as [|Hmn]; [done|]. split; [by exists m|].
      intros ->. apply Hmn. by apply (Hi m n a).
  - intros m m' b. unfold upd. destruct (decide (m = n)), (decide (m' = n)); try done. apply Hi.
Qed.
Lemma exact_none n f live : exact f live -> f n = None -> exact (upd n None f) live.
Proof.
  intros Hx Hn. apply (exact_ext f _ live); [|done|done]. intros m. unfold upd. by destruct (decide (m = n)) as [->|].
Qed.
Lemma exact_give n a f live : exact f live -> f n = None -> ~ live a -> exact (upd n (Some a) f) (fun b => live b \/ b = a).
Proof.
  intros [He Hi] Hn Ha. split.
  - intros b. rewrite He. split.
    + intros [[m Hm]| ->]; [exists m; rewrite upd_other; [done|congruence]|exists n; apply upd_same].
    + intros [m Hm]. unfold upd in Hm. destruct (decide (m = n)); [right; congruence|left; by exists m].
  - intros m m' b. unfold upd. destruct (decide (m = n)) as [->|], (decide (m' = n)) as [->|]; try done.
    + intros [= ->] Hm'. exfalso. apply Ha, He. by exists m'.
    + intros Hm [= ->]. exfalso. apply Ha, He. by exists m.
    + apply Hi.
Qed.
Lemma exact_move n n' f live : exact f live -> n <> n' -> f n = None -> exact (upd n (f n') (upd n' None f)) live.
Proof.
  intros [He Hi] Hne Hn. split.
  - intros a. rewrite He. split.
    + intros [m Hm]. destruct (decide (m = n')) as [->|]; [exists n; by rewrite upd_same|]. exists m. rewrite !upd_other; [done|done|congruence].
    + intros [m Hm]. unfold upd in Hm. destruct (decide (m = n)); [by exists n'|]. destruct (decide (m = n')); [done|by exists m].
  - intros m m' a. unfold upd. destruct (decide (m = n)) as [->|], (decide (m' = n)) as [->|]; try done.
    + destruct (decide (m' = n')) as [|Hx]; [done|]. intros H1 H2. by destruct Hx; apply (Hi m' n' a).
    + destruct (decide (m = n')) as [|Hx]; [done|]. intros H1 H2. by destruct Hx; apply (Hi m n' a).
    + destruct (decide (m = n')), (decide (m' = n')); try done. apply Hi.
Qed.

Definition engine_ssl (es : store) (n : nat) : option nat := es !! n ≫= ssl_.
Definition engine_bio (es : store) (n : nat) : option nat := es !! n ≫= ext_bio_.
Definition ssl_callback (h : heap) (s : nat) : option nat := ssls h !! s ≫= app_data.

Record owns (es : store) (h : heap) : Prop := {
  ow_ssls : exact (engine_ssl es) (fun s => is_Some (ssls h !! s));
  ow_bios : exact (engine_bio es) (fun b => b ∈ bios h);
  ow_callbacks : exact (ssl_callback h) (fun c => is_Some (callbacks h !! c));
}.

Lemma engine_ssl_insert es n e m : engine_ssl (<[n := e]> es) m = upd n (ssl_ e) (engine_ssl es) m.
Proof.
  unfold engine_ssl, upd. destruct (decide (m = n)) as [->|]; [by rewrite lookup_insert_eq|by rewrite lookup_insert_ne].
Qed.
Lemma engine_bio_insert es n e m : engine_bio (<[n := e]> es) m = upd n (ext_bio_ e) (engine_bio es) m.
Proof.
  unfold engine_bio, upd. destruct (decide (m = n)) as [->|]; [by rewrite lookup_insert_eq|by rewrite lookup_insert_ne].
Qed.
Lemma owns_moves es es' h : (forall n, engine_ssl es' n = engine_ssl es n) -> (forall n, engine_bio es' n = engine_bio es n) -> owns es h -> owns es' h.
Proof. intros Hs Hb [H1 H2 H3]. split; [by eapply exact_ext; [exact Hs| |exact H1]|by eapply exact_ext; [exact Hb| |exact H2]|done]. Qed.
Lemma owns_delete es n h : owns (<[n := no_engine]> es) h -> owns (delete n es) h.
Proof.
  apply owns_moves; intros m; [rewrite engine_ssl_insert|rewrite engine_bio_insert];
    unfold engine_ssl, engine_bio, upd; (destruct (decide (m = n)) as [->|Hm]; [by rewrite lookup_delete_eq|by rewrite lookup_delete_ne]).
Qed.
(** A variable that owns nothing takes over what another has. *)
Lemma owns_take es n n' other h : owns es h -> n <> n' -> es !! n' = Some other -> engine_ssl es n = None -> engine_bio es n = None ->
  owns (<[n := other]> (<[n' := no_engine]> es)) h.
Proof.
  intros [H1 H2 H3] Hne Hn' Hs Hb. split; [| |done].
  - eapply exact_at; [|apply (exact_move n n' _ _ H1); [done|exact Hs]]. intros m. rewrite engine_ssl_insert.
    assert (engine_ssl es n' = ssl_ other) as -> by (unfold engine_ssl; by rewrite Hn'). apply upd_ext. intros i. apply engine_ssl_insert.
  - eapply exact_at; [|apply (exact_move n n' _ _ H2); [done|exact Hb]]. intros m. rewrite engine_bio_insert.
    assert (engine_bio es n' = ext_bio_ other) as -> by (unfold engine_bio; by rewrite Hn'). apply upd_ext. intros i. apply engine_bio_insert.
Qed.

Lemma ssl_callback_lookup h s o : ssls h !! s = Some o -> ssl_callback h s = app_data o.
Proof. unfold ssl_callback. by intros ->. Qed.

(** The callback of a live SSL object can be deleted. *)
Lemma delete_callback_ok es h s o : owns es h -> ssls h !! s = Some o ->
  exists h', delete_callback s h = Some h' /\ ssls h' = ssls h /\ bios h' = bios h /\
    exact (upd s None (ssl_callback h)) (fun c => is_Some (callbacks h' !! c)).
Proof.
  intros [_ _ Hc] Ho. unfold delete_callback. rewrite Ho. pose proof (ssl_callback_lookup h s o Ho) as Hs.
  destruct (app_data o) as [c|]; [|exists h; split_and!; [done..|by apply exact_none]].
  destruct (proj2 (proj1 Hc c) (ex_intro _ s Hs)) as [f Hf]. rewrite Hf. eexists. split_and!; [done..|]. cbn.
  eapply exact_ext; [done| |by apply (exact_drop s c)]. intros a. cbn beta. destruct (decide (a = c)) as [->|Hne].
  - rewrite lookup_delete_eq. split; [by intros [? [=]]|by intros [_ ?]].
  - rewrite lookup_delete_ne by done. tauto.
Qed.

Lemma destroy_engine_ok es h n e : owns es h -> es !! n = Some e ->
  exists h', destroy e h = Some h' /\ owns (<[n := no_engine]> es) h'.
Proof.
  intros Hown Hn. pose proof Hown as [Hs Hb Hc]. assert (engine_ssl es n = ssl_ e /\ engine_bio es n = ext_bio_ e) as [Hsn Hbn]
    by (unfold engine_ssl, engine_bio; by rewrite Hn).
  assert (forall h1, (match ext_bio_ e with Some b => b ∈ bios h1 | None => True end) ->
    exists h2, match ext_bio_ e with Some b => bio_free b h1 | None => Some h1 end = Some h2 /\ ssls h2 = ssls h1 /\ callbacks h2 = callbacks h1 /\
      bios h2 = match ext_bio_ e with Some b => bios h1 ∖ {[b]} | None => bios h1 end) as Hfree.
  { intros h1 H1. destruct (ext_bio_ e) as [b|]; [|by exists h1]. unfold bio_free. rewrite decide_True by done. by eexists. }
  assert (match ext_bio_ e with Some b => b ∈ bios h | None => True end) as Hbin.
  { destruct (ext_bio_ e) as [b|]; [|done]. apply Hb. by exists n. }
  assert (forall h', bios h' = (match ext_bio_ e with Some b => bios h ∖ {[b]} | None => bios h end) ->
    exact (engine_bio (<[n := no_engine]> es)) (fun b => b ∈ bios h')) as Hbios.
  { intros h' ->. destruct (ext_bio_ e) as [b|].
    - eapply exact_ext; [apply engine_bio_insert| |by apply (exact_drop n b)]. intros a. cbn beta. rewrite elem_of_difference, elem_of_singleton. done.
    - eapply exact_at; [apply engine_bio_insert|by apply exact_none]. }
  unfold destroy. destruct (ssl_ e) as [s|] eqn:Hse.
  - destruct (proj2 (proj1 Hs s) (ex_intro _ n Hsn)) as [o Ho].
    destruct (delete_callback_ok es h s o Hown Ho) as (h1 & -> & Hs1 & Hb1 & Hc1). cbn [mbind option_bind].
    destruct (Hfree (clear_app_data s h1)) as (h2 & -> & Hs2 & Hc2 & Hb2); [cbn; by rewrite Hb1|]. cbn [option_bind mbind].
    assert (ssls h2 = alter (set_app_data None) s (ssls h)) as Hs3 by (rewrite Hs2; cbn; by rewrite Hs1).
    unfold ssl_free. rewrite Hs3, lookup_alter_eq, Ho. cbn [fmap option_fmap option_map]. eexists. split; [done|]. split.
    + eapply exact_ext; [apply engine_ssl_insert| |by apply (exact_drop n s)]. intros a. cbn. rewrite Hs3.
      destruct (decide (a = s)) as [->|Hne]; [rewrite lookup_delete_eq; split; [by intros [? [=]]|by intros [_ ?]]|].
      rewrite lookup_delete_ne, lookup_alter_ne by done. tauto.
    + apply Hbios. cbn. rewrite Hb2. cbn. by rewrite Hb1.
    + eapply exact_ext; [| |exact Hc1].
      * intros m. unfold ssl_callback, upd; cbn. rewrite Hs3. destruct (decide (m = s)) as [->|]; [by rewrite lookup_delete_eq|].
        by rewrite lookup_delete_ne, lookup_alter_ne.
      * intros a. cbn. by rewrite Hc2.
  - cbn [mbind option_bind]. destruct (Hfree h Hbin) as (h2 & -> & Hs2 & Hc2 & Hb2). cbn [mbind option_bind]. exists h2. split; [done|]. split.
    + eapply exact_ext; [apply engine_ssl_insert| |by apply exact_none]. intros a. cbn beta. by rewrite Hs2.
    + by apply Hbios.
    + eapply exact_ext; [| |exact Hc]; [intros m; unfold ssl_callback; by rewrite Hs2|intros a; cbn beta; by rewrite Hc2].
Qed.

Lemma new_engine_ok es h n e h' : owns es h -> es !! n = None -> new_engine true h = (Some e, h') -> owns (<[n := e]> es) h'.
Proof.
  intros [Hs Hb Hc] Hn [= <- <-]. set (s := fresh (dom (ssls h))). set (b := fresh (bios h)).
  assert (ssls h !! s = None) as Hfs by (apply not_elem_of_dom, is_fresh). assert (b ∉ bios h) as Hfb by apply is_fresh. split; cbn.
  - eapply exact_ext; [apply engine_ssl_insert| |apply (exact_give n s _ _ Hs)].
    + intros a. cbn. rewrite lookup_insert_is_Some. destruct (decide (a = s)); naive_solver.
    + unfold engine_ssl. by rewrite Hn.
    + rewrite Hfs. by intros [? [=]].
  - eapply exact_ext; [apply engine_bio_insert| |apply (exact_give n b _ _ Hb)].
    + intros a. cbn. set_solver.
    + unfold engine_bio. by rewrite Hn.
    + done.
  - eapply exact_at; [|exact Hc]. intros m. unfold ssl_callback. cbn.
    destruct (decide (m = s)) as [->|]; [by rewrite lookup_insert_eq, Hfs|by rewrite lookup_insert_ne].
Qed.

Lemma alter_live (f : ssl_object -> ssl_object) (x : gmap nat ssl_object) s a : is_Some (alter f s x !! a) <-> is_Some (x !! a).
Proof. destruct (decide (a = s)) as [->|]; [rewrite lookup_alter_eq; by rewrite fmap_is_Some|by rewrite lookup_alter_ne]. Qed.

(** Setting what is not a callback. *)
Lemma owns_alter es h s f : (forall o, app_data (f o) = app_data o) -> owns es h -> owns es (on_ssls (alter f s) h).
Proof.
  intros Hf [Hs Hb Hc]. split; cbn; [|done|].
  - eapply exact_ext; [done| |exact Hs]. intros a. apply alter_live.
  - eapply exact_at; [|exact Hc]. intros m. unfold ssl_callback. cbn. destruct (decide (m = s)) as [->|]; [|by rewrite lookup_alter_ne].
    rewrite lookup_alter_eq. destruct (ssls h !! s); [cbn; apply Hf|done].
Qed.

(** The new callback is made before the old one is deleted. *)
Lemma delete_callback_made s h c f : ssl_callback h s <> Some c ->
  delete_callback s (set_callbacks (<[c := f]> (callbacks h)) h) = h' ← delete_callback s h; Some (set_callbacks (<[c := f]> (callbacks h')) h').
Proof.
  unfold delete_callback, ssl_callback. cbn. destruct (ssls h !! s) as [o|]; [|done]. cbn. destruct (app_data o) as [c'|]; [|done].
  intros Hne. rewrite lookup_insert_ne by congruence. destruct (callbacks h !! c'); [|done]. cbn. by rewrite delete_insert_ne by congruence.
Qed.

(** The callback that is made is not the one the SSL object has. *)
Lemma made_callback es h s : owns es h -> callbacks h !! fresh (dom (callbacks h)) = None /\ ssl_callback h s <> Some (fresh (dom (callbacks h))).
Proof.
  intros [_ _ Hc]. assert (callbacks h !! fresh (dom (callbacks h)) = None) as Hfc by (apply not_elem_of_dom, is_fresh). split; [done|].
  intros Hsc. destruct (proj2 (proj1 Hc _) (ex_intro _ s Hsc)) as [? Hx]. congruence.
Qed.

Lemma set_verify_callback_ok es h n e s f : owns es h -> es !! n = Some e -> ssl_ e = Some s ->
  exists h', set_verify_callback f e h = Some h' /\ owns es h'.
Proof.
  intros Hown Hn He. pose proof Hown as [Hs Hb Hc]. destruct (made_callback es h s Hown) as [Hfc Hsc]. set (c := fresh (dom (callbacks h))) in *.
  destruct (proj2 (proj1 Hs s)) as [o Ho]; [exists n; unfold engine_ssl; by rewrite Hn|].
  destruct (delete_callback_ok es h s o Hown Ho) as (h1 & Hd & Hs1 & Hb1 & Hc1).
  unfold set_verify_callback. cbv zeta. fold c. rewrite He. cbn [mbind option_bind]. rewrite delete_callback_made, Hd by done. cbn [mbind option_bind].
  eexists. split; [done|]. split; cbn.
  - eapply exact_ext; [done| |exact Hs]. intros a. rewrite Hs1. apply alter_live.
  - by rewrite Hb1.
  - assert (callbacks h1 !! c = None) as Hc2.
    { unfold delete_callback in Hd. rewrite Ho in Hd. destruct (app_data o) as [c'|]; [|congruence].
      destruct (callbacks h !! c'); [|done]. injection Hd as <-. cbn. apply lookup_delete_None. by right. }
    eapply exact_ext; [| |apply (exact_give s c _ _ Hc1); [apply upd_same|rewrite Hc2; by intros [? [=]]]].
    + intros m. unfold ssl_callback, upd. cbn. rewrite Hs1. destruct (decide (m = s)) as [->|]; [by rewrite lookup_alter_eq, Ho|by rewrite lookup_alter_ne].
    + intros a. cbn beta. rewrite lookup_insert_is_Some. destruct (decide (a = c)); naive_solver.
Qed.

(** What it leaves: the mode as it was, and the callback to ask. *)
Lemma set_verify_callback_sets es h e s f o h' : owns es h -> ssl_ e = Some s -> ssls h !! s = Some o -> set_verify_callback f e h = Some h' ->
  exists c, ssls h' !! s = Some (SslObject (Some c) (mode_ o) (depth_ o) true) /\ callbacks h' !! c = Some f.
Proof.
  intros Hown He Ho. destruct (made_callback es h s Hown) as [Hfc Hsc]. unfold set_verify_callback. cbv zeta. rewrite He. cbn [mbind option_bind].
  rewrite delete_callback_made by done. destruct (delete_callback_ok es h s o Hown Ho) as (h1 & -> & Hs1 & _ & _). cbn. intros [= <-].
  exists (fresh (dom (callbacks h))). cbn. by rewrite lookup_alter_eq, Hs1, Ho, lookup_insert_eq.
Qed.

(** One command: nothing is freed twice or used after it was freed, and everything keeps its one owner. *)
Lemma execute_ok c es h : owns es h -> exists es' h', execute c (es, h) = Some (es', h') /\ owns es' h'.
Proof.
  intros Hown. assert (exists es' h', Some (es, h) = Some (es', h') /\ owns es' h') as Hidle by eauto.
  destruct c as [n allocated|n n'|n n'|n v|n d|n f|n]; cbn [execute]; (destruct (es !! n) as [e|] eqn:Hn; [|try exact Hidle]); try exact Hidle.
  - destruct allocated; [|exact Hidle]. destruct (new_engine true h) as [[e|] h'] eqn:He; [|done]. eexists _, _. split; [done|]. by eapply new_engine_ok.
  - destruct (es !! n') as [other|] eqn:Hn'; [|exact Hidle]. eexists _, _. split; [done|].
    apply owns_take; [done|congruence|done|unfold engine_ssl; by rewrite Hn|unfold engine_bio; by rewrite Hn].
  - destruct (es !! n') as [other|] eqn:Hn'; [|exact Hidle]. case_decide as Hne; [exact Hidle|].
    destruct (destroy_engine_ok es h n e Hown Hn) as (h' & Hd & Hown'). unfold move_assign. rewrite Hd. cbn. eexists _, _. split; [done|].
    replace (<[n := other]> (<[n' := no_engine]> es)) with (<[n := other]> (<[n' := no_engine]> (<[n := no_engine]> es)))
      by (rewrite (insert_insert_ne es n' n) by done; apply insert_insert_eq).
    apply owns_take; [done|done|by rewrite lookup_insert_ne|unfold engine_ssl; by rewrite lookup_insert_eq|unfold engine_bio; by rewrite lookup_insert_eq].
  - destruct e as [[s|] b]; [|exact Hidle]. destruct (proj2 (proj1 (ow_ssls _ _ Hown) s)) as [o Ho]; [exists n; unfold engine_ssl; by rewrite Hn|].
    cbn. rewrite Ho. cbn. eexists _, _. split; [done|]. by apply owns_alter.
  - destruct e as [[s|] b]; [|exact Hidle]. destruct (proj2 (proj1 (ow_ssls _ _ Hown) s)) as [o Ho]; [exists n; unfold engine_ssl; by rewrite Hn|].
    cbn. rewrite Ho. cbn. eexists _, _. split; [done|]. by apply owns_alter.
  - destruct e as [[s|] b]; [|exact Hidle]. destruct (set_verify_callback_ok es h n _ s f Hown Hn eq_refl) as (h' & -> & Hown'). cbn. eauto.
  - destruct (destroy_engine_ok es h n e Hown Hn) as (h' & Hd & Hown'). rewrite Hd. cbn. eexists _, _. split; [done|]. by apply owns_delete.
Qed.

Lemma execute_all_ok cs es h : owns es h -> exists es' h', execute_all cs (es, h) = Some (es', h') /\ owns es' h'.
Proof.
  revert es h. induction cs as [|c cs IH]; intros es h Hown; [by eauto|]. cbn [execute_all].
  destruct (execute_ok c es h Hown) as (es1 & h1 & -> & Hown1). cbn [mbind option_bind]. by apply IH.
Qed.

Lemma owns_empty : owns ∅ empty_heap.
Proof.
  split; (split; [|done]); intros a; cbn; unfold engine_ssl, engine_bio, ssl_callback; cbn; setoid_rewrite lookup_empty; cbn;
    (split; [|by intros [? ?]]); [intros [? [=]]|set_solver|intros [? [=]]].
Qed.

(** With no engine left, or none that owns anything, there is nothing left. *)
Definition nothing_owned (es : gmap nat engine) : Prop := forall n e, es !! n = Some e -> e = no_engine.
Lemma owns_nothing es h : owns es h -> nothing_owned es -> h = empty_heap.
Proof.
  intros [Hs Hb Hc] Hnone. destruct h as [ss bs cs]. cbn in *.
  assert (ss = ∅) as ->.
  { apply map_empty. intros s. apply eq_None_not_Some. intros [n Hn]%Hs. unfold engine_ssl in Hn. destruct (es !! n) as [e|] eqn:E; [|done].
    by rewrite (Hnone n e E) in Hn. }
  assert (bs = ∅) as ->.
  { apply set_eq. intros b. split; [|set_solver]. intros [n Hn]%Hb. unfold engine_bio in Hn. destruct (es !! n) as [e|] eqn:E; [|done].
    by rewrite (Hnone n e E) in Hn. }
  assert (cs = ∅) as ->; [|done]. apply map_empty. intros c. apply eq_None_not_Some. intros [s Hn]%Hc. unfold ssl_callback in Hn. cbn in Hn.
  by rewrite lookup_empty in Hn.
Qed.

(** C21: engines may be made, moved from one variable to another, assigned to each other and
    to themselves, given modes, depths and callbacks and destroyed, in any order and with
    [SSL_new] failing when it likes: no SSL object, BIO or callback is ever freed twice or
    used after it was freed; at each moment every SSL object and every BIO that exists
    belongs to exactly one engine, and every callback to exactly one SSL object; and when
    the engines that own something have been destroyed, nothing is left allocated. *)
Theorem engines_own cs : exists es h, execute_all cs (∅, empty_heap) = Some (es, h) /\ owns es h /\ (nothing_owned es -> h = empty_heap).
Proof.
  destruct (execute_all_ok cs ∅ empty_heap owns_empty) as (es & h & He & Hown). exists es, h. split_and!; [done..|]. by apply owns_nothing.
Qed.

Definition lab_commands : list command :=
  [New 0 true; SetCallback 0 (fun _ ok => ok); SetCallback 0 (fun _ _ => true); MoveTo 1 0; New 2 true; SetCallback 2 (fun _ _ => false); New 3 false;
   Assign 2 1; Assign 2 2; SetMode 2 verify_peer_mode; Destroy 0; Destroy 1; Destroy 2].
Lemma engines_own_witness :
  exists es h, execute_all lab_commands (∅, empty_heap) = Some (es, h) /\ owns es h /\ (nothing_owned es -> h = empty_heap).
Proof. apply engines_own. Defined.
Lemma lab_commands_leave : execute_all lab_commands (∅, empty_heap) = Some (∅, empty_heap).
Proof. vm_compute. reflexivity. Qed.

(** ** What the callback is for *)

(** A stream is one of [T]'s, for the host name of the extension, with its engine.  A call
    on an engine without its SSL object has no behaviour: it is left unset. *)
Definition world_of (T : TrustExternal) : Type := @W T * heap.
Definition keeping {T : TrustExternal} {A} (f : @W T -> A * @W T) (wh : world_of T) : A * world_of T := let '(r, w) := f wh.1 in (r, (w, wh.2)).
Definition no_object : exn := runtime_error "".
Definition on_engine {T : TrustExternal} (f : heap -> option heap) (wh : world_of T) : res unit * world_of T :=
  match f wh.2 with Some h => (Ok tt, (wh.1, h)) | None => (Throw no_object, wh) end.

(** [ssl::stream::set_verify_mode] and [set_verify_callback], the latter with
    [host_name_verification(host)]. *)
Definition with_engines (T : TrustExternal) {A : AddressSystem} : TrustExternal := {|
  TrustStore.W := world_of T;
  TrustStore.getenv := fun n wh => @getenv T n wh.1;
  TrustStore.ctx := @ctx T;
  TrustStore.ctx_new := keeping (@ctx_new T);
  TrustStore.ctx_load_verify_file := fun c path => keeping (@ctx_load_verify_file T c path);
  TrustStore.ctx_add_verify_path := fun c path => keeping (@ctx_add_verify_path T c path);
  TrustStore.ctx_set_default_verify_paths := fun c => keeping (@ctx_set_default_verify_paths T c);
  TrustStore.cert := @cert T;
  TrustStore.open_system_store := fun n wh => @open_system_store T n wh.1;
  TrustStore.store_add_cert := fun c crt => keeping (@store_add_cert T c crt);
  TrustStore.stream := @stream T * engine;
  TrustStore.set_tlsext_host_name := fun s host => keeping (@set_tlsext_host_name T s.1 host);
  TrustStore.set_verify_mode := fun s v => on_engine (set_verify_mode v s.2);
  TrustStore.set_verify_callback := fun s host =>
    on_engine (set_verify_callback (fun context preverified => @Address.host_name_verification A context host preverified) s.2);
|}.

(** One call of the verification callback: what OpenSSL thinks of the certificate, and the
    certificate. *)
Definition visit : Type := bool * VerifyContext.

(** OpenSSL's handshake with a mode, a callback and the calls it makes when the callback lets
    it: with [SSL_VERIFY_PEER] a client fails it when a call returns zero, and asks about the
    peer's own certificate, at depth zero. *)
Class PeerVerifier := {
  handshake_verifies : verify_mode -> (visit -> bool) -> list visit -> bool;
  verifies_asks f visits : handshake_verifies verify_peer_mode f visits = true ->
    Forall (fun v => f v = true) visits /\ exists v, v ∈ visits /\ @Address.error_depth v.2 = 0%Z;
}.

(** The answer of the SSL object: its callback's if there is one, OpenSSL's otherwise. *)
Definition answer (s : nat) (h : heap) (v : visit) : bool :=
  match ssls h !! s with
  | Some o => if installed o then default false (verify_callback_function v.1 v.2 s h) else v.1
  | None => false
  end.
Definition handshake_accepts `{PeerVerifier} (e : engine) (h : heap) (visits : list visit) : bool :=
  match s ← ssl_ e; o ← ssls h !! s; Some (s, o) with
  | Some (s, o) => handshake_verifies (mode_ o) (answer s h) visits
  | None => false
  end.

(** The certificate is for the host: for the address if that is what the host is. *)
Definition certificate_for `{AddressSystem} (host : string) (context : VerifyContext) : Prop :=
  if negb (ec_set (Address.make_ec (Address.c_str host)).2) then @Address.check_ip_asc context (Address.c_str host) = 1%Z
  else @Address.check_host context host = 1%Z.

Lemma host_name_verification_true `{AddressSystem} (context : VerifyContext) host preverified :
  @Address.host_name_verification _ context host preverified = true ->
  preverified = true /\ (@Address.error_depth context = 0%Z -> certificate_for host context).
Proof.
  unfold Address.host_name_verification, certificate_for. destruct preverified; [|done]. cbn [negb]. intros Hv. split; [done|]. intros H0. rewrite H0 in Hv. cbn in Hv.
  destruct (Address.make_ec _) as [a ec]. cbn [snd]. by destruct (negb _); apply Z.eqb_eq.
Qed.

Section secure.
  Context {T : TrustExternal} {A : AddressSystem} {P : PeerVerifier} {E : ErrorText}.

Definition heap_of (p : @process (with_engines T)) : heap := (@world (with_engines T) p).2.

(** What [configure_client_stream] leaves on the SSL object of the stream. *)
Lemma configured_object es host s e c o options p p' :
  owns es (heap_of p) -> ssl_ e = Some c -> ssls (heap_of p) !! c = Some o ->
  trust_mode options <> insecure -> verify_peer options = true -> verify_host options = true ->
  @configure_client_stream (with_engines T) (s, e) host options p = (Ok tt, p') ->
  exists n, ssls (heap_of p') !! c = Some (SslObject (Some n) verify_peer_mode (depth_ o) true) /\
    callbacks (heap_of p') !! n = Some (fun context preverified => @Address.host_name_verification A context host preverified).
Proof.
  destruct p as [[w h] cache slot]. cbn [heap_of world snd]. intros Hown He Ho Hm Hp Hh. unfold configure_client_stream. rewrite Hp, Hh.
  rewrite bool_decide_false by done. munfold. unfold ext, ext_val. cbn. unfold keeping, on_engine. cbn.
  destruct (@set_tlsext_host_name T s host w) as [[] w1]; cbn; [|done].
  unfold set_verify_mode. rewrite He. cbn. rewrite Ho. cbn.
  set (h1 := on_ssls _ h). assert (owns es h1) as Hown1 by by apply owns_alter.
  assert (ssls h1 !! c = Some (SslObject (app_data o) verify_peer_mode (depth_ o) (installed o))) as Ho1 by (cbn; by rewrite lookup_alter_eq, Ho).
  destruct (set_verify_callback _ e h1) as [h2|] eqn:Hs; [|done]. intros [= <-]. cbn.
  destruct (set_verify_callback_sets es h1 e c _ _ h2 Hown1 He Ho1 Hs) as (n & Hn & Hc). by exists n.
Qed.

Lemma answer_asks c n h m d f v : ssls h !! c = Some (SslObject (Some n) m d true) -> callbacks h !! n = Some f -> answer c h v = f v.2 v.1.
Proof. intros Hc Hn. unfold answer, verify_callback_function. rewrite Hc. cbn. by rewrite Hn. Qed.

(** C20: whatever options a script gives [async_connect_ssl] that [parse_ssl_options] accepts,
    unless their mode is insecure: once [configure_client_stream] has set up the stream for
    the host, a handshake that OpenSSL lets succeed has had every certificate it asked about
    verified by OpenSSL itself, and among them the peer's own certificate, which is for the
    host - for its address when the host is the text of an address, for its name
    otherwise.  No option turns one of the two checks off without the other. *)
Theorem secure_client_verifies `{CovVar} v options es host s e c p p' visits :
  (forall entries, as_hash_map v = Some entries -> distinct_keys entries) -> parse_ssl_options v = Ok options -> trust_mode options <> insecure ->
  owns es (heap_of p) -> ssl_ e = Some c -> is_Some (ssls (heap_of p) !! c) ->
  @configure_client_stream (with_engines T) (s, e) host options p = (Ok tt, p') ->
  handshake_accepts e (heap_of p') visits = true ->
  Forall (fun v => v.1 = true) visits /\
  exists leaf, leaf ∈ visits /\ @Address.error_depth leaf.2 = 0%Z /\ certificate_for host leaf.2.
Proof.
  intros Hd Hparse Hm Hown He [o Ho] Hconf. destruct (parse_ssl_options_valid v options Hd Hparse) as [[Hhost Hins] _].
  assert (verify_peer options = true) as Hp by (destruct (verify_peer options); [done|by destruct Hm; apply Hins]).
  destruct (configured_object es host s e c o options p p' Hown He Ho Hm Hp ltac:(by rewrite Hhost) Hconf) as (n & Hc & Hn).
  unfold handshake_accepts. rewrite He. cbn. rewrite Hc. cbn. intros [Hall (leaf & Hin & Hleaf)]%verifies_asks.
  assert (forall v, v ∈ visits -> @Address.host_name_verification A v.2 host v.1 = true) as Hans.
  { intros u Hu. rewrite Forall_forall in Hall. by rewrite <- (Hall u Hu), (answer_asks c n (heap_of p') _ _ _ u Hc Hn). }
  split; [apply Forall_forall; intros u Hu; by apply Hans, host_name_verification_true in Hu as [? _]|].
  exists leaf. split_and!; [done..|]. apply Hans, host_name_verification_true in Hin as [_ Hfor]. by apply Hfor.
Qed.
End secure.

(** ** An example client *)

#[local] Instance lab_trust : TrustExternal := {|
  TrustStore.W := unit; TrustStore.getenv := fun _ _ => None; TrustStore.ctx := unit; TrustStore.ctx_new := fun w => (Ok tt, w);
  TrustStore.ctx_load_verify_file := fun _ _ w => (Ok tt, w); TrustStore.ctx_add_verify_path := fun _ _ w => (Ok tt, w);
  TrustStore.ctx_set_default_verify_paths := fun _ w => (Ok tt, w); TrustStore.cert := unit; TrustStore.open_system_store := fun _ _ => None;
  TrustStore.store_add_cert := fun _ _ w => (true, w); TrustStore.stream := unit; TrustStore.set_tlsext_host_name := fun _ _ w => (true, w);
  TrustStore.set_verify_mode := fun _ _ w => (Ok tt, w); TrustStore.set_verify_callback := fun _ _ w => (Ok tt, w) |}.

(** Addresses are not recognised: every host is a name. *)
#[local] Instance lab_names : AddressSystem := {|
  Address.little_endian := true; Address.sys_inet_ntop := fun _ _ _ => inr SocketOps.no_buffer_space; Address.sys_inet_pton := fun _ _ => None;
  Address.sys_if_indextoname := fun _ => None; Address.sys_if_nametoindex := fun _ => 0%Z |}.

#[local, refine] Instance lab_verifier : PeerVerifier := {|
  handshake_verifies m f visits := match m with
    | verify_none_mode => true
    | verify_peer_mode => forallb f visits && existsb (fun v => (@Address.error_depth v.2 =? 0)%Z) visits end |}.
Proof.
  intros f visits [Hf Hd]%andb_prop. split; [apply Forall_forall; intros v Hv; apply (proj1 (forallb_forall _ _) Hf); by apply list_elem_of_In|].
  apply existsb_exists in Hd as (v & Hv & Hz). exists v. split; [by apply list_elem_of_In|lia].
Defined.

Definition lab_certificate (depth : Z) (names : list string) : VerifyContext :=
  {| Address.error_depth := depth; Address.check_ip_asc := fun _ => 0%Z; Address.check_host := fun host => if decide (host ∈ names) then 1%Z else 0%Z |}.
Definition lab_chain : list visit :=
  [(true, lab_certificate 2 []); (true, lab_certificate 1 []); (true, lab_certificate 0 ["covscript.org"; "www.covscript.org"]%string)].

Definition lab_heap : heap := (new_engine true empty_heap).2.
Definition lab_engine : engine := default no_engine (new_engine true empty_heap).1.
Definition lab_start : @process (with_engines lab_trust) := @Process (with_engines lab_trust) (tt, lab_heap) None unset_report.
Definition lab_options : ssl_options := SslOptions custom true true "ca.pem" "".
Definition lab_client (host : string) : @process (with_engines lab_trust) :=
  (@configure_client_stream (with_engines lab_trust) (tt, lab_engine) host lab_options lab_start).2.

(** The chain is accepted for its host and for no other. *)
Lemma lab_client_checks : handshake_accepts lab_engine (heap_of (lab_client "covscript.org")) lab_chain = true /\
  handshake_accepts lab_engine (heap_of (lab_client "covscript.com")) lab_chain = false.
Proof. split; vm_compute; reflexivity. Qed.

Lemma lab_owns : owns (<[0 := lab_engine]> ∅) lab_heap.
Proof. by eapply new_engine_ok; [exact owns_empty|..]. Qed.

Lemma secure_client_verifies_witness :
  Forall (fun v : visit => v.1 = true) lab_chain /\
  exists leaf, leaf ∈ lab_chain /\ @Address.error_depth leaf.2 = 0%Z /\ certificate_for "covscript.org" leaf.2.
Proof.
  apply (@secure_client_verifies lab_trust lab_names lab_verifier script_var (SV_map custom_entries) lab_options (<[0 := lab_engine]> ∅) "covscript.org" tt lab_engine
    (default 0 (ssl_ lab_engine)) lab_start
    (lab_client "covscript.org") lab_chain).
  - intros es [= <-]. apply custom_entries_distinct.
  - reflexivity.
  - done.
  - exact lab_owns.
  - reflexivity.
  - by vm_compute; eexists.
  - reflexivity.
  - vm_compute. reflexivity.
Defined.
