(* ===== verification/TlsIo.v ===== *)
(** * [asio::ssl::detail::io_op]: asynchronous operations on a TLS stream

    Several operations may be under way on one stream.  Each is an [io_op] ([ssl/detail/io.hpp]):
    it calls the engine, and when the engine wants input or output it starts an operation on
    the transport or, when another one has done so, waits on one of the two timers of
    [stream_core] ([pending_read_], [pending_write_]) until that one releases it.

    The first theorem is about one operation: it does what the synchronous [io] does.  The
    others are about several operations on one stream ([tls_system]). *)
From S2P Require Import Prelude.
From S2P Require Transfer.
From S2P Require Import TcpSocket TlsEngine.
Open Scope nat_scope.

(** ** [stream_core] *)

(** A timer that expires never ([pos_infin]) or at once ([neg_infin]), with the operations
    waiting on it, and those whose wait has been cancelled and whose handler will run. *)
Record wait_timer := WaitTimer { infinite : bool; waiting : list nat; cancelled : list nat }.
Definition expired_timer : wait_timer := WaitTimer false [] [].
Definition expires_at (pos_infin : bool) (t : wait_timer) : wait_timer :=
  WaitTimer pos_infin [] (cancelled t ++ waiting t).
Definition async_wait (i : nat) (t : wait_timer) : wait_timer :=
  WaitTimer (infinite t) (waiting t ++ [i]) (cancelled t).
Definition handler_called (i : nat) (t : wait_timer) : wait_timer :=
  WaitTimer (infinite t) (waiting t) (filter (fun j => j <> i) (cancelled t)).

(** [io_op]: the error, the count and the data are those of [progress]. *)
Record io_op := IoOp { op_ : tls_op; want_ : want; progress_ : progress }.

(** What [operator()] does before it returns. *)
Inductive io_action :=
  | ReadTransport                          (** [async_read_some(input_buffer_)] *)
  | WriteTransport (output : list ascii)   (** [async_write] *)
  | WaitRead                               (** [pending_read_.async_wait] *)
  | WaitWrite
  | ZeroRead                               (** [async_read_some] of no bytes *)
  | CallHandler (ec : error_code) (n : nat) (data : list ascii).

(** How it is called again: by the transport, or by a timer ([~size_t(0)]). *)
Inductive completion := Transferred (ec : error_code) (input : list ascii) | TimerFired.

Section io_op.
Context `{OpenSsl}.

Record stream_core := StreamCore { tls : tls_core; pending_read_ : wait_timer; pending_write_ : wait_timer }.
Definition new_core (c : tls_core) : stream_core := StreamCore c expired_timer expired_timer.
Definition set_tls_core (s : ssl) (input : list ascii) (c : stream_core) : stream_core :=
  StreamCore (TlsCore s input) (pending_read_ c) (pending_write_ c).
Definition on_pending_read (f : wait_timer -> wait_timer) (c : stream_core) : stream_core :=
  StreamCore (tls c) (f (pending_read_ c)) (pending_write_ c).
Definition on_pending_write (f : wait_timer -> wait_timer) (c : stream_core) : stream_core :=
  StreamCore (tls c) (pending_read_ c) (f (pending_write_ c)).

(** [op_.call_handler(handler_, map_error_code(ec_), ec_ ? 0 : bytes_transferred_)] *)
Definition call_handler (o : io_op) (ec : error_code) (c : stream_core) : io_action :=
  let p := progress_ o in
  if ec_set ec then CallHandler (complete (op_ o) (map_error_code ec (engine_ (tls c)))) 0 []
  else CallHandler (complete (op_ o) (map_error_code ec (engine_ (tls c)))) (bytes_transferred p) (op_data p).

Definition io_step : Type := io_action * io_op * stream_core.

(** The loop from [case 1]; [ec] is the argument of [operator()], which the label
    [default] merges into [ec_].  [None] when the fuel runs out. *)
Fixpoint io_iterate (fuel : nat) (start : bool) (ec : error_code) (o : io_op) (c : stream_core) : option io_step :=
  match fuel with
  | O => None
  | S fuel =>
      let '((w, p), s) := op_call (op_ o) (progress_ o) (engine_ (tls c)) in
      let o := IoOp (op_ o) w p in
      let c := set_tls_core s (input_ (tls c)) c in
      match w with
      | want_input_and_retry =>
          if negb (length (input_ (tls c)) =? 0) then
            let '(rest, s) := put_input (input_ (tls c)) s in
            let c := set_tls_core s rest c in
            if ec_set (op_ec p) then Some (call_handler o (op_ec p) c, o, c) else io_iterate fuel start ec o c
          else if infinite (pending_read_ c) then Some (WaitRead, o, c)
          else Some (ReadTransport, o, on_pending_read (expires_at true) c)
      | want_output_and_retry | want_output =>
          if infinite (pending_write_ c) then Some (WaitWrite, o, c)
          else
            let '(out, s) := get_output max_tls_record_size s in
            Some (WriteTransport out, o, on_pending_write (expires_at true) (set_tls_core s (input_ (tls c)) c))
      | want_nothing =>
          if start then Some (ZeroRead, o, c) else Some (call_handler o (first_error (op_ec p) ec) c, o, c)
      end
  end.

(** From the label [default]; [aborted]: [cancelled() != none]. *)
Definition io_resume (fuel : nat) (aborted : bool) (x : completion) (o : io_op) (c : stream_core) : option io_step :=
  let '(ec, input, ec_) :=
    match x with
    | Transferred ec input => (ec, input, first_error (op_ec (progress_ o)) ec)
    | TimerFired => (Some operation_aborted, [], op_ec (progress_ o))
    end in
  let retry c :=
    if aborted then Some (call_handler o (Some operation_aborted) c, o, c)
    else if ec_set ec_ then Some (call_handler o ec_ c, o, c)
    else io_iterate fuel false ec o c in
  match want_ o with
  | want_input_and_retry =>
      let '(rest, s) := put_input input (engine_ (tls c)) in
      retry (on_pending_read (expires_at false) (set_tls_core s rest c))
  | want_output_and_retry => retry (on_pending_write (expires_at false) c)
  | want_output =>
      let c := on_pending_write (expires_at false) c in Some (call_handler o ec_ c, o, c)
  | want_nothing => Some (call_handler o ec_ c, o, c)
  end.

(** [async_io]: [operator()(error_code(), 0, 1)]. *)
Definition io_start (fuel : nat) (op : tls_op) (c : stream_core) : option io_step :=
  io_iterate fuel true None (IoOp op want_nothing no_progress) c.

(** ** One operation against the transport *)

Section drive.
Context {T : Type} (next_read_some : nat -> T -> (list ascii * error_code) * T)
  (next_write_some : list ascii -> T -> (nat * error_code) * T).

Fixpoint io_drive (fuel : nat) (x : io_step) (w : T) : option ((error_code * nat * list ascii) * (stream_core * T)) :=
  let '(act, o, c) := x in
  match act with
  | CallHandler ec n data => Some ((ec, n, data), (c, w))
  | _ =>
      match fuel with
      | O => None
      | S fuel =>
          let resume ec input w :=
            match io_resume fuel false (Transferred ec input) o c with Some x => io_drive fuel x w | None => None end in
          match act with
          | ReadTransport => let '((b, ec), w) := next_read_some max_tls_record_size w in resume ec b w
          | WriteTransport out =>
              match next_write next_write_some out w with Some (ec, w) => resume ec [] w | None => None end
          | ZeroRead => resume None [] w
          | _ => None
          end
      end
  end.
Definition async_io (fuel : nat) (op : tls_op) (c : tls_core) (w : T)
    : option ((error_code * nat * list ascii) * (stream_core * T)) :=
  match io_start fuel op (new_core c) with Some x => io_drive fuel x w | None => None end.

(** What the handler is told where the synchronous call gives [r]. *)
Definition handler_report (r : error_code * nat * list ascii) : error_code * nat * list ascii :=
  let '(ec, n, data) := r in if ec_set ec then (ec, 0, []) else (ec, n, data).
End drive.
End io_op.

(** ** It does what the synchronous operation does *)

Section agree.
Context `{OpenSsl}.
Context {T : Type} (next_read_some : nat -> T -> (list ascii * error_code) * T)
  (next_write_some : list ascii -> T -> (nat * error_code) * T).

Lemma shutdown_counts_nothing p s w p' s' : op_call ShutdownOp p s = ((w, p'), s') ->
  bytes_transferred p' = 0 /\ op_data p' = op_data p.
Proof.
  unfold op_call, handshake_op, shutdown_op, read_op, write_op. unfold engine_shutdown, perform. destruct (do_shutdown (err_clear_error s)) as [[r d] s1].
  destruct (err_get_error s1) as [sys s2]. rewrite andb_false_r. cbn [bytes_transferred op_data].
  repeat case_match; by intros [= _ <- _].
Qed.

Lemma first_error_r ec : first_error ec None = ec.
Proof. by destruct ec. Qed.

(** The drive stops at the handler, with a result or without. *)
Lemma drive_done k o ec c w : (op_ o = ShutdownOp -> bytes_transferred (progress_ o) = 0 /\ op_data (progress_ o) = []) ->
  io_drive next_read_some next_write_some k (call_handler o ec c, o, c) w =
    Some (handler_report (complete (op_ o) (map_error_code ec (engine_ (tls c))), bytes_transferred (progress_ o), op_data (progress_ o)), (c, w)).
Proof.
  intros Hsh. unfold handler_report, call_handler. destruct (ec_set ec) eqn:He.
  - destruct (complete (op_ o) (map_error_code ec (engine_ (tls c)))) as [e|] eqn:Hc; [by destruct k|]. cbn.
    apply complete_none in Hc as [->%map_error_code_none|[Hop _]]; [done|]. destruct (Hsh Hop) as [-> ->]. by destruct k.
  - destruct ec; [done|]. assert (map_error_code None (engine_ (tls c)) = None) as -> by by apply map_error_code_none.
    by destruct (op_ o), k.
Qed.

Lemma drive_failed k o ec c w : ec_set ec = true ->
  io_drive next_read_some next_write_some k (call_handler o ec c, o, c) w =
    Some (handler_report (complete (op_ o) (map_error_code ec (engine_ (tls c))), 0, []), (c, w)).
Proof.
  intros He. unfold handler_report, call_handler. rewrite He.
  destruct k; cbn; by destruct (ec_set (complete (op_ o) (map_error_code ec (engine_ (tls c))))).
Qed.

Lemma io_agrees_from n : forall op p c w r c' w' w0 start m k, (op = ShutdownOp -> op_data p = []) ->
  io_loop next_read_some next_write_some n op p c w = Some (r, (c', w')) -> n <= m -> n <= k ->
  exists x, io_iterate m start None (IoOp op w0 p) (new_core c) = Some x /\
    io_drive next_read_some next_write_some k x w = Some (handler_report r, (new_core c', w')).
Proof.
  induction n as [|n IH]; intros op p c w r c' w' w0 start m k Hsh Hio Hm Hk; cbn [io_loop] in Hio; [done|].
  destruct m as [|m]; [lia|]. destruct k as [|k]; [lia|]. cbn [io_iterate op_ progress_ tls new_core].
  destruct (op_call op p (engine_ c)) as [[wnt p1] s] eqn:Hop.
  assert (op = ShutdownOp -> bytes_transferred p1 = 0 /\ op_data p1 = []) as Hsh1.
  { intros ->. apply shutdown_counts_nothing in Hop as [? Hd]. split; [done|]. rewrite Hd. auto. }
  unfold set_tls_core; cbn [input_ tls new_core infinite pending_read_ pending_write_ expired_timer].
  destruct wnt.
  - destruct (Nat.eqb_spec (length (input_ c)) 0) as [Hl|Hl]; cbn [negb] in *.
    + eexists. split; [reflexivity|]. cbn [io_drive]. destruct (next_read_some max_tls_record_size w) as [[b io_ec] w1].
      cbn [io_resume want_ progress_ tls on_pending_read set_tls_core engine_ new_core].
      unfold io_resume. cbn [io_resume want_ progress_ tls on_pending_read set_tls_core engine_ new_core op_].
      destruct (put_input b s) as [rest s1]. destruct (ec_set (first_error (op_ec p1) io_ec)) eqn:Hec.
      * injection Hio as <- <- <-. exact (drive_failed _ (IoOp op _ p1) _ _ _ Hec).
      * assert (io_ec = None) as -> by (unfold first_error in Hec; destruct (ec_set (op_ec p1)) eqn:Hx; [congruence|by destruct io_ec]).
        destruct (IH op p1 _ _ r c' w' want_input_and_retry false k k ltac:(intros; by apply Hsh1) Hio ltac:(lia) ltac:(lia)) as (x & Hx & Hd).
        match goal with |- context [io_iterate k false None _ ?c0] => change c0 with (new_core (TlsCore s1 rest)) end. rewrite Hx. exact Hd.
    + destruct (put_input (input_ c) s) as [rest s1]. rewrite first_error_r in Hio. destruct (ec_set (op_ec p1)) eqn:Hec.
      * eexists. split; [reflexivity|]. injection Hio as <- <- <-. exact (drive_failed _ (IoOp op _ p1) _ _ _ Hec).
      * destruct (IH op p1 _ _ r c' w' want_input_and_retry start m (S k) ltac:(intros; by apply Hsh1) Hio ltac:(lia) ltac:(lia)) as (x & Hx & Hd).
        exists x. split; [exact Hx|exact Hd].
  - cbn [infinite pending_write_ new_core expired_timer set_tls_core]. unfold write_output in Hio. destruct (get_output max_tls_record_size s) as [out s1].
    eexists. split; [reflexivity|]. cbn [io_drive]. destruct (next_write next_write_some out w) as [[io_ec w1]|]; [|done].
    unfold io_resume. cbn [want_ progress_ op_]. destruct (ec_set (first_error (op_ec p1) io_ec)) eqn:Hec.
    + injection Hio as <- <- <-. exact (drive_failed _ (IoOp op _ p1) _ _ _ Hec).
    + assert (io_ec = None) as -> by (unfold first_error in Hec; destruct (ec_set (op_ec p1)) eqn:Hx; [congruence|by destruct io_ec]).
      destruct (IH op p1 _ _ r c' w' want_output_and_retry false k k ltac:(intros; by apply Hsh1) Hio ltac:(lia) ltac:(lia)) as (x & Hx & Hd).
      match goal with |- context [io_iterate k false None _ ?c0] => change c0 with (new_core (TlsCore s1 (input_ c))) end. rewrite Hx. exact Hd.
  - injection Hio as <- <- <-. destruct start.
    + eexists. split; [reflexivity|]. cbn [io_drive]. unfold io_resume. cbn [want_ progress_ op_]. rewrite first_error_r.
      exact (drive_done _ (IoOp op _ p1) _ _ _ Hsh1).
    + eexists. split; [reflexivity|]. rewrite first_error_r.
      exact (drive_done _ (IoOp op _ p1) _ _ _ Hsh1).
  - cbn [infinite pending_write_ new_core expired_timer set_tls_core]. unfold write_output in Hio. destruct (get_output max_tls_record_size s) as [out s1].
    eexists. split; [reflexivity|]. cbn [io_drive]. destruct (next_write next_write_some out w) as [[io_ec w1]|]; [|done].
    unfold io_resume. cbn [want_ progress_ op_]. injection Hio as <- <- <-.
    exact (drive_done _ (IoOp op _ p1) _ _ _ Hsh1).
Qed.

(** C22: an asynchronous operation that has the stream to itself does what the synchronous
    one does: it makes the same calls, leaves the same stream and transport, and its
    handler gets the same error, count and data, except that the count is zero whenever
    there is an error. *)
Theorem tls_async_agrees n op c w r c' w' :
  io next_read_some next_write_some n op c w = Some (r, (c', w')) ->
  async_io next_read_some next_write_some n op c w = Some (handler_report r, (new_core c', w')).
Proof.
  intros Hio. unfold async_io, io_start.
  destruct (io_agrees_from n op no_progress c w r c' w' want_nothing true n n ltac:(done) Hio ltac:(lia) ltac:(lia)) as (x & -> & Hd).
  exact Hd.
Qed.
End agree.

(** ** Several operations on one stream *)

(** Where an operation is until it is called again. *)
Inductive place := OnRead | OnWrite | OnPost | OnReadTimer | OnWriteTimer.
#[export] Instance place_eq_dec : EqDecision place.
Proof. solve_decision. Defined.

Section system.
Context `{OpenSsl}.

Record tls_system := TlsSystem {
  core : stream_core;
  live : gmap nat (io_op * place);
  finished : list (nat * (error_code * nat * list ascii));
}.

(** An operation starts; the transport completes what [i] has started, with [ec] and the
    bytes read; the handler of the timer [i] waits on runs. *)
Inductive tls_event :=
  | Start (i : nat) (op : tls_op)
  | TransportDone (i : nat) (ec : error_code) (input : list ascii) (aborted : bool)
  | TimerDone (i : nat) (aborted : bool).

Definition park (i : nat) (o : io_op) (p : place) (c : stream_core) (x : tls_system) : tls_system :=
  TlsSystem c (<[i := (o, p)]> (live x)) (finished x).

Definition settle (i : nat) (r : option io_step) (x : tls_system) : option tls_system :=
  match r with
  | None => None
  | Some (act, o, c) => Some
      match act with
      | ReadTransport => park i o OnRead c x
      | WriteTransport _ => park i o OnWrite c x
      | ZeroRead => park i o OnPost c x
      | WaitRead => park i o OnReadTimer (on_pending_read (async_wait i) c) x
      | WaitWrite => park i o OnWriteTimer (on_pending_write (async_wait i) c) x
      | CallHandler ec n data => TlsSystem c (delete i (live x)) (finished x ++ [(i, (ec, n, data))])
      end
  end.

Definition tls_event_step (fuel : nat) (e : tls_event) (x : tls_system) : option tls_system :=
  match e with
  | Start i op =>
      match live x !! i with Some _ => None | None => settle i (io_start fuel op (core x)) x end
  | TransportDone i ec input aborted =>
      match live x !! i with
      | Some (o, OnRead) | Some (o, OnWrite) | Some (o, OnPost) =>
          settle i (io_resume fuel aborted (Transferred ec input) o (core x)) x
      | _ => None
      end
  | TimerDone i aborted =>
      match live x !! i with
      | Some (o, OnReadTimer) =>
          if decide (i ∈ cancelled (pending_read_ (core x))) then
            settle i (io_resume fuel aborted TimerFired o (on_pending_read (handler_called i) (core x))) x
          else None
      | Some (o, OnWriteTimer) =>
          if decide (i ∈ cancelled (pending_write_ (core x))) then
            settle i (io_resume fuel aborted TimerFired o (on_pending_write (handler_called i) (core x))) x
          else None
      | _ => None
      end
  end.

Fixpoint tls_run (fuel : nat) (es : list tls_event) (x : tls_system) : option tls_system :=
  match es with
  | [] => Some x
  | e :: es => match tls_event_step fuel e x with Some x => tls_run fuel es x | None => None end
  end.

Definition new_tls_system (c : tls_core) : tls_system := TlsSystem (new_core c) ∅ [].

(** How many operations of the transport are under way. *)
Definition at_place (p : place) (x : tls_system) : list nat :=
  (filter (fun e => e.2.2 = p) (map_to_list (live x))).*1.
End system.

(** ** The transport has one read and one write at a time *)

Section exclusive.
Context `{OpenSsl}.

(** Which operations may want input, which output: in an engine that does not renegotiate a
    read wants input, a write output, a handshake or shutdown both. *)
Context (wants_in wants_out : tls_op -> bool)
  (Hin : forall op p s r s', op_call op p s = ((want_input_and_retry, r), s') -> wants_in op = true)
  (Hout : forall op p s w r s', op_call op p s = ((w, r), s') -> w = want_output_and_retry \/ w = want_output ->
    wants_out op = true).

Definition apart (op op' : tls_op) : Prop :=
  wants_in op && wants_in op' = false /\ wants_out op && wants_out op' = false.

(** The reservations of a socket admit an operation when it has no direction in common with
    those under way. *)
Definition may_start (op : tls_op) (x : tls_system) : Prop :=
  forall i o p, live x !! i = Some (o, p) -> apart op (op_ o).

Inductive tls_reaches : tls_system -> tls_system -> Prop :=
  | reaches_refl x : tls_reaches x x
  | reaches_step x fuel e y z : tls_event_step fuel e x = Some y ->
      match e with Start _ op => may_start op x | _ => True end -> tls_reaches y z -> tls_reaches x z.

Definition place_ok (o : io_op) (p : place) : Prop :=
  match p with
  | OnRead => wants_in (op_ o) = true /\ want_ o = want_input_and_retry
  | OnWrite => wants_out (op_ o) = true /\ (want_ o = want_output_and_retry \/ want_ o = want_output)
  | OnPost => want_ o = want_nothing
  | OnReadTimer | OnWriteTimer => False
  end.

(** The invariant of [live] and the timers of [c], [i] aside. *)
Record others_ok (i : nat) (op : tls_op) (c : stream_core) (x : tls_system) : Prop := {
  ot_pairs : forall j k oj pj ok pk, j <> i -> k <> i -> j <> k ->
    live x !! j = Some (oj, pj) -> live x !! k = Some (ok, pk) -> apart (op_ oj) (op_ ok);
  ot_op : forall j o p, j <> i -> live x !! j = Some (o, p) -> apart op (op_ o);
  ot_place : forall j o p, j <> i -> live x !! j = Some (o, p) -> place_ok o p;
  ot_read : infinite (pending_read_ c) = true -> exists j o, j <> i /\ live x !! j = Some (o, OnRead);
  ot_write : infinite (pending_write_ c) = true -> exists j o, j <> i /\ live x !! j = Some (o, OnWrite);
}.

Record tls_inv (x : tls_system) : Prop := {
  ti_pairs : forall j k oj pj ok pk, j <> k -> live x !! j = Some (oj, pj) -> live x !! k = Some (ok, pk) ->
    apart (op_ oj) (op_ ok);
  ti_place : forall j o p, live x !! j = Some (o, p) -> place_ok o p;
  ti_read : infinite (pending_read_ (core x)) = true -> exists j o, live x !! j = Some (o, OnRead);
  ti_write : infinite (pending_write_ (core x)) = true -> exists j o, live x !! j = Some (o, OnWrite);
}.

Lemma apart_sym op op' : apart op op' -> apart op' op.
Proof. unfold apart. by rewrite (andb_comm (wants_in op')), (andb_comm (wants_out op')). Qed.

(** What a step of an operation does to the timers. *)
Definition step_ok (op : tls_op) (c : stream_core) (r : io_step) : Prop :=
  let '(act, o, c') := r in
  op_ o = op /\
  match act with
  | ReadTransport => place_ok o OnRead /\ infinite (pending_write_ c') = infinite (pending_write_ c)
  | WriteTransport _ => place_ok o OnWrite /\ infinite (pending_read_ c') = infinite (pending_read_ c)
  | WaitRead => wants_in op = true /\ infinite (pending_read_ c) = true
  | WaitWrite => wants_out op = true /\ infinite (pending_write_ c) = true
  | ZeroRead | CallHandler _ _ _ => (act = ZeroRead -> want_ o = want_nothing) /\
      infinite (pending_read_ c') = infinite (pending_read_ c) /\ infinite (pending_write_ c') = infinite (pending_write_ c)
  end.

Lemma iterate_ok fuel start ec o c r : io_iterate fuel start ec o c = Some r -> step_ok (op_ o) c r.
Proof.
  revert o c. induction fuel as [|fuel IH]; intros o c; cbn [io_iterate]; [done|].
  destruct (op_call (op_ o) (progress_ o) (engine_ (tls c))) as [[w p] s] eqn:Hop.
  destruct w.
  - apply Hin in Hop as Hwant. destruct (negb _).
    + destruct (put_input _ s) as [rest s1]. destruct (ec_set (op_ec p)); [|apply IH].
      intros [= <-]. unfold step_ok, call_handler. by destruct (ec_set _).
    + cbn [infinite pending_read_ set_tls_core]. destruct (infinite (pending_read_ c)) eqn:Hi; intros Hr; injection Hr as <-; unfold step_ok, place_ok; cbn [op_ want_ pending_write_ on_pending_read set_tls_core]; auto.
  - apply Hout in Hop as Hwant; [|by left]. cbn [infinite pending_write_ set_tls_core].
    destruct (infinite (pending_write_ c)) eqn:Hi; [intros Hr; injection Hr as <-; unfold step_ok; cbn [op_]; auto|].
    destruct (get_output _ s). intros Hr; injection Hr as <-. unfold step_ok, place_ok; cbn [op_ want_ pending_read_ on_pending_write set_tls_core]. auto.
  - destruct start; intros [= <-]; [done|]. unfold step_ok, call_handler. by destruct (ec_set _).
  - apply Hout in Hop as Hwant; [|by right]. cbn [infinite pending_write_ set_tls_core].
    destruct (infinite (pending_write_ c)) eqn:Hi; [intros Hr; injection Hr as <-; unfold step_ok; cbn [op_]; auto|].
    destruct (get_output _ s). intros Hr; injection Hr as <-. unfold step_ok, place_ok; cbn [op_ want_ pending_read_ on_pending_write set_tls_core]. auto.
Qed.

Lemma settle_keeps i op c r x y : others_ok i op c x -> step_ok op c r -> settle i (Some r) x = Some y -> tls_inv y.
Proof.
  intros [Hpairs Hop Hplace Hread Hwrite]. destruct r as [[act o] c']. intros [Heq Hact]. cbn [settle].
  assert (forall p, place_ok o p -> (infinite (pending_read_ c') = true -> p = OnRead \/ infinite (pending_read_ c) = true) ->
    (infinite (pending_write_ c') = true -> p = OnWrite \/ infinite (pending_write_ c) = true) -> tls_inv (park i o p c' x)) as Hpark.
  { intros p Hp Hr Hw. unfold park. split; cbn.
    - intros j k oj pj ok pk Hjk. rewrite !lookup_insert_Some. intros [[-> [= <- <-]]|[Hj Hlj]] [[-> [= <- <-]]|[Hk Hlk]]; [done|..].
      + rewrite Heq. by eapply Hop.
      + apply apart_sym. rewrite Heq. by eapply Hop.
      + by eapply (Hpairs j k).
    - intros j o1 p1. rewrite lookup_insert_Some. intros [[-> [= <- <-]]|[Hj Hlj]]; [done|by eapply Hplace].
    - intros Hi. destruct (Hr Hi) as [->|Hi']; [exists i, o; by rewrite lookup_insert_eq|].
      destruct (Hread Hi') as (j & o1 & Hj & Hl). exists j, o1. by rewrite lookup_insert_ne.
    - intros Hi. destruct (Hw Hi) as [->|Hi']; [exists i, o; by rewrite lookup_insert_eq|].
      destruct (Hwrite Hi') as (j & o1 & Hj & Hl). exists j, o1. by rewrite lookup_insert_ne. }
  destruct act as [|out| | | |e n data]; intros [= <-].
  - destruct Hact as [Hp Hw]. apply Hpark; [done|by left|rewrite Hw; auto].
  - destruct Hact as [Hp Hr]. apply Hpark; [done|rewrite Hr; auto|by left].
  - exfalso. destruct Hact as [Hwi Hi]. destruct (Hread Hi) as (j & o1 & Hj & Hl).
    destruct (Hplace j o1 _ Hj Hl) as [H1 _]. destruct (Hop j o1 _ Hj Hl) as [H2 _]. by rewrite Hwi, H1 in H2.
  - exfalso. destruct Hact as [Hwi Hi]. destruct (Hwrite Hi) as (j & o1 & Hj & Hl).
    destruct (Hplace j o1 _ Hj Hl) as [H1 _]. destruct (Hop j o1 _ Hj Hl) as [_ H2]. by rewrite Hwi, H1 in H2.
  - destruct Hact as (Hp & Hr & Hw). apply Hpark; [by apply Hp|rewrite Hr; auto|rewrite Hw; auto].
  - destruct Hact as (_ & Hr & Hw). split; cbn.
    + intros j k oj pj ok pk Hjk [Hj Hlj]%lookup_delete_Some [Hk Hlk]%lookup_delete_Some. by eapply (Hpairs j k).
    + intros j o1 p1 [Hj Hlj]%lookup_delete_Some. by eapply Hplace.
    + rewrite Hr. intros Hi. destruct (Hread Hi) as (j & o1 & Hj & Hl). exists j, o1. by rewrite lookup_delete_ne.
    + rewrite Hw. intros Hi. destruct (Hwrite Hi) as (j & o1 & Hj & Hl). exists j, o1. by rewrite lookup_delete_ne.
Qed.

(** The others when [i] is called again with its timer released. *)
Lemma inv_others i o p c x : tls_inv x -> live x !! i = Some (o, p) ->
  infinite (pending_read_ c) = (infinite (pending_read_ (core x)) && negb (bool_decide (p = OnRead))) ->
  infinite (pending_write_ c) = (infinite (pending_write_ (core x)) && negb (bool_decide (p = OnWrite))) ->
  others_ok i (op_ o) c x.
Proof.
  intros [Hpairs Hplace Hread Hwrite] Hi Hr Hw. split.
  - intros j k oj pj ok pk _ _ Hjk. by apply Hpairs.
  - intros j oj pj Hj Hl. by eapply (Hpairs i j).
  - intros j oj pj _. apply Hplace.
  - rewrite Hr. intros [H1 H2]%andb_true_iff. apply negb_true_iff, bool_decide_eq_false in H2.
    destruct (Hread H1) as (j & oj & Hl). exists j, oj. split; [|done]. intros ->. congruence.
  - rewrite Hw. intros [H1 H2]%andb_true_iff. apply negb_true_iff, bool_decide_eq_false in H2.
    destruct (Hwrite H1) as (j & oj & Hl). exists j, oj. split; [|done]. intros ->. congruence.
Qed.

Lemma handler_step_ok o ec c : step_ok (op_ o) c (call_handler o ec c, o, c).
Proof. unfold step_ok, call_handler. by destruct (ec_set ec). Qed.

(** The transport calls [i] again. *)
Lemma resume_keeps fuel aborted i ec input o p x y : tls_inv x -> live x !! i = Some (o, p) ->
  settle i (io_resume fuel aborted (Transferred ec input) o (core x)) x = Some y -> tls_inv y.
Proof.
  intros Hx Hi. pose proof (ti_place _ Hx i o p Hi) as Hp. unfold io_resume.
  destruct p; cbn [place_ok] in Hp; try done.
  - destruct Hp as [Hwi ->]. destruct (put_input input (engine_ (tls (core x)))) as [rest s].
    set (c := on_pending_read _ _).
    assert (others_ok i (op_ o) c x) as Ho by (apply (inv_others i o OnRead); cbn; by rewrite ?andb_false_r, ?andb_true_r).
    destruct aborted; [by apply settle_keeps with (1 := Ho), handler_step_ok|].
    destruct (ec_set _); [by apply settle_keeps with (1 := Ho), handler_step_ok|].
    destruct (io_iterate fuel false ec o c) as [r|] eqn:Hit; [|done]. apply settle_keeps with (1 := Ho). by eapply iterate_ok.
  - destruct Hp as [Hwo Hw]. set (c := on_pending_write (expires_at false) (core x)).
    assert (others_ok i (op_ o) c x) as Ho by (apply (inv_others i o OnWrite); cbn; by rewrite ?andb_false_r, ?andb_true_r).
    destruct Hw as [->| ->]; [|by apply settle_keeps with (1 := Ho), handler_step_ok].
    destruct aborted; [by apply settle_keeps with (1 := Ho), handler_step_ok|].
    destruct (ec_set _); [by apply settle_keeps with (1 := Ho), handler_step_ok|].
    destruct (io_iterate fuel false ec o c) as [r|] eqn:Hit; [|done]. apply settle_keeps with (1 := Ho). by eapply iterate_ok.
  - rewrite Hp. apply settle_keeps with (op := op_ o) (c := core x); [|by apply handler_step_ok].
    apply (inv_others i o OnPost); cbn; by rewrite ?andb_true_r.
Qed.

Lemma event_keeps fuel e x y : tls_inv x -> tls_event_step fuel e x = Some y ->
  match e with Start _ op => may_start op x | _ => True end -> tls_inv y.
Proof.
  intros Hx Hstep Hadm. destruct e as [i op|i ec input aborted|i aborted]; cbn [tls_event_step] in Hstep.
  - destruct (live x !! i) eqn:Hi; [done|]. unfold io_start in Hstep.
    destruct (io_iterate fuel true None (IoOp op want_nothing no_progress) (core x)) as [r|] eqn:Hit; [|done].
    eapply settle_keeps; [|by apply iterate_ok in Hit|exact Hstep]. destruct Hx as [Hpairs Hplace Hread Hwrite]. split.
    + intros j k oj pj ok pk _ _ Hjk. by apply Hpairs.
    + intros j o p _. apply Hadm.
    + intros j o p _. apply Hplace.
    + intros Hr. destruct (Hread Hr) as (j & o & Hl). exists j, o. split; [|done]. intros ->. congruence.
    + intros Hw. destruct (Hwrite Hw) as (j & o & Hl). exists j, o. split; [|done]. intros ->. congruence.
  - destruct (live x !! i) as [[o p]|] eqn:Hi; [|done].
    assert (settle i (io_resume fuel aborted (Transferred ec input) o (core x)) x = Some y) by by destruct p.
    by eapply resume_keeps.
  - destruct (live x !! i) as [[o p]|] eqn:Hi; [|done]. pose proof (ti_place _ Hx i o p Hi) as Hp. by destruct p.
Qed.

Lemma at_place_spec p x i : i ∈ at_place p x <-> exists o, live x !! i = Some (o, p).
Proof.
  unfold at_place. rewrite list_elem_of_fmap. split.
  - intros ([j [o q]] & -> & [Hq Hl%elem_of_map_to_list]%list_elem_of_filter). cbn in *. subst. by exists o.
  - intros [o Hl]. exists (i, (o, p)). split; [done|]. apply list_elem_of_filter. split; [done|]. by apply elem_of_map_to_list.
Qed.

Lemma at_most_one p x : (forall i j o o', live x !! i = Some (o, p) -> live x !! j = Some (o', p) -> i = j) ->
  length (at_place p x) <= 1.
Proof.
  intros Hone. assert (NoDup (at_place p x)) as Hnd.
  { unfold at_place. apply NoDup_fmap_fst; [|apply NoDup_filter, NoDup_map_to_list].
    intros i y1 y2 [_ H1%elem_of_map_to_list]%list_elem_of_filter [_ H2%elem_of_map_to_list]%list_elem_of_filter. congruence. }
  destruct (at_place p x) as [|i [|j l]] eqn:Hl; cbn; [lia..|]. exfalso.
  destruct (proj1 (at_place_spec p x i)) as [o Ho]; [rewrite Hl; left|].
  destruct (proj1 (at_place_spec p x j)) as [o' Ho']; [rewrite Hl; right; left|].
  rewrite (Hone i j o o' Ho Ho') in Hnd. apply NoDup_cons in Hnd as [Hn _]. apply Hn. left.
Qed.

(** C23: as the program uses it, a TLS stream has at most one read and one write on its
    transport, and no operation ever waits on a timer of the stream: when reads alone want
    input and writes alone want output, and the reservations keep operations of one
    direction, handshakes and shutdowns apart, whatever the transport does in between. *)
Theorem tls_transport_exclusive c x : tls_reaches (new_tls_system c) x ->
  length (at_place OnRead x) <= 1 /\ length (at_place OnWrite x) <= 1 /\
  at_place OnReadTimer x = [] /\ at_place OnWriteTimer x = [].
Proof.
  intros Hr. assert (tls_inv x) as [Hpairs Hplace _ _].
  { remember (new_tls_system c) as x0 eqn:He. assert (tls_inv x0) as Hx0 by (subst; by split).
    clear He. induction Hr as [|x0 fuel e y z Hs Ha _ IH]; [done|]. apply IH. by eapply event_keeps. }
  assert (forall p, (forall i o, live x !! i = Some (o, p) -> False) -> at_place p x = []) as Hnone.
  { intros p Hp. destruct (at_place p x) as [|i l] eqn:Hl; [done|].
    destruct (proj1 (at_place_spec p x i)) as [o Ho]; [rewrite Hl; left|]. by edestruct Hp. }
  split_and!.
  - apply at_most_one. intros i j o o' Hi Hj. destruct (decide (i = j)) as [|Hne]; [done|].
    destruct (Hpairs i j _ _ _ _ Hne Hi Hj) as [Ha _]. destruct (Hplace _ _ _ Hi) as [H1 _], (Hplace _ _ _ Hj) as [H2 _].
    by rewrite H1, H2 in Ha.
  - apply at_most_one. intros i j o o' Hi Hj. destruct (decide (i = j)) as [|Hne]; [done|].
    destruct (Hpairs i j _ _ _ _ Hne Hi Hj) as [_ Ha]. destruct (Hplace _ _ _ Hi) as [H1 _], (Hplace _ _ _ Hj) as [H2 _].
    by rewrite H1, H2 in Ha.
  - apply Hnone. intros i o Hi. exact (Hplace _ _ _ Hi).
  - apply Hnone. intros i o Hi. exact (Hplace _ _ _ Hi).
Qed.
End exclusive.

(** ** Where it goes wrong *)

#[local] Existing Instance toy_openssl.
#[local] Existing Instance toy_openssl_ok.

(** A reader and a shutdown that waits for the reader's input.  The transport gives the
    reader a record without data: it cancels the wait and reads again.  The other, called by
    its timer, releases the timer that now stands for that second read, and starts a
    third. *)
Definition contention : list tls_event :=
  [Start 0 (ReadOp 4); Start 1 ShutdownOp; TransportDone 1 None [] false;
   TransportDone 0 None ["~"%char] false; TimerDone 1 false].

(** Two readers: the one that is woken finds its byte in the engine. *)
Definition lost_read : list tls_event :=
  [Start 0 (ReadOp 4); Start 1 (ReadOp 4); TransportDone 0 None ["x"; "y"]%char false; TimerDone 1 false].

(** With two operations that want input at once the timers do not do their work: there
    is a run in which two reads are under way on the transport, into one buffer, and a run
    in which an operation that has its byte at once reports [operation_aborted], and the
    byte is lost. *)
Theorem tls_contention :
  exists (HO : OpenSsl) (_ : @OpenSslOk HO) (c : @tls_core HO) (es es' : list tls_event) (x x' : @tls_system HO),
    tls_run 9 es (new_tls_system c) = Some x /\ length (at_place OnRead x) = 2 /\
    tls_run 9 es' (new_tls_system c) = Some x' /\
    (1, (Some operation_aborted, 0, [])) ∈ finished x' /\ plain (engine_ (tls (core x'))) = ["x"; "y"]%char /\
    concat ((fun r => r.2.2) <$> finished x') = ["x"]%char.
Proof.
  destruct (tls_run 9 contention (new_tls_system toy_connected)) as [x|] eqn:Hx; [|by vm_compute in Hx].
  destruct (tls_run 9 lost_read (new_tls_system toy_connected)) as [x'|] eqn:Hx'; [|by vm_compute in Hx'].
  exists toy_openssl, toy_openssl_ok, toy_connected, contention, lost_read, x, x'.
  split; [exact Hx|]. split; [vm_compute in Hx; injection Hx as <-; reflexivity|].
  split; [exact Hx'|]. vm_compute in Hx'. injection Hx' as <-. split; [right; left|]. split; reflexivity.
Qed.

Lemma tls_async_agrees_witness :
  let w := ToyWire [["h"]%char] [] [] in
  exists c' w', async_io toy_read_some toy_write_some 9 (HandshakeOp true) toy_core w = Some ((None, 0, []), (c', w')) /\
    gone w' = ["H"%char].
Proof.
  intros w. destruct (toy_io 9 (HandshakeOp true) toy_core w) as [[r [c' w']]|] eqn:Hio; [|by vm_compute in Hio].
  exists (new_core c'), w'. pose proof (tls_async_agrees toy_read_some toy_write_some 9 _ _ _ _ _ _ Hio) as Ha.
  vm_compute in Hio. injection Hio as <- <- <-. split; [exact Ha|reflexivity].
Defined.

(** The engine of the examples does not renegotiate. *)
Definition toy_wants_in (op : tls_op) : bool := match op with WriteOp _ => false | _ => true end.
Definition toy_wants_out (op : tls_op) : bool := match op with ReadOp _ => false | _ => true end.

Lemma toy_in_only op p s r s' : op_call op p s = ((want_input_and_retry, r), s') -> toy_wants_in op = true.
Proof.
  destruct op as [| |n|d]; [done..|]. unfold op_call, handshake_op, shutdown_op, read_op, write_op. unfold engine_write. destruct (length d =? 0) eqn:Hd; [done|].
  intros Hop. exfalso. unfold perform, do_write in Hop. cbn -[Nat.ltb] in Hop. unfold toy_get_error in Hop; cbn -[Nat.ltb] in Hop.
  destruct (0 <? Z.of_nat _)%Z; cbn -[Nat.ltb] in Hop; by destruct (_ <? _).
Qed.

Lemma toy_read_quiet n (s : toy_ssl) :
  toy_out (toy_read n s).2 = toy_out s /\ toy_status (toy_read n s).2 <> SSL_ERROR_WANT_WRITE.
Proof. unfold toy_read. destruct n, (toy_in s); repeat case_decide; by cbn. Qed.

Lemma toy_out_only op p s w r s' : op_call op p s = ((w, r), s') -> w = want_output_and_retry \/ w = want_output ->
  toy_wants_out op = true.
Proof.
  destruct op as [| |n|d]; [done|done| |done]. unfold op_call, handshake_op, shutdown_op, read_op, write_op. unfold engine_read. destruct (n =? 0).
  { intros [= <- _ _]. by intros [|]. }
  intros Hop Hw. exfalso. unfold perform, do_read in Hop. cbn -[Nat.ltb toy_read] in Hop.
  destruct (toy_read_quiet (int_length n) s) as [Ho Hst]. change (err_clear_error s) with s in Hop.
  destruct (toy_read (int_length n) s) as [[z d] s1]. cbn in Ho, Hst. rewrite Ho, Nat.ltb_irrefl in Hop. cbn in Hop.
  unfold toy_get_error in Hop. destruct Hw as [-> | ->]; repeat case_match; simplify_eq; done.
Qed.

(** A read and a write side by side. *)
Lemma tls_transport_exclusive_witness :
  exists x, tls_run 9 [Start 0 (ReadOp 4); Start 1 (WriteOp ["z"%char])] (new_tls_system toy_connected) = Some x /\
    at_place OnRead x = [0] /\ at_place OnWrite x = [1] /\ at_place OnReadTimer x = [].
Proof.
  destruct (tls_event_step 9 (Start 0 (ReadOp 4)) (new_tls_system toy_connected)) as [x1|] eqn:H1; [|by vm_compute in H1].
  destruct (tls_event_step 9 (Start 1 (WriteOp ["z"%char])) x1) as [x|] eqn:H2.
  2: { vm_compute in H1. injection H1 as <-. by vm_compute in H2. }
  assert (may_start toy_wants_in toy_wants_out (WriteOp ["z"%char]) x1) as Ha.
  { assert (map_Forall (fun _ e => apart toy_wants_in toy_wants_out (WriteOp ["z"%char]) (op_ e.1)) (live x1)) as Hf.
    { apply map_Forall_to_list. vm_compute in H1. injection H1 as <-. by repeat constructor. }
    intros i o p Hl. exact (Hf i (o, p) Hl). }
  assert (tls_reaches toy_wants_in toy_wants_out (new_tls_system toy_connected) x) as Hr.
  { eapply (reaches_step _ _ _ 9); [exact H1|by intros i o p Hl|]. eapply (reaches_step _ _ _ 9); [exact H2|exact Ha|]. constructor. }
  exists x. split; [cbn [tls_run]; rewrite H1, H2; done|].
  pose proof (tls_transport_exclusive toy_wants_in toy_wants_out toy_in_only toy_out_only _ x Hr) as (_ & _ & Ht & _).
  split; [|split; [|exact Ht]]; clear Hr Ha Ht; vm_compute in H1; injection H1 as <-; vm_compute in H2; injection H2 as <-; reflexivity.
Defined.
