(* ===== verification/AsyncState.v ===== *)
(** * [async::state_type]: the result of an asynchronous operation

    The record a script holds while an operation runs, and the functions of the namespace
    [async::state] that read it: [has_done], [get_result], [get_buffer], [available], [eof],
    [get_error], [get_endpoint] of [network.cpp]. *)
From S2P Require Import Prelude FixedHex Endpoint.
From S2P Require Streambuf.
Import Streambuf (streambuf, data, size, streambuf_wf).

Record state_type := StateType {
  init : bool;
  is_udp : bool;
  is_read : bool;
  has_done : bool;
  bytes_transferred : nat;
  udp_endpoint : endpoint_t;
  buffer : streambuf;
  ec : error_code;
}.

(** [std::make_shared<state_type>()]; a default endpoint is [0.0.0.0:0]. *)
Definition create_async_state : state_type :=
  StateType false false false false 0 (Endpoint any_v4 0) Streambuf.default_streambuf None.

Definition set_buffer (b : streambuf) (s : state_type) : state_type :=
  StateType (init s) (is_udp s) (is_read s) (has_done s) (bytes_transferred s) (udp_endpoint s) b (ec s).
Definition set_bytes (n : nat) (s : state_type) : state_type :=
  StateType (init s) (is_udp s) (is_read s) (has_done s) n (udp_endpoint s) (buffer s) (ec s).
Definition set_ec (e : error_code) (s : state_type) : state_type :=
  StateType (init s) (is_udp s) (is_read s) (has_done s) (bytes_transferred s) (udp_endpoint s) (buffer s) e.
Definition set_done (b : bool) (s : state_type) : state_type :=
  StateType (init s) (is_udp s) (is_read s) b (bytes_transferred s) (udp_endpoint s) (buffer s) (ec s).
Definition set_init (b : bool) (s : state_type) : state_type :=
  StateType b (is_udp s) (is_read s) (has_done s) (bytes_transferred s) (udp_endpoint s) (buffer s) (ec s).
Definition set_read (b : bool) (s : state_type) : state_type :=
  StateType (init s) (is_udp s) b (has_done s) (bytes_transferred s) (udp_endpoint s) (buffer s) (ec s).
Definition set_udp (b : bool) (s : state_type) : state_type :=
  StateType (init s) b (is_read s) (has_done s) (bytes_transferred s) (udp_endpoint s) (buffer s) (ec s).
Definition set_endpoint (ep : endpoint_t) (s : state_type) : state_type :=
  StateType (init s) (is_udp s) (is_read s) (has_done s) (bytes_transferred s) ep (buffer s) (ec s).

Section queries.
  Context `{NetworkConfig} `{CovNumber} `{ErrorText}.

Definition not_a_read : exn := lang_error "Asynchronous operation not a read/receive session.".

(** [std::string(begin(data()), begin(data()) + n)] and [consume(n)]. *)
Definition take_bytes (n : nat) (s : state_type) : list ascii * state_type :=
  (take n (data (buffer s)), set_buffer (Streambuf.consume n (buffer s)) s).

(** [None] is the null pointer. *)
Definition get_result : M state_type (option (list ascii)) := fun s =>
  if negb (is_read s) then (Throw not_a_read, s)
  else if negb (has_done s) then (Ok None, s)
  else if (bytes_transferred s =? 0)%nat then (Ok (Some []), s)
  else
    let '(bytes, s) := take_bytes (bytes_transferred s) s in
    (Ok (Some bytes), set_bytes 0 s).

Definition get_buffer (max_bytes : number) : M state_type (option (list ascii)) := fun s =>
  match checked_io_buffer_size max_bytes with
  | Throw e => (Throw e, s)
  | Ok checked_max_bytes =>
      if negb (is_read s) then (Throw not_a_read, s)
      else if negb (has_done s) then (Ok None, s)
      else if (size (buffer s) =? 0)%nat then (Ok (Some []), s)
      else
        let to_read := Z.to_nat (Z.min checked_max_bytes (Z.of_nat (size (buffer s)))) in
        let '(bytes, s) := take_bytes to_read s in
        (Ok (Some bytes),
         set_bytes (if (to_read <? bytes_transferred s)%nat then bytes_transferred s - to_read else 0) s)
  end.

Definition available (s : state_type) : nat :=
  if is_read s && has_done s then size (buffer s) else 0.

Definition state_eof (s : state_type) : bool :=
  if negb (has_done s) then false else ec_is (ec s) eof || ec_is (ec s) connection_reset.

Definition get_error (s : state_type) : option string :=
  if negb (has_done s) then None
  else match ec s with None => None | Some e => Some (error_message e) end.

Definition get_endpoint (s : state_type) : res endpoint_t :=
  if negb (is_udp s) || negb (is_read s) then
    Throw (lang_error "Asynchronous operation not a receive_from session.")
  else if negb (has_done s) then Throw (lang_error "Asynchronous operation not finished.")
  else match ec s with
       | Some e => Throw (lang_error ("Asynchronous operation has encountered an error: " +:+ error_message e))
       | None => Ok (udp_endpoint s)
       end.

(** ** Well-formedness *)

(** A finished read never announces more bytes than the buffer holds; the buffer stays in
    the range where its [int] offsets are exact. *)
Record state_wf (s : state_type) : Prop := {
  sw_buffer : streambuf_wf (buffer s);
  sw_small : (Z.of_nat (size (buffer s)) < 2 ^ 31)%Z;
  sw_bytes : is_read s = true -> (bytes_transferred s <= size (buffer s))%nat;
}.

Lemma take_bytes_spec n s : state_wf s ->
  let '(bytes, s') := take_bytes n s in
  bytes ++ data (buffer s') = data (buffer s) /\
  streambuf_wf (buffer s') /\ size (buffer s') = (size (buffer s) - n)%nat.
Proof.
  intros [Hb Hsm _]. unfold take_bytes; cbn [buffer set_buffer]. destruct (Streambuf.consume_spec n (buffer s) Hb ltac:(lia)) as (Hw & Hd & _).
  rewrite Hd, take_drop. split_and!; [done|done|].
  rewrite <- (Streambuf.contents_length _ Hw), Hd, length_drop, Streambuf.contents_length by done. done.
Qed.

(** A request of a script. *)
Inductive state_query := GetResult | GetBuffer (max_bytes : number).

Definition run_query (q : state_query) : M state_type (option (list ascii)) :=
  match q with GetResult => get_result | GetBuffer n => get_buffer n end.

(** The bytes an answer carries. *)
Definition answer_bytes (r : res (option (list ascii))) : list ascii :=
  match r with Ok (Some bytes) => bytes | _ => [] end.

Fixpoint run_queries (qs : list state_query) (s : state_type) : list ascii * state_type :=
  match qs with
  | [] => ([], s)
  | q :: qs =>
      let '(r, s) := run_query q s in
      let '(bytes, s) := run_queries qs s in (answer_bytes r ++ bytes, s)
  end.

Lemma run_query_spec q s : state_wf s ->
  let '(r, s') := run_query q s in
  state_wf s' /\ answer_bytes r ++ data (buffer s') = data (buffer s) /\
  is_read s' = is_read s /\ has_done s' = has_done s.
Proof.
  intros Hwf. pose proof Hwf as [Hb Hsm Hn].
  assert (forall n k, (is_read s = true -> (k <= size (buffer s) - n)%nat) ->
    let '(bytes, s') := take_bytes n s in
    state_wf (set_bytes k s') /\ bytes ++ data (buffer s') = data (buffer s)) as Htake.
  { intros n k Hk. pose proof (take_bytes_spec n s Hwf) as Ht. unfold take_bytes in *; cbn [buffer set_buffer] in *. destruct Ht as (Hd & Hw & Hs).
    split; [split; cbn [buffer set_buffer set_bytes is_read bytes_transferred]|done]; [done|lia|rewrite Hs; done]. }
  destruct q as [|max_bytes]; cbn [run_query].
  - unfold get_result. destruct (is_read s) eqn:Er; cbn [negb]; [|done].
    destruct (has_done s) eqn:Eh; cbn [negb]; [|done].
    destruct (bytes_transferred s =? 0)%nat; [done|].
    specialize (Htake (bytes_transferred s) 0%nat ltac:(lia)). unfold take_bytes in *.
    destruct Htake. by split_and!.
  - unfold get_buffer. destruct (checked_io_buffer_size max_bytes) as [m|e]; [|done].
    destruct (is_read s) eqn:Er; cbn [negb]; [|done]. destruct (has_done s) eqn:Eh; cbn [negb]; [|done].
    destruct (size (buffer s) =? 0)%nat; [done|]. set (n := Z.to_nat _).
    specialize (Htake n (if (n <? bytes_transferred s)%nat then bytes_transferred s - n else 0)%nat).
    destruct Htake as [? ?]; [intros _; specialize (Hn eq_refl); destruct (_ <? _)%nat; lia|].
    unfold take_bytes in *. by split_and!.
Qed.
End queries.

(** ** Properties *)

(** The bytes of a finished read come out once each and in order.  Whatever sequence
    of [get_result] and [get_buffer] a script runs, with whatever sizes (refused ones
    included), the bytes it was given followed by those still buffered are the bytes that
    were buffered at the start; and [bytes_transferred] never exceeds what is buffered, so
    no call reads past the end. *)
Theorem state_reads_in_order `{NetworkConfig} `{CovNumber} (qs : list state_query) (s : state_type)
  (Hwf : state_wf s) :
  let '(bytes, s') := run_queries qs s in
  bytes ++ data (buffer s') = data (buffer s) /\ state_wf s'.
Proof.
  revert s Hwf. induction qs as [|q qs IH]; intros s Hwf; [done|]. cbn [run_queries].
  pose proof (run_query_spec q s Hwf) as Hq. destruct (run_query q s) as [r s1].
  destruct Hq as (Hwf1 & Hd1 & _). specialize (IH s1 Hwf1). destruct (run_queries qs s1) as [bytes s2].
  destruct IH as [Hd2 Hwf2]. split; [|done]. by rewrite <- app_assoc, Hd2.
Qed.

(** A state of three bytes, as a finished read leaves it. *)
Definition sample_state : state_type :=
  match Streambuf.sputn ["a"; "b"; "c"]%char Streambuf.default_streambuf with
  | (_, sb) => StateType true false true true 3 (Endpoint any_v4 0) sb None
  end.

Lemma state_reads_in_order_witness :
  let '(bytes, s') := @run_queries default_config int_number
    [@GetBuffer int_number 2; @GetBuffer int_number 0; @GetResult int_number] sample_state in
  bytes ++ data (buffer s') = ["a"; "b"; "c"]%char /\ state_wf s'.
Proof.
  apply (@state_reads_in_order default_config int_number
    [@GetBuffer int_number 2; @GetBuffer int_number 0; @GetResult int_number] sample_state).
  split; [split; vm_compute; (lia || discriminate)|vm_compute; reflexivity|intros _; vm_compute; lia].
Defined.
