(* ===== verification/AsyncOps.v ===== *)
(** * The asynchronous operations: namespace [async] of [network.cpp]

    [accept], [connect], [connect_ssl], [read_until], [read], [write], [receive_from] and
    [send_to] start an operation on shared sockets and states; its completion handler runs
    from the event loop.  Sockets and states are shared objects: the environment of the
    scheduler is a store of them, and an operation refers to them by their keys.

    The reactor decides which of the operations it holds complete, and with what; starting
    an operation may fail ([initiate]).  A handler bound to the strand of a TLS socket runs
    directly: the extra hop through the strand is not modelled. *)
From S2P Require Import Prelude FixedHex Endpoint TlsOptions TrustStore Atomics Admission Reservations.
From S2P Require Import AsyncState.
From S2P Require Streambuf ReadUntil Transfer TcpSocket UdpSocket Scheduler.
Import TcpSocket (SocketExternal, tcp_socket, tcp_state, TcpState, acceptor, raw).
Import UdpSocket (UdpExternal, udp_socket, UW).
Import Scheduler (Reactor, machine, Machine, env, sched, work_started).

Inductive sock_ref := TcpSock (i : nat) | UdpSock (i : nat).

#[export] Instance sock_ref_eq_dec : EqDecision sock_ref.
Proof. solve_decision. Defined.

(** An operation in progress: its socket, its state, and where its composed operation
    stands.  [base] is where the buffer given to the stream starts. *)
Inductive async_op :=
  | OpAccept (sock st : nat)
  | OpConnect (sock st : nat)
  | OpHandshake (sock st : nat)
  | OpReadUntil (sock st : nat) (op : ReadUntil.until_op) (at_ n : nat)
  | OpRead (sock st : nat) (base : nat) (c : Transfer.consuming) (off n : nat)
  | OpWrite (sock st : nat) (c : Transfer.consuming) (off n : nat)
  | OpReceiveFrom (sock st : nat) (base n : nat)
  | OpSendTo (sock st : nat)
  | OpTlsShutdown (sock sd : nat)         (** of [safe_shutdown] *)
  | OpTimer (sock sd : nat)               (** its timer *)
  | OpPosted.                             (** an empty handler *)

(** What the system answers: an error code, the bytes stored or the number sent, and the
    sender of a datagram. *)
Record io_result := IoResult {
  res_ec : error_code;
  res_bytes : list ascii;
  res_sent : nat;
  res_from : endpoint_t;
}.

(** The reservation an operation holds.  [Draining] is that of [safe_shutdown]: the
    exclusive flag without a job. *)
Inductive role := Exclusively | Draining | Io (d : io_direction).

#[export] Instance role_eq_dec : EqDecision role.
Proof. solve_decision. Defined.

(** What an operation has reserved, and the state it completes. *)
Definition op_key (o : async_op) : option (sock_ref * role) :=
  match o with
  | OpAccept s _ | OpConnect s _ | OpHandshake s _ => Some (TcpSock s, Exclusively)
  | OpReadUntil s _ _ _ _ | OpRead s _ _ _ _ _ => Some (TcpSock s, Io dir_read)
  | OpWrite s _ _ _ _ => Some (TcpSock s, Io dir_write)
  | OpReceiveFrom s _ _ _ => Some (UdpSock s, Io dir_read)
  | OpSendTo s _ => Some (UdpSock s, Io dir_write)
  | OpTlsShutdown _ _ | OpTimer _ _ | OpPosted => None
  end.
Definition op_state (o : async_op) : option nat :=
  match o with
  | OpAccept _ t | OpConnect _ t | OpHandshake _ t | OpReadUntil _ t _ _ _ | OpRead _ t _ _ _ _
  | OpWrite _ t _ _ _ | OpReceiveFrom _ t _ _ | OpSendTo _ t => Some t
  | OpTlsShutdown _ _ | OpTimer _ _ | OpPosted => None
  end.

(** ** The store *)

(** [tls_shutdown_state] of [safe_shutdown]. *)
Record tls_shutdown_state := TlsShutdownState { sd_ec : error_code; sd_done : bool; sd_timed_out : bool }.

Definition set_sd_ec (e : error_code) (x : tls_shutdown_state) : tls_shutdown_state :=
  TlsShutdownState e (sd_done x) (sd_timed_out x).
Definition set_sd_done (x : tls_shutdown_state) : tls_shutdown_state :=
  TlsShutdownState (sd_ec x) true (sd_timed_out x).
Definition set_sd_timed_out (x : tls_shutdown_state) : tls_shutdown_state :=
  TlsShutdownState (sd_ec x) (sd_done x) true.

Record store `{SocketExternal} `{UdpExternal} := Store {
  tcps : gmap nat tcp_socket;
  udps : gmap nat udp_socket;
  states : gmap nat state_type;
  shutdowns : gmap nat tls_shutdown_state;
  inflight : list async_op;               (** held by the reactor *)
  guards : Z;                             (** work guards alive *)
  draining : list sock_ref;               (** sockets a [safe_shutdown] has reserved *)
  proc : process;
  uworld : UW;
  escaped : option exn;                   (** an exception that left a handler *)
}.
Arguments Store {_ _ _} _ _ _ _ _ _ _ _ _ _.

(** What an operation is started on besides its socket. *)
Inductive target `{SocketExternal} :=
  | OnAcceptor (a : acceptor)
  | OnEndpoint (ep : endpoint_t)
  | OnStream.

Class AsyncExternal `{SocketExternal} := {
  (** starting an operation, which may fail *)
  initiate : async_op -> target -> process -> res unit * process;
  (** one run of the reactor: the operations that completed with their results, those
      that did not *)
  reactor_run : Z -> process -> list async_op -> list (async_op * io_result) * list async_op * process;
  (** the capacity of the vector of a buffer *)
  vector_capacity : Streambuf.streambuf -> nat;
  (** [cancel(ec)] and [close(ec)] of a TCP socket; the timer of a shutdown and its
      cancellation signal *)
  raw_cancel : raw -> process -> error_code * process;
  raw_close_ec : raw -> process -> error_code * process;
  timer_cancel : nat -> process -> process;
  signal_emit : nat -> process -> process;
}.

Section reactor.
  Context `{T : TrustExternal} {N : SocketExternal T} {U : UdpExternal} {X : AsyncExternal}.

Definition set_tcps (f : gmap nat tcp_socket) (e : store) : store :=
  Store f (udps e) (states e) (shutdowns e) (inflight e)
    (guards e) (draining e) (proc e) (uworld e) (escaped e).
Definition set_udps (f : gmap nat udp_socket) (e : store) : store :=
  Store (tcps e) f (states e) (shutdowns e) (inflight e)
    (guards e) (draining e) (proc e) (uworld e) (escaped e).
Definition set_states (f : gmap nat state_type) (e : store) : store :=
  Store (tcps e) (udps e) f (shutdowns e) (inflight e)
    (guards e) (draining e) (proc e) (uworld e) (escaped e).
Definition set_shutdowns (f : gmap nat tls_shutdown_state) (e : store) : store :=
  Store (tcps e) (udps e) (states e) f (inflight e)
    (guards e) (draining e) (proc e) (uworld e) (escaped e).
Definition set_inflight (l : list async_op) (e : store) : store :=
  Store (tcps e) (udps e) (states e) (shutdowns e) l
    (guards e) (draining e) (proc e) (uworld e) (escaped e).
Definition set_guards (n : Z) (e : store) : store :=
  Store (tcps e) (udps e) (states e) (shutdowns e) (inflight e)
    n (draining e) (proc e) (uworld e) (escaped e).
Definition set_draining (l : list sock_ref) (e : store) : store :=
  Store (tcps e) (udps e) (states e) (shutdowns e) (inflight e)
    (guards e) l (proc e) (uworld e) (escaped e).
Definition set_proc (p : process) (e : store) : store :=
  Store (tcps e) (udps e) (states e) (shutdowns e) (inflight e)
    (guards e) (draining e) p (uworld e) (escaped e).
Definition set_uworld (w : UW) (e : store) : store :=
  Store (tcps e) (udps e) (states e) (shutdowns e) (inflight e)
    (guards e) (draining e) (proc e) w (escaped e).
Definition set_escaped (x : exn) (e : store) : store :=
  Store (tcps e) (udps e) (states e) (shutdowns e) (inflight e)
    (guards e) (draining e) (proc e) (uworld e) (Some x).

#[export] Instance async_reactor : Reactor := {|
  Scheduler.Op := async_op * io_result;
  Scheduler.Env := store;
  Scheduler.task_run := fun usec e =>
    let '(ready, rest, p) := reactor_run usec (proc e) (inflight e) in
    (ready, set_proc p (set_inflight rest e));
|}.

(** Everything below acts on the machine: the scheduler and the store. *)
Definition on_env (f : store -> store) (m : machine) : machine := Scheduler.set_env (f (env m)) m.

Definition update_state (i : nat) (f : state_type -> state_type) : machine -> machine :=
  on_env (fun e => set_states (alter f i (states e)) e).

(** Running a reservation program on a socket of the store. *)
Definition tcp_run {A} (i : nat) (p : prog A) : M machine A := fun m =>
  match tcps (env m) !! i with
  | Some sk =>
      let '(r, a) := exec p (TcpSocket.tcp_atoms sk) in
      (r, on_env (fun e => set_tcps (<[i := TcpSocket.set_atoms a sk]> (tcps e)) e) m)
  | None => (Throw (runtime_error "no such socket"), m)
  end.
Definition udp_run {A} (i : nat) (p : prog A) : M machine A := fun m =>
  match udps (env m) !! i with
  | Some sk =>
      let '(r, a) := exec p (UdpSocket.udp_atoms sk) in
      (r, on_env (fun e => set_udps (<[i := UdpSocket.UdpSocket a (UdpSocket.udp_sock sk)]> (udps e)) e) m)
  | None => (Throw (runtime_error "no such socket"), m)
  end.
(** A member function of a TCP socket. *)
Definition tcp_member {A} (i : nat) (f : M tcp_state A) : M machine A := fun m =>
  match tcps (env m) !! i with
  | Some sk =>
      let '(r, st) := f (TcpState sk (proc (env m))) in
      (r, on_env (fun e => set_proc (TcpSocket.proc st) (set_tcps (<[i := TcpSocket.self st]> (tcps e)) e)) m)
  | None => (Throw (runtime_error "no such socket"), m)
  end.
(** A member function of a UDP socket. *)
Definition udp_member {A} (i : nat) (f : M UdpSocket.udp_state A) : M machine A := fun m =>
  match udps (env m) !! i with
  | Some sk =>
      let '(r, st) := f (UdpSocket.UdpState sk (uworld (env m))) in
      (r, on_env (fun e => set_uworld (UdpSocket.udp_world st)
                             (set_udps (<[i := UdpSocket.udp_self st]> (udps e)) e)) m)
  | None => (Throw (runtime_error "no such socket"), m)
  end.
(** A call on the TCP socket under a socket object, with its error code. *)
Definition raw_call (i : nat) (f : raw -> process -> error_code * process) (m : machine) : error_code * machine :=
  match tcps (env m) !! i with
  | Some sk =>
      let '(e, p) := f (TcpSocket.sock sk) (proc (env m)) in (e, on_env (set_proc p) m)
  | None => (None, m)
  end.
(** A call that does not throw, for its effect. *)
Definition effect {A} (f : M machine A) (m : machine) : machine := (f m).2.

(** ** Completion handlers *)

(** The end of every handler: [state->ec = ec; ...; state->has_done = true]. *)
Definition finish_state (t : nat) (e : error_code) (m : machine) : machine :=
  update_state t (set_ec e) m.
Definition mark_done (t : nat) : machine -> machine := update_state t (set_done true).

Definition on_connected (s t : nat) (e : error_code) (m : machine) : machine :=
  mark_done t (effect (tcp_run s Tcp.end_async_connect) (finish_state t e m)).

Definition on_handshake (s t : nat) (e : error_code) (m : machine) : machine :=
  let m := if ec_set e then effect (tcp_member s TcpSocket.reset_ssl) m else m in
  mark_done t (effect (tcp_run s Tcp.end_tls_handshake) (finish_state t e m)).

Definition on_read_until (s t : nat) (e : error_code) (bytes : nat) (m : machine) : machine :=
  let m := update_state t (set_bytes bytes) m in
  mark_done t (effect (tcp_run s Tcp.end_async_read) (finish_state t e m)).

Definition commit_buffer (n : nat) (s : state_type) : state_type :=
  set_buffer (Streambuf.commit n (buffer s)) s.
Definition consume_buffer (n : nat) (s : state_type) : state_type :=
  set_buffer (Streambuf.consume n (buffer s)) s.

Definition on_read (s t : nat) (e : error_code) (bytes : nat) (m : machine) : machine :=
  let m := update_state t (fun x => set_bytes bytes (commit_buffer bytes x)) m in
  mark_done t (effect (tcp_run s Tcp.end_async_read) (finish_state t e m)).

(** [async_write] of a streambuf consumes what was sent before it calls the handler. *)
Definition on_write (s t : nat) (e : error_code) (bytes : nat) (m : machine) : machine :=
  let m := update_state t (fun x => set_bytes bytes (consume_buffer bytes x)) m in
  mark_done t (effect (tcp_run s Tcp.end_async_write) (finish_state t e m)).

Definition on_receive_from (s t : nat) (e : error_code) (bytes : nat) (from : endpoint_t) (m : machine) : machine :=
  let m := if ec_set e then m else update_state t (set_endpoint from) m in
  let m := update_state t (fun x => set_bytes bytes (commit_buffer bytes x)) m in
  mark_done t (effect (udp_run s Udp.end_async_receive) (finish_state t e m)).

Definition on_send_to (s t : nat) (e : error_code) (bytes : nat) (m : machine) : machine :=
  let m := update_state t (fun x => set_bytes bytes (consume_buffer bytes x)) m in
  mark_done t (effect (udp_run s Udp.end_async_send) (finish_state t e m)).

(** The handlers of [safe_shutdown]. *)
Definition update_shutdown (sd : nat) (f : tls_shutdown_state -> tls_shutdown_state) : machine -> machine :=
  on_env (fun e => set_shutdowns (alter f sd (shutdowns e)) e).
Definition on_process (f : process -> process) : machine -> machine :=
  on_env (fun e => set_proc (f (proc e)) e).

Definition on_tls_shutdown (sd : nat) (e : error_code) (m : machine) : machine :=
  let m := update_shutdown sd (set_sd_ec e) m in
  let m := on_process (timer_cancel sd) m in
  update_shutdown sd set_sd_done m.

Definition shutdown_is_done (sd : nat) (m : machine) : bool :=
  match shutdowns (env m) !! sd with Some x => sd_done x | None => false end.

Definition on_shutdown_timer (s sd : nat) (e : error_code) (m : machine) : machine :=
  if ec_set e || shutdown_is_done sd m then m
  else
    let m := update_shutdown sd set_sd_timed_out m in
    let m := on_process (signal_emit sd) m in
    let '(_, m) := raw_call s raw_cancel m in
    let '(_, m) := raw_call s raw_close_ec m in m.

(** An asynchronous operation handed to the reactor. *)
Definition register (o : async_op) (m : machine) : machine :=
  work_started (on_env (fun e => set_inflight (inflight e ++ [o]) e) m).

(** What the stream stored for an operation, at [at_]. *)
Definition store_bytes (t at_ : nat) (bytes : list ascii) : machine -> machine :=
  update_state t (fun x => set_buffer (Streambuf.fill at_ bytes (buffer x)) x).

(** Running a function of the buffer of a state. *)
Definition on_buffer {A} (t : nat) (f : M Streambuf.streambuf A) : M machine A := fun m =>
  match states (env m) !! t with
  | Some x =>
      let '(r, sb) := f (buffer x) in (r, update_state t (set_buffer sb) m)
  | None => (Throw (runtime_error "no such state"), m)
  end.
Definition capacity_of (t : nat) (m : machine) : nat :=
  match states (env m) !! t with Some x => vector_capacity (buffer x) | None => 0 end.

Definition complete (or : async_op * io_result) (m : machine) : machine :=
  let '(o, r) := or in
  match o with
  | OpAccept s t | OpConnect s t => on_connected s t (res_ec r) m
  | OpHandshake s t => on_handshake s t (res_ec r) m
  | OpReadUntil s t op at_ n =>
      let bytes := take n (res_bytes r) in
      let m := store_bytes t at_ bytes m in
      match on_buffer t (ReadUntil.until_resume (capacity_of t m) op (res_ec r) (length bytes) false) m with
      | (Ok (ReadUntil.ReadSome op at_ n), m) => register (OpReadUntil s t op at_ n) m
      | (Ok (ReadUntil.Handler e n), m) => on_read_until s t e (Z.to_nat n) m
      | (Throw x, m) => on_env (set_escaped x) m
      end
  | OpRead s t base c off n =>
      let bytes := take n (res_bytes r) in
      let m := store_bytes t (base + off) bytes m in
      match Transfer.read_op_call c (res_ec r) (length bytes) false with
      | Transfer.SomeIo c off n => register (OpRead s t base c off n) m
      | Transfer.OpHandler e n => on_read s t e n m
      end
  | OpWrite s t c off n =>
      match Transfer.write_op_call c (res_ec r) (Nat.min n (res_sent r)) false with
      | Transfer.SomeIo c off n => register (OpWrite s t c off n) m
      | Transfer.OpHandler e n => on_write s t e n m
      end
  | OpReceiveFrom s t base n =>
      let bytes := take n (res_bytes r) in
      on_receive_from s t (res_ec r) (length bytes) (res_from r) (store_bytes t base bytes m)
  | OpSendTo s t => on_send_to s t (res_ec r) (res_sent r) m
  | OpTlsShutdown _ sd => on_tls_shutdown sd (res_ec r) m
  | OpTimer s sd => on_shutdown_timer s sd (res_ec r) m
  | OpPosted => m
  end.

(** ** Starting operations *)

Section start.
  Context `{ErrorText} `{CovVar} `{NetworkConfig} `{CovNumber} (plat : platform).

(** [begin_tcp_async_io], [begin_udp_async_io], [begin_tcp_tls_handshake]: any exception
    becomes a script exception. *)
Definition begin_tcp_async_io {A} (begin_operation : M machine A) : M machine A :=
  try_catch begin_operation (fun e => throw (lang_error (what e))).
Definition begin_udp_async_io {A} (begin_operation : M machine A) : M machine A :=
  try_catch begin_operation (fun e => throw (lang_error (what e))).
Definition begin_tcp_tls_handshake (s : nat) : M machine unit :=
  try_catch (tcp_run s Tcp.begin_tls_handshake) (fun e => throw (lang_error (what e))).

(** [std::make_shared<state_type>()] and the function that gets it: when it throws, the
    last reference goes away. *)
Definition with_state (x : state_type) (k : nat -> M machine unit) : M machine nat := fun m =>
  let t := fresh (dom (states (env m))) in
  match k t (on_env (fun e => set_states (<[t := x]> (states e)) e) m) with
  | (Ok _, m) => (Ok t, m)
  | (Throw e, m) => (Throw e, on_env (fun e => set_states (delete t (states e)) e) m)
  end.

Definition launch (o : async_op) (on : target) : M machine unit := fun m =>
  match initiate o on (proc (env m)) with
  | (Ok _, p) => (Ok tt, register o (on_env (set_proc p) m))
  | (Throw e, p) => (Throw e, on_env (set_proc p) m)
  end.

(** [try { m } catch (...) { undo; throw; }] *)
Definition or_undo {A} (m : M machine A) (undo : M machine unit) : M machine A :=
  try_catch m (fun e => undo ;;; throw e).

Definition async_accept (s : nat) (a : acceptor) : M machine nat :=
  with_state (set_init true create_async_state) (fun t =>
    begin_tcp_async_io (tcp_run s Tcp.begin_async_connect) ;;;
    or_undo (launch (OpAccept s t) (OnAcceptor a)) (tcp_run s Tcp.end_async_connect)).

Definition async_connect (s : nat) (ep : endpoint_t) : M machine nat :=
  with_state (set_init true create_async_state) (fun t =>
    begin_tcp_async_io (tcp_run s Tcp.begin_async_connect) ;;;
    or_undo (launch (OpConnect s t) (OnEndpoint ep)) (tcp_run s Tcp.end_async_connect)).

Definition async_connect_ssl (s : nat) (host : string) (options : var) : M machine nat :=
  with_state (set_init true create_async_state) (fun t =>
    ssl_options <-- (fun m => (parse_ssl_options options, m)) ;;
    begin_tcp_tls_handshake s ;;;
    try_catch (tcp_member s (TcpSocket.prepare_ssl plat host ssl_options))
      (fun e => tcp_run s Tcp.end_tls_handshake ;;; throw (lang_error (what e))) ;;;
    try_catch (launch (OpHandshake s t) OnStream)
      (fun e => tcp_member s TcpSocket.reset_ssl ;;; tcp_run s Tcp.end_tls_handshake ;;;
                throw (lang_error (what e)))).

(** The stream an operation goes to: [get_tls_raw] throws when there is none. *)
Definition choose_stream (s : nat) : M machine unit :=
  ssl <-- tcp_member s TcpSocket.is_ssl ;;
  if (ssl : bool) then tcp_member s TcpSocket.get_tls_raw ;;; ret tt else ret tt.

Definition not_done_yet : exn := lang_error "Last asynchronous operation have not done yet.".

Definition async_read_until (s t : nat) (pattern : list ascii) : M machine unit := fun m =>
  match states (env m) !! t with
  | None => (Throw (runtime_error "no such state"), m)
  | Some previous =>
      if init previous && negb (has_done previous) then (Throw not_done_yet, m)
      else
        (begin_tcp_async_io (tcp_run s Tcp.begin_async_read) ;;;
         modify (update_state t (fun x => set_ec None (set_done false (set_read true (set_init true x))))) ;;;
         or_undo
           (choose_stream s ;;;
            cap <-- gets (capacity_of t) ;;
            o <-- on_buffer t (ReadUntil.until_start cap (ReadUntil.new_until_op pattern)) ;;
            match o with
            | ReadUntil.ReadSome op at_ n => launch (OpReadUntil s t op at_ n) OnStream
            | ReadUntil.Handler _ _ => ret tt
            end)
           (tcp_run s Tcp.end_async_read ;;;
            modify (update_state t (fun x =>
              set_done (has_done previous) (set_ec (ec previous)
                (set_read (is_read previous) (set_init (init previous) x))))))) m
  end.

(** [op_start] suspends the operation in its first transfer. *)
Definition first_transfer (size : nat) : Transfer.consuming * nat * nat :=
  match Transfer.op_start size with
  | Transfer.SomeIo c off n => (c, off, n)
  | Transfer.OpHandler _ _ => (Transfer.new_consuming size, 0%nat, 0%nat)
  end.

Definition async_read (s : nat) (requested_size : number) : M machine nat := fun m =>
  match checked_io_buffer_size requested_size with
  | Throw e => (Throw e, m)
  | Ok n =>
      with_state (set_read true (set_init true create_async_state)) (fun t =>
        begin_tcp_async_io (tcp_run s Tcp.begin_async_read) ;;;
        or_undo
          (choose_stream s ;;;
           base <-- on_buffer t (Streambuf.prepare (Z.to_nat n)) ;;
           let '(c, off, len) := first_transfer (Z.to_nat n) in
           launch (OpRead s t base c off len) OnStream)
          (tcp_run s Tcp.end_async_read)) m
  end.

Definition async_write (s : nat) (bytes : list ascii) : M machine nat :=
  with_state (set_init true create_async_state) (fun t =>
    begin_tcp_async_io (tcp_run s Tcp.begin_async_write) ;;;
    or_undo
      (on_buffer t (Streambuf.sputn bytes) ;;;
       choose_stream s ;;;
       size <-- on_buffer t (gets Streambuf.size) ;;
       let '(c, off, len) := first_transfer size in
       launch (OpWrite s t c off len) OnStream)
      (tcp_run s Tcp.end_async_write)).

Definition async_receive_from (s : nat) (requested_size : number) : M machine nat := fun m =>
  match checked_io_buffer_size requested_size with
  | Throw e => (Throw e, m)
  | Ok n =>
      with_state (set_read true (set_udp true (set_init true create_async_state))) (fun t =>
        begin_udp_async_io (udp_run s Udp.begin_async_receive) ;;;
        or_undo
          (base <-- on_buffer t (Streambuf.prepare (Z.to_nat n)) ;;
           launch (OpReceiveFrom s t base (Z.to_nat n)) OnStream)
          (udp_run s Udp.end_async_receive)) m
  end.

Definition async_send_to (s : nat) (bytes : list ascii) (ep : endpoint_t) : M machine nat :=
  with_state (set_endpoint ep (set_udp true (set_init true create_async_state))) (fun t =>
    begin_udp_async_io (udp_run s Udp.begin_async_send) ;;;
    or_undo
      (on_buffer t (Streambuf.sputn bytes) ;;;
       launch (OpSendTo s t) (OnEndpoint ep))
      (udp_run s Udp.end_async_send)).
End start.
End reactor.
