(* ===== verification/AsyncSafety.v ===== *)
(** * The invariant of the asynchronous operations

    For every socket, the reservations are exactly those of the operations pending on it;
    for every state, an operation is pending exactly when the state is started and not
    done.  Starting operations, the completion handlers and the event loop keep this. *)
From S2P Require Import Prelude FixedHex Endpoint TlsOptions TrustStore Atomics Admission Reservations.
From S2P Require Import AsyncState AsyncOps.
From S2P Require Streambuf ReadUntil Transfer TcpSocket UdpSocket Scheduler.
Import TcpSocket (SocketExternal, tcp_socket, tcp_state, TcpState, tcp_atoms, set_atoms, tcp_wf, keeps).
Import UdpSocket (UdpExternal, udp_socket, udp_atoms).
Import Scheduler (Reactor, machine, Machine, env, sched).
Open Scope nat_scope.

(** ** Counting *)

Definition cnt {A} `{EqDecision A} (x : A) (l : list A) : nat := length (filter (x =.) l).

Arguments cnt {A _} _ _ : simpl never.

Lemma cnt_cons {A} `{EqDecision A} (x y : A) l : cnt x (y :: l) = (if decide (x = y) then 1 else 0) + cnt x l.
Proof. unfold cnt. rewrite filter_cons. by destruct (decide (x = y)). Qed.
Lemma cnt_perm {A} `{EqDecision A} (x : A) l k : l ≡ₚ k -> cnt x l = cnt x k.
Proof. intros H. unfold cnt. by rewrite H. Qed.
Lemma cnt_in {A} `{EqDecision A} (x : A) l : x ∈ l -> 0 < cnt x l.
Proof.
  intros Hx. unfold cnt. destruct (filter (x =.) l) eqn:E; [|cbn; lia].
  assert (x ∈ filter (x =.) l) as H by (by apply list_elem_of_filter). rewrite E in H. by apply elem_of_nil in H.
Qed.

(** ** Reservations *)

Definition reserve_role (r : role) (a : atoms) : atoms :=
  match r with
  | Exclusively => reserve_exclusive a
  | Draining => set_flag Exclusive true a
  | Io d => reserve_io d a
  end.
Definition release_role (r : role) (a : atoms) : atoms :=
  match r with
  | Exclusively => set_flag Exclusive false (set_jobs (wrap64 (async_jobs a - 1)) a)
  | Draining => set_flag Exclusive false a
  | Io d => set_flag (Operation d) false (set_jobs (wrap64 (async_jobs a - 1)) a)
  end.
(** When the flags admit a role. *)
Definition admits (r : role) (a : atoms) : bool :=
  match r with
  | Exclusively => negb (exclusive_operation a) && (async_jobs a =? 0)%Z
  | Draining => negb (exclusive_operation a)
  | Io d => negb (get_flag (Operation d) a) && negb (exclusive_operation a)
  end.

Lemma end_exclusive_run a : exec end_exclusive_operation a = (Ok tt, release_role Exclusively a).
Proof. done. Qed.
Lemma end_draining_run a : exec end_draining_exclusive a = (Ok tt, release_role Draining a).
Proof. done. Qed.
Lemma finish_io_run d a : exec (finish_io_job d) a = (Ok tt, release_role (Io d) a).
Proof. by destruct d. Qed.

(** The reservations [a] of socket [s] are those listed in [P]. *)
Record resv_ok (P : list (sock_ref * role)) (s : sock_ref) (a : atoms) : Prop := {
  ro_excl : exclusive_operation a = (0 <? cnt (s, Exclusively) P + cnt (s, Draining) P);
  ro_read : read_operation a = (0 <? cnt (s, Io dir_read) P);
  ro_write : write_operation a = (0 <? cnt (s, Io dir_write) P);
  ro_lock : cnt (s, Exclusively) P + cnt (s, Draining) P <= 1;
  ro_one : forall d, cnt (s, Io d) P <= 1;
  ro_jobs : async_jobs a =
    Z.of_nat (cnt (s, Exclusively) P + cnt (s, Io dir_read) P + cnt (s, Io dir_write) P);
}.

Lemma resv_ok_jobs P s a : resv_ok P s a -> jobs_ok a.
Proof.
  intros [_ _ _ Hl Ho Hj]. unfold jobs_ok. rewrite Hj.
  pose proof (Ho dir_read). pose proof (Ho dir_write). lia.
Qed.

Lemma cnt_other (s s' : sock_ref) (r r' : role) P : s <> s' -> cnt (s, r) ((s', r') :: P) = cnt (s, r) P.
Proof. intros Hs. rewrite cnt_cons. by rewrite decide_False by congruence. Qed.

Lemma resv_ok_ext P P' s a : (forall r, cnt (s, r) P = cnt (s, r) P') -> resv_ok P s a -> resv_ok P' s a.
Proof.
  intros Hc [He Hr Hw Hl Ho Hj]. split; [..|intros d; specialize (Ho d)|]; by rewrite <- ?Hc.
Qed.

Lemma resv_ok_other P s s' r a : s <> s' -> resv_ok ((s', r) :: P) s a <-> resv_ok P s a.
Proof. intros Hs. split; apply resv_ok_ext; intros r'; by rewrite cnt_other. Qed.

Definition hit (r r' : role) : nat :=
  match r, r' with
  | Exclusively, Exclusively | Draining, Draining | Io dir_read, Io dir_read | Io dir_write, Io dir_write => 1
  | _, _ => 0
  end.

Lemma cnt_role (s : sock_ref) (r r' : role) P : cnt (s, r) ((s, r') :: P) = hit r r' + cnt (s, r) P.
Proof. rewrite cnt_cons. by case_decide; destruct r as [| |[]], r' as [| |[]]; simplify_eq. Qed.

(** Leaving and entering. *)
Lemma resv_release P s r a : resv_ok ((s, r) :: P) s a -> resv_ok P s (release_role r a).
Proof.
  intros [He Hr Hw Hl Ho Hj]. pose proof (Ho dir_read) as H3. pose proof (Ho dir_write) as H4. clear Ho.
  rewrite cnt_role in Hr, Hw, H3, H4. do 2 rewrite cnt_role in He, Hl. do 3 rewrite cnt_role in Hj.
  destruct a as [t e rd wr j]; cbn -[Nat.ltb] in He, Hr, Hw, Hj.
  destruct r as [| |[]]; cbn -[Nat.ltb] in *;
    (split; cbn -[wrap64 Nat.ltb];
     [ | | |lia|intros []; lia|rewrite ?wrap64_small by lia; lia]);
    try (rewrite ?He, ?Hr, ?Hw; done); symmetry; apply Nat.ltb_ge; lia.
Qed.

Lemma resv_reserve P s r a : resv_ok P s a -> admits r a = true -> resv_ok ((s, r) :: P) s (reserve_role r a).
Proof.
  intros [He Hr Hw Hl Ho Hj] Hadm. pose proof (Ho dir_read) as H3. pose proof (Ho dir_write) as H4. clear Ho.
  destruct a as [t e rd wr j]; cbn -[Nat.ltb] in He, Hr, Hw, Hj. subst e rd wr j.
  destruct r as [| |[]]; cbn -[Nat.ltb Z.eqb] in Hadm;
    repeat match type of Hadm with context [0 <? ?x] => destruct (Nat.ltb_spec 0 x); cbn -[Nat.ltb Z.eqb] in Hadm end;
    try done; try (apply Z.eqb_eq in Hadm);
    (split; cbn -[wrap64 Nat.ltb];
     [do 2 rewrite cnt_role|rewrite cnt_role|rewrite cnt_role|do 2 rewrite cnt_role|intros []; rewrite cnt_role
     |do 3 rewrite cnt_role]); cbn -[wrap64 Nat.ltb];
    rewrite ?wrap64_small by lia; try lia; try done;
    try (symmetry; apply Nat.ltb_lt; lia); try (repeat match goal with |- context [0 <? ?x] => destruct (Nat.ltb_spec 0 x) end; lia || done).
Qed.

(** ** The invariant *)

Section invariant.
  Context `{T : TrustExternal} {N : SocketExternal T} {U : UdpExternal} {X : AsyncExternal}.
  #[local] Existing Instance async_reactor.
  #[local] Abbreviation machine := (@Scheduler.machine async_reactor).

(** One operation is pending on a state that is started and not done. *)
Definition waiting (x : state_type) : nat := if init x && negb (has_done x) then 1 else 0.

Record store_ok (R : list (sock_ref * role)) (S : list nat) (e : store) : Prop := {
  so_tcp : forall i sk, tcps e !! i = Some sk -> tcp_wf sk /\ resv_ok R (TcpSock i) (tcp_atoms sk);
  so_udp : forall i sk, udps e !! i = Some sk -> resv_ok R (UdpSock i) (udp_atoms sk);
  so_socks : forall s r, (s, r) ∈ R ->
    match s with TcpSock i => is_Some (tcps e !! i) | UdpSock i => is_Some (udps e !! i) end;
  so_states : forall t, cnt t S = match states e !! t with Some x => waiting x | None => 0 end;
}.

Lemma resv_ok_perm R R' s a : R ≡ₚ R' -> resv_ok R s a -> resv_ok R' s a.
Proof.
  intros Hp. apply resv_ok_ext. intros r. by apply cnt_perm.
Qed.

Lemma store_ok_perm R R' S S' e : R ≡ₚ R' -> S ≡ₚ S' -> store_ok R S e -> store_ok R' S' e.
Proof.
  intros HR HS [Ht Hu Hs Hst]. split.
  - intros i sk Hi. destruct (Ht i sk Hi). split; [done|]. by eapply resv_ok_perm.
  - intros i sk Hi. eapply resv_ok_perm; [done|]. by apply Hu.
  - intros s r Hin. apply (Hs s r). by rewrite HR.
  - intros t. by rewrite <- (cnt_perm t S S').
Qed.

(** What is reserved by the sockets being drained [D] and the operations [l], and the
    states they complete. *)
Definition keys (D : list sock_ref) (l : list async_op) : list (sock_ref * role) :=
  ((fun s => (s, Draining)) <$> D) ++ omap op_key l.
Definition ids (l : list async_op) : list nat := omap op_state l.

Lemma keys_cons D o l : keys D (o :: l) ≡ₚ option_list (op_key o) ++ keys D l.
Proof.
  unfold keys. cbn. destruct (op_key o) as [k|]; cbn; [|done]. symmetry. apply Permutation_middle.
Qed.
Lemma ids_cons o l : ids (o :: l) = option_list (op_state o) ++ ids l.
Proof. unfold ids. cbn. by destruct (op_state o). Qed.
#[export] Instance keys_proper D : Proper ((≡ₚ) ==> (≡ₚ)) (keys D).
Proof. intros l k H. unfold keys. by rewrite H. Qed.
#[export] Instance ids_proper : Proper ((≡ₚ) ==> (≡ₚ)) ids.
Proof. intros l k H. unfold ids. by rewrite H. Qed.

(** The operations in progress: with the reactor, queued, or on the thread's own queue. *)
Definition pending (m : machine) : list async_op :=
  inflight (env m) ++ (fst <$> Scheduler.user_ops (Scheduler.op_queue_ (sched m)))
    ++ (fst <$> Scheduler.private_ops m).

(** An exception that leaves a handler takes its operation with it: the invariant is
    about runs without one. *)
Definition good (R : list (sock_ref * role)) (S : list nat) (m : machine) : Prop :=
  is_Some (escaped (env m)) \/ store_ok R S (env m).
Definition async_inv (m : machine) : Prop := good (keys (draining (env m)) (pending m)) (ids (pending m)) m.

(** ** Updates of the store *)

Lemma good_env R S R' S' f (m : machine) :
  (forall e, escaped (f e) = escaped e) -> (forall e, store_ok R S e -> store_ok R' S' (f e)) ->
  good R S m -> good R' S' (on_env f m).
Proof.
  intros Hesc Hf [Hx|Hok]; [left|right]; cbn; [by rewrite Hesc|by apply Hf].
Qed.

(** A change of a state that keeps [init] and [has_done]. *)
Lemma ok_state R S t f e : (forall x, waiting (f x) = waiting x) -> store_ok R S e ->
  store_ok R S (set_states (alter f t (states e)) e).
Proof.
  intros Hf [Ht Hu Hs Hst]. split; cbn; [done..|]. intros t'. rewrite Hst.
  destruct (decide (t = t')) as [->|Hne].
  - rewrite lookup_alter_eq. destruct (states e !! t'); cbn; [by rewrite Hf|done].
  - by rewrite lookup_alter_ne.
Qed.

(** Ending what is pending on a state. *)
Lemma ok_done R S t e : store_ok R (t :: S) e ->
  store_ok R S (set_states (alter (set_done true) t (states e)) e).
Proof.
  intros [Ht Hu Hs Hst]. split; cbn; [done..|]. intros t'. specialize (Hst t'). rewrite cnt_cons in Hst.
  destruct (decide (t = t')) as [->|Hne].
  - rewrite decide_True in Hst by done. rewrite lookup_alter_eq.
    destruct (states e !! t') as [x|]; [|lia]. cbn. unfold waiting in *. cbn.
    destruct (init x), (has_done x); cbn in *; lia.
  - rewrite decide_False in Hst by done. by rewrite lookup_alter_ne.
Qed.

Lemma ok_tcp_set R S i sk sk' e : tcps e !! i = Some sk -> tcp_wf sk' -> resv_ok R (TcpSock i) (tcp_atoms sk') ->
  store_ok R S e -> store_ok R S (set_tcps (<[i := sk']> (tcps e)) e).
Proof.
  intros Hi Hwf Hr [Ht Hu Hs Hst]. split; cbn; [|done| |done].
  - intros i' sk0. destruct (decide (i = i')) as [<-|Hne].
    + rewrite lookup_insert_eq. by intros [= <-].
    + rewrite lookup_insert_ne by done. apply Ht.
  - intros s r Hin. specialize (Hs s r Hin). destruct s as [i'|]; [|done].
    destruct (decide (i = i')) as [<-|Hne]; [by rewrite lookup_insert_eq|by rewrite lookup_insert_ne].
Qed.

(** Changing the operations of one socket, together with its reservations. *)
Lemma ok_tcp_move R R' S i sk a e : tcps e !! i = Some sk ->
  (forall s x, s <> TcpSock i -> resv_ok R s x -> resv_ok R' s x) ->
  (forall s r, (s, r) ∈ R' -> s = TcpSock i \/ (s, r) ∈ R) ->
  tls_enabled a = tls_enabled (tcp_atoms sk) -> resv_ok R' (TcpSock i) a ->
  store_ok R S e -> store_ok R' S (set_tcps (<[i := set_atoms a sk]> (tcps e)) e).
Proof.
  intros Hi Hother Hin Htls Ha [Ht Hu Hs Hst]. destruct (Ht i sk Hi) as [Hwf _].
  assert (tcp_wf (set_atoms a sk)) as Hwf'.
  { destruct Hwf as [Hf Hc Hj]. split; cbn; [by rewrite Htls|done|by eapply resv_ok_jobs]. }
  split; cbn; [| | |done].
  - intros i' sk0. destruct (decide (i = i')) as [<-|Hne].
    + rewrite lookup_insert_eq. by intros [= <-].
    + rewrite lookup_insert_ne by done. intros Hi'. destruct (Ht i' sk0 Hi'). split; [done|].
      apply Hother; [congruence|done].
  - intros i' sk0 Hi'. apply Hother; [done|]. by apply Hu.
  - intros s r Hsr. destruct (Hin s r Hsr) as [->|Hsr']; [by rewrite lookup_insert_eq|].
    specialize (Hs s r Hsr'). destruct s as [i'|]; [|done].
    destruct (decide (i = i')) as [<-|Hne]; [by rewrite lookup_insert_eq|by rewrite lookup_insert_ne].
Qed.

Lemma ok_udp_move R R' S i sk a e : udps e !! i = Some sk ->
  (forall s x, s <> UdpSock i -> resv_ok R s x -> resv_ok R' s x) ->
  (forall s r, (s, r) ∈ R' -> s = UdpSock i \/ (s, r) ∈ R) ->
  resv_ok R' (UdpSock i) a ->
  store_ok R S e ->
  store_ok R' S (set_udps (<[i := UdpSocket.UdpSocket a (UdpSocket.udp_sock sk)]> (udps e)) e).
Proof.
  intros Hi Hother Hin Ha [Ht Hu Hs Hst]. split; cbn; [| | |done].
  - intros i' sk0 Hi'. destruct (Ht i' sk0 Hi'). split; [done|]. by apply Hother.
  - intros i' sk0. destruct (decide (i = i')) as [<-|Hne].
    + rewrite lookup_insert_eq. by intros [= <-].
    + rewrite lookup_insert_ne by done. intros Hi'. apply Hother; [congruence|]. by apply Hu.
  - intros s r Hsr. destruct (Hin s r Hsr) as [->|Hsr']; [by rewrite lookup_insert_eq|].
    specialize (Hs s r Hsr'). destruct s as [|i']; [done|].
    destruct (decide (i = i')) as [<-|Hne]; [by rewrite lookup_insert_eq|by rewrite lookup_insert_ne].
Qed.

(** ** Primitive steps of handlers and starting functions *)

(** A step that moves no operation. *)
Record stays (m m' : machine) : Prop := {
  st_sched : sched m' = sched m;
  st_thread : Scheduler.this_thread m' = Scheduler.this_thread m;
  st_inflight : inflight (env m') = inflight (env m);
  st_guards : guards (env m') = guards (env m);
  st_draining : draining (env m') = draining (env m);
  st_escaped : is_Some (escaped (env m)) -> is_Some (escaped (env m'));
}.

Lemma stays_refl m : stays m m.
Proof. by split. Qed.
Lemma stays_trans m1 m2 m3 : stays m1 m2 -> stays m2 m3 -> stays m1 m3.
Proof. intros [] []. split; [congruence..|auto]. Qed.
Lemma stays_pending m m' : stays m m' -> pending m' = pending m.
Proof. intros [Hs Ht Hi _ _ _]. unfold pending, Scheduler.private_ops. by rewrite Hs, Ht, Hi. Qed.
Lemma stays_env f (m : machine) : (forall e, inflight (f e) = inflight e) ->
  (forall e, guards (f e) = guards e) -> (forall e, draining (f e) = draining e) ->
  (forall e, escaped (f e) = escaped e) -> stays m (on_env f m).
Proof. intros Hi Hg Hd He. split; cbn; [done..|by rewrite He]. Qed.

Lemma good_mono R S R' S' (m m' : machine) : stays m m' ->
  (store_ok R S (env m) -> store_ok R' S' (env m')) -> good R S m -> good R' S' m'.
Proof. intros [_ _ _ _ _ He] Hf [Hx|Hok]; [left; by apply He|right; by apply Hf]. Qed.

Lemma update_state_stays t f m : stays m (update_state t f m).
Proof. by apply stays_env. Qed.
Lemma good_update R S t f m : (forall x, waiting (f x) = waiting x) -> good R S m -> good R S (update_state t f m).
Proof. intros Hf. apply good_mono; [apply update_state_stays|]. intros H. by apply ok_state. Qed.
Lemma good_mark_done R S t m : good R (t :: S) m -> good R S (mark_done t m).
Proof. apply good_mono; [apply update_state_stays|]. apply ok_done. Qed.

Lemma tcp_run_stays {A} i (p : prog A) m : stays m (tcp_run i p m).2.
Proof.
  unfold tcp_run. destruct (tcps (env m) !! i) as [sk|]; [|done].
  destruct (exec p (tcp_atoms sk)) as [r a]. by apply stays_env.
Qed.
Lemma udp_run_stays {A} i (p : prog A) m : stays m (udp_run i p m).2.
Proof.
  unfold udp_run. destruct (udps (env m) !! i) as [sk|]; [|done].
  destruct (exec p (udp_atoms sk)) as [r a]. by apply stays_env.
Qed.
Lemma tcp_member_stays {A} i (f : M tcp_state A) m : stays m (tcp_member i f m).2.
Proof.
  unfold tcp_member. destruct (tcps (env m) !! i) as [sk|]; [|done].
  destruct (f (TcpState sk (proc (env m)))) as [r st]. by apply stays_env.
Qed.
Lemma on_buffer_stays {A} t (f : M Streambuf.streambuf A) m : stays m (on_buffer t f m).2.
Proof.
  unfold on_buffer. destruct (states (env m) !! t) as [x|]; [|done].
  destruct (f (buffer x)) as [r sb]. apply update_state_stays.
Qed.
Lemma good_on_buffer {A} R S t (f : M Streambuf.streambuf A) m : good R S m -> good R S (on_buffer t f m).2.
Proof.
  unfold on_buffer. destruct (states (env m) !! t) as [x|]; [|done].
  destruct (f (buffer x)) as [r sb]. by apply good_update.
Qed.

Lemma good_tcp_member {A} R S i (f : M tcp_state A) m : keeps f -> good R S m -> good R S (tcp_member i f m).2.
Proof.
  intros Hk. apply good_mono; [apply tcp_member_stays|]. intros Hok. unfold tcp_member.
  destruct (tcps (env m) !! i) as [sk|] eqn:Hi; [|done].
  destruct (so_tcp _ _ _ Hok i sk Hi) as [Hwf Hr].
  destruct (Hk (TcpState sk (proc (env m))) Hwf) as [Hwf' Hr']. cbn in Hr'.
  destruct (f (TcpState sk (proc (env m)))) as [r st]; cbn in *.
  pose proof (ok_tcp_set R S i sk (TcpSocket.self st) (env m) Hi Hwf') as Hset.
  destruct Hset as [? ? ? ?]; [|done|by split].
  destruct Hr as [He Hrd Hw Hl Ho Hj]. unfold resv in Hr'. injection Hr' as H1 H2 H3 H4.
  split; [congruence..|done|done|congruence].
Qed.

Lemma udp_member_stays {A} i (f : M UdpSocket.udp_state A) m : stays m (udp_member i f m).2.
Proof.
  unfold udp_member. destruct (udps (env m) !! i) as [sk|]; [|done].
  destruct (f (UdpSocket.UdpState sk (uworld (env m)))) as [r st]. by apply stays_env.
Qed.
Lemma good_udp_member {A} R S i (f : M UdpSocket.udp_state A) m : UdpSocket.ukeeps f ->
  good R S m -> good R S (udp_member i f m).2.
Proof.
  intros Hk. apply good_mono; [apply udp_member_stays|]. intros Hok. unfold udp_member.
  destruct (udps (env m) !! i) as [sk|] eqn:Hi; [|done].
  pose proof (so_udp _ _ _ Hok i sk Hi) as Hr. pose proof (resv_ok_jobs _ _ _ Hr) as Hj.
  specialize (Hk (UdpSocket.UdpState sk (uworld (env m))) Hj). cbn in Hk.
  destruct (f (UdpSocket.UdpState sk (uworld (env m)))) as [r st]; cbn in *.
  destruct Hok as [Ht Hu Hs Hst]. split; cbn; [done| | |done].
  - intros i' sk'. destruct (decide (i = i')) as [<-|Hne].
    + rewrite lookup_insert_eq. intros [= <-]. by rewrite Hk.
    + rewrite lookup_insert_ne by done. apply Hu.
  - intros s r' Hin. specialize (Hs s r' Hin). destruct s as [|i']; [done|].
    destruct (decide (i = i')) as [<-|Hne]; [by rewrite lookup_insert_eq|by rewrite lookup_insert_ne].
Qed.

Lemma others_drop s r R : forall (s' : sock_ref) x, s' <> s -> resv_ok ((s, r) :: R) s' x -> resv_ok R s' x.
Proof. intros s' x Hne. by apply resv_ok_other. Qed.
Lemma others_add s r R : forall (s' : sock_ref) x, s' <> s -> resv_ok R s' x -> resv_ok ((s, r) :: R) s' x.
Proof. intros s' x Hne. by apply resv_ok_other. Qed.

(** Releasing, on TCP and UDP sockets. *)
Lemma tcp_end_ok R S i r p m : (forall a, exec p a = (Ok tt, release_role r a)) ->
  good ((TcpSock i, r) :: R) S m -> good R S (tcp_run i p m).2.
Proof.
  intros Hp. apply good_mono; [apply tcp_run_stays|]. intros Hok. unfold tcp_run.
  destruct (so_socks _ _ _ Hok (TcpSock i) r) as [sk Hi]; [by left|]. rewrite Hi, Hp. cbn.
  destruct (so_tcp _ _ _ Hok i sk Hi) as [Hwf Hr].
  eapply ok_tcp_move; [exact Hi|apply others_drop| | |by apply resv_release|exact Hok].
  - intros s r' Hin. right. by right.
  - by destruct r as [| |[]].
Qed.
Lemma udp_end_ok R S i r p m : (forall a, exec p a = (Ok tt, release_role r a)) ->
  good ((UdpSock i, r) :: R) S m -> good R S (udp_run i p m).2.
Proof.
  intros Hp. apply good_mono; [apply udp_run_stays|]. intros Hok. unfold udp_run.
  destruct (so_socks _ _ _ Hok (UdpSock i) r) as [sk Hi]; [by left|]. rewrite Hi, Hp. cbn.
  eapply ok_udp_move; [exact Hi|apply others_drop| |apply resv_release; by apply (so_udp _ _ _ Hok)|exact Hok].
  intros s r' Hin. right. by right.
Qed.

(** ** Completion handlers *)

(** A step that keeps what is pending and the invariant. *)
Definition benign (f : machine -> machine) : Prop :=
  forall m, stays m (f m) /\ forall R S, good R S m -> good R S (f m).

Lemma benign_id : benign (fun m => m).
Proof. by intros m. Qed.
Lemma benign_update t f : (forall x, waiting (f x) = waiting x) -> benign (update_state t f).
Proof. intros Hf m. split; [apply update_state_stays|]. intros R S. by apply good_update. Qed.
Lemma benign_comp f g : benign f -> benign g -> benign (fun m => g (f m)).
Proof.
  intros Hf Hg m. destruct (Hf m) as [Hs1 Hg1], (Hg (f m)) as [Hs2 Hg2].
  split; [by eapply stays_trans|auto].
Qed.
Lemma benign_member {A} s (f : M tcp_state A) : keeps f -> benign (fun m => (tcp_member s f m).2).
Proof. intros Hf m. split; [apply tcp_member_stays|]. intros R S. by apply good_tcp_member. Qed.
Lemma benign_if (b : bool) f g : benign f -> benign g -> benign (fun m => if b then f m else g m).
Proof. by destruct b. Qed.

(** What every handler does with its operation [(s, r)] on state [t]. *)
Definition finishes (s : sock_ref) (r : role) (t : nat) (h : machine -> machine) : Prop :=
  forall m, stays m (h m) /\ forall R S, good ((s, r) :: R) (t :: S) m -> good R S (h m).

Lemma finish_tcp i r t e p f : (forall a, exec p a = (Ok tt, release_role r a)) -> benign f ->
  finishes (TcpSock i) r t (fun m => mark_done t (effect (tcp_run i p) (finish_state t e (f m)))).
Proof.
  intros Hp Hf m. destruct (Hf m) as [Hs1 Hg1]. split.
  - eapply stays_trans; [exact Hs1|]. eapply stays_trans; [apply update_state_stays|].
    eapply stays_trans; [apply (tcp_run_stays i p)|apply update_state_stays].
  - intros R S Hg. apply good_mark_done, (tcp_end_ok R _ i r); [done|].
    unfold finish_state. apply good_update; [done|auto].
Qed.
Lemma finish_udp i r t e p f : (forall a, exec p a = (Ok tt, release_role r a)) -> benign f ->
  finishes (UdpSock i) r t (fun m => mark_done t (effect (udp_run i p) (finish_state t e (f m)))).
Proof.
  intros Hp Hf m. destruct (Hf m) as [Hs1 Hg1]. split.
  - eapply stays_trans; [exact Hs1|]. eapply stays_trans; [apply update_state_stays|].
    eapply stays_trans; [apply (udp_run_stays i p)|apply update_state_stays].
  - intros R S Hg. apply good_mark_done, (udp_end_ok R _ i r); [done|].
    unfold finish_state. apply good_update; [done|auto].
Qed.

Lemma on_connected_ok s t e : finishes (TcpSock s) Exclusively t (on_connected s t e).
Proof. by apply (finish_tcp s Exclusively t e Tcp.end_async_connect (fun m => m)); [|apply benign_id]. Qed.

Lemma on_handshake_ok s t e : finishes (TcpSock s) Exclusively t (on_handshake s t e).
Proof.
  apply (finish_tcp s Exclusively t e Tcp.end_tls_handshake
    (fun m => if ec_set e then effect (tcp_member s TcpSocket.reset_ssl) m else m)); [done|].
  apply benign_if; [apply benign_member, TcpSocket.keeps_clear|apply benign_id].
Qed.

Lemma on_read_until_ok s t e n : finishes (TcpSock s) (Io dir_read) t (on_read_until s t e n).
Proof.
  apply (finish_tcp s (Io dir_read) t e Tcp.end_async_read (update_state t (set_bytes n)));
    [apply (finish_io_run dir_read)|by apply benign_update].
Qed.
Lemma on_read_ok s t e n : finishes (TcpSock s) (Io dir_read) t (on_read s t e n).
Proof.
  apply (finish_tcp s (Io dir_read) t e Tcp.end_async_read
    (update_state t (fun x => set_bytes n (commit_buffer n x))));
    [apply (finish_io_run dir_read)|by apply benign_update].
Qed.
Lemma on_write_ok s t e n : finishes (TcpSock s) (Io dir_write) t (on_write s t e n).
Proof.
  apply (finish_tcp s (Io dir_write) t e Tcp.end_async_write
    (update_state t (fun x => set_bytes n (consume_buffer n x))));
    [apply (finish_io_run dir_write)|by apply benign_update].
Qed.
Lemma on_receive_from_ok s t e n from : finishes (UdpSock s) (Io dir_read) t (on_receive_from s t e n from).
Proof.
  apply (finish_udp s (Io dir_read) t e Udp.end_async_receive
    (fun m => update_state t (fun x => set_bytes n (commit_buffer n x))
                (if ec_set e then m else update_state t (set_endpoint from) m)));
    [apply (finish_io_run dir_read)|].
  apply (benign_comp (fun m => if ec_set e then m else update_state t (set_endpoint from) m));
    [apply benign_if; [apply benign_id|by apply benign_update]|by apply benign_update].
Qed.
Lemma on_send_to_ok s t e n : finishes (UdpSock s) (Io dir_write) t (on_send_to s t e n).
Proof.
  apply (finish_udp s (Io dir_write) t e Udp.end_async_send
    (update_state t (fun x => set_bytes n (consume_buffer n x))));
    [apply (finish_io_run dir_write)|by apply benign_update].
Qed.

(** The handlers of [safe_shutdown] hold nothing. *)
Lemma benign_shutdown sd f : benign (update_shutdown sd f).
Proof.
  intros m. split; [by apply stays_env|]. intros R S. apply good_env; [done|]. intros e Hok. by destruct Hok.
Qed.
Lemma benign_process f : benign (on_process f).
Proof.
  intros m. split; [by apply stays_env|]. intros R S. apply good_env; [done|]. intros e Hok. by destruct Hok.
Qed.
Lemma benign_raw i f : benign (fun m => (raw_call i f m).2).
Proof.
  intros m. unfold raw_call. destruct (tcps (env m) !! i) as [sk|]; [|apply benign_id].
  destruct (f (TcpSocket.sock sk) (proc (env m))) as [e p].
  split; [by apply stays_env|]. intros R S. apply good_env; [done|]. intros x Hok. by destruct Hok.
Qed.
Lemma on_tls_shutdown_ok sd e : benign (on_tls_shutdown sd e).
Proof.
  apply (benign_comp (fun m => on_process (timer_cancel sd) (update_shutdown sd (set_sd_ec e) m)));
    [|apply benign_shutdown].
  apply (benign_comp (update_shutdown sd (set_sd_ec e))); [apply benign_shutdown|apply benign_process].
Qed.
Lemma on_shutdown_timer_ok s sd e : benign (on_shutdown_timer s sd e).
Proof.
  intros m. unfold on_shutdown_timer. destruct (ec_set e || shutdown_is_done sd m); [apply benign_id|].
  set (f := fun m => on_process (signal_emit sd) (update_shutdown sd set_sd_timed_out m)).
  assert (benign f) as Hf by (apply (benign_comp (update_shutdown sd set_sd_timed_out)); [apply benign_shutdown|apply benign_process]).
  pose proof (benign_comp _ _ (benign_comp _ _ Hf (benign_raw s raw_cancel)) (benign_raw s raw_close_ec) m) as Hb.
  unfold f in Hb. cbn in Hb.
  destruct (raw_call s raw_cancel _) as [e1 m1]. cbn in Hb. by destruct (raw_call s raw_close_ec m1) as [e2 m2].
Qed.

(** A completion ends its operation, or suspends it again. *)
Definition ends (o : async_op) (m m' : machine) : Prop :=
  stays m m' /\ forall R S, good (option_list (op_key o) ++ R) (option_list (op_state o) ++ S) m -> good R S m'.
Definition suspends (o : async_op) (m m' : machine) : Prop :=
  exists o' m1, m' = register o' m1 /\ op_key o' = op_key o /\ op_state o' = op_state o /\
    stays m m1 /\ forall R S, good R S m -> good R S m1.

Lemma ends_after o s r t h f m : op_key o = Some (s, r) -> op_state o = Some t ->
  finishes s r t h -> benign f -> ends o m (h (f m)).
Proof.
  intros Hk Hst Hh Hf. destruct (Hf m) as [Hs1 Hg1], (Hh (f m)) as [Hs2 Hg2].
  split; [by eapply stays_trans|]. rewrite Hk, Hst. intros R S Hg. by apply Hg2, Hg1.
Qed.
Lemma ends_benign o f m : op_key o = None -> op_state o = None -> benign f -> ends o m (f m).
Proof. intros Hk Hst Hf. destruct (Hf m) as [Hs Hg]. split; [done|]. rewrite Hk, Hst. apply Hg. Qed.
Lemma suspends_after o o' f m : op_key o' = op_key o -> op_state o' = op_state o -> benign f ->
  suspends o m (register o' (f m)).
Proof. intros Hk Ht Hf. destruct (Hf m) as [Hs1 Hg1]. exists o', (f m). by split_and!. Qed.

Lemma benign_store t at_ bytes : benign (store_bytes t at_ bytes).
Proof. by apply benign_update. Qed.
Lemma benign_buffer {A} t (f : M Streambuf.streambuf A) : benign (fun m => (on_buffer t f m).2).
Proof. intros m. split; [apply on_buffer_stays|]. intros R S. apply good_on_buffer. Qed.

Lemma complete_spec o r m : ends o m (complete (o, r) m) \/ suspends o m (complete (o, r) m).
Proof.
  destruct o as [s t|s t|s t|s t op at_ n|s t base c off n|s t c off n|s t base n|s t|s sd|s sd|]; cbn [complete].
  - left. eapply (ends_after _ _ _ _ _ (fun m => m)); [done|done|apply on_connected_ok|apply benign_id].
  - left. eapply (ends_after _ _ _ _ _ (fun m => m)); [done|done|apply on_connected_ok|apply benign_id].
  - left. eapply (ends_after _ _ _ _ _ (fun m => m)); [done|done|apply on_handshake_ok|apply benign_id].
  - set (bytes := take n (res_bytes r)). set (g := store_bytes t at_ bytes).
    set (f := ReadUntil.until_resume _ op (res_ec r) (length bytes) false).
    pose proof (benign_comp g (fun m => (on_buffer t f m).2) (benign_store t at_ bytes) (benign_buffer t f)) as Hb.
    cbn in Hb. destruct (on_buffer t f (g m)) as [[[op' at' n'|e k]|x] m1] eqn:E;
      assert (m1 = (on_buffer t f (g m)).2) as -> by (by rewrite E).
    + right. by apply (suspends_after _ _ (fun m => (on_buffer t f (g m)).2)).
    + left. eapply (ends_after _ _ _ _ _ (fun m => (on_buffer t f (g m)).2)); [done|done|apply on_read_until_ok|done].
    + left. destruct (Hb m) as [Hs _]. split; [|intros R S _; left; by eexists].
      eapply stays_trans; [exact Hs|]. by split.
  - destruct (Transfer.read_op_call c (res_ec r) (length (take n (res_bytes r))) false) as [c' off' n'|e k].
    + right. apply suspends_after; [done..|apply benign_store].
    + left. eapply (ends_after _ _ _ _ (on_read s t e k)); [done|done|apply on_read_ok|apply benign_store].
  - destruct (Transfer.write_op_call c (res_ec r) (Nat.min n (res_sent r)) false) as [c' off' n'|e k].
    + right. by apply (suspends_after _ _ (fun m => m)); [..|apply benign_id].
    + left. eapply (ends_after _ _ _ _ _ (fun m => m)); [done|done|apply on_write_ok|apply benign_id].
  - left. eapply (ends_after _ _ _ _ (on_receive_from s t _ _ _));
      [done|done|apply on_receive_from_ok|apply benign_store].
  - left. eapply (ends_after _ _ _ _ _ (fun m => m)); [done|done|apply on_send_to_ok|apply benign_id].
  - left. apply ends_benign; [done..|apply on_tls_shutdown_ok].
  - left. apply ends_benign; [done..|apply on_shutdown_timer_ok].
  - left. apply (ends_benign _ (fun m => m)); [done..|apply benign_id].
Qed.

(** ** The event loop *)

Lemma pending_register o m : pending (register o m) ≡ₚ o :: pending m.
Proof.
  unfold pending, Scheduler.private_ops; cbn. rewrite <- app_assoc. symmetry. apply Permutation_middle.
Qed.

Lemma inv_perm m m' : env m' = env m -> pending m' ≡ₚ pending m -> async_inv m -> async_inv m'.
Proof.
  intros He Hp [Hx|Hok]; [left; by rewrite He|right]. rewrite He.
  eapply store_ok_perm; [..|exact Hok]; by rewrite Hp.
Qed.

(** What a completion leaves, given the invariant with its operation still counted. *)
Lemma good_perm R R' S S' m : R ≡ₚ R' -> S ≡ₚ S' -> good R S m -> good R' S' m.
Proof. intros HR HS [Hx|Hok]; [by left|right]. by eapply store_ok_perm. Qed.

Lemma good_register R S o m : good R S m -> good R S (register o m).
Proof. intros [Hx|[]]; [by left|right]. by split. Qed.

(** The invariant, with one operation set apart. *)
Definition holding (o : async_op) (m : machine) : Prop :=
  good (option_list (op_key o) ++ keys (draining (env m)) (pending m)) (option_list (op_state o) ++ ids (pending m)) m.

Lemma register_inv o m : holding o m -> async_inv (register o m).
Proof.
  intros Hg. unfold async_inv. pose proof (pending_register o m) as Hp.
  change (draining (env (register o m))) with (draining (env m)).
  apply (good_register _ _ o) in Hg. revert Hg. apply good_perm; symmetry.
  - by rewrite <- keys_cons, Hp.
  - by rewrite <- ids_cons, Hp.
Qed.

Lemma complete_inv o r m : holding o m ->
  async_inv (complete (o, r) m) /\ Scheduler.this_thread (complete (o, r) m) = Scheduler.this_thread m.
Proof.
  intros Hg. destruct (complete_spec o r m) as [[Hs Hends]|(o' & m1 & -> & Hk & Ht & Hs & Hgood)].
  - split; [|apply Hs]. unfold async_inv. rewrite (stays_pending _ _ Hs), (st_draining _ _ Hs). by apply Hends.
  - split; [|apply Hs]. apply register_inv. unfold holding.
    rewrite Hk, Ht, (stays_pending _ _ Hs), (st_draining _ _ Hs). by apply Hgood.
Qed.

Definition in_loop (m : machine) : Prop :=
  async_inv m /\ Scheduler.this_thread m = Some (Scheduler.ThreadInfo 0 []).

Lemma work_cleanup_pending m : is_Some (Scheduler.this_thread m) -> pending (Scheduler.work_cleanup m) ≡ₚ pending m.
Proof.
  intros [t Ht].
  unfold pending, Scheduler.private_ops. rewrite Scheduler.work_cleanup_env, (Scheduler.work_cleanup_queue _ _ Ht).
  rewrite Scheduler.work_cleanup_thread by (by eexists). rewrite Ht, Scheduler.user_ops_app, Scheduler.user_ops_users.
  cbn. by rewrite fmap_app, app_nil_r.
Qed.
Lemma work_cleanup_inv m : is_Some (Scheduler.this_thread m) -> async_inv m -> in_loop (Scheduler.work_cleanup m).
Proof.
  intros Ht Hinv. split; [|by apply Scheduler.work_cleanup_thread].
  revert Hinv. apply inv_perm; [apply Scheduler.work_cleanup_env|by apply work_cleanup_pending].
Qed.

Lemma pop_pending o rest m : Scheduler.op_queue_ (sched m) = Scheduler.UserOperation o :: rest ->
  pending m ≡ₚ o.1 :: pending (Scheduler.on_sched (Scheduler.set_queue rest) m).
Proof.
  intros Hq. unfold pending; cbn. rewrite Hq, Scheduler.user_ops_user. cbn. by rewrite <- Permutation_middle.
Qed.

Lemma run_operation_inv o rest m : in_loop m ->
  Scheduler.op_queue_ (sched m) = Scheduler.UserOperation o :: rest ->
  in_loop (Scheduler.run_operation complete o rest m).
Proof.
  intros [Hinv Ht] Hq. unfold Scheduler.run_operation. set (m1 := Scheduler.on_sched _ m).
  destruct o as [o r]. destruct (complete_inv o r m1) as [Hinv2 Ht2].
  - pose proof (pop_pending _ _ _ Hq) as Hp. fold m1 in Hp. cbn [fst] in Hp.
    revert Hinv. unfold async_inv, holding. change (env m1) with (env m).
    change (good ?R ?S m1) with (good R S m). apply good_perm; by rewrite Hp, ?keys_cons, ?ids_cons.
  - apply work_cleanup_inv; [|done]. rewrite Ht2. cbn. rewrite Ht. by eexists.
Qed.

(** ** The reactor and the rounds of the loop *)

(** The reactor neither loses nor invents operations. *)
Class AsyncExternalOk := {
  reactor_run_perm : forall usec p l,
    (fst <$> (reactor_run usec p l).1.1) ++ (reactor_run usec p l).1.2 ≡ₚ l;
}.

Context `{!AsyncExternalOk}.

Lemma run_task_pending usec rest m : Scheduler.this_thread m = Some (Scheduler.ThreadInfo 0 []) ->
  Scheduler.op_queue_ (sched m) = Scheduler.TaskOperation :: rest ->
  pending (Scheduler.run_task usec rest m) ≡ₚ pending m.
Proof.
  intros Ht Hq. destruct (Scheduler.run_task_env usec rest m Ht) as [He Hth].
  pose proof (Scheduler.run_task_users usec rest m Ht) as Hu.
  pose proof (reactor_run_perm usec (proc (env m)) (inflight (env m))) as Hp.
  unfold pending, Scheduler.private_ops. rewrite Hth, Ht, Hu, He, Hq, Scheduler.user_ops_task. cbn.
  destruct (reactor_run usec (proc (env m)) (inflight (env m))) as [[ready left] p]; cbn in *.
  rewrite !app_nil_r, fmap_app, <- Hp, (Permutation_app_comm (fst <$> Scheduler.user_ops rest)), app_assoc.
  f_equiv. apply Permutation_app_comm.
Qed.
Lemma run_task_inv usec rest m : in_loop m -> Scheduler.op_queue_ (sched m) = Scheduler.TaskOperation :: rest ->
  in_loop (Scheduler.run_task usec rest m).
Proof.
  intros [Hinv Ht] Hq. destruct (Scheduler.run_task_env usec rest m Ht) as [He Hth]. split; [|done].
  pose proof (run_task_pending usec rest m Ht Hq) as Hpm.
  unfold async_inv, good in *. rewrite He; cbn.
  destruct (reactor_run usec (proc (env m)) (inflight (env m))) as [[ready left] p]; cbn in *.
  destruct Hinv as [Hx|Hok]; [by left|right].
  eapply store_ok_perm; [by rewrite Hpm..|]. destruct Hok. by split.
Qed.

Lemma run_front_inv m : in_loop m -> in_loop (Scheduler.run_front complete m).2.
Proof.
  intros Hm. unfold Scheduler.run_front. destruct (Scheduler.op_queue_ (sched m)) as [|[|o] rest] eqn:Hq; [done..|].
  by apply run_operation_inv.
Qed.

Lemma do_poll_one_inv m : in_loop m -> in_loop (Scheduler.do_poll_one complete m).2.
Proof.
  intros Hm. unfold Scheduler.do_poll_one. destruct (Scheduler.stopped_ (sched m)); [done|].
  destruct (Scheduler.op_queue_ (sched m)) as [|[|o] rest] eqn:Hq; apply run_front_inv; [done| |done].
  by apply run_task_inv.
Qed.

Lemma do_wait_one_inv usec m : in_loop m -> in_loop (Scheduler.do_wait_one complete usec m).2.
Proof.
  intros Hm. unfold Scheduler.do_wait_one. destruct (Scheduler.stopped_ (sched m)); [done|].
  destruct (Scheduler.op_queue_ (sched m)) as [|[|o] rest] eqn:Hq; apply run_front_inv; [done| |done].
  by apply run_task_inv.
Qed.

Lemma poll_loop_inv fuel n m : in_loop m -> in_loop (Scheduler.poll_loop complete fuel n m).2.
Proof.
  revert n m. induction fuel as [|fuel IH]; intros n m Hm; [done|]. cbn.
  pose proof (do_poll_one_inv m Hm) as H1. destruct (Scheduler.do_poll_one _ m) as [[] m1]; [|done].
  by apply IH.
Qed.

(** ** The count of outstanding work *)

Definition work (e : store) : Z := (Z.of_nat (length (inflight e)) + guards e)%Z.

Lemma reactor_counts_work : Scheduler.reactor_counts work.
Proof.
  intros usec x. cbn. pose proof (reactor_run_perm usec (proc x) (inflight x)) as Hp.
  destruct (reactor_run usec (proc x) (inflight x)) as [[ready left] p] eqn:Er; cbn in *.
  apply Permutation_length in Hp. rewrite length_app, length_fmap in Hp. unfold work; cbn. lia.
Qed.

Lemma complete_counts o m : Scheduler.this_thread m = Some (Scheduler.ThreadInfo 0 []) ->
  Scheduler.handler_counts work o m (complete o m).
Proof.
  intros Ht. destruct o as [o r].
  assert (forall m1, stays m m1 -> Scheduler.balance work m1 = Scheduler.balance work m) as Hbal.
  { intros m1 [Hs Hth Hi Hg _ _]. unfold Scheduler.balance, Scheduler.private, Scheduler.private_ops, work.
    by rewrite Hs, Hth, Hi, Hg. }
  destruct (complete_spec o r m) as [[Hs _]|(o' & m1 & -> & _ & _ & Hs & _)].
  - pose proof (Hbal _ Hs) as Hb. destruct Hs as [Hs Hth _ _ _ _].
    split; rewrite ?Hs; unfold Scheduler.private; rewrite ?Hth, ?Ht; cbn; try done.
  - pose proof (Hbal _ Hs) as Hb. destruct Hs as [Hs Hth _ _ _ _].
    split; unfold register, Scheduler.private; cbn; rewrite ?Hs, ?Hth, ?Ht; cbn;
      [|lia|done|by eexists|done|done].
    rewrite <- Hb. unfold Scheduler.balance, Scheduler.private, Scheduler.private_ops, work; cbn.
    rewrite length_app. cbn. lia.
Qed.

(** ** Between calls *)

(** The state of the program between two calls of a script. *)
Record at_rest (m : machine) : Prop := {
  ar_inv : async_inv m;
  ar_idle : Scheduler.idle_ok work m;
}.

Lemma enter_inv {A} (f : machine -> A * machine) m : at_rest m ->
  (forall m1, in_loop m1 -> in_loop (f m1).2) -> async_inv (Scheduler.enter_thread f m).2.
Proof.
  intros [Hinv Hid] Hf. unfold Scheduler.enter_thread. set (m1 := Machine _ _ _).
  assert (Scheduler.this_thread m = None) as Ht by apply Hid.
  assert (in_loop m1) as H1.
  { split; [|done]. revert Hinv. apply inv_perm; [done|]. unfold pending, Scheduler.private_ops; cbn. by rewrite Ht. }
  destruct (Hf m1 H1) as [Hinv2 Ht2]. destruct (f m1) as [a m2]; cbn in *. revert Hinv2. apply inv_perm; [done|].
  unfold pending, Scheduler.private_ops; cbn. by rewrite Ht, Ht2.
Qed.
End invariant.
