(* ===== verification/AsyncStart.v ===== *)
(** * Starting asynchronous operations keeps the invariant

    A function that starts an operation reserves its socket, then hands the operation over;
    when a step throws it undoes what it did.  The proofs are triples over the machine: the
    operations pending, the reservations held and the states waiting before and after. *)
From S2P Require Import Prelude FixedHex Endpoint TlsOptions TrustStore Atomics Admission Reservations.
From S2P Require Import AsyncState AsyncOps AsyncSafety.
From S2P Require Streambuf ReadUntil Transfer TcpSocket UdpSocket Scheduler.
Import TcpSocket (SocketExternal, tcp_socket, tcp_state, TcpState, tcp_atoms, set_atoms, tcp_wf, keeps, acceptor).
Import UdpSocket (UdpExternal, udp_socket, udp_atoms).
Import Scheduler (Reactor, machine, Machine, env, sched).
Open Scope nat_scope.

Section start.
  Context `{T : TrustExternal} {N : SocketExternal T} {U : UdpExternal} {X : AsyncExternal}.
  #[local] Existing Instance async_reactor.
  #[local] Abbreviation machine := (@Scheduler.machine async_reactor).

(** The operations pending are [l], the sockets being drained [D]; the reservations [R]
    and the states [S] are spoken for. *)
Record at_ (l : list async_op) (D : list sock_ref) (R : list (sock_ref * role)) (S : list nat) (m : machine)
    : Prop := {
  at_pending : pending m = l;
  at_draining : draining (env m) = D;
  at_idle : Scheduler.idle_ok work m;
  at_good : good R S m;
}.

Lemma at_rest_at m : at_rest m ->
  at_ (pending m) (draining (env m)) (keys (draining (env m)) (pending m)) (ids (pending m)) m.
Proof. by intros [Hi Hd]. Qed.

Lemma idle_stays m m' : stays m m' -> Scheduler.idle_ok work m -> Scheduler.idle_ok work m'.
Proof.
  intros [Hs Ht Hi Hg _ _] [H1 H2 H3 H4].
  split; [by rewrite Ht| |by rewrite Hs|by rewrite Hs].
  rewrite <- H2. unfold Scheduler.balance, Scheduler.private, Scheduler.private_ops, work.
  by rewrite Hs, Ht, Hi, Hg.
Qed.

Lemma at_stays l D R S R' S' m m' : stays m m' -> (good R S m -> good R' S' m') -> at_ l D R S m -> at_ l D R' S' m'.
Proof.
  intros Hs Hg [Hp Hd Hi Hgood].
  split; [by rewrite (stays_pending _ _ Hs)|by rewrite (st_draining _ _ Hs)|by eapply idle_stays|auto].
Qed.

(** ** Triples *)

Definition triple {A} (P : machine -> Prop) (f : M machine A) (Q : A -> machine -> Prop) (E : machine -> Prop) :=
  forall m, P m -> match f m with (Ok a, m') => Q a m' | (Throw _, m') => E m' end.

Lemma triple_bind {A B} P (f : M machine A) (k : A -> M machine B) Q Q' E :
  triple P f Q E -> (forall a, triple (Q a) (k a) Q' E) -> triple P (bind f k) Q' E.
Proof.
  intros Hf Hk m Hm. unfold bind. specialize (Hf m Hm). destruct (f m) as [[a|e] m']; [|done].
  by apply Hk.
Qed.
Lemma triple_try {A} P (f : M machine A) h Q E E' :
  triple P f Q E -> (forall e, triple E (h e) Q E') -> triple P (try_catch f h) Q E'.
Proof.
  intros Hf Hh m Hm. unfold try_catch. specialize (Hf m Hm). destruct (f m) as [[a|e] m']; [done|].
  by apply Hh.
Qed.
Lemma triple_throw {A} (P : machine -> Prop) e (Q : A -> machine -> Prop) : triple P (throw e) Q P.
Proof. by intros m Hm. Qed.
Lemma triple_ret {A} (a : A) (Q : A -> machine -> Prop) E : triple (Q a) (ret a) Q E.
Proof. by intros m Hm. Qed.

(** A step that leaves everything as it is. *)
Definition silent {A} (f : M machine A) : Prop := benign (fun m => (f m).2).

Lemma triple_silent {A} (f : M machine A) l D R S : silent f -> triple (at_ l D R S) f (fun _ => at_ l D R S) (at_ l D R S).
Proof.
  intros Hf m Hm. destruct (Hf m) as [Hs Hg].
  assert (at_ l D R S (f m).2) as H by (eapply at_stays; [done|by apply Hg|done]).
  by destruct (f m) as [[a|e] m'].
Qed.
Lemma silent_bind {A B} (f : M machine A) (k : A -> M machine B) :
  silent f -> (forall a, silent (k a)) -> silent (bind f k).
Proof.
  intros Hf Hk m. destruct (Hf m) as [Hs Hg]. unfold bind. destruct (f m) as [[a|e] m1]; cbn in *; [|done].
  destruct (Hk a m1) as [Hs2 Hg2]. split; [by eapply stays_trans|auto].
Qed.
Lemma silent_ret {A} (a : A) : silent (ret a).
Proof. apply benign_id. Qed.
Lemma silent_gets {A} (f : machine -> A) : silent (gets f).
Proof. apply benign_id. Qed.
Lemma silent_member {A} i (f : M tcp_state A) : keeps f -> silent (tcp_member i f).
Proof. apply benign_member. Qed.
Lemma silent_buffer {A} t (f : M Streambuf.streambuf A) : silent (on_buffer t f).
Proof. apply benign_buffer. Qed.

Lemma silent_udp_member {A} i (f : M UdpSocket.udp_state A) : UdpSocket.ukeeps f -> silent (udp_member i f).
Proof. intros Hf m. split; [apply udp_member_stays|]. intros R S. by apply good_udp_member. Qed.

Lemma silent_choose s : silent (choose_stream s).
Proof.
  apply silent_bind; [apply silent_member, TcpSocket.keeps_is_ssl|]. intros [].
  - apply silent_bind; [apply silent_member, TcpSocket.keeps_get_tls_raw|]. intros _. apply silent_ret.
  - apply silent_ret.
Qed.

(** ** Reserving and releasing *)

(** A program that reserves [r], or throws and changes nothing. *)
Definition reserves (r : role) (p : prog unit) : Prop := forall a, jobs_ok a ->
  (exists e, exec p a = (Throw e, a)) \/ (exec p a = (Ok tt, reserve_role r a) /\ admits r a = true).

Lemma reserves_exclusive msgs msg : reserves Exclusively (begin_exclusive_operation msgs msg).
Proof.
  intros a _. rewrite begin_exclusive_exec. unfold exclusive_refusal; cbn.
  destruct (exclusive_operation a); [left; by eexists|]. destruct (async_jobs a =? 0)%Z; [by right|left; by eexists].
Qed.
Lemma reserves_io msgs d : reserves (Io d) (begin_io_job msgs d).
Proof.
  intros a Ha. rewrite begin_io_exec by done. unfold io_refusal. cbn [admits].
  destruct (get_flag (Operation d) a); [left; by eexists|].
  destruct (exclusive_operation a); [left; by eexists|by right].
Qed.
Lemma reserves_draining msgs : reserves Draining (begin_draining_exclusive msgs).
Proof. intros [t [] rd wr j] _; [left; by eexists|by right]. Qed.
Lemma reserves_handshake : reserves Exclusively Tcp.begin_tls_handshake.
Proof.
  intros a Ha. destruct (tls_enabled a) eqn:Et.
  - left. eexists. destruct a; cbn in *. by subst.
  - destruct (reserves_exclusive Tcp.texts "Cannot enable TLS while asynchronous operations are pending." a Ha) as [[e He]|H].
    + left. exists e. rewrite <- He. destruct a; cbn in *. by subst.
    + right. destruct H as [He H]. split; [|done]. rewrite <- He. destruct a; cbn in *. by subst.
Qed.

Lemma in_added s r R (s' : sock_ref) (r' : role) : (s', r') ∈ (s, r) :: R -> s' = s \/ (s', r') ∈ R.
Proof. intros [[= -> ->]|Hin]%elem_of_cons; [by left|by right]. Qed.

Lemma tcp_begin_ok R S i r p m : reserves r p -> good R S m ->
  match tcp_run i p m with
  | (Ok _, m') => good ((TcpSock i, r) :: R) S m'
  | (Throw _, m') => good R S m'
  end.
Proof.
  intros Hp [Hx|Hok].
  { pose proof (st_escaped _ _ (tcp_run_stays i p m) Hx) as H.
    destruct (tcp_run i p m) as [[u|e] m']; cbn in *; by left. }
  unfold tcp_run. destruct (tcps (env m) !! i) as [sk|] eqn:Hi; [|by right].
  destruct (so_tcp _ _ _ Hok i sk Hi) as [Hwf Hr].
  destruct (Hp (tcp_atoms sk) (TcpSocket.wf_jobs _ Hwf)) as [[e He]|[He Href]]; rewrite He; right; cbn.
  - replace (set_atoms (tcp_atoms sk) sk) with sk by (by destruct sk). by apply ok_tcp_set with sk.
  - apply (ok_tcp_move R); [done|apply others_add|by apply in_added| |by eapply resv_reserve|done].
    by destruct r as [| |[]].
Qed.
Lemma udp_begin_ok R S i r p m : reserves r p -> good R S m ->
  match udp_run i p m with
  | (Ok _, m') => good ((UdpSock i, r) :: R) S m'
  | (Throw _, m') => good R S m'
  end.
Proof.
  intros Hp [Hx|Hok].
  { pose proof (st_escaped _ _ (udp_run_stays i p m) Hx) as H.
    destruct (udp_run i p m) as [[u|e] m']; cbn in *; by left. }
  unfold udp_run. destruct (udps (env m) !! i) as [sk|] eqn:Hi; [|by right].
  pose proof (so_udp _ _ _ Hok i sk Hi) as Hr.
  destruct (Hp (udp_atoms sk) (resv_ok_jobs _ _ _ Hr)) as [[e He]|[He Href]]; rewrite He; right; cbn.
  - apply (ok_udp_move R); [done|done| |done|done]. intros s r' Hin. by right.
  - apply (ok_udp_move R); [done|apply others_add|by apply in_added|by eapply resv_reserve|done].
Qed.

Lemma tcp_begin_triple l D R S i r p : reserves r p ->
  triple (at_ l D R S) (tcp_run i p) (fun _ => at_ l D ((TcpSock i, r) :: R) S) (at_ l D R S).
Proof.
  intros Hp m Hm. pose proof (tcp_begin_ok R S i r p m Hp (at_good _ _ _ _ _ Hm)) as Hg.
  pose proof (tcp_run_stays i p m) as Hs. destruct (tcp_run i p m) as [[u|e] m']; by eapply at_stays.
Qed.
Lemma udp_begin_triple l D R S i r p : reserves r p ->
  triple (at_ l D R S) (udp_run i p) (fun _ => at_ l D ((UdpSock i, r) :: R) S) (at_ l D R S).
Proof.
  intros Hp m Hm. pose proof (udp_begin_ok R S i r p m Hp (at_good _ _ _ _ _ Hm)) as Hg.
  pose proof (udp_run_stays i p m) as Hs. destruct (udp_run i p m) as [[u|e] m']; by eapply at_stays.
Qed.

Definition releases (r : role) (p : prog unit) : Prop := forall a, exec p a = (Ok tt, release_role r a).

Lemma tcp_end_triple l D R S R' S' i r p : releases r p ->
  triple (at_ l D ((TcpSock i, r) :: R) S) (tcp_run i p) (fun _ => at_ l D R S) (at_ l D R' S').
Proof.
  intros Hp m Hm. pose proof (tcp_run_stays i p m) as Hs.
  assert (at_ l D R S (tcp_run i p m).2) as H by (eapply at_stays; [done|by apply tcp_end_ok|done]).
  destruct (at_good _ _ _ _ _ Hm) as [Hx|Hok].
  - destruct (tcp_run i p m) as [[u|e] m']; [done|]. eapply at_stays; [exact Hs| |exact Hm].
    intros _. left. by apply (st_escaped _ _ Hs).
  - destruct (so_socks _ _ _ Hok (TcpSock i) r) as [sk Hi]; [by left|].
    unfold tcp_run in *. rewrite Hi in *. by rewrite Hp in *.
Qed.
Lemma udp_end_triple l D R S R' S' i r p : releases r p ->
  triple (at_ l D ((UdpSock i, r) :: R) S) (udp_run i p) (fun _ => at_ l D R S) (at_ l D R' S').
Proof.
  intros Hp m Hm. pose proof (udp_run_stays i p m) as Hs.
  assert (at_ l D R S (udp_run i p m).2) as H by (eapply at_stays; [done|by apply udp_end_ok|done]).
  destruct (at_good _ _ _ _ _ Hm) as [Hx|Hok].
  - destruct (udp_run i p m) as [[u|e] m']; [done|]. eapply at_stays; [exact Hs| |exact Hm].
    intros _. left. by apply (st_escaped _ _ Hs).
  - destruct (so_socks _ _ _ Hok (UdpSock i) r) as [sk Hi]; [by left|].
    unfold udp_run in *. rewrite Hi in *. by rewrite Hp in *.
Qed.

(** ** Handing an operation over *)

Lemma register_rest l D o m :
  at_ l D (option_list (op_key o) ++ keys D l) (option_list (op_state o) ++ ids l) m -> at_rest (register o m).
Proof.
  intros [Hp Hd Hi Hg]. split.
  - apply register_inv. unfold holding. by rewrite Hp, Hd.
  - destruct Hi as [H1 H2 H3 H4]. unfold register. split; cbn; [done| |done|lia].
    rewrite <- H2. unfold Scheduler.balance, Scheduler.private, Scheduler.private_ops, work; cbn.
    rewrite length_app. cbn. lia.
Qed.

(** While an operation is being started on state [t]. *)
Abbreviation starting l D s r t := (at_ l%list D ((s, r) :: keys D l%list) (t :: ids l%list)).
Abbreviation waiting_for l D t := (at_ l%list D (keys D l%list) (t :: ids l%list)).
Abbreviation resting l D := (at_ l%list D (keys D l%list) (ids l%list)).

Lemma resting_rest l D m : resting l D m -> at_rest m.
Proof. intros [Hp Hd Hi Hg]. split; [|done]. unfold async_inv. by rewrite Hp, Hd. Qed.

Lemma benign_proc (p : process) : benign (on_env (set_proc p)).
Proof.
  intros m. split; [by apply stays_env|]. intros R S. apply good_env; [done|]. intros e Hok. destruct Hok. by split.
Qed.

Lemma launch_triple l D o on s r t : op_key o = Some (s, r) -> op_state o = Some t ->
  triple (starting l D s r t) (launch o on) (fun _ => at_rest) (starting l D s r t).
Proof.
  intros Hk Ht m Hm. unfold launch. destruct (initiate o on (proc (env m))) as [[u|e] p].
  - apply (register_rest l D). rewrite Hk, Ht. eapply at_stays; [apply benign_proc| |done]. apply benign_proc.
  - eapply at_stays; [apply benign_proc| |done]. apply benign_proc.
Qed.

(** Adding and dropping a state that waits. *)
Lemma ok_new R S t x e : waiting x = 1 -> states e !! t = None -> store_ok R S e ->
  store_ok R (t :: S) (set_states (<[t := x]> (states e)) e).
Proof.
  intros Hx Hn [Htc Hu Hs Hst]. split; cbn; [done..|]. intros t'. rewrite cnt_cons. specialize (Hst t').
  destruct (decide (t' = t)) as [->|Hne].
  - rewrite Hn in Hst. rewrite lookup_insert_eq. lia.
  - by rewrite lookup_insert_ne.
Qed.
Lemma ok_forget R S t e : store_ok R (t :: S) e -> store_ok R S (set_states (delete t (states e)) e).
Proof.
  intros [Htc Hu Hs Hst]. split; cbn; [done..|]. intros t'. specialize (Hst t'). rewrite cnt_cons in Hst.
  destruct (decide (t' = t)) as [->|Hne].
  - rewrite lookup_delete_eq. destruct (states e !! t) as [x|]; [|lia].
    unfold waiting in Hst. destruct (init x && negb (has_done x)); lia.
  - by rewrite lookup_delete_ne.
Qed.

(** A state made for the operation. *)
Lemma with_state_triple l D x k : waiting x = 1 ->
  (forall t, triple (waiting_for l D t) (k t) (fun _ => at_rest) (waiting_for l D t)) ->
  triple (resting l D) (with_state x k) (fun _ => at_rest) (resting l D).
Proof.
  intros Hx Hk m Hm. unfold with_state. set (t := fresh (dom (states (env m)))).
  assert (states (env m) !! t = None) as Ht.
  { apply not_elem_of_dom. apply is_fresh. }
  set (m1 := on_env _ m). assert (waiting_for l D t m1) as H1.
  { eapply at_stays; [by apply stays_env| |done]. apply good_mono; [by apply stays_env|].
    intros Hok. by apply ok_new. }
  specialize (Hk t m1 H1). destruct (k t m1) as [[u|e] m2]; [done|].
  eapply at_stays; [by apply stays_env| |done]. apply good_mono; [by apply stays_env|].
  intros Hok. by apply ok_forget.
Qed.

(** ** The functions *)

Section functions.
  Context `{ErrorText} `{CovVar} `{NetworkConfig} `{CovNumber} (plat : platform).

Lemma triple_cov {A} P (f : M machine A) Q E : triple P f Q E ->
  triple P (try_catch f (fun e => throw (lang_error (what e)))) Q E.
Proof. intros Hf. eapply triple_try; [exact Hf|]. intros e. apply triple_throw. Qed.

Lemma triple_undo {A} P (f : M machine A) (undo : M machine unit) Q E E' :
  triple P f Q E -> triple E undo (fun _ => E') E' -> triple P (or_undo f undo) Q E'.
Proof.
  intros Hf Hu. eapply triple_try; [exact Hf|]. intros e. eapply triple_bind; [exact Hu|].
  intros ?. apply triple_throw.
Qed.
(** A step that changes nothing, before others. *)
Lemma triple_seq {A B} (f : M machine A) (k : A -> M machine B) Q' l D R S :
  silent f -> (forall a, triple (at_ l D R S) (k a) Q' (at_ l D R S)) ->
  triple (at_ l D R S) (bind f k) Q' (at_ l D R S).
Proof.
  intros Hf Hk. eapply triple_bind; [by apply triple_silent|]. intros a. apply Hk.
Qed.

Lemma releases_exclusive : releases Exclusively end_exclusive_operation.
Proof. intros a. apply end_exclusive_run. Qed.
Lemma releases_io d : releases (Io d) (finish_io_job d).
Proof. intros a. apply finish_io_run. Qed.

(** The common shape: reserve, start, release on failure. *)
Lemma start_triple l D s r t (begin body : M machine unit) (finish : M machine unit) :
  triple (waiting_for l D t) begin (fun _ => starting l D s r t) (waiting_for l D t) ->
  triple (starting l D s r t) body (fun _ => at_rest) (starting l D s r t) ->
  triple (starting l D s r t) finish (fun _ => waiting_for l D t) (waiting_for l D t) ->
  triple (waiting_for l D t)
    (try_catch begin (fun e => throw (lang_error (what e))) ;;; or_undo body finish)
    (fun _ => at_rest) (waiting_for l D t).
Proof.
  intros Hb Hbody Hf. eapply triple_bind; [by apply triple_cov|]. intros ?. by eapply triple_undo.
Qed.

(** Nothing touches the work guards. *)
Definition kept {A} (f : M machine A) : Prop := forall m, guards (env (f m).2) = guards (env m).

Lemma kept_bind {A B} (f : M machine A) (k : A -> M machine B) : kept f -> (forall a, kept (k a)) -> kept (bind f k).
Proof.
  intros Hf Hk m. unfold bind. specialize (Hf m). destruct (f m) as [[a|e] m1]; [|done]. by rewrite Hk.
Qed.
Lemma kept_try {A} (f : M machine A) h : kept f -> (forall e, kept (h e)) -> kept (try_catch f h).
Proof.
  intros Hf Hh m. unfold try_catch. specialize (Hf m). destruct (f m) as [[a|e] m1]; [done|]. by rewrite Hh.
Qed.
Lemma kept_stays {A} (f : M machine A) : (forall m, stays m (f m).2) -> kept f.
Proof. intros Hf m. apply (Hf m). Qed.
Lemma kept_throw {A} e : kept (@throw machine A e).
Proof. done. Qed.
Lemma kept_launch o on : kept (launch o on).
Proof. intros m. unfold launch. by destruct (initiate o on (proc (env m))) as [[u|e] p]. Qed.
Lemma kept_with_state x k : (forall t, kept (k t)) -> kept (with_state x k).
Proof.
  intros Hk m. unfold with_state. set (t := fresh _). set (m1 := on_env _ m). specialize (Hk t m1).
  destruct (k t m1) as [[u|e] m2]; exact Hk.
Qed.
Lemma kept_buffer {A} t (f : M Streambuf.streambuf A) : kept (on_buffer t f).
Proof. apply kept_stays, on_buffer_stays. Qed.
Lemma kept_member {A} i (f : M tcp_state A) : kept (tcp_member i f).
Proof. apply kept_stays, tcp_member_stays. Qed.
Lemma kept_run {A} i (p : prog A) : kept (tcp_run i p).
Proof. apply kept_stays, tcp_run_stays. Qed.
Lemma kept_udp_run {A} i (p : prog A) : kept (udp_run i p).
Proof. apply kept_stays, udp_run_stays. Qed.
Lemma kept_pure {A} (f : machine -> res A) : kept (fun m => (f m, m)).
Proof. done. Qed.
Lemma kept_update t f : kept (modify (update_state t f)).
Proof. done. Qed.
Lemma kept_if {A} (b : bool) (f g : M machine A) : kept f -> kept g -> kept (if b then f else g).
Proof. by destruct b. Qed.

(** Takes a starting function apart. *)
Ltac keep := repeat first
  [ apply kept_with_state; intros ? | apply kept_throw | apply kept_launch | apply kept_buffer | apply kept_member
  | apply kept_run | apply kept_udp_run | apply kept_update | apply kept_pure | apply kept_if
  | apply kept_bind; [|intros ?] | apply kept_try; [|intros ?] | progress case_match ].

(** From a script: whatever the outcome, the program is at rest again. *)
Lemma triple_rest {A} (f : M machine A) :
  (forall l D, triple (resting l D) f (fun _ => at_rest) (resting l D)) -> forall m, at_rest m -> at_rest (f m).2.
Proof.
  intros Hf m Hm. specialize (Hf (pending m) (draining (env m)) m (at_rest_at m Hm)).
  destruct (f m) as [[a|e] m']; [done|by eapply resting_rest].
Qed.

Hint Resolve reserves_exclusive reserves_io reserves_handshake releases_exclusive releases_io : core.

Lemma async_accept_rest s a m : at_rest m -> at_rest (async_accept s a m).2.
Proof.
  apply triple_rest. intros l D. apply with_state_triple; [done|]. intros t.
  apply (start_triple l D (TcpSock s) Exclusively t).
  - apply tcp_begin_triple, reserves_exclusive.
  - by apply (launch_triple l D).
  - apply tcp_end_triple, releases_exclusive.
Qed.

Lemma async_connect_rest s ep m : at_rest m -> at_rest (async_connect s ep m).2.
Proof.
  apply triple_rest. intros l D. apply with_state_triple; [done|]. intros t.
  apply (start_triple l D (TcpSock s) Exclusively t).
  - apply tcp_begin_triple, reserves_exclusive.
  - by apply (launch_triple l D).
  - apply tcp_end_triple, releases_exclusive.
Qed.

(** A member function that does not throw, on a socket that is reserved. *)
Lemma member_total_triple {A} l D i r R S R' S' (f : M tcp_state A) : keeps f ->
  (forall st, exists a st', f st = (Ok a, st')) ->
  triple (at_ l D ((TcpSock i, r) :: R) S) (tcp_member i f) (fun _ => at_ l D ((TcpSock i, r) :: R) S) (at_ l D R' S').
Proof.
  intros Hk Hf m Hm. pose proof (triple_silent (tcp_member i f) l D _ S (silent_member i f Hk) m Hm) as Hq.
  pose proof (tcp_member_stays i f m) as Hs.
  destruct (at_good _ _ _ _ _ Hm) as [Hx|Hok].
  - destruct (tcp_member i f m) as [[a|e] m']; [done|].
    eapply at_stays; [exact Hs| |exact Hm]. intros _. left. by apply (st_escaped _ _ Hs).
  - destruct (so_socks _ _ _ Hok (TcpSock i) r) as [sk Hi]; [by left|].
    unfold tcp_member in *. rewrite Hi in *. destruct (Hf (TcpState sk (proc (env m)))) as (a & st' & He).
    by rewrite He in *.
Qed.

Lemma async_connect_ssl_rest s host options m : at_rest m -> at_rest (async_connect_ssl plat s host options m).2.
Proof.
  apply triple_rest. intros l D. apply with_state_triple; [done|]. intros t.
  apply triple_seq; [by intros m'; cbn; split; [apply stays_refl|]|]. intros ssl_options.
  eapply triple_bind; [apply triple_cov, tcp_begin_triple, reserves_handshake|]. intros ?.
  eapply triple_bind.
  - eapply triple_try; [apply triple_silent, silent_member, TcpSocket.keeps_init_ssl|]. intros e.
    eapply triple_bind; [apply tcp_end_triple, releases_exclusive|]. intros ?. apply triple_throw.
  - intros ?. eapply triple_try; [by apply (launch_triple l D)|]. intros e. cbn.
    eapply triple_bind; [by apply member_total_triple; [apply TcpSocket.keeps_clear|intros st; eexists _, _]|]. intros ?.
    eapply triple_bind; [apply tcp_end_triple, releases_exclusive|]. intros ?. apply triple_throw.
Qed.

Lemma async_read_rest s n m : at_rest m -> at_rest (async_read s n m).2.
Proof.
  intros Hm. unfold async_read. destruct (checked_io_buffer_size n) as [k|e]; [|done]. revert m Hm.
  apply triple_rest. intros l D. apply with_state_triple; [done|]. intros t.
  apply (start_triple l D (TcpSock s) (Io dir_read) t).
  - apply tcp_begin_triple, reserves_io.
  - apply triple_seq; [apply silent_choose|]. intros ?. apply triple_seq; [apply silent_buffer|]. intros base.
    destruct (first_transfer (Z.to_nat k)) as [[c off] len]. by apply (launch_triple l D).
  - apply tcp_end_triple, releases_io.
Qed.

Lemma async_write_rest s bytes m : at_rest m -> at_rest (async_write s bytes m).2.
Proof.
  apply triple_rest. intros l D. apply with_state_triple; [done|]. intros t.
  apply (start_triple l D (TcpSock s) (Io dir_write) t).
  - apply tcp_begin_triple, reserves_io.
  - apply triple_seq; [apply silent_buffer|]. intros ?. apply triple_seq; [apply silent_choose|]. intros ?.
    apply triple_seq; [apply silent_buffer|]. intros size.
    destruct (first_transfer size) as [[c off] len]. by apply (launch_triple l D).
  - apply tcp_end_triple, releases_io.
Qed.

Lemma async_receive_from_rest s n m : at_rest m -> at_rest (async_receive_from s n m).2.
Proof.
  intros Hm. unfold async_receive_from. destruct (checked_io_buffer_size n) as [k|e]; [|done]. revert m Hm.
  apply triple_rest. intros l D. apply with_state_triple; [done|]. intros t.
  apply (start_triple l D (UdpSock s) (Io dir_read) t).
  - apply udp_begin_triple, reserves_io.
  - apply triple_seq; [apply silent_buffer|]. intros base.
    by apply (launch_triple l D).
  - apply udp_end_triple, releases_io.
Qed.

Lemma async_send_to_rest s bytes ep m : at_rest m -> at_rest (async_send_to s bytes ep m).2.
Proof.
  apply triple_rest. intros l D. apply with_state_triple; [done|]. intros t.
  apply (start_triple l D (UdpSock s) (Io dir_write) t).
  - apply udp_begin_triple, reserves_io.
  - apply triple_seq; [apply silent_buffer|]. intros ?. by apply (launch_triple l D).
  - apply udp_end_triple, releases_io.
Qed.

(** [read_until] works on the state it is given. *)
Lemma until_start_reads cap op sb o sb' : ReadUntil.until_start cap op sb = (Ok o, sb') ->
  exists op' at' n, o = ReadUntil.ReadSome op' at' n.
Proof.
  unfold ReadUntil.until_start, ReadUntil.until_iterate. destruct (ReadUntil.until_search cap op sb) as [op' n].
  cbn. unfold bind, ret. destruct (Streambuf.prepare n sb) as [[a|e] sb1]; [|done]. intros [= <- _]. by eexists _, _, _.
Qed.

(** Marking an idle state as waiting, and back. *)
Lemma update_waiting R S t f m : is_Some (states (env m) !! t) ->
  (forall x, states (env m) !! t = Some x -> waiting x = 0) -> (forall x, waiting (f x) = 1) ->
  good R S m -> good R (t :: S) (update_state t f m).
Proof.
  intros [x Hx] Hw Hf. apply good_mono; [apply update_state_stays|]. intros [Htc Hu Hs Hst].
  split; cbn; [done..|]. intros t'. rewrite cnt_cons, Hst. destruct (decide (t' = t)) as [->|Hne].
  - rewrite lookup_alter_eq, Hx. cbn. by rewrite Hf, (Hw x Hx).
  - by rewrite lookup_alter_ne.
Qed.
Lemma update_idle R S t f m : (forall x, waiting (f x) = 0) ->
  good R (t :: S) m -> good R S (update_state t f m).
Proof.
  intros Hf. apply good_mono; [apply update_state_stays|]. intros [Htc Hu Hs Hst].
  split; cbn; [done..|]. intros t'. specialize (Hst t'). rewrite cnt_cons in Hst. destruct (decide (t' = t)) as [->|Hne].
  - rewrite lookup_alter_eq. destruct (states (env m) !! t) as [x|]; cbn; [|lia]. rewrite Hf.
    unfold waiting in Hst. destruct (init x && negb (has_done x)); lia.
  - by rewrite lookup_alter_ne.
Qed.

Lemma tcp_run_states {A} i (p : prog A) m : states (env (tcp_run i p m).2) = states (env m).
Proof. unfold tcp_run. destruct (tcps (env m) !! i) as [sk|]; [|done]. by destruct (exec p (tcp_atoms sk)). Qed.

(** The first two steps of [read_until]. *)
Definition idle_state (t : nat) (m : machine) : Prop :=
  exists x, states (env m) !! t = Some x /\ waiting x = 0.

Lemma read_until_begin_triple l D s t f : (forall x, waiting (f x) = 1) ->
  triple (fun m => resting l D m /\ idle_state t m)
    (begin_tcp_async_io (tcp_run s Tcp.begin_async_read) ;;; modify (update_state t f))
    (fun _ => starting l D (TcpSock s) (Io dir_read) t) (resting l D).
Proof.
  intros Hf m [Hm (x & Hx & Hw)].
  pose proof (tcp_begin_triple l D _ (ids l) s (Io dir_read) Tcp.begin_async_read
    (reserves_io _ _) m Hm) as Hq.
  pose proof (tcp_run_states s Tcp.begin_async_read m) as Hst.
  unfold begin_tcp_async_io, bind, try_catch. destruct (tcp_run s Tcp.begin_async_read m) as [[u|e] m1]; [|done].
  cbn in *. eapply at_stays; [apply update_state_stays| |done]. apply update_waiting; [|intros y|done].
  - rewrite Hst. by eexists.
  - rewrite Hst, Hx. by intros [= <-].
Qed.

Lemma read_until_launch_triple l D s t op cap :
  triple (starting l D (TcpSock s) (Io dir_read) t)
    (o <-- on_buffer t (ReadUntil.until_start cap op) ;;
     match o with
     | ReadUntil.ReadSome op at_ n => launch (OpReadUntil s t op at_ n) OnStream
     | ReadUntil.Handler _ _ => ret tt
     end)
    (fun _ => at_rest) (starting l D (TcpSock s) (Io dir_read) t).
Proof.
  intros m Hm. pose proof (triple_silent _ _ _ _ _ (silent_buffer t (ReadUntil.until_start cap op)) m Hm) as Hq.
  unfold bind. destruct (on_buffer t (ReadUntil.until_start cap op) m) as [[o|e] m1] eqn:E; [|done].
  assert (exists op' at' n, o = ReadUntil.ReadSome op' at' n) as (op' & at' & n & ->).
  { unfold on_buffer in E. destruct (states (env m) !! t) as [x|]; [|done].
    destruct (ReadUntil.until_start cap op (buffer x)) as [r sb] eqn:Er. injection E as -> _.
    by eapply until_start_reads. }
  by by apply (launch_triple l D).
Qed.

Lemma async_read_until_rest s t pattern m : at_rest m -> at_rest (async_read_until s t pattern m).2.
Proof.
  intros Hm. unfold async_read_until. destruct (states (env m) !! t) as [previous|] eqn:Ht; [|done].
  destruct (init previous && negb (has_done previous)) eqn:Hw; [done|].
  set (l := pending m). set (D := draining (env m)).
  assert (resting l D m /\ idle_state t m) as Hpre.
  { split; [by apply at_rest_at|]. exists previous. split; [done|]. unfold waiting. by rewrite Hw. }
  set (f := fun x => set_ec None _). set (body := choose_stream s ;;; _). set (undo := _ ;;; modify _).
  assert (triple (fun m => resting l D m /\ idle_state t m)
    ((begin_tcp_async_io (tcp_run s Tcp.begin_async_read) ;;; modify (update_state t f)) ;;; or_undo body undo)
    (fun _ => at_rest) (resting l D)) as Htr.
  { eapply triple_bind; [by apply read_until_begin_triple|]. intros ?. eapply triple_undo.
    - apply triple_seq; [apply silent_choose|]. intros ?. apply triple_seq; [apply silent_gets|]. intros cap.
      apply read_until_launch_triple.
    - eapply triple_bind; [apply tcp_end_triple, releases_io|]. intros ? m1 Hm1. cbn.
      eapply at_stays; [apply update_state_stays| |exact Hm1]. apply update_idle. intros x.
      unfold waiting. cbn. by rewrite Hw. }
  specialize (Htr m Hpre). rewrite bind_assoc in Htr.
  destruct (bind _ _ m) as [[u|e] m']; [done|by eapply resting_rest].
Qed.

(** What a script's call does to the program at rest. *)
Definition starts {A} (f : M machine A) : Prop := forall m, at_rest m ->
  at_rest (f m).2 /\ guards (env (f m).2) = guards (env m).

Lemma starts_intro {A} (f : M machine A) : (forall m, at_rest m -> at_rest (f m).2) -> kept f -> starts f.
Proof. intros Hr Hk m Hm. split; [by apply Hr|apply Hk]. Qed.

Lemma starts_silent {A} (f : M machine A) : silent f -> starts f.
Proof.
  intros Hf. apply starts_intro; [|by apply kept_stays; intros m; apply (Hf m)]. apply triple_rest. intros l D m Hm.
  pose proof (triple_silent f _ _ _ _ Hf m Hm) as Hq.
  destruct (f m) as [[a|e] m']; [by eapply resting_rest|done].
Qed.

Lemma async_accept_starts s a : starts (async_accept s a).
Proof. apply starts_intro; [apply async_accept_rest|]. unfold async_accept, begin_tcp_async_io, or_undo. keep. Qed.
Lemma async_connect_starts s ep : starts (async_connect s ep).
Proof. apply starts_intro; [apply async_connect_rest|]. unfold async_connect, begin_tcp_async_io, or_undo. keep. Qed.
Lemma async_connect_ssl_starts s host o : starts (async_connect_ssl plat s host o).
Proof. apply starts_intro; [apply async_connect_ssl_rest|]. unfold async_connect_ssl, begin_tcp_tls_handshake. keep. Qed.
Lemma async_write_starts s b : starts (async_write s b).
Proof.
  apply starts_intro; [apply async_write_rest|]. unfold async_write, begin_tcp_async_io, or_undo, choose_stream. keep.
Qed.
Lemma async_send_to_starts s b ep : starts (async_send_to s b ep).
Proof. apply starts_intro; [apply async_send_to_rest|]. unfold async_send_to, begin_udp_async_io, or_undo. keep. Qed.
Lemma async_read_starts s n : starts (async_read s n).
Proof.
  apply starts_intro; [apply async_read_rest|]. unfold async_read. destruct (checked_io_buffer_size n); [|done].
  unfold begin_tcp_async_io, or_undo, choose_stream.
  match goal with |- kept (fun m => ?f m) => change (kept f) end. keep.
Qed.
Lemma async_receive_from_starts s n : starts (async_receive_from s n).
Proof.
  apply starts_intro; [apply async_receive_from_rest|]. unfold async_receive_from.
  destruct (checked_io_buffer_size n); [|done]. unfold begin_udp_async_io, or_undo.
  match goal with |- kept (fun m => ?f m) => change (kept f) end. keep.
Qed.
Lemma async_read_until_starts s t pattern : starts (async_read_until s t pattern).
Proof.
  apply starts_intro; [apply async_read_until_rest|]. intros m. unfold async_read_until.
  destruct (states (env m) !! t) as [previous|]; [|done]. destruct (_ && _); [done|].
  match goal with |- guards (env (?f m).2) = _ => assert (kept f) as Hk; [|apply Hk] end.
  unfold begin_tcp_async_io, or_undo, choose_stream. keep.
Qed.
End functions.
End start.
