(* ===== verification/EventLoop.v ===== *)
(** * The event loop as a script sees it

    [global_settings_type], [thread_executor_type], [wait_impl] and the functions of the
    namespace [async] that drive the loop ([network.cpp]), and the requests of a script
    put together: [perform] is one step of a program, and the theorems are about every
    sequence of them.

    A worker thread's round ([executor_round]) is one step of the interleaving; what holds
    the mutex [lifecycle_mutex] is one step as well. *)
From S2P Require Import Prelude FixedHex Endpoint TlsOptions TrustStore Atomics Admission Reservations.
From S2P Require Import AsyncState AsyncOps AsyncSafety AsyncStart.
From S2P Require Streambuf ReadUntil Transfer TcpSocket UdpSocket Scheduler.
Import TcpSocket (SocketExternal, tcp_socket, tcp_wf, tcp_atoms, keeps, acceptor, raw).
Import UdpSocket (UdpExternal, udp_socket, udp_atoms, uraw).
Import Scheduler (Reactor, machine, Machine, env, sched, outstanding_work_).
Open Scope nat_scope.

(** The io_context with the objects of the program, and the count of worker threads. *)
Record system `{T : TrustExternal} {N : SocketExternal T} {U : UdpExternal} {X : AsyncExternal} :=
  System { io : @machine async_reactor; thread_executors : Z }.
Arguments System {_ _ _ _} _ _.

Section loop.
  Context `{T : TrustExternal} {N : SocketExternal T} {U : UdpExternal} {X : AsyncExternal}.
  #[local] Existing Instance async_reactor.
  #[local] Abbreviation machine := (@Scheduler.machine async_reactor).
  #[local] Abbreviation system := (@system T N U X).

Definition set_io (m : machine) (s : system) : system := System m (thread_executors s).
Definition add_executors (n : Z) (s : system) : system := System (io s) (thread_executors s + n)%Z.

(** ** [global_settings_type] *)

(** [None]: the loop of [io.poll()] did not end within the fuel. *)
Definition settings_poll (fuel : nat) (s : system) : option Z * system :=
  if negb (thread_executors s =? 0)%Z then (Some 0%Z, s)
  else if (thread_executors s =? 0)%Z then
    let '(n, m) := Scheduler.poll complete fuel (io s) in (n, set_io m s)
  else (Some 0%Z, s).
Definition settings_poll_one (s : system) : Z * system :=
  if negb (thread_executors s =? 0)%Z then (0%Z, s)
  else if (thread_executors s =? 0)%Z then
    let '(ran, m) := Scheduler.poll_one complete (io s) in ((if ran then 1 else 0)%Z, set_io m s)
  else (0%Z, s).

Definition async_poll (fuel : nat) (s : system) : option bool * system :=
  let '(n, s) := settings_poll fuel s in ((fun n => (0 <? n)%Z) <$> n, s).
Definition async_poll_once (s : system) : bool * system :=
  let '(n, s) := settings_poll_one s in ((0 <? n)%Z, s).
Definition async_stopped (s : system) : bool := Scheduler.stopped (io s).
Definition async_restart (s : system) : system :=
  if (thread_executors s =? 0)%Z && async_stopped s then set_io (Scheduler.restart (io s)) s else s.

(** ** Work guards *)

(** The constructor and the destructor of [asio::executor_work_guard]. *)
Definition guard_acquire (m : machine) : machine :=
  Scheduler.work_started (on_env (fun e => set_guards (guards e + 1)%Z e) m).
Definition guard_release (m : machine) : machine :=
  Scheduler.work_finished (on_env (fun e => set_guards (guards e - 1)%Z e) m).

Definition async_work_guard (s : system) : system :=
  let s := async_restart s in set_io (guard_acquire (io s)) s.

(** ** Worker threads *)

(** The constructor of [thread_executor_type]; [starts] is whether the thread could be made. *)
Definition thread_worker (starts : bool) (s : system) : bool * system :=
  let s := async_restart s in
  let s := add_executors 1 (set_io (guard_acquire (io s)) s) in
  if starts then (true, s)
  else (false, let s := add_executors (-1) s in set_io (guard_release (io s)) s).

(** [while (io.poll_one() > 0);], and whether it ended within the fuel. *)
Fixpoint drain (fuel : nat) (m : machine) : bool * machine :=
  match fuel with
  | O => (false, m)
  | S fuel =>
      let '(ran, m) := Scheduler.poll_one complete m in
      if (ran : bool) then drain fuel m else (true, m)
  end.

(** A turn of the loop of [executor]: whether it goes on, when it ended. *)
Definition executor_round (fuel : nat) (running : bool) (ticks : list Z) (wait_ms : Z) (m : machine)
    : option bool * machine :=
  let '(ended, m) := drain fuel m in
  if negb ended then (None, m)
  else if negb running then (Some false, m)
  else (Some true, (Scheduler.run_one_until complete ticks (wait_ms * 1000)%Z m).2).

(** The destructor of [thread_executor_type]: [running] is cleared, an empty handler posted
    ([posted]: it could be) and the thread joined, whose last turn this is; then the
    guard goes.  [false]: the last turn does not end within the fuel. *)
Definition no_result : io_result := IoResult None [] 0 (Endpoint any_v4 0).

Definition destroy_worker (fuel : nat) (posted : bool) (s : system) : bool * system :=
  let m := if posted then Scheduler.post_immediate_completion (OpPosted, no_result) false (io s) else io s in
  let '(last, m) := executor_round fuel false [] 0 m in
  let s := set_io m s in
  match last with
  | None => (false, s)
  | Some _ => let s := add_executors (-1) s in (true, set_io (guard_release (io s)) s)
  end.

(** ** Waiting *)

Definition state_done (t : nat) (s : system) : bool :=
  match states (env (io s)) !! t with Some x => has_done x | None => false end.
Definition state_ok (t : nat) (s : system) : bool :=
  match states (env (io s)) !! t with Some x => negb (ec_set (ec x)) | None => false end.

(** A turn of the loop of [wait_impl]: the reading of the clock, in milliseconds since the
    start, and what other fibers do while this one yields. *)
Record wait_round := WaitRound { now : Z; others : system -> system }.

Fixpoint wait_impl (fuel : nat) (rounds : list wait_round) (timeout : option Z) (t : nat) (s : system)
    : option bool * system :=
  match rounds with
  | [] => (None, s)
  | r :: rounds =>
      match settings_poll fuel s with
      | (None, s) => (None, s)
      | (Some _, s) =>
          if state_done t s then (Some (state_ok t s), s)
          else if match timeout with Some d => (d <=? now r)%Z | None => false end then
            (Some (state_done t s && state_ok t s), s)
          else wait_impl fuel rounds timeout t (others r s)
      end
  end.

Definition wait (fuel : nat) (rounds : list wait_round) : nat -> system -> option bool * system :=
  wait_impl fuel rounds None.
Definition wait_for (fuel : nat) (rounds : list wait_round) (timeout_ms : Z) : nat -> system -> option bool * system :=
  wait_impl fuel rounds (Some timeout_ms).

(** ** A program: the requests of a script and the rounds of its workers *)

Section program.
  Context `{ErrorText} `{CovVar} `{NetworkConfig} `{CovNumber} (plat : platform).

Inductive request :=
  | NewState
  | NewTcp (r : raw)
  | NewUdp (r : uraw)
  | TcpCall (i : nat) (c : TcpSocket.tcp_call)
  | UdpCall (i : nat) (c : UdpSocket.udp_call_t)
  | Accept (i : nat) (a : acceptor)
  | Connect (i : nat) (ep : endpoint_t)
  | ConnectSsl (i : nat) (host : string) (options : var)
  | ReadUntilR (i t : nat) (pattern : list ascii)
  | Read (i : nat) (n : number)
  | Write (i : nat) (bytes : list ascii)
  | ReceiveFrom (i : nat) (n : number)
  | SendTo (i : nat) (bytes : list ascii) (ep : endpoint_t)
  | Query (t : nat) (q : state_query)
  | Poll (fuel : nat)
  | PollOnce
  | Restart
  | WorkGuard
  | ReleaseGuard
  | ThreadWorker (starts : bool)
  | WorkerRound (fuel : nat) (ticks : list Z) (wait_ms : Z)
  | DestroyWorker (fuel : nat) (posted : bool).

Definition add_state (e : store) : store :=
  set_states (<[fresh (dom (states e)) := create_async_state]> (states e)) e.
Definition add_tcp (r : raw) (e : store) : store :=
  set_tcps (<[fresh (dom (tcps e)) := TcpSocket.tcp_socket_new r]> (tcps e)) e.
Definition add_udp (r : uraw) (e : store) : store :=
  set_udps (<[fresh (dom (udps e)) := UdpSocket.udp_socket_new r]> (udps e)) e.

Definition query_state (t : nat) (q : state_query) (e : store) : store :=
  match states e !! t with
  | Some x => set_states (<[t := (run_query q x).2]> (states e)) e
  | None => e
  end.

Definition on_io (f : machine -> machine) (s : system) : system := set_io (f (io s)) s.

Definition perform (rq : request) (s : system) : system :=
  match rq with
  | NewState => on_io (on_env add_state) s
  | NewTcp r => on_io (on_env (add_tcp r)) s
  | NewUdp r => on_io (on_env (add_udp r)) s
  | TcpCall i c => on_io (effect (tcp_member i (TcpSocket.run_call plat c))) s
  | UdpCall i c => on_io (effect (udp_member i (UdpSocket.run_udp_call c))) s
  | Accept i a => on_io (effect (async_accept i a)) s
  | Connect i ep => on_io (effect (async_connect i ep)) s
  | ConnectSsl i host options => on_io (effect (async_connect_ssl plat i host options)) s
  | ReadUntilR i t pattern => on_io (effect (async_read_until i t pattern)) s
  | Read i n => on_io (effect (async_read i n)) s
  | Write i bytes => on_io (effect (async_write i bytes)) s
  | ReceiveFrom i n => on_io (effect (async_receive_from i n)) s
  | SendTo i bytes ep => on_io (effect (async_send_to i bytes ep)) s
  | Query t q => on_io (on_env (query_state t q)) s
  | Poll fuel => (async_poll fuel s).2
  | PollOnce => (async_poll_once s).2
  | Restart => async_restart s
  | WorkGuard => async_work_guard s
  | ReleaseGuard =>
      (* a guard of the script's own: each worker holds one too *)
      if (thread_executors s <? guards (env (io s)))%Z then on_io guard_release s else s
  | ThreadWorker starts => (thread_worker starts s).2
  | WorkerRound fuel ticks wait_ms =>
      if (0 <? thread_executors s)%Z then
        on_io (fun m => (executor_round fuel true ticks wait_ms m).2) s
      else s
  | DestroyWorker fuel posted =>
      if (0 <? thread_executors s)%Z then (destroy_worker fuel posted s).2 else s
  end.

Definition run_requests (rqs : list request) (s : system) : system := foldl (flip perform) s rqs.
End program.

(** The program before its first request: no objects, and a scheduler with its task. *)
Definition initial_system (p : process) (w : UdpSocket.UW) : system :=
  System (Scheduler.init_task (Machine Scheduler.new_scheduler None
    (Store ∅ ∅ ∅ ∅ [] 0 [] p w None))) 0.

(** ** The loop keeps the invariant *)

Context `{!AsyncExternalOk}.

Lemma stop_rest m : at_rest m -> at_rest (Scheduler.stop m).
Proof. intros [Hi Hd]. split; [exact Hi|]. destruct Hd. by split. Qed.
Lemma restart_rest m : at_rest m -> at_rest (Scheduler.restart m).
Proof. intros [Hi Hd]. split; [exact Hi|]. destruct Hd. by split. Qed.

Lemma enter_rest {A} (f : machine -> A * machine) m : at_rest m ->
  (forall m1, in_loop m1 -> in_loop (f m1).2) ->
  (forall m1, Scheduler.loop_ok work m1 -> Scheduler.loop_ok work (f m1).2) ->
  (forall m1, Scheduler.stopped_ (sched m1) = true -> (f m1).2 = m1) ->
  outstanding_work_ (sched m) <> 0%Z -> at_rest (Scheduler.enter_thread f m).2.
Proof.
  intros Hm H1 H2 H3 H4. split; [by apply enter_inv|]. apply Scheduler.enter_idle; [apply Hm|done..].
Qed.

Lemma do_poll_one_stopped m : Scheduler.stopped_ (sched m) = true -> (Scheduler.do_poll_one complete m).2 = m.
Proof. intros Hs. unfold Scheduler.do_poll_one. by rewrite Hs. Qed.
Lemma do_wait_one_stopped usec m : Scheduler.stopped_ (sched m) = true -> (Scheduler.do_wait_one complete usec m).2 = m.
Proof. intros Hs. unfold Scheduler.do_wait_one. by rewrite Hs. Qed.
Lemma poll_loop_when_stopped fuel n m : Scheduler.stopped_ (sched m) = true -> (Scheduler.poll_loop complete fuel n m).2 = m.
Proof. intros Hs. destruct fuel; [done|]. cbn. unfold Scheduler.do_poll_one. by rewrite Hs. Qed.

Lemma poll_rest fuel m : at_rest m -> at_rest (Scheduler.poll complete fuel m).2.
Proof.
  intros Hm. unfold Scheduler.poll. destruct (Z.eqb_spec (outstanding_work_ (sched m)) 0); [by apply stop_rest|].
  apply enter_rest; [done|intros; by apply poll_loop_inv| |intros; by apply poll_loop_when_stopped|done].
  intros. by apply Scheduler.poll_loop_ok; [apply reactor_counts_work|apply complete_counts|].
Qed.
Lemma poll_one_rest m : at_rest m -> at_rest (Scheduler.poll_one complete m).2.
Proof.
  intros Hm. unfold Scheduler.poll_one. destruct (Z.eqb_spec (outstanding_work_ (sched m)) 0); [by apply stop_rest|].
  apply enter_rest; [done|intros; by apply do_poll_one_inv| |intros; by apply do_poll_one_stopped|done].
  intros. by apply Scheduler.do_poll_one_ok; [apply reactor_counts_work|apply complete_counts|].
Qed.
Lemma wait_one_rest usec m : at_rest m -> at_rest (Scheduler.wait_one complete usec m).2.
Proof.
  intros Hm. unfold Scheduler.wait_one. destruct (Z.eqb_spec (outstanding_work_ (sched m)) 0); [by apply stop_rest|].
  apply enter_rest; [done|intros; by apply do_wait_one_inv| |intros; by apply do_wait_one_stopped|done].
  intros. by apply Scheduler.do_wait_one_ok; [apply reactor_counts_work|apply complete_counts|].
Qed.
Lemma run_one_until_rest ticks abs m : at_rest m -> at_rest (Scheduler.run_one_until complete ticks abs m).2.
Proof.
  revert m. induction ticks as [|n ticks IH]; intros m Hm; [done|]. cbn. destruct (n <? abs)%Z; [|done].
  pose proof (wait_one_rest (Z.min (abs - n) 1000000) m Hm) as H1.
  destruct (Scheduler.wait_one _ (Z.min (abs - n) 1000000) m) as [r m1]. cbn in H1.
  destruct (r || Scheduler.stopped m1); [done|by apply IH].
Qed.
Lemma drain_rest fuel m : at_rest m -> at_rest (drain fuel m).2.
Proof.
  revert m. induction fuel as [|fuel IH]; intros m Hm; [done|]. cbn.
  pose proof (poll_one_rest m Hm) as H1. destruct (Scheduler.poll_one _ m) as [[] m1]; [by apply IH|done].
Qed.
Lemma executor_round_rest fuel running ticks ms m : at_rest m -> at_rest (executor_round fuel running ticks ms m).2.
Proof.
  intros Hm. unfold executor_round. pose proof (drain_rest fuel m Hm) as H1.
  destruct (drain fuel m) as [[] m1]; [|done]. destruct running; [|done]. by apply run_one_until_rest.
Qed.

Lemma guard_acquire_rest m : at_rest m -> at_rest (guard_acquire m).
Proof.
  intros [Hi [H1 H2 H3 H4]]. split.
  - unfold async_inv, good in *. destruct Hi as [Hx|[]]; [by left|right]. by split.
  - split; cbn; [done| |done|lia]. unfold Scheduler.balance, Scheduler.private, Scheduler.private_ops, work in *.
    cbn in *. rewrite H1 in *. cbn in *. lia.
Qed.

Lemma outstanding_work_is m : at_rest m ->
  outstanding_work_ (sched m) = (Z.of_nat (length (pending m)) + guards (env m))%Z.
Proof.
  intros [_ [Ht Hb _ _]]. unfold Scheduler.balance, Scheduler.private, Scheduler.private_ops, Scheduler.users, work in Hb.
  unfold pending, Scheduler.private_ops. rewrite Ht in *. rewrite !length_app, length_fmap. cbn in *. lia.
Qed.

Lemma inv_env f m : (forall e, inflight (f e) = inflight e) -> (forall e, escaped (f e) = escaped e) ->
  (forall e, draining (f e) = draining e) ->
  (forall R S e, store_ok R S e -> store_ok R S (f e)) -> async_inv m -> async_inv (on_env f m).
Proof.
  intros Hi He Hd Hf. unfold async_inv, good, pending, Scheduler.private_ops. cbn. rewrite Hi, He, Hd.
  intros [Hx|Hok]; [by left|right]. by apply Hf.
Qed.

Lemma guard_release_rest m : (0 < outstanding_work_ (sched m))%Z -> at_rest m -> at_rest (guard_release m).
Proof.
  intros Hg [Hi [H1 H2 H3 H4]].
  unfold guard_release. set (m1 := on_env _ m).
  assert (async_inv m1) as Hi1 by (apply inv_env; [done|done|done|by intros R S e []; split|done]).
  split.
  - revert Hi1. apply inv_perm; [apply Scheduler.work_finished_env|].
    unfold pending, Scheduler.private_ops. rewrite Scheduler.work_finished_env, Scheduler.work_finished_queue.
    by rewrite Scheduler.work_finished_thread.
  - unfold Scheduler.balance, Scheduler.private, Scheduler.private_ops, work in *. rewrite H1 in *.
    split; unfold Scheduler.balance, Scheduler.private, Scheduler.private_ops, work;
      rewrite ?Scheduler.work_finished_thread, ?Scheduler.work_finished_queue, ?Scheduler.work_finished_env,
        ?Scheduler.work_finished_count; cbn; rewrite ?H1; cbn in *; [done|lia|done|lia].
Qed.

(** ** Every request keeps the invariant *)

Lemma on_env_rest f m : (forall e, inflight (f e) = inflight e) -> (forall e, escaped (f e) = escaped e) ->
  (forall e, guards (f e) = guards e) -> (forall e, draining (f e) = draining e) ->
  (forall R S e, store_ok R S e -> store_ok R S (f e)) ->
  at_rest m -> at_rest (on_env f m).
Proof.
  intros Hi He Hg Hd Hf [Hinv Hid]. split; [by apply inv_env|]. eapply idle_stays; [|done]. by apply stays_env.
Qed.

Lemma fresh_absent {A} (f : gmap nat A) : f !! fresh (dom f) = None.
Proof. apply not_elem_of_dom, is_fresh. Qed.

Lemma add_state_ok R S e : store_ok R S e -> store_ok R S (add_state e).
Proof.
  intros [Ht Hu Hs Hst]. split; cbn; [done..|]. intros t. rewrite Hst.
  destruct (decide (fresh (dom (states e)) = t)) as [<-|Hne].
  - by rewrite lookup_insert_eq, fresh_absent.
  - by rewrite lookup_insert_ne.
Qed.

Lemma resv_ok_initial R s : (forall r, cnt (s, r) R = 0) -> resv_ok R s initial_atoms.
Proof. intros Hn. split; cbn; rewrite ?Hn; [done|done|done|lia|intros d; rewrite Hn; lia|done]. Qed.
Lemma cnt_absent {A} `{EqDecision A} (x : A) l : x ∉ l -> cnt x l = 0.
Proof.
  induction l as [|y l IH]; [done|]. intros Hx. rewrite cnt_cons. rewrite decide_False by set_solver. apply IH. set_solver.
Qed.

Lemma add_tcp_ok r R S e : store_ok R S e -> store_ok R S (add_tcp r e).
Proof.
  intros [Ht Hu Hs Hst]. split; cbn; [|done| |done].
  - intros i sk. destruct (decide (fresh (dom (tcps e)) = i)) as [<-|Hne].
    + rewrite lookup_insert_eq. intros [= <-]. split; [apply TcpSocket.new_wf|]. apply resv_ok_initial. intros r'. apply cnt_absent.
      intros Hin. specialize (Hs _ _ Hin). cbn in Hs. rewrite fresh_absent in Hs. by destruct Hs.
    + rewrite lookup_insert_ne by done. apply Ht.
  - intros s r' Hin. specialize (Hs s r' Hin). destruct s as [i|i]; [|done].
    apply lookup_insert_is_Some'. by right.
Qed.
Lemma add_udp_ok r R S e : store_ok R S e -> store_ok R S (add_udp r e).
Proof.
  intros [Ht Hu Hs Hst]. split; cbn; [done| | |done].
  - intros i sk. destruct (decide (fresh (dom (udps e)) = i)) as [<-|Hne].
    + rewrite lookup_insert_eq. intros [= <-]. apply resv_ok_initial. intros r'. apply cnt_absent.
      intros Hin. specialize (Hs _ _ Hin). cbn in Hs. rewrite fresh_absent in Hs. by destruct Hs.
    + rewrite lookup_insert_ne by done. apply Hu.
  - intros s r' Hin. specialize (Hs s r' Hin). destruct s as [i|i]; [done|].
    apply lookup_insert_is_Some'. by right.
Qed.

Section requests.
  Context `{ErrorText} `{CovVar} `{NetworkConfig} `{CovNumber} (plat : platform).

Lemma run_query_waiting q x : waiting (run_query q x).2 = waiting x.
Proof.
  destruct q as [|n]; cbn [run_query]; unfold get_result, get_buffer.
  - destruct (negb (is_read x)), (negb (has_done x)), (bytes_transferred x =? 0); done.
  - destruct (checked_io_buffer_size n); [|done].
    destruct (negb (is_read x)), (negb (has_done x)), (Streambuf.size (buffer x) =? 0); done.
Qed.

Lemma query_ok t q R S e : store_ok R S e -> store_ok R S (query_state t q e).
Proof.
  unfold query_state. destruct (states e !! t) as [x|] eqn:Hx; [|done]. intros [Ht Hu Hs Hst].
  split; cbn; [done..|]. intros t'. rewrite Hst. destruct (decide (t = t')) as [<-|Hne].
  - by rewrite lookup_insert_eq, Hx, run_query_waiting.
  - by rewrite lookup_insert_ne.
Qed.

(** The io_context at rest, and a guard for each worker. *)
Record sys_ok (s : system) : Prop := {
  so_rest : at_rest (io s);
  so_workers : (0 <= thread_executors s <= guards (env (io s)))%Z;
}.

Lemma on_io_ok f s : (at_rest (io s) -> at_rest (f (io s)) /\ guards (env (f (io s))) = guards (env (io s))) ->
  sys_ok s -> sys_ok (on_io f s).
Proof. intros Hf [Hr Hw]. destruct (Hf Hr) as [Hr1 Hg]. split; [done|cbn; by rewrite Hg]. Qed.
Lemma on_env_ok f s : (forall e, inflight (f e) = inflight e) -> (forall e, escaped (f e) = escaped e) ->
  (forall e, guards (f e) = guards e) -> (forall e, draining (f e) = draining e) ->
  (forall R S e, store_ok R S e -> store_ok R S (f e)) -> sys_ok s -> sys_ok (on_io (on_env f) s).
Proof. intros Hi He Hg Hd Hf. apply on_io_ok. intros Hr. split; [by apply on_env_rest|apply Hg]. Qed.
Lemma on_io_starts {A} (f : M machine A) s : starts f -> sys_ok s -> sys_ok (on_io (effect f) s).
Proof. intros Hf. apply on_io_ok, Hf. Qed.

Lemma complete_guards o m : guards (env (complete o m)) = guards (env m).
Proof.
  destruct o as [o r]. by destruct (complete_spec o r m) as [[[_ _ _ Hg _ _] _]|(o' & m1 & -> & _ & _ & [_ _ _ Hg _ _] & _)].
Qed.
Lemma reactor_guards g usec (x : store) : guards x = g -> guards (Scheduler.task_run (Reactor := async_reactor) usec x).2 = g.
Proof. cbn. by destruct (reactor_run usec (proc x) (inflight x)) as [[ready rest] q]. Qed.
Lemma handler_guards g o m : guards (env m) = g -> guards (env (complete o m)) = g.
Proof. intros <-. apply complete_guards. Qed.

Lemma poll_system fuel s : sys_ok s -> sys_ok (settings_poll fuel s).2.
Proof.
  intros [Hr Hw]. unfold settings_poll. destruct (thread_executors s =? 0)%Z; [|by split]. cbn.
  pose proof (poll_rest fuel (io s) Hr) as Hq1.
  pose proof (Scheduler.poll_env (R := async_reactor) complete (fun x => guards x = guards (env (io s)))
    (reactor_guards _) (handler_guards _) fuel (io s) eq_refl) as Hq2.
  destruct (Scheduler.poll _ fuel (io s)) as [n m]. split; cbn in *; [done|by rewrite Hq2].
Qed.
Lemma poll_one_system s : sys_ok s -> sys_ok (settings_poll_one s).2.
Proof.
  intros [Hr Hw]. unfold settings_poll_one. destruct (thread_executors s =? 0)%Z; [|by split]. cbn.
  pose proof (poll_one_rest (io s) Hr) as Hq1.
  pose proof (Scheduler.poll_one_env (R := async_reactor) complete (fun x => guards x = guards (env (io s)))
    (reactor_guards _) (handler_guards _) (io s) eq_refl) as Hq2.
  destruct (Scheduler.poll_one _ (io s)) as [n m]. split; cbn in *; [done|by rewrite Hq2].
Qed.
Lemma drain_guards fuel m : guards (env (drain fuel m).2) = guards (env m).
Proof.
  revert m. induction fuel as [|fuel IH]; intros m; [done|]. cbn.
  pose proof (Scheduler.poll_one_env (R := async_reactor) complete (fun x => guards x = guards (env m))
    (reactor_guards _) (handler_guards _) m eq_refl) as Hq2.
  destruct (Scheduler.poll_one _ m) as [[] m1]; cbn in *; [by rewrite IH|done].
Qed.
Lemma executor_round_guards fuel running ticks ms m :
  guards (env (executor_round fuel running ticks ms m).2) = guards (env m).
Proof.
  unfold executor_round. pose proof (drain_guards fuel m) as Hd. destruct (drain fuel m) as [[] m1]; cbn in *; [|done].
  destruct running; [|done]. rewrite <- Hd.
  exact (Scheduler.run_one_until_env (R := async_reactor) complete (fun x => guards x = guards (env m1))
    (reactor_guards _) (handler_guards _) ticks (ms * 1000)%Z m1 eq_refl).
Qed.

Lemma restart_ok s : sys_ok s -> sys_ok (async_restart s).
Proof.
  intros [Hr Hw]. unfold async_restart. destruct (_ && _); [|by split]. split; [by apply restart_rest|done].
Qed.
Lemma release_guards m : guards (env (guard_release m)) = (guards (env m) - 1)%Z.
Proof. unfold guard_release. by rewrite Scheduler.work_finished_env. Qed.
Lemma posted_rest m : at_rest m -> at_rest (Scheduler.post_immediate_completion (OpPosted, no_result) false m).
Proof.
  intros [Hi [Ht Hb Hn Hw]]. unfold Scheduler.post_immediate_completion. rewrite Ht. split.
  - revert Hi. set (m' := Scheduler.on_sched _ _).
    assert (pending m' ≡ₚ OpPosted :: pending m) as Hp.
    { unfold pending, m', Scheduler.private_ops; cbn. rewrite Ht, Scheduler.user_ops_app, fmap_app. cbn.
      rewrite !app_nil_r, app_assoc. symmetry. apply Permutation_cons_append. }
    unfold async_inv. change (env m') with (env m). change (good ?R ?S m') with (good R S m).
    apply good_perm; by rewrite Hp.
  - split; cbn; [done| |by rewrite Scheduler.tasks_app, Hn|lia].
    unfold Scheduler.balance, Scheduler.private, Scheduler.private_ops, Scheduler.users, work in *. cbn.
    rewrite Ht in *. rewrite Scheduler.user_ops_app, length_app, Scheduler.user_ops_user.
    change (Scheduler.user_ops []) with (@nil Scheduler.Op). cbn in *. lia.
Qed.

Lemma perform_ok rq s : sys_ok s -> sys_ok (perform plat rq s).
Proof.
  intros Hs. destruct rq; cbn [perform].
  - by apply on_env_ok; [..|apply add_state_ok|].
  - by apply on_env_ok; [..|apply add_tcp_ok|].
  - by apply on_env_ok; [..|apply add_udp_ok|].
  - apply on_io_starts; [|done]. apply starts_silent, silent_member, TcpSocket.keeps_call.
  - apply on_io_starts; [|done]. apply starts_silent, silent_udp_member, UdpSocket.ukeeps_run.
  - apply on_io_starts; [apply async_accept_starts|done].
  - apply on_io_starts; [apply async_connect_starts|done].
  - apply on_io_starts; [apply async_connect_ssl_starts|done].
  - apply on_io_starts; [apply async_read_until_starts|done].
  - apply on_io_starts; [apply async_read_starts|done].
  - apply on_io_starts; [apply async_write_starts|done].
  - apply on_io_starts; [apply async_receive_from_starts|done].
  - apply on_io_starts; [apply async_send_to_starts|done].
  - by apply on_env_ok; [intros e; unfold query_state; by case_match..|apply query_ok|].
  - unfold async_poll. pose proof (poll_system fuel s Hs). by destruct (settings_poll fuel s).
  - unfold async_poll_once. pose proof (poll_one_system s Hs). by destruct (settings_poll_one s).
  - by apply restart_ok.
  - destruct (restart_ok s Hs) as [Hr Hw]. split; [by apply guard_acquire_rest|cbn; lia].
  - destruct (Z.ltb_spec (thread_executors s) (guards (env (io s)))); [|done]. destruct Hs as [Hr Hw].
    split; [|cbn; rewrite release_guards; lia]. apply guard_release_rest; [|done]. rewrite outstanding_work_is by done. lia.
  - destruct (restart_ok s Hs) as [Hr Hw]. pose proof (Scheduler.io_work _ _ (ar_idle _ Hr)).
    unfold thread_worker. destruct starts; cbn.
    + split; [by apply guard_acquire_rest|cbn; lia].
    + split; [apply guard_release_rest; [cbn; lia|by apply guard_acquire_rest]|cbn; rewrite release_guards; cbn; lia].
  - destruct (0 <? thread_executors s)%Z; [|done]. apply on_io_ok; [|done].
    intros Hr. split; [by apply executor_round_rest|apply executor_round_guards].
  - destruct (Z.ltb_spec 0 (thread_executors s)); [|done]. destruct Hs as [Hr Hw]. unfold destroy_worker.
    set (m1 := if posted then _ else io s).
    assert (at_rest m1 /\ guards (env m1) = guards (env (io s))) as [Hr1 Hg1].
    { destruct posted; [|done]. split; [by apply posted_rest|].
      unfold m1, Scheduler.post_immediate_completion. by destruct (Scheduler.this_thread (io s)). }
    pose proof (executor_round_rest fuel false [] 0%Z m1 Hr1) as Hr2.
    pose proof (executor_round_guards fuel false [] 0%Z m1) as Hg2.
    destruct (executor_round fuel false [] 0 m1) as [[b|] m2]; cbn in *; [|split; cbn; [done|lia]].
    split; [|cbn; rewrite release_guards; lia]. cbn. apply guard_release_rest; [|done].
    rewrite outstanding_work_is by done. lia.
Qed.

Lemma initial_ok p w : sys_ok (initial_system p w).
Proof.
  split; [|done]. split; [right|by split]. split; cbn; [done|done| |done]. intros s r Hin. by apply elem_of_nil in Hin.
Qed.

Lemma run_requests_ok rqs s : sys_ok s -> sys_ok (run_requests plat rqs s).
Proof.
  revert s. induction rqs as [|rq rqs IH]; intros s Hs; [done|]. by apply IH, perform_ok.
Qed.
End requests.

(** ** The loop of [poll] *)

Create Rewrite HintDb left_rw.
Section bounded.
Context (bound : process -> nat).

(** [bound]: how many completions the system has left to deliver.  A run of the reactor
    uses it up, and the calls handlers make do not add to it. *)
Record bounded : Prop := {
  bd_run : forall usec p l, length (reactor_run usec p l).1.1 + bound (reactor_run usec p l).2 <= bound p;
  bd_timer : forall sd p, bound (timer_cancel sd p) <= bound p;
  bd_signal : forall sd p, bound (signal_emit sd p) <= bound p;
  bd_cancel : forall r p, bound (raw_cancel r p).2 <= bound p;
  bd_close : forall r p, bound (raw_close_ec r p).2 <= bound p;
}.

Definition left_of (m : machine) : nat := bound (proc (env m)).
Arguments left_of _ : simpl never.
Definition uses (m m' : machine) : Prop := left_of m' <= left_of m.

Lemma on_buffer_left {A} t (f : M Streambuf.streambuf A) m : left_of (on_buffer t f m).2 = left_of m.
Proof. unfold on_buffer. destruct (states (env m) !! t) as [x|]; [|done]. by destruct (f (buffer x)). Qed.
Lemma tcp_run_left {A} i (p : prog A) m : left_of (effect (tcp_run i p) m) = left_of m.
Proof. unfold effect, tcp_run. destruct (tcps (env m) !! i); [|done]. by destruct (exec p _). Qed.
Lemma udp_run_left {A} i (p : prog A) m : left_of (effect (udp_run i p) m) = left_of m.
Proof. unfold effect, udp_run. destruct (udps (env m) !! i); [|done]. by destruct (exec p _). Qed.
Lemma reset_ssl_left i m : left_of (effect (tcp_member i TcpSocket.reset_ssl) m) = left_of m.
Proof. unfold effect, tcp_member. by destruct (tcps (env m) !! i). Qed.
Lemma update_state_left t f m : left_of (update_state t f m) = left_of m.
Proof. done. Qed.
Lemma register_left o m : left_of (register o m) = left_of m.
Proof. done. Qed.

#[local] Hint Rewrite @on_buffer_left @tcp_run_left @udp_run_left reset_ssl_left update_state_left register_left : left_rw.

Lemma raw_call_left i f m : (forall r p, bound (f r p).2 <= bound p) -> left_of (raw_call i f m).2 <= left_of m.
Proof.
  intros Hf. unfold raw_call. destruct (tcps (env m) !! i) as [sk|]; [|done].
  specialize (Hf (TcpSocket.sock sk) (proc (env m))). by destruct (f _ _) as [e p].
Qed.

Lemma complete_left o m : bounded -> left_of (complete o m) <= left_of m.
Proof.
  intros Hb.
  destruct o as [[s t|s t|s t|s t op at_ n|s t base c off n|s t c off n|s t base n|s t|s sd|s sd|] r]; cbn [complete];
    unfold on_connected, on_handshake, on_read_until, on_read, on_write, on_receive_from, on_send_to,
      mark_done, finish_state, store_bytes.
  - by autorewrite with left_rw.
  - by autorewrite with left_rw.
  - destruct (ec_set (res_ec r)); by autorewrite with left_rw.
  - set (m1 := update_state t _ m). set (f := ReadUntil.until_resume _ _ _ _ _).
    pose proof (on_buffer_left t f m1) as Hp. destruct (on_buffer t f m1) as [[[op' at' n'|e k]|x] m2]; cbn in Hp.
    + rewrite register_left, Hp. done.
    + autorewrite with left_rw. by rewrite Hp.
    + change (left_of (on_env (set_escaped x) m2)) with (left_of m2). by rewrite Hp.
  - destruct (Transfer.read_op_call _ _ _ _); by autorewrite with left_rw.
  - destruct (Transfer.write_op_call _ _ _ _); by autorewrite with left_rw.
  - destruct (ec_set (res_ec r)); by autorewrite with left_rw.
  - by autorewrite with left_rw.
  - apply (bd_timer Hb).
  - unfold on_shutdown_timer. destruct (ec_set (res_ec r) || shutdown_is_done sd m); [done|].
    set (m1 := on_process (signal_emit sd) _).
    assert (left_of m1 <= left_of m) as H1 by apply (bd_signal Hb).
    pose proof (raw_call_left s raw_cancel m1 (bd_cancel Hb)) as H2.
    destruct (raw_call s raw_cancel m1) as [e2 m2]. pose proof (raw_call_left s raw_close_ec m2 (bd_close Hb)) as H3.
    destruct (raw_call s raw_close_ec m2) as [e3 m3]. cbn in *. lia.
  - done.
Qed.
End bounded.

Lemma complete_queues o m : Scheduler.this_thread m = Some (Scheduler.ThreadInfo 0 []) ->
  Scheduler.op_queue_ (sched (complete o m)) = Scheduler.op_queue_ (sched m) /\
  Scheduler.this_thread (complete o m) = Some (Scheduler.ThreadInfo 0 []).
Proof.
  intros Ht. destruct o as [o r].
  destruct (complete_spec o r m) as [[[Hs Hth _ _ _ _] _]|(o' & m1 & -> & _ & _ & [Hs Hth _ _ _ _] & _)].
  - by rewrite Hs, Hth.
  - cbn. by rewrite Hs, Hth.
Qed.

(** The operations a poll can run: those queued, and those the reactor can still hand over. *)
Definition runnable (bound : process -> nat) (m : machine) : nat :=
  Scheduler.to_run (fun e => bound (proc e)) m.

(** ** Properties *)

(** C3: the bookkeeping of a whole program.  Whatever sequence of requests a script makes
    (sockets, connects, handshakes, reads, writes, datagrams, synchronous calls, polls,
    work guards, worker threads and their rounds), whatever fails on the way, as long as no
    handler threw: the reservations of every socket are exactly those of the operations
    pending on it, at most one per direction, and an exclusive one alone in its role; a
    state is started and not done exactly while one operation is pending on it; and the
    scheduler's outstanding work is the operations pending plus the work guards alive. *)
Theorem program_accounts `{ErrorText} `{CovVar} `{NetworkConfig} `{CovNumber} (plat : platform)
  (rqs : list request) (p : process) (w : UdpSocket.UW) :
  let m := io (run_requests plat rqs (initial_system p w)) in
  escaped (env m) = None ->
  (forall i sk, tcps (env m) !! i = Some sk ->
     resv_ok (keys (draining (env m)) (pending m)) (TcpSock i) (tcp_atoms sk) /\ tcp_wf sk) /\
  (forall i sk, udps (env m) !! i = Some sk -> resv_ok (keys (draining (env m)) (pending m)) (UdpSock i) (udp_atoms sk)) /\
  (forall t x, states (env m) !! t = Some x -> waiting x = cnt t (ids (pending m))) /\
  outstanding_work_ (sched m) = (Z.of_nat (length (pending m)) + guards (env m))%Z.
Proof.
  intros m Hesc. destruct (run_requests_ok plat rqs _ (initial_ok p w)) as [Hr _].
  fold m in Hr. pose proof (outstanding_work_is m Hr) as Hw. destruct Hr as [[Hx|[Ht Hu Hs Hst]] _].
  { rewrite Hesc in Hx. by destruct Hx. }
  split_and!; [|done| |done].
  - intros i sk Hi. by destruct (Ht i sk Hi).
  - intros t x Hx. by rewrite Hst, Hx.
Qed.

(** C32: [poll] returns.  When the system has finitely many completions to deliver
    ([bound]), a poll that may run as many operations as are queued or deliverable
    returns, having run at most those; with a worker thread alive it returns zero at once. *)
Theorem async_poll_ends (bound : process -> nat)
  (Hbound : bounded bound)
  (s : system) (fuel : nat) (Hfuel : runnable bound (io s) < fuel) :
  exists n, (settings_poll fuel s).1 = Some n /\ (n <= Z.of_nat (runnable bound (io s)))%Z /\
    (thread_executors s <> 0%Z -> settings_poll fuel s = (Some 0%Z, s)).
Proof.
  unfold settings_poll. destruct (Z.eqb_spec (thread_executors s) 0) as [H0|H0]; cbn.
  - destruct (Scheduler.poll_ends (R := async_reactor) complete (fun e => bound (proc e))) with (fuel := fuel) (m := io s)
      as (k & Hk & Hle); [| |done|].
    + intros usec x. cbn. pose proof (bd_run _ Hbound usec (proc x) (inflight x)).
      by destruct (reactor_run usec (proc x) (inflight x)) as [[ready rest] p'].
    + intros o m Ht. destruct (complete_queues o m Ht) as [Hq Hth]. pose proof (complete_left bound o m Hbound). split_and!; [done|by eexists|done].
    + exists k. destruct (Scheduler.poll _ fuel (io s)) as [r m]; cbn in *. by split_and!.
  - exists 0%Z. split_and!; [done|lia|done].
Qed.

Lemma settings_poll_stopped fuel s : async_stopped s = true -> settings_poll (S fuel) s = (Some 0%Z, s).
Proof.
  intros Hs. unfold settings_poll. destruct (thread_executors s =? 0)%Z; [|done]. cbn [negb].
  rewrite Scheduler.poll_stopped by done. by destruct s.
Qed.

(** What [wait] and [wait_for] answer.  [true]: the operation is done and has no
    error; [false]: it is done with an error, or it is not done and the clock had reached
    the timeout.  The call goes on only while polls do not return or no reading of the
    clock has reached the timeout. *)
Theorem wait_answers (fuel : nat) (rounds : list wait_round) (timeout : option Z) (t : nat) (s : system) :
  match wait_impl fuel rounds timeout t s with
  | (Some true, s') => state_done t s' = true /\ state_ok t s' = true
  | (Some false, s') =>
      (state_done t s' = true /\ state_ok t s' = false) \/
      (state_done t s' = false /\ exists d r, timeout = Some d /\ r ∈ rounds /\ (d <= now r)%Z)
  | (None, s') =>
      (exists s1, settings_poll fuel s1 = (None, s')) \/
      (forall r d, r ∈ rounds -> timeout = Some d -> (now r < d)%Z)
  end.
Proof.
  revert s. induction rounds as [|r rounds IH]; intros s; cbn [wait_impl].
  { right. intros r d Hr. by apply elem_of_nil in Hr. }
  destruct (settings_poll fuel s) as [[n|] s1] eqn:Ep; [|left; by exists s].
  destruct (state_done t s1) eqn:Ed; cbn [andb].
  { destruct (state_ok t s1) eqn:Eo; [done|by left]. }
  destruct (match timeout with Some d => (d <=? now r)%Z | None => false end) eqn:Et.
  { destruct timeout as [d|]; [|done]. right. split; [done|]. exists d, r. split_and!; [done|by left|lia]. }
  specialize (IH (others r s1)). destruct (wait_impl fuel rounds timeout t (others r s1)) as [[[]|] s'].
  - done.
  - destruct IH as [IH|(Hd & d & r' & -> & Hin & Hle)]; [by left|right].
    split; [done|]. exists d, r'. split_and!; [done|by right|done].
  - destruct IH as [IH|IH]; [by left|right]. intros r' d [->|Hin]%elem_of_cons ->; [|by eapply IH].
    by apply Z.leb_gt in Et.
Qed.

(** Waiting does not restart the loop.  Once the io_context is stopped (it ran out of
    work) and no worker or other fiber acts, waiting for an operation that is not done
    never returns, however often the loop of [wait] turns, and [wait_for] times out,
    although the operation was started and might be completed. *)
Theorem stopped_wait_hangs (fuel : nat) (rounds : list wait_round) (t : nat) (s : system)
  (Hstop : async_stopped s = true) (Hnot : state_done t s = false)
  (Halone : forall r, r ∈ rounds -> others r s = s) :
  wait (S fuel) rounds t s = (None, s) /\
  forall d, (wait_for (S fuel) rounds d t s = (None, s) \/ wait_for (S fuel) rounds d t s = (Some false, s)).
Proof.
  assert (forall timeout, wait_impl (S fuel) rounds timeout t s = (None, s) \/
    (is_Some timeout /\ wait_impl (S fuel) rounds timeout t s = (Some false, s))) as Hw.
  { intros timeout. induction rounds as [|r rounds IH]; [by left|]. cbn [wait_impl].
    rewrite settings_poll_stopped, Hnot by done. cbn [andb].
    destruct (match timeout with Some d => (d <=? now r)%Z | None => false end) eqn:Et.
    { right. destruct timeout; [|done]. by split. }
    rewrite Halone by (by left). apply IH. intros r' Hr. apply Halone. by right. }
  split; [destruct (Hw None) as [Hq|[[d [=]] _]]; done|]. intros d.
  destruct (Hw (Some d)) as [Hq|[_ Hq]]; [by left|by right].
Qed.
End loop.

(** ** A concrete reactor

    The network completes operations first come first served, as many as there are files
    on the host of [TrustStore]; each completion uses one up. *)
Import TrustStore.

Definition deliver (o : async_op) : async_op * io_result :=
  (o, IoResult None ["o"; "k"]%char 2 TcpSocket.loop_endpoint).
Definition lab_run (p : @process host_trust) (l : list async_op)
    : list (async_op * io_result) * list async_op * @process host_trust :=
  let k := length (existing (world p)) in
  (deliver <$> take k l, drop k l,
   @Process host_trust (Host (drop (length l) (existing (world p))) (variables (world p)))
     (env_cache p) (last_tls_trust_report_slot p)).
Definition lab_async : @AsyncExternal host_trust TcpSocket.loopback := {|
  initiate := fun _ _ p => (Ok tt, p);
  reactor_run := fun _ => lab_run;
  vector_capacity := fun sb => Streambuf.size sb;
  raw_cancel := fun _ p => (None, p);
  raw_close_ec := fun _ p => (None, p);
  timer_cancel := fun _ p => p;
  signal_emit := fun _ p => p |}.

#[export] Instance lab_async_ok : @AsyncExternalOk _ _ lab_async.
Proof.
  split. intros usec p l. cbn. rewrite <- list_fmap_compose.
  replace (fst ∘ deliver <$> take _ l) with (take (length (existing (world p))) l); [by rewrite take_drop|].
  symmetry. apply list_fmap_id.
Qed.

Definition lab_system (files : list string) : @system host_trust TcpSocket.loopback UdpSocket.udp_toy lab_async :=
  @initial_system host_trust TcpSocket.loopback UdpSocket.udp_toy lab_async
    (@Process host_trust (Host files []) None unset_report) 0.
Abbreviation lab_request := (@request host_trust TcpSocket.loopback UdpSocket.udp_toy script_var int_number).
Definition lab_perform (rqs : list lab_request) (files : list string) :=
  @run_requests host_trust TcpSocket.loopback UdpSocket.udp_toy lab_async plain_error_text script_var
    default_config int_number linux rqs (lab_system files).

(** A connection, then a write nobody polls for. *)
Definition lab_program : list lab_request :=
  [@NewTcp host_trust TcpSocket.loopback UdpSocket.udp_toy script_var int_number 7;
   @Connect host_trust TcpSocket.loopback UdpSocket.udp_toy script_var int_number 0 TcpSocket.loop_endpoint;
   @Poll host_trust TcpSocket.loopback UdpSocket.udp_toy script_var int_number 9;
   @Write host_trust TcpSocket.loopback UdpSocket.udp_toy script_var int_number 0 ["h"; "i"]%char].
Definition lab_files : list string := ["a"; "b"; "c"]%string.

Lemma program_accounts_witness :
  let m := io (lab_perform lab_program lab_files) in
  (forall i sk, tcps (env m) !! i = Some sk ->
     resv_ok (keys (draining (env m)) (pending m)) (TcpSock i) (tcp_atoms sk) /\ tcp_wf sk) /\
  (forall i sk, udps (env m) !! i = Some sk -> resv_ok (keys (draining (env m)) (pending m)) (UdpSock i) (udp_atoms sk)) /\
  (forall t x, states (env m) !! t = Some x -> waiting x = cnt t (ids (pending m))) /\
  outstanding_work_ (sched m) = (Z.of_nat (length (pending m)) + guards (env m))%Z.
Proof.
  apply (@program_accounts host_trust TcpSocket.loopback UdpSocket.udp_toy lab_async lab_async_ok
    plain_error_text script_var default_config int_number linux lab_program
    (@Process host_trust (Host lab_files []) None unset_report) 0).
  vm_compute. reflexivity.
Defined.

Lemma async_poll_ends_witness :
  let s := lab_perform (take 2 lab_program) lab_files in
  exists n, (settings_poll 5 s).1 = Some n /\ (n <= 3)%Z /\
    (thread_executors s <> 0%Z -> settings_poll 5 s = (Some 0%Z, s)).
Proof.
  apply (@async_poll_ends host_trust TcpSocket.loopback UdpSocket.udp_toy lab_async
    (fun p => length (existing (world p)))).
  - split; intros; [|done..]. cbn. rewrite length_fmap, length_take, length_drop. lia.
  - vm_compute. lia.
Defined.

Lemma stopped_wait_hangs_witness :
  let s := lab_perform lab_program lab_files in
  let rounds := [WaitRound 0 id; WaitRound 60000 id] in
  wait 9 rounds 1 s = (None, s) /\
  forall d, (wait_for 9 rounds d 1 s = (None, s) \/ wait_for 9 rounds d 1 s = (Some false, s)).
Proof.
  apply (@stopped_wait_hangs host_trust TcpSocket.loopback UdpSocket.udp_toy lab_async 8).
  - vm_compute. reflexivity.
  - vm_compute. reflexivity.
  - intros r Hr. apply elem_of_cons in Hr as [->|Hr]; [done|]. apply elem_of_cons in Hr as [->|Hr]; [done|].
    by apply elem_of_nil in Hr.
Defined.
