(* ===== verification/Delivery.v ===== *)
(** * From the reactor to the script: the bytes of an asynchronous read

    An [async.read] prepares room in the buffer of its state, hands its operation to the
    reactor, is suspended and resumed any number of times among everything else the program
    does, and in the end its state is done.  This file follows one such operation through
    the whole system ([AsyncOps], [Scheduler], [EventLoop]): nothing else touches its state
    while it is pending, and what the script gets is what the reactor answered. *)
From S2P Require Import Prelude FixedHex Endpoint TlsOptions TrustStore Atomics Admission Reservations.
From S2P Require Import AsyncState AsyncOps AsyncSafety AsyncStart EventLoop.
From S2P Require Streambuf ReadUntil Transfer TcpSocket UdpSocket Scheduler.
Import TcpSocket (SocketExternal, tcp_socket, tcp_state).
Import UdpSocket (UdpExternal, udp_socket).
Import Scheduler (Reactor, machine, Machine, env, sched).
Open Scope nat_scope.

(** The completion of an operation with a result. *)
Abbreviation event := (async_op * io_result)%type.

(** What the answer [ev] of the reactor stored for a read of state [t]. *)
Definition answer (t : nat) (ev : event) : list ascii :=
  match ev.1 with
  | OpRead _ t' _ _ _ n => if decide (t' = t) then take n (res_bytes ev.2) else []
  | _ => []
  end.
Definition answers (t : nat) (evs : list event) : list ascii := concat (answer t <$> evs).
(** The answers an operation of state [t] got. *)
Definition answers_to (t : nat) (evs : list event) : list io_result :=
  snd <$> filter (fun ev => op_state ev.1 = Some t) evs.

Section delivery.
  Context `{T : TrustExternal} {N : SocketExternal T} {U : UdpExternal} {X : AsyncExternal}.
  #[local] Existing Instance async_reactor.
  #[local] Abbreviation machine := (@Scheduler.machine async_reactor).
  #[local] Abbreviation system := (@system T N U X).

(** ** What leaves a state alone *)

(** The pending operations of state [t]. *)
Definition mine (t : nat) (m : machine) : list async_op :=
  filter (fun o => op_state o = Some t) (pending m).

Definition held (t : nat) (x : state_type) (o : list async_op) (m : machine) : Prop :=
  states (env m) !! t = Some x /\ mine t m ≡ₚ o.

Definition leaves_m (t : nat) (f : machine -> machine) : Prop := forall x o m, held t x o m -> held t x o (f m).
Definition leaves {A} (t : nat) (f : M machine A) : Prop := forall x o m, held t x o m -> held t x o (f m).2.

Lemma cnt_none_filter t l : cnt t (ids l) = 0 -> filter (fun o => op_state o = Some t) l ≡ₚ [].
Proof.
  induction l as [|o l IH]; [done|]. rewrite ids_cons. rewrite filter_cons. destruct (op_state o) as [t'|] eqn:Ho; cbn.
  - rewrite cnt_cons. destruct (decide (t = t')) as [->|Hne]; [lia|]. intros Hc. rewrite decide_False by congruence. by apply IH.
  - intros Hc. rewrite decide_False by congruence. by apply IH.
Qed.

Lemma held_pending t x o m m' : states (env m') !! t = states (env m) !! t -> pending m' ≡ₚ pending m ->
  held t x o m -> held t x o m'.
Proof. intros Hs Hp [Hx Ho]. split; [by rewrite Hs|]. unfold mine in *. by rewrite Hp. Qed.

Lemma leaves_env t f : (forall e, inflight (f e) = inflight e) -> (forall e, states (f e) !! t = states e !! t) ->
  leaves_m t (on_env f).
Proof. intros Hi Hs x o m. apply held_pending; [apply Hs|]. unfold pending, Scheduler.private_ops; cbn. rewrite Hi. reflexivity. Qed.

Lemma leaves_bind {A B} t (f : M machine A) (k : A -> M machine B) :
  leaves t f -> (forall a, leaves t (k a)) -> leaves t (bind f k).
Proof.
  intros Hf Hk x o m Hm. specialize (Hf x o m Hm). unfold bind. destruct (f m) as [[a|e] m1]; [|done].
  by apply Hk.
Qed.
Lemma leaves_try {A} t (f : M machine A) h : leaves t f -> (forall e, leaves t (h e)) -> leaves t (try_catch f h).
Proof.
  intros Hf Hh x o m Hm. specialize (Hf x o m Hm). unfold try_catch. destruct (f m) as [[a|e] m1]; [done|].
  by apply Hh.
Qed.
Lemma leaves_ret {A} t (a : A) : leaves t (ret a).
Proof. by intros x o m. Qed.
Lemma leaves_throw {A} t e : leaves t (@throw machine A e).
Proof. by intros x o m. Qed.
Lemma leaves_gets {A} t (f : machine -> A) : leaves t (gets f).
Proof. by intros x o m. Qed.
Lemma leaves_update t t' f : t' <> t -> leaves_m t (update_state t' f).
Proof. intros Hne. apply leaves_env; [done|]. intros e. cbn. by rewrite lookup_alter_ne. Qed.
Lemma leaves_modify t t' f : t' <> t -> leaves t (modify (update_state t' f)).
Proof. apply leaves_update. Qed.
Lemma leaves_tcp_run {A} t i (p : prog A) : leaves t (tcp_run i p).
Proof.
  intros x o m Hm. unfold tcp_run. destruct (tcps (env m) !! i); [|done]. destruct (exec p _) as [r a].
  by apply leaves_env.
Qed.
Lemma leaves_udp_run {A} t i (p : prog A) : leaves t (udp_run i p).
Proof.
  intros x o m Hm. unfold udp_run. destruct (udps (env m) !! i); [|done]. destruct (exec p _) as [r a].
  by apply leaves_env.
Qed.
Lemma leaves_tcp_member {A} t i (f : M tcp_state A) : leaves t (tcp_member i f).
Proof.
  intros x o m Hm. unfold tcp_member. destruct (tcps (env m) !! i); [|done]. destruct (f _) as [r a].
  by apply leaves_env.
Qed.
Lemma leaves_udp_member {A} t i (f : M UdpSocket.udp_state A) : leaves t (udp_member i f).
Proof.
  intros x o m Hm. unfold udp_member. destruct (udps (env m) !! i); [|done]. destruct (f _) as [r a].
  by apply leaves_env.
Qed.
Lemma leaves_on_buffer {A} t t' (f : M Streambuf.streambuf A) : t' <> t -> leaves t (on_buffer t' f).
Proof.
  intros Hne x o m Hm. unfold on_buffer. destruct (states (env m) !! t') as [y|]; [|done].
  destruct (f (buffer y)) as [r sb]. by apply leaves_update.
Qed.

Lemma mine_register t o m : mine t (register o m) ≡ₚ (if decide (op_state o = Some t) then [o] else []) ++ mine t m.
Proof. unfold mine. rewrite pending_register, filter_cons. by destruct (decide _). Qed.

Lemma leaves_register t o : op_state o <> Some t -> leaves_m t (register o).
Proof. intros Ho x l m [Hx Hl]. split; [done|]. by rewrite mine_register, decide_False. Qed.
Lemma leaves_launch t o on : op_state o <> Some t -> leaves t (launch o on).
Proof.
  intros Ho x l m Hm. unfold launch. destruct (initiate o on (proc (env m))) as [[u|e] p].
  - apply leaves_register; [done|]. by apply leaves_env.
  - by apply leaves_env.
Qed.
Lemma leaves_with_state t y k : (forall t', t' <> t -> leaves t (k t')) -> leaves t (with_state y k).
Proof.
  intros Hk x o m Hm. unfold with_state. set (t' := fresh (dom (states (env m)))).
  assert (t' <> t) as Hne.
  { intros <-. destruct Hm as [Hx _]. apply elem_of_dom_2 in Hx. by apply is_fresh in Hx. }
  set (m1 := on_env _ m). assert (held t x o m1) as H1.
  { revert Hm. apply held_pending; [|done]. cbn. by rewrite lookup_insert_ne. }
  specialize (Hk t' Hne x o m1 H1). destruct (k t' m1) as [[u|e] m2]; [done|]. cbn.
  revert Hk. apply held_pending; [|done]. cbn. by rewrite lookup_delete_ne.
Qed.
Lemma leaves_choose t s : leaves t (choose_stream s).
Proof.
  apply leaves_bind; [apply leaves_tcp_member|]. intros [].
  - apply leaves_bind; [apply leaves_tcp_member|]. intros ?. apply leaves_ret.
  - apply leaves_ret.
Qed.
Lemma leaves_comp t f g : leaves_m t f -> leaves_m t g -> leaves_m t (fun m => g (f m)).
Proof. intros Hf Hg x o m Hm. by apply Hg, Hf. Qed.

(** ** The handlers *)

Lemma leaves_effect {A} t (f : M machine A) : leaves t f -> leaves_m t (effect f).
Proof. done. Qed.
Lemma leaves_raw t i f x o m : held t x o m -> held t x o (raw_call i f m).2.
Proof.
  intros Hm. unfold raw_call. destruct (tcps (env m) !! i); [|done]. destruct (f _ _) as [e p].
  by apply leaves_env.
Qed.
Lemma leaves_shutdown_timer t s sd e : leaves_m t (on_shutdown_timer s sd e).
Proof.
  intros x o m Hm. unfold on_shutdown_timer. destruct (ec_set e || shutdown_is_done sd m); [done|].
  set (m1 := on_process _ _). assert (held t x o m1) as H1 by (do 2 (apply leaves_env; [done..|]); done).
  pose proof (leaves_raw t s raw_cancel x o m1 H1) as H2. destruct (raw_call s raw_cancel m1) as [e1 m2].
  pose proof (leaves_raw t s raw_close_ec x o m2 H2) as H3. by destruct (raw_call s raw_close_ec m2) as [e2 m3].
Qed.

Create HintDb leaves discriminated.
#[local] Hint Resolve leaves_bind leaves_try leaves_ret leaves_throw leaves_gets leaves_modify leaves_tcp_run
  leaves_udp_run leaves_tcp_member leaves_udp_member leaves_on_buffer leaves_launch leaves_with_state
  leaves_choose leaves_update leaves_register leaves_effect : leaves.

(** A handler runs its steps one after the other. *)
Ltac step_by := repeat first
  [ done
  | apply leaves_update; [congruence|]
  | apply leaves_effect; [solve [auto with leaves]|] ].

(** Completing an operation of another state. *)
Lemma complete_other t o r : op_state o <> Some t -> leaves_m t (complete (o, r)).
Proof.
  intros Ho x l m Hm.
  destruct o as [s t'|s t'|s t'|s t' op at_ n|s t' base c off n|s t' c off n|s t' base n|s t'|s sd|s sd|]; cbn [complete];
    try (assert (t' <> t) as Hne by (cbn in Ho; congruence)).
  - unfold on_connected, mark_done, finish_state. step_by.
  - unfold on_connected, mark_done, finish_state. step_by.
  - unfold on_handshake, mark_done, finish_state. destruct (ec_set _); step_by.
  - set (m1 := store_bytes _ _ _ _). assert (held t x l m1) as H1 by (by apply leaves_update).
    set (f := ReadUntil.until_resume _ _ _ _ _). pose proof (leaves_on_buffer t t' f Hne x l m1 H1) as H2.
    destruct (on_buffer t' f m1) as [[[op' at' n'|e k]|e] m2]; cbn in H2.
    + by apply leaves_register.
    + unfold on_read_until, mark_done, finish_state. step_by.
    + by apply leaves_env.
  - set (m1 := store_bytes _ _ _ _). assert (held t x l m1) as H1 by (by apply leaves_update).
    destruct (Transfer.read_op_call _ _ _ _); [by apply leaves_register|].
    unfold on_read, mark_done, finish_state. step_by.
  - destruct (Transfer.write_op_call _ _ _ _); [by apply leaves_register|].
    unfold on_write, mark_done, finish_state. step_by.
  - unfold on_receive_from, mark_done, finish_state, store_bytes. destruct (ec_set _); step_by.
  - unfold on_send_to, mark_done, finish_state. step_by.
  - unfold on_tls_shutdown. do 3 (apply leaves_env; [done..|]). done.
  - by apply leaves_shutdown_timer.
  - done.
Qed.
(** ** The requests of the script *)

Section requests.
  Context `{ErrorText} `{CovVar} `{NetworkConfig} `{CovNumber} (plat : platform).

(** The requests that run handlers; the others return without entering the loop. *)
Definition runs_handlers (rq : request) : bool :=
  match rq with Poll _ | PollOnce | WorkerRound _ _ _ | DestroyWorker _ _ => true | _ => false end.

Ltac leave := repeat first
  [ apply leaves_tcp_run | apply leaves_udp_run | apply leaves_tcp_member | apply leaves_choose
  | apply leaves_ret | apply leaves_throw | apply leaves_gets
  | apply leaves_on_buffer; congruence | apply leaves_modify; congruence | apply leaves_launch; cbn; congruence
  | apply leaves_with_state; intros ? ? | apply leaves_bind; [|intros ?] | apply leaves_try; [|intros ?]
  | case_match ].

Lemma leaves_accept t s a : leaves t (async_accept s a).
Proof. unfold async_accept, begin_tcp_async_io, or_undo. leave. Qed.
Lemma leaves_connect t s ep : leaves t (async_connect s ep).
Proof. unfold async_connect, begin_tcp_async_io, or_undo. leave. Qed.
Lemma leaves_connect_ssl t s host o : leaves t (async_connect_ssl plat s host o).
Proof.
  unfold async_connect_ssl, begin_tcp_tls_handshake. apply leaves_with_state. intros t' Hne.
  apply leaves_bind; [by intros x l m|]. intros ?. leave.
Qed.
Lemma leaves_read t s n : leaves t (async_read s n).
Proof.
  intros x o m. unfold async_read. destruct (checked_io_buffer_size n) as [k|]; [|done]. revert x o m.
  match goal with |- forall x o m, _ -> held t x o (?f m).2 => change (leaves t f) end.
  unfold begin_tcp_async_io, or_undo. leave.
Qed.
Lemma leaves_write t s bytes : leaves t (async_write s bytes).
Proof. unfold async_write, begin_tcp_async_io, or_undo. leave. Qed.
Lemma leaves_receive_from t s n : leaves t (async_receive_from s n).
Proof.
  intros x o m. unfold async_receive_from. destruct (checked_io_buffer_size n) as [k|]; [|done]. revert x o m.
  match goal with |- forall x o m, _ -> held t x o (?f m).2 => change (leaves t f) end.
  unfold begin_udp_async_io, or_undo. leave.
Qed.
Lemma leaves_send_to t s bytes ep : leaves t (async_send_to s bytes ep).
Proof. unfold async_send_to, begin_udp_async_io, or_undo. leave. Qed.

(** A state whose operation is pending: the script cannot start another one on it. *)
Definition busy (x : state_type) : Prop := init x = true /\ has_done x = false.

Lemma held_read_until t x o s t' pattern m : busy x -> held t x o m -> held t x o (async_read_until s t' pattern m).2.
Proof.
  intros [Hi Hd] Hm. unfold async_read_until. destruct (states (env m) !! t') as [y|] eqn:Hy; [|done].
  destruct (decide (t' = t)) as [->|Hne].
  { destruct Hm as [Hx ?]. rewrite Hx in Hy. injection Hy as <-. by rewrite Hi, Hd. }
  destruct (_ && _); [done|]. revert m Hy Hm.
  match goal with |- forall m, _ -> _ -> held t x o (?f m).2 => assert (leaves t f) as Hf; [|intros m _; apply Hf] end.
  unfold begin_tcp_async_io, or_undo. leave.
Qed.

(** It is not done: nothing is handed out. *)
Lemma run_query_busy q x : has_done x = false -> (run_query q x).2 = x.
Proof.
  intros Hd. destruct q as [|n]; cbn [run_query].
  - unfold get_result. rewrite Hd. by destruct (is_read x).
  - unfold get_buffer. rewrite Hd. destruct (checked_io_buffer_size n); [|done]. by destruct (is_read x).
Qed.

Lemma held_query t x o t' q m : busy x -> held t x o m -> held t x o (on_env (query_state t' q) m).
Proof.
  intros [_ Hd] [Hx Ho]. eapply held_pending; [| |by split]; unfold query_state; cbn.
  - destruct (states (env m) !! t') as [y|] eqn:Hy; [|done]. cbn. destruct (decide (t' = t)) as [->|Hne].
    + rewrite lookup_insert_eq. rewrite Hx in Hy |- *. injection Hy as <-. by rewrite run_query_busy.
    + by rewrite lookup_insert_ne.
  - unfold pending, Scheduler.private_ops; cbn. by destruct (states (env m) !! t').
Qed.
Lemma held_sched t x o f m : (forall q, Scheduler.op_queue_ (f q) = Scheduler.op_queue_ q) ->
  held t x o m -> held t x o (Scheduler.on_sched f m).
Proof. intros Hf. apply held_pending; [done|]. unfold pending, Scheduler.private_ops; cbn. by rewrite Hf. Qed.
Lemma held_work_finished t x o m : held t x o m -> held t x o (Scheduler.work_finished m).
Proof.
  apply held_pending; [by rewrite Scheduler.work_finished_env|]. unfold pending, Scheduler.private_ops.
  by rewrite Scheduler.work_finished_env, Scheduler.work_finished_queue, Scheduler.work_finished_thread.
Qed.
Lemma held_restarted t x o s : held t x o (io s) -> held t x o (io (async_restart s)).
Proof. intros Hm. unfold async_restart. destruct (_ && _); [|done]. by apply held_sched. Qed.
Lemma held_acquire t x o m : held t x o m -> held t x o (guard_acquire m).
Proof. intros Hm. apply held_sched; [done|]. by apply leaves_env. Qed.
Lemma held_release t x o m : held t x o m -> held t x o (guard_release m).
Proof. intros Hm. apply held_work_finished. by apply leaves_env. Qed.

(** While an operation is pending on a state, no request that returns without running
    handlers changes the state, or its operation. *)
Lemma held_request t x o rq s : runs_handlers rq = false -> busy x -> held t x o (io s) ->
  held t x o (io (perform plat rq s)).
Proof.
  intros Hrq Hb Hm. assert (t ∈ dom (states (env (io s)))) as Hin by (destruct Hm; by eapply elem_of_dom_2).
  destruct rq; try discriminate Hrq; cbn [perform]; unfold on_io; cbn [set_io io].
  - revert Hm. apply held_pending; [|done]. cbn. apply lookup_insert_ne. intros Heq. revert Hin. rewrite <- Heq. apply is_fresh.
  - by apply leaves_env.
  - by apply leaves_env.
  - by apply leaves_tcp_member.
  - by apply leaves_udp_member.
  - by apply leaves_accept.
  - by apply leaves_connect.
  - by apply leaves_connect_ssl.
  - by apply held_read_until.
  - by apply leaves_read.
  - by apply leaves_write.
  - by apply leaves_receive_from.
  - by apply leaves_send_to.
  - by apply held_query.
  - by apply held_restarted.
  - apply held_acquire. by apply held_restarted.
  - destruct (_ <? _)%Z; [|done]. by apply held_release.
  - unfold thread_worker. assert (held t x o (guard_acquire (io (async_restart s)))) as Hacq.
    { apply held_acquire. by apply held_restarted. }
    destruct starts; [done|]. by apply held_release.
Qed.

(** ** The steps of a program *)

(** What the event loop does, one step at a time; the completion of an operation is the only
    step with an event. *)
Inductive loop_step : machine -> option event -> machine -> Prop :=
  | step_enter m : Scheduler.this_thread m = None ->
      loop_step m None (Machine (sched m) (Some (Scheduler.ThreadInfo 0 [])) (env m))
  | step_leave m : Scheduler.this_thread m = Some (Scheduler.ThreadInfo 0 []) ->
      loop_step m None (Machine (sched m) None (env m))
  | step_stop m : loop_step m None (Scheduler.stop m)
  | step_task usec rest m : Scheduler.this_thread m = Some (Scheduler.ThreadInfo 0 []) ->
      Scheduler.op_queue_ (sched m) = Scheduler.TaskOperation :: rest ->
      loop_step m None (Scheduler.run_task usec rest m)
  | step_handler ev rest m : Scheduler.this_thread m = Some (Scheduler.ThreadInfo 0 []) ->
      Scheduler.op_queue_ (sched m) = Scheduler.UserOperation ev :: rest ->
      loop_step m (Some ev) (Scheduler.run_operation complete ev rest m)
  | step_post m : loop_step m None (Scheduler.post_immediate_completion (OpPosted, no_result) false m)
  | step_guard m : loop_step m None (guard_release m).

(** What the program does: the steps of the loop, and the requests that do not run it. *)
Inductive step : machine -> option event -> machine -> Prop :=
  | step_loop m ev m' : loop_step m ev m' -> step m ev m'
  | step_request rq s : runs_handlers rq = false -> step (io s) None (io (perform plat rq s)).

(** A run of steps, with its events. *)
Inductive history (R : machine -> option event -> machine -> Prop) : machine -> list event -> machine -> Prop :=
  | history_nil m : history R m [] m
  | history_cons m ev m1 evs m2 : R m ev m1 -> history R m1 evs m2 -> history R m (option_list ev ++ evs) m2.

Lemma history_app R m1 evs1 m2 evs2 m3 : history R m1 evs1 m2 -> history R m2 evs2 m3 ->
  history R m1 (evs1 ++ evs2) m3.
Proof.
  induction 1 as [|m ev m' evs m'' Hs _ IH]; [done|]. intros Hr. rewrite <- app_assoc. econstructor; [done|by apply IH].
Qed.
Lemma history_one (R : machine -> option event -> machine -> Prop) m ev m' : R m ev m' -> history R m (option_list ev) m'.
Proof. intros Hs. rewrite <- (app_nil_r (option_list ev)). econstructor; [done|constructor]. Qed.
Lemma history_steps m evs m' : history loop_step m evs m' -> history step m evs m'.
Proof. induction 1; [constructor|]. econstructor; [by apply step_loop|done]. Qed.

(** The event loop takes the machine from [m] to [m']. *)
Definition reached (m m' : machine) : Prop := exists evs, history loop_step m evs m'.

Lemma reached_refl m : reached m m.
Proof. exists []. constructor. Qed.
Lemma reached_step m ev m' : loop_step m ev m' -> reached m m'.
Proof. intros Hs. eexists. by apply history_one. Qed.
Lemma reached_trans m1 m2 m3 : reached m1 m2 -> reached m2 m3 -> reached m1 m3.
Proof. intros [e1 He1] [e2 He2]. eexists. by eapply history_app. Qed.

Context `{!AsyncExternalOk}.

Lemma run_front_reached m : in_loop m -> reached m (Scheduler.run_front complete m).2.
Proof.
  intros [_ Ht]. unfold Scheduler.run_front.
  destruct (Scheduler.op_queue_ (sched m)) as [|[|o] rest] eqn:Hq; [apply reached_refl..|].
  eapply reached_step. by apply step_handler.
Qed.
(** Running the task, then what is at the front. *)
Lemma task_front_reached usec rest m : in_loop m -> Scheduler.op_queue_ (sched m) = Scheduler.TaskOperation :: rest ->
  reached m (Scheduler.run_front complete (Scheduler.run_task usec rest m)).2.
Proof.
  intros Hm Hq. eapply reached_trans; [|by apply run_front_reached, run_task_inv].
  eapply reached_step. apply step_task; [apply Hm|done].
Qed.
Lemma do_poll_one_reached m : in_loop m -> reached m (Scheduler.do_poll_one complete m).2.
Proof.
  intros Hm. unfold Scheduler.do_poll_one. destruct (Scheduler.stopped_ (sched m)); [apply reached_refl|].
  destruct (Scheduler.op_queue_ (sched m)) as [|[|o] rest] eqn:Hq;
    [by apply run_front_reached|by apply task_front_reached|by apply run_front_reached].
Qed.
Lemma do_wait_one_reached usec m : in_loop m -> reached m (Scheduler.do_wait_one complete usec m).2.
Proof.
  intros Hm. unfold Scheduler.do_wait_one. destruct (Scheduler.stopped_ (sched m)); [apply reached_refl|].
  destruct (Scheduler.op_queue_ (sched m)) as [|[|o] rest] eqn:Hq;
    [by apply run_front_reached|by apply task_front_reached|by apply run_front_reached].
Qed.
Lemma poll_loop_reached fuel n m : in_loop m -> reached m (Scheduler.poll_loop complete fuel n m).2.
Proof.
  revert n m. induction fuel as [|fuel IH]; intros n m Hm; [apply reached_refl|]. cbn [Scheduler.poll_loop].
  pose proof (do_poll_one_inv m Hm) as Hin. pose proof (do_poll_one_reached m Hm) as Hr.
  destruct (Scheduler.do_poll_one _ m) as [[] m1]; [|done]. eapply reached_trans; [exact Hr|by apply IH].
Qed.

Lemma enter_reached {A} (f : machine -> A * machine) m : at_rest m ->
  (forall m1, in_loop m1 -> in_loop (f m1).2) -> (forall m1, in_loop m1 -> reached m1 (f m1).2) ->
  reached m (Scheduler.enter_thread f m).2.
Proof.
  intros [Hinv Hid] Hin Hf. assert (Scheduler.this_thread m = None) as Ht by apply Hid.
  unfold Scheduler.enter_thread. set (m1 := Machine _ _ _).
  assert (in_loop m1) as Hm1.
  { split; [|done]. revert Hinv. apply inv_perm; [done|]. unfold pending, Scheduler.private_ops; cbn. by rewrite Ht. }
  specialize (Hf m1 Hm1). destruct (Hin m1 Hm1) as [_ Ht2]. destruct (f m1) as [a m2]; cbn in *.
  eapply reached_trans; [eapply reached_step; by apply step_enter|].
  eapply reached_trans; [exact Hf|]. rewrite Ht. eapply reached_step. by apply step_leave.
Qed.

Lemma poll_reached fuel m : at_rest m -> reached m (Scheduler.poll complete fuel m).2.
Proof.
  intros Hm. unfold Scheduler.poll. destruct (_ =? 0)%Z; [eapply reached_step, step_stop|].
  apply enter_reached; [done|intros; by apply poll_loop_inv|intros; by apply poll_loop_reached].
Qed.
Lemma poll_one_reached m : at_rest m -> reached m (Scheduler.poll_one complete m).2.
Proof.
  intros Hm. unfold Scheduler.poll_one. destruct (_ =? 0)%Z; [eapply reached_step, step_stop|].
  apply enter_reached; [done|intros; by apply do_poll_one_inv|intros; by apply do_poll_one_reached].
Qed.
Lemma wait_one_reached usec m : at_rest m -> reached m (Scheduler.wait_one complete usec m).2.
Proof.
  intros Hm. unfold Scheduler.wait_one. destruct (_ =? 0)%Z; [eapply reached_step, step_stop|].
  apply enter_reached; [done|intros; by apply do_wait_one_inv|intros; by apply do_wait_one_reached].
Qed.
Lemma run_one_until_reached ticks abs m : at_rest m -> reached m (Scheduler.run_one_until complete ticks abs m).2.
Proof.
  revert m. induction ticks as [|n ticks IH]; intros m Hm; [apply reached_refl|]. cbn [Scheduler.run_one_until].
  destruct (n <? abs)%Z; [|apply reached_refl].
  pose proof (wait_one_rest (Z.min (abs - n) 1000000) m Hm) as Hr.
  pose proof (wait_one_reached (Z.min (abs - n) 1000000) m Hm) as Hw.
  destruct (Scheduler.wait_one _ (Z.min (abs - n) 1000000) m) as [r m1]. cbn in Hr, Hw.
  destruct (r || Scheduler.stopped m1); [done|]. eapply reached_trans; [exact Hw|by apply IH].
Qed.
Lemma drain_reached fuel m : at_rest m -> reached m (drain fuel m).2.
Proof.
  revert m. induction fuel as [|fuel IH]; intros m Hm; [apply reached_refl|]. cbn [drain].
  pose proof (poll_one_rest m Hm) as Hr. pose proof (poll_one_reached m Hm) as Hw.
  destruct (Scheduler.poll_one _ m) as [[] m1]; [|done]. eapply reached_trans; [exact Hw|by apply IH].
Qed.
Lemma executor_round_reached fuel running ticks ms m : at_rest m ->
  reached m (executor_round fuel running ticks ms m).2.
Proof.
  intros Hm. unfold executor_round. pose proof (drain_rest fuel m Hm) as Hr. pose proof (drain_reached fuel m Hm) as Hw.
  destruct (drain fuel m) as [[] m1]; [|done]. destruct running; [|done].
  eapply reached_trans; [exact Hw|by apply run_one_until_reached].
Qed.

(** Every request that runs handlers is a run of the loop. *)
Lemma perform_reached rq s : sys_ok s -> runs_handlers rq = true -> reached (io s) (io (perform plat rq s)).
Proof.
  intros [Hr Hg] Hrq. destruct rq; try discriminate Hrq; cbn [perform].
  - unfold async_poll, settings_poll. destruct (_ =? 0)%Z; [|apply reached_refl]. cbn [negb].
    pose proof (poll_reached fuel (io s) Hr) as Hp. by destruct (Scheduler.poll _ fuel (io s)).
  - unfold async_poll_once, settings_poll_one. destruct (_ =? 0)%Z; [|apply reached_refl]. cbn [negb].
    pose proof (poll_one_reached (io s) Hr) as Hp. by destruct (Scheduler.poll_one _ (io s)).
  - destruct (_ <? _)%Z; [|apply reached_refl]. by apply executor_round_reached.
  - destruct (_ <? _)%Z; [|apply reached_refl]. unfold destroy_worker. set (m := if posted then _ else _).
    assert (at_rest m /\ reached (io s) m) as [Hm Hrm].
    { subst m. destruct posted; [|by split; [|apply reached_refl]].
      split; [by apply posted_rest|eapply reached_step, step_post]. }
    pose proof (executor_round_reached fuel false [] 0 m Hm) as Hw.
    destruct (executor_round fuel false [] 0 m) as [[b|] m1]; cbn in *; eapply reached_trans; try done.
    eapply reached_trans; [exact Hw|]. eapply reached_step, step_guard.
Qed.

(** ** The loop and a state *)

Lemma held_task t x o usec rest m : Scheduler.this_thread m = Some (Scheduler.ThreadInfo 0 []) ->
  Scheduler.op_queue_ (sched m) = Scheduler.TaskOperation :: rest ->
  held t x o m -> held t x o (Scheduler.run_task usec rest m).
Proof.
  intros Ht Hq. apply held_pending; [|by apply run_task_pending].
  destruct (Scheduler.run_task_env usec rest m Ht) as [-> _]. cbn.
  by destruct (reactor_run usec (proc (env m)) (inflight (env m))) as [[ready left] p].
Qed.
Lemma held_cleanup t x o m : is_Some (Scheduler.this_thread m) -> held t x o m -> held t x o (Scheduler.work_cleanup m).
Proof. intros Ht. apply held_pending; [by rewrite Scheduler.work_cleanup_env|by apply work_cleanup_pending]. Qed.

Lemma complete_thread ev m : Scheduler.this_thread (complete ev m) = Scheduler.this_thread m.
Proof.
  destruct ev as [o r]. destruct (complete_spec o r m) as [[Hs _]|(o' & m1 & -> & _ & _ & Hs & _)]; apply Hs.
Qed.

(** The event is for another state: it goes on. *)
Lemma held_other t x o ev rest m : Scheduler.this_thread m = Some (Scheduler.ThreadInfo 0 []) ->
  Scheduler.op_queue_ (sched m) = Scheduler.UserOperation ev :: rest -> op_state ev.1 <> Some t ->
  held t x o m -> held t x o (Scheduler.run_operation complete ev rest m).
Proof.
  intros Ht Hq Hne [Hx Ho]. unfold Scheduler.run_operation. set (m1 := Scheduler.on_sched _ m).
  apply held_cleanup; [rewrite complete_thread; cbn; rewrite Ht; by eexists|].
  destruct ev as [o' r]. apply complete_other; [done|]. split; [done|]. rewrite <- Ho. unfold mine.
  rewrite (pop_pending _ _ _ Hq), filter_cons. by rewrite decide_False.
Qed.
(** It is for the operation of the state. *)
Lemma held_own t x o ev rest m : Scheduler.op_queue_ (sched m) = Scheduler.UserOperation ev :: rest ->
  op_state ev.1 = Some t -> held t x [o] m ->
  ev.1 = o /\ held t x [] (Scheduler.on_sched (Scheduler.set_queue rest) m).
Proof.
  intros Hq He [Hx Ho]. unfold mine in Ho. rewrite (pop_pending _ _ _ Hq), filter_cons, decide_True in Ho by done.
  assert (ev.1 = o) as Heq.
  { apply list_elem_of_singleton. rewrite <- Ho. by left. }
  split; [done|]. split; [done|]. unfold mine. rewrite Heq in Ho. by apply Permutation_cons_inv in Ho.
Qed.

(** The other steps of the loop. *)
Lemma held_step t x o m m' : loop_step m None m' -> held t x o m -> held t x o m'.
Proof.
  intros Hs Hm. inversion Hs as [m1 Ht|m1 Ht|m1|usec rest m1 Ht Hq|ev rest m1 Ht Hq|m1|m1]; subst.
  - revert Hm. apply held_pending; [done|]. unfold pending, Scheduler.private_ops; cbn. by rewrite Ht.
  - revert Hm. apply held_pending; [done|]. unfold pending, Scheduler.private_ops; cbn. by rewrite Ht.
  - by apply held_sched.
  - by apply held_task.
  - destruct Hm as [Hx Ho]. split.
    + unfold Scheduler.post_immediate_completion. by destruct (Scheduler.this_thread m).
    + rewrite <- Ho. assert (pending (Scheduler.post_immediate_completion (OpPosted, no_result) false m)
        ≡ₚ OpPosted :: pending m) as Hp.
      { unfold pending, Scheduler.post_immediate_completion, Scheduler.private_ops.
        destruct (Scheduler.this_thread m) as [th|] eqn:Ht; cbn; rewrite ?Ht;
          rewrite Scheduler.user_ops_app, fmap_app; cbn; solve_Permutation. }
      unfold mine. by rewrite Hp.
  - by apply held_release.
Qed.

(** ** The read *)

(** The region of [n] bytes given to the stream starts at [base], in the put area, and holds
    [bytes] so far; nothing is readable yet. *)
Record room (n base : nat) (bytes : list ascii) (b : Streambuf.streambuf) : Prop := {
  rm_wf : Streambuf.streambuf_wf b;
  rm_empty : Streambuf.data b = [];
  rm_base : base = Streambuf.pptr b;
  rm_fits : n <= Streambuf.epptr b - Streambuf.pptr b;
  rm_bytes : take (length bytes) (drop base (Streambuf.buffer_ b)) = bytes;
}.

Record reading (t size : nat) (bytes : list ascii) (m : machine) : Prop := {
  rd_state : exists x s base n,
    held t x [OpRead s t base (Transfer.Consuming size (length bytes)) (length bytes) n] m /\
    busy x /\ is_read x = true /\ room size base bytes (buffer x) /\
    length bytes + n <= size /\ (0 < n \/ length bytes = size);
}.

Record delivered (t size : nat) (bytes : list ascii) (r : io_result) (m : machine) : Prop := {
  dl_state : exists x, held t x [] m /\ is_read x = true /\ has_done x = true /\
    Streambuf.streambuf_wf (buffer x) /\ Streambuf.data (buffer x) = bytes /\ bytes_transferred x = length bytes /\
    ec x = res_ec r;
  dl_fits : length bytes <= size;
  dl_all : res_ec r = None -> length bytes = size \/ res_bytes r = [];
}.

Lemma held_update t x o f m : held t x o m -> held t (f x) o (update_state t f m).
Proof. intros [Hx Ho]. split; [|done]. cbn. by rewrite lookup_alter_eq, Hx. Qed.

Lemma room_fill size base bytes more b : room size base bytes b -> length bytes + length more <= size ->
  room size base (bytes ++ more) (Streambuf.fill (base + length bytes) more b).
Proof.
  intros [Hw He -> Hf Hb] Hle. destruct (Streambuf.fill_more bytes more b Hw ltac:(lia) Hb) as (Hw' & Hc & Ht).
  split; try done. by rewrite Hc.
Qed.

Lemma on_read_delivers t size bytes s e r base x m : held t x [] m -> is_read x = true ->
  room size base bytes (buffer x) -> length bytes <= size -> (Z.of_nat size < 2 ^ 31)%Z -> e = res_ec r ->
  (res_ec r = None -> length bytes = size \/ res_bytes r = []) ->
  delivered t size bytes r (on_read s t e (length bytes) m).
Proof.
  intros Hm Hr [Hw He -> Hf Hb] Hle Hint -> Hall. split; [|done|done].
  destruct (Streambuf.commit_spec bytes (buffer x) Hw ltac:(lia) ltac:(lia) Hb) as (Hw' & Hc & _).
  eexists. split.
  { unfold on_read, mark_done, finish_state. apply held_update, leaves_effect; [apply leaves_tcp_run|].
    apply held_update, held_update. exact Hm. }
  cbn -[Streambuf.data Streambuf.commit]. split_and!; try done. by rewrite Hc, He.
Qed.

(** A step of the read: more bytes, or the end. *)
Lemma read_completes t size bytes ev rest m : (Z.of_nat size < 2 ^ 31)%Z ->
  Scheduler.this_thread m = Some (Scheduler.ThreadInfo 0 []) ->
  Scheduler.op_queue_ (sched m) = Scheduler.UserOperation ev :: rest ->
  op_state ev.1 = Some t -> reading t size bytes m ->
  let m' := complete ev (Scheduler.on_sched (Scheduler.set_queue rest) m) in
  reading t size (bytes ++ answer t ev) m' \/ delivered t size (bytes ++ answer t ev) ev.2 m'.
Proof.
  intros Hint Ht Hq He [(x & s & base & n & Hm & Hb & Hr & Hroom & Hn & Hpos)].
  destruct (held_own _ _ _ _ _ _ Hq He Hm) as [Ho Hm1]. set (m1 := Scheduler.on_sched _ m) in *.
  destruct ev as [o r]; cbn in Ho. subst o. unfold answer; cbn [fst snd complete]. rewrite decide_True by done.
  set (more := take n (res_bytes r)). assert (length more <= n) as Hmore by (unfold more; rewrite length_take; lia).
  pose proof (held_update t x [] (fun x => set_buffer (Streambuf.fill (base + length bytes) more (buffer x)) x) _ Hm1) as Hm2.
  fold (store_bytes t (base + length bytes) more) in Hm2. set (m2 := store_bytes _ _ more m1) in *.
  pose proof (room_fill size base bytes more (buffer x) Hroom ltac:(lia)) as Hroom2.
  pose proof (Transfer.op_resume_spec size (length bytes) (length more) (res_ec r) ltac:(lia)) as Hres.
  unfold Transfer.read_op_call. destruct (Transfer.op_resume _ _ _ _) as [c off k|e k].
  - destruct Hres as (-> & -> & Hk & Hoff). left. split.
    exists (set_buffer (Streambuf.fill (base + length bytes) more (buffer x)) x), s, base, k. rewrite length_app.
    split; [|split_and!; [exact Hb|exact Hr|exact Hroom2|lia|by left]].
    destruct Hm2 as [Hx2 Ho2]. split; [exact Hx2|]. by rewrite mine_register, decide_True, Ho2.
  - destruct Hres as (-> & -> & Hall). right. rewrite <- length_app.
    eapply on_read_delivers; [exact Hm2|exact Hr|exact Hroom2|rewrite length_app; lia|done|done|].
    intros Hec. rewrite length_app. destruct (Hall Hec) as [Hz|Hz]; [|by left]. destruct Hpos as [Hpos|Hpos]; [|left; lia].
    right. unfold more in Hz. rewrite length_take in Hz. destruct (res_bytes r); [done|cbn in Hz; lia].
Qed.

(** ** A run of the loop and the read *)

Lemma answers_app t evs1 evs2 : answers t (evs1 ++ evs2) = answers t evs1 ++ answers t evs2.
Proof. unfold answers. by rewrite fmap_app, concat_app. Qed.
Lemma answers_to_app t evs1 evs2 : answers_to t (evs1 ++ evs2) = answers_to t evs1 ++ answers_to t evs2.
Proof. unfold answers_to. by rewrite filter_app, fmap_app. Qed.
Lemma answer_other t ev : op_state ev.1 <> Some t -> answers t [ev] = [] /\ answers_to t [ev] = [].
Proof.
  destruct ev as [o r]; cbn [fst]. intros Hne. split.
  - unfold answers, answer; cbn. destruct o; try done. rewrite decide_False; [done|]. cbn in Hne. congruence.
  - unfold answers_to. by rewrite filter_cons_False.
Qed.
Lemma answer_own t ev : op_state ev.1 = Some t -> answers t [ev] = answer t ev /\ answers_to t [ev] = [ev.2].
Proof.
  intros He. split; [unfold answers; cbn; by rewrite app_nil_r|]. unfold answers_to. by rewrite filter_cons_True.
Qed.

Lemma cleanup_reading t size bytes m : is_Some (Scheduler.this_thread m) ->
  reading t size bytes m -> reading t size bytes (Scheduler.work_cleanup m).
Proof.
  intros Ht [(x & s & base & n & Hm & Hrest)]. split. exists x, s, base, n. split; [by apply held_cleanup|done].
Qed.
Lemma cleanup_delivered t size bytes r m : is_Some (Scheduler.this_thread m) ->
  delivered t size bytes r m -> delivered t size bytes r (Scheduler.work_cleanup m).
Proof. intros Ht [(x & Hm & Hrest) Hf Ha]. split; [|done..]. exists x. split; [by apply held_cleanup|done]. Qed.

Lemma reading_step t size bytes m ev m' : (Z.of_nat size < 2 ^ 31)%Z -> loop_step m ev m' -> reading t size bytes m ->
  reading t size (bytes ++ answers t (option_list ev)) m' \/
  exists r, last (answers_to t (option_list ev)) = Some r /\
    delivered t size (bytes ++ answers t (option_list ev)) r m'.
Proof.
  intros Hint Hs Hm. destruct ev as [ev|]; [change (option_list (Some ev)) with [ev]|change (option_list None) with (@nil event)].
  - inversion Hs as [| | | |ev' rest m1 Ht Hq| |]; subst.
    assert (forall ev, is_Some (Scheduler.this_thread (complete ev (Scheduler.on_sched (Scheduler.set_queue rest) m)))) as Hth.
    { intros ev0. rewrite complete_thread. cbn. rewrite Ht. by eexists. }
    destruct (decide (op_state ev.1 = Some t)) as [He|Hne].
    + destruct (answer_own t ev He) as [-> ->].
      destruct (read_completes t size bytes ev rest m Hint Ht Hq He Hm) as [Hr|Hd]; [left|right].
      * by apply cleanup_reading.
      * exists ev.2. split; [done|]. by apply cleanup_delivered.
    + destruct (answer_other t ev Hne) as [-> ->]. rewrite app_nil_r. left.
      destruct Hm as [(x & s & base & n & Hm & Hrest)]. split. exists x, s, base, n. split; [|done]. by apply held_other.
  - left. change (answers t []) with (@nil ascii). rewrite app_nil_r.
    destruct Hm as [(x & s & base & n & Hm & Hrest)]. split. exists x, s, base, n. split; [|done].
    by eapply held_step.
Qed.

Lemma delivered_step t size bytes r m ev m' : loop_step m ev m' -> delivered t size bytes r m ->
  answers t (option_list ev) = [] /\ answers_to t (option_list ev) = [] /\ delivered t size bytes r m'.
Proof.
  intros Hs [(x & Hm & Hrest) Hf Ha]. destruct ev as [ev|]; [change (option_list (Some ev)) with [ev]|change (option_list None) with (@nil event)].
  - inversion Hs as [| | | |ev' rest m1 Ht Hq| |]; subst.
    assert (op_state ev.1 <> Some t) as Hne.
    { intros He. destruct Hm as [_ Ho]. unfold mine in Ho. rewrite (pop_pending _ _ _ Hq), filter_cons, decide_True in Ho by done.
      by apply Permutation_nil_r in Ho. }
    destruct (answer_other t ev Hne) as [-> ->]. split_and!; [done..|]. split; [|done..]. exists x.
    split; [by apply held_other|done].
  - split_and!; [done..|]. split; [|done..]. exists x. split; [by eapply held_step|done].
Qed.

(** The event loop brings a read on, to its end at most. *)
Lemma delivered_history t size bytes r m evs m' : history loop_step m evs m' -> delivered t size bytes r m ->
  answers t evs = [] /\ answers_to t evs = [] /\ delivered t size bytes r m'.
Proof.
  induction 1 as [m|m ev m1 evs m2 Hs _ IH]; intros Hm; [done|].
  destruct (delivered_step _ _ _ _ _ _ _ Hs Hm) as (Ha & Ht & Hm1). rewrite answers_app, answers_to_app, Ha, Ht. by apply IH.
Qed.
Lemma reading_history t size bytes m evs m' : (Z.of_nat size < 2 ^ 31)%Z -> history loop_step m evs m' ->
  reading t size bytes m ->
  reading t size (bytes ++ answers t evs) m' \/
  exists r, last (answers_to t evs) = Some r /\ delivered t size (bytes ++ answers t evs) r m'.
Proof.
  intros Hint Hh. revert bytes. induction Hh as [m|m ev m1 evs m2 Hs Hh IH]; intros bytes Hm.
  { left. change (answers t []) with (@nil ascii). by rewrite app_nil_r. }
  rewrite answers_app, answers_to_app, app_assoc.
  destruct (reading_step _ _ _ _ _ _ Hint Hs Hm) as [Hr|(r & Hl & Hd)].
  - destruct (IH _ Hr) as [Hr'|(r & Hl & Hd)]; [by left|right]. exists r. split; [|done].
    by rewrite last_app, Hl.
  - right. destruct (delivered_history _ _ _ _ _ _ _ Hh Hd) as (-> & -> & Hd'). rewrite !app_nil_r. by exists r.
Qed.

(** ** The start *)

Lemma triple_leaves {A} t x o (f : M machine A) : leaves t f -> triple (held t x o) f (fun _ => held t x o) (fun _ => True).
Proof. intros Hf m Hm. specialize (Hf x o m Hm). by destruct (f m) as [[a|e] m']. Qed.

Lemma prepare_room t x n : Streambuf.streambuf_wf (buffer x) -> Streambuf.data (buffer x) = [] ->
  triple (held t x []) (on_buffer t (Streambuf.prepare n))
    (fun base m => exists b, room n base [] b /\ held t (set_buffer b x) [] m) (fun _ => True).
Proof.
  intros Hw Hd m [Hx Ho]. unfold on_buffer. rewrite Hx. unfold Streambuf.prepare, bind, gets.
  pose proof (Streambuf.reserve_spec n (buffer x) Hw) as Hres.
  destruct (Streambuf.reserve n (buffer x)) as [[[]|e] b]; [|done]. destruct Hres as (Hw' & Hc & _ & Hn & _).
  exists b. split; [split; [done|by rewrite Hc|done|done|done]|]. by apply (held_update t x).
Qed.

Lemma async_read_reads i requested n m t m' : checked_io_buffer_size requested = Ok n ->
  (forall t, states (env m) !! t = None -> mine t m ≡ₚ []) ->
  async_read i requested m = (Ok t, m') -> reading t (Z.to_nat n) [] m'.
Proof.
  intros Hn Hfresh. unfold async_read. rewrite Hn. unfold with_state. set (t' := fresh (dom (states (env m)))).
  set (x := set_read true _). set (m0 := on_env _ m). set (k := bind (begin_tcp_async_io _) _).
  assert (states (env m) !! t' = None) as Hnone by (apply not_elem_of_dom, is_fresh).
  assert (held t' x [] m0) as Hm0.
  { split; [cbn; by rewrite lookup_insert_eq|]. by apply Hfresh. }
  assert (triple (held t' x []) k (fun _ => reading t' (Z.to_nat n) []) (fun _ => True)) as Hk.
  { unfold k, begin_tcp_async_io, or_undo. eapply triple_bind.
    { eapply triple_try; [apply triple_leaves, leaves_tcp_run|]. by intros e m1 _. }
    intros ?. eapply triple_try; [|by intros e m1 _; unfold bind; destruct (tcp_run _ _ m1) as [[]]].
    eapply triple_bind; [apply triple_leaves, leaves_choose|]. intros ?.
    eapply triple_bind; [apply prepare_room; [by apply Streambuf.new_streambuf_wf; vm_compute|done]|].
    intros base m1 (b & Hroom & Hm1). unfold first_transfer.
    destruct (Transfer.op_start_spec (Z.to_nat n)) as (len & -> & Hle & Hpos).
    unfold launch. destruct (initiate _ _ _) as [[u|e] p]; [|done]. split.
    exists (set_buffer b x), i, base, len. cbn [length]. split; [|split_and!; try done; lia].
    set (m2 := on_env (set_proc p) m1). assert (held t' (set_buffer b x) [] m2) as [Hx2 Ho2] by by apply leaves_env.
    split; [exact Hx2|]. by rewrite mine_register, decide_True, Ho2. }
  specialize (Hk m0 Hm0). destruct (k m0) as [[u|e] m2]; [|done]. by intros [= <- <-].
Qed.

(** ** The program and the read *)

Lemma delivered_done t size bytes r s : delivered t size bytes r (io s) -> state_done t s = true.
Proof. intros [(x & [Hx _] & _ & Hd & _) _ _]. unfold state_done. by rewrite Hx. Qed.
Lemma reading_done t size bytes s : reading t size bytes (io s) -> state_done t s = false.
Proof. intros [(x & i & base & n & [Hx _] & [_ Hd] & _)]. unfold state_done. by rewrite Hx. Qed.

Lemma reading_request t size bytes rq s : (Z.of_nat size < 2 ^ 31)%Z -> sys_ok s -> reading t size bytes (io s) ->
  exists evs, history step (io s) evs (io (perform plat rq s)) /\
    (reading t size (bytes ++ answers t evs) (io (perform plat rq s)) \/
     exists r, last (answers_to t evs) = Some r /\ delivered t size (bytes ++ answers t evs) r (io (perform plat rq s))).
Proof.
  intros Hint Hs Hm. destruct (runs_handlers rq) eqn:Hrq.
  - destruct (perform_reached rq s Hs Hrq) as [evs Hh]. exists evs. split; [by apply history_steps|].
    by eapply reading_history.
  - exists []. split; [by apply (history_one step _ None), step_request|]. left.
    change (answers t []) with (@nil ascii). rewrite app_nil_r.
    destruct Hm as [(x & i & base & n & Hm & Hb & Hrest)]. split. exists x, i, base, n.
    split; [by apply held_request|done].
Qed.

Lemma reading_requests t size bytes rqs s : (Z.of_nat size < 2 ^ 31)%Z -> sys_ok s -> reading t size bytes (io s) ->
  (forall k, state_done t (run_requests plat (take k rqs) s) = false) ->
  exists evs, history step (io s) evs (io (run_requests plat rqs s)) /\
    reading t size (bytes ++ answers t evs) (io (run_requests plat rqs s)).
Proof.
  intros Hint. revert bytes s. induction rqs as [|rq rqs IH]; intros bytes s Hs Hm Hnot.
  { exists []. split; [constructor|]. change (answers t []) with (@nil ascii). by rewrite app_nil_r. }
  destruct (reading_request t size bytes rq s Hint Hs Hm) as (evs & Hh & [Hr|(r & _ & Hd)]).
  - destruct (IH (bytes ++ answers t evs) (perform plat rq s)) as (evs' & Hh' & Hr'); [by apply perform_ok|exact Hr|intros k; apply (Hnot (S k))|].
    exists (evs ++ evs'). split; [by eapply history_app|]. by rewrite answers_app, app_assoc.
  - pose proof (Hnot 1) as Hn. cbn in Hn. rewrite take_0 in Hn. cbn in Hn.
    by rewrite (delivered_done _ _ _ _ _ Hd) in Hn.
Qed.

(** What a script gets from a finished read. *)
Lemma delivered_result t size bytes r m : (Z.of_nat size < 2 ^ 31)%Z -> delivered t size bytes r m ->
  exists x, states (env m) !! t = Some x /\ ec x = res_ec r /\ (get_result x).1 = Ok (Some bytes) /\
    Streambuf.data (buffer (get_result x).2) = [].
Proof.
  intros Hint [(x & [Hx _] & Hr & Hd & Hw & Hb & Hn & Hec) Hf _]. exists x. split_and!; [done|done|..].
  - unfold get_result. rewrite Hr, Hd, Hn. cbn [negb]. destruct bytes as [|c bytes]; [done|]. cbn [length Nat.eqb].
    unfold take_bytes. cbn [fst]. rewrite Hb. do 2 f_equal. apply (firstn_all (c :: bytes)).
  - unfold get_result. rewrite Hr, Hd, Hn. cbn [negb]. destruct (Nat.eqb_spec (length bytes) 0) as [H0'|Hne].
    { cbn. rewrite Hb. by apply nil_length_inv. }
    unfold take_bytes. cbn [snd buffer set_bytes set_buffer]. pose proof (Streambuf.contents_length _ Hw) as Hl.
    destruct (Streambuf.consume_spec (length bytes) (buffer x) Hw) as (_ & -> & _); [rewrite Hb in Hl; lia|].
    rewrite Hb. apply drop_all.
Qed.
End requests.

(** ** Properties *)

(** C4: what a read delivers.  After any program, an [async.read] of a size that succeeds in
    starting, and whatever the script requests and the reactor completes while its state is
    not done: when a further request finds the state done, the answers the reactor gave to
    the read, in the order it gave them, are exactly the bytes that [get_result] returns,
    nothing more is buffered, they are at most the bytes asked for, the error is that of the
    last answer, and without one the read is complete (unless that answer was empty). *)
Theorem async_read_delivers `{!AsyncExternalOk} `{ErrorText} `{CovVar} `{NetworkConfig} `{CovNumber} (plat : platform)
  (past rqs : list request) (rq : request) (p : process) (w : UdpSocket.UW)
  (i t : nat) (requested : number) (n : Z) (m : machine)
  (Hn : checked_io_buffer_size requested = Ok n) (Hint : (n < 2 ^ 31)%Z) :
  let s0 := run_requests plat past (initial_system p w) in
  let s1 := set_io m s0 in
  let before := run_requests plat rqs s1 in
  let after := perform plat rq before in
  escaped (env (io s0)) = None -> async_read i requested (io s0) = (Ok t, m) ->
  (forall k, state_done t (run_requests plat (take k rqs) s1) = false) -> state_done t after = true ->
  exists evs r x, history (step plat) m evs (io after) /\ last (answers_to t evs) = Some r /\
    states (env (io after)) !! t = Some x /\
    (get_result x).1 = Ok (Some (answers t evs)) /\ Streambuf.data (buffer (get_result x).2) = [] /\
    length (answers t evs) <= Z.to_nat n /\ ec x = res_ec r /\
    (ec x = None -> length (answers t evs) = Z.to_nat n \/ res_bytes r = []).
Proof.
  intros s0 s1 before after Hesc Hread Hnot Hdone. assert (Z.of_nat (Z.to_nat n) < 2 ^ 31)%Z as Hint' by lia.
  assert (sys_ok s0) as Hs0 by apply run_requests_ok, initial_ok.
  assert (sys_ok s1) as Hs1.
  { destruct Hs0 as [Hr Hg]. destruct (async_read_starts i requested (io s0) Hr) as [Hr1 Hg1].
    rewrite Hread in Hr1, Hg1. split; [done|]. cbn in *. by rewrite Hg1. }
  assert (reading t (Z.to_nat n) [] (io s1)) as Hm.
  { eapply async_read_reads; [done| |exact Hread]. intros t' Ht'.
    destruct Hs0 as [[[Hx|[_ _ _ Hst]] _] _]; [rewrite Hesc in Hx; by destruct Hx|].
    specialize (Hst t'). rewrite Ht' in Hst. unfold mine. apply cnt_none_filter. exact Hst. }
  destruct (reading_requests plat t _ [] rqs s1 Hint' Hs1 Hm Hnot) as (evs1 & Hh1 & Hr1).
  destruct (reading_request plat t _ _ rq before Hint' (run_requests_ok plat rqs s1 Hs1) Hr1)
    as (evs2 & Hh2 & [Hr2|(r & Hl & Hd)]).
  { pose proof (reading_done _ _ _ _ Hr2) as Hd2. fold after in Hd2. congruence. }
  destruct (delivered_result _ _ _ _ _ Hint' Hd) as (x & Hx & Hec & Hg & Hb).
  rewrite app_nil_l, <- answers_app in *. exists (evs1 ++ evs2), r, x.
  split_and!; [by eapply history_app|by rewrite answers_to_app, last_app, Hl|done|done|done|apply Hd|done|].
  intros He. apply Hd. congruence.
Qed.
End delivery.

(** ** A concrete read

    The reactor of [EventLoop] answers two bytes at a time. *)
Import TrustStore.

Definition lab_past : list lab_request := take 3 lab_program.
Definition lab_process : @process host_trust := @Process host_trust (Host lab_files []) None unset_report.
Abbreviation lab_run_requests := (@run_requests host_trust TcpSocket.loopback UdpSocket.udp_toy lab_async plain_error_text
  script_var default_config int_number linux).
Abbreviation lab_connected :=
  (lab_run_requests lab_past (@initial_system host_trust TcpSocket.loopback UdpSocket.udp_toy lab_async lab_process 0)).
Definition lab_read :=
  @async_read host_trust TcpSocket.loopback UdpSocket.udp_toy lab_async plain_error_text
    default_config int_number 0 3%Z (io lab_connected).
Definition lab_reading : machine := lab_read.2.
Definition lab_restart : lab_request :=
  @Restart host_trust TcpSocket.loopback UdpSocket.udp_toy TlsOptions.script_var FixedHex.int_number.
Definition lab_poll_once : lab_request :=
  @PollOnce host_trust TcpSocket.loopback UdpSocket.udp_toy TlsOptions.script_var FixedHex.int_number.
Definition lab_poll : lab_request :=
  @Poll host_trust TcpSocket.loopback UdpSocket.udp_toy TlsOptions.script_var FixedHex.int_number 9.

Lemma lab_read_starts : lab_read = (Ok 1, lab_reading).
Proof.
  assert (lab_read.1 = Ok 1) as Hr by (vm_compute; reflexivity).
  unfold lab_reading. by destruct lab_read as [r m]; cbn in Hr; subst r.
Qed.

Lemma async_read_delivers_witness :
  let after := @perform host_trust TcpSocket.loopback UdpSocket.udp_toy lab_async plain_error_text script_var
    default_config int_number linux lab_poll
      (lab_run_requests [lab_restart; lab_poll_once] (set_io lab_reading lab_connected)) in
  exists evs r x, last (answers_to 1 evs) = Some r /\ states (env (io after)) !! 1 = Some x /\
    (get_result x).1 = Ok (Some (answers 1 evs)).
Proof.
  destruct (@async_read_delivers host_trust TcpSocket.loopback UdpSocket.udp_toy lab_async lab_async_ok
    plain_error_text script_var default_config int_number linux
    lab_past [lab_restart; lab_poll_once] lab_poll lab_process 0 0 1 3%Z 3%Z lab_reading)
    as (evs & r & x & _ & Hl & Hx & Hg & _).
  - reflexivity.
  - reflexivity.
  - vm_compute. reflexivity.
  - exact lab_read_starts.
  - intros k. do 3 (destruct k as [|k]; [vm_compute; reflexivity|]). vm_compute. reflexivity.
  - vm_compute. reflexivity.
  - exists evs, r, x. split; [exact Hl|]. split; [exact Hx|exact Hg].
Defined.
