(* ===== verification/Shutdown.v ===== *)
(** * Closing cooperatively: [tcp::socket::safe_shutdown] and [udp::socket::safe_close]
    of [network.cpp]

    [safe_shutdown] reserves the socket without a job ([Draining]), cancels what is pending,
    polls until it is gone, shuts TLS down asynchronously under a timer, then shuts and
    closes the transport; the reservation ends with the call ([exclusive_guard]).  Each turn
    of its loops reads the clock, polls, and yields to other fibers; a list of rounds stands
    for those readings and for what the other fibers did. *)
From S2P Require Import Prelude FixedHex Endpoint TlsOptions TrustStore Atomics Admission Reservations.
From S2P Require Import AsyncState AsyncOps AsyncSafety AsyncStart EventLoop.
From S2P Require Streambuf ReadUntil Transfer TcpSocket UdpSocket Scheduler.
Import TcpSocket (SocketExternal, tcp_socket, tcp_wf, tcp_atoms, keeps, raw).
Import UdpSocket (UdpExternal, udp_socket, udp_atoms).
Import Scheduler (Reactor, machine, Machine, env, sched, outstanding_work_).
Open Scope nat_scope.

Section shutdown.
  Context `{T : TrustExternal} {N : SocketExternal T} {U : UdpExternal} {X : AsyncExternal}.
  Context {ET : ErrorText} {NC : NetworkConfig}.
  #[local] Existing Instance async_reactor.
  #[local] Abbreviation machine := (@Scheduler.machine async_reactor).
  #[local] Abbreviation system := (@system T N U X).
  #[local] Abbreviation wait_round := (@wait_round T N U X).

(** ** Observing a socket *)

Definition tcp_is_open (i : nat) (s : system) : bool :=
  match tcps (env (io s)) !! i with
  | Some sk => TcpSocket.raw_is_open (TcpSocket.sock sk) (world (proc (env (io s))))
  | None => false
  end.
Definition tcp_jobs (i : nat) (s : system) : Z :=
  match tcps (env (io s)) !! i with Some sk => async_jobs (tcp_atoms sk) | None => 0%Z end.

(** Running a function of the machine inside the system. *)
Definition run_io {A} (f : M machine A) (s : system) : res A * system :=
  let '(r, m) := f (io s) in (r, set_io m s).

(** ** The reservation of [safe_shutdown] *)

(** [begin_draining_exclusive()]; the socket is on record while the guard lives. *)
Definition drain_begin (i : nat) : M machine unit :=
  tcp_run i Tcp.begin_draining ;;;
  modify (on_env (fun e => set_draining (TcpSock i :: draining e) e)).

Fixpoint remove_one (x : sock_ref) (l : list sock_ref) : list sock_ref :=
  match l with
  | [] => []
  | y :: l => if decide (x = y) then l else y :: remove_one x l
  end.

(** The destructor of [exclusive_guard]. *)
Definition drain_end (i : nat) (s : system) : system :=
  on_io (fun m => on_env (fun e => set_draining (remove_one (TcpSock i) (draining e)) e)
                    (effect (tcp_run i Tcp.end_draining) m)) s.

(** ** The loops *)

(** [while (async_jobs > 0) { if (now >= deadline) break; poll(); yield; }]: whether the
    jobs were gone. *)
Fixpoint drain_jobs (fuel : nat) (rounds : list wait_round) (i : nat) (s : system) : option bool * system :=
  if negb (0 <? tcp_jobs i s)%Z then (Some true, s)
  else
    match rounds with
    | [] => (None, s)
    | r :: rounds =>
        if (NETWORK_SAFE_SHUTDOWN_TIMEOUT_MS <=? now r)%Z then (Some false, s)
        else
          match settings_poll fuel s with
          | (None, s) => (None, s)
          | (Some _, s) => drain_jobs fuel rounds i (others r s)
          end
    end.

(** [while (!state->done) { poll(); yield; }]: it has no deadline of its own. *)
Fixpoint await_tls (fuel : nat) (rounds : list wait_round) (sd : nat) (s : system) : bool * system :=
  if shutdown_is_done sd (io s) then (true, s)
  else
    match rounds with
    | [] => (false, s)
    | r :: rounds =>
        match settings_poll fuel s with
        | (None, s) => (false, s)
        | (Some _, s) => await_tls fuel rounds sd (others r s)
        end
    end.

(** ** The TLS phase *)

(** [async_shutdown] and the timer; whether both could be started. *)
Definition start_tls_shutdown (i sd : nat) (m : machine) : bool * machine :=
  match (tcp_member i TcpSocket.get_tls_raw ;;; launch (OpTlsShutdown i sd) OnStream) m with
  | (Throw _, m) =>
      (false, update_shutdown sd set_sd_done (on_process (timer_cancel sd) m))
  | (Ok _, m) =>
      match launch (OpTimer i sd) OnStream m with
      | (Ok _, m) => (true, m)
      | (Throw _, m) =>
          let m := on_process (timer_cancel sd) m in
          let m := on_process (signal_emit sd) m in
          let '(_, m) := raw_call i raw_cancel m in
          let '(_, m) := raw_call i raw_close_ec m in (false, m)
      end
  end.

Definition shutdown_failed (sd : nat) (m : machine) : bool :=
  match shutdowns (env m) !! sd with
  | Some x => sd_timed_out x || (ec_set (sd_ec x) && negb (ec_is (sd_ec x) eof))
  | None => false
  end.

Definition new_shutdown (m : machine) : nat * machine :=
  let sd := fresh (dom (shutdowns (env m))) in
  (sd, on_env (fun e => set_shutdowns (<[sd := TlsShutdownState None false false]> (shutdowns e)) e) m).

Definition tls_phase (fuel : nat) (rounds : list wait_round) (i : nat) (s : system) : option bool * system :=
  match run_io (tcp_member i TcpSocket.is_ssl) s with
  | (Ok true, s) =>
      let '(sd, m) := new_shutdown (io s) in
      let '(started, m) := start_tls_shutdown i sd m in
      match await_tls fuel rounds sd (set_io m s) with
      | (false, s) => (None, s)
      | (true, s) =>
          let success := started && negb (shutdown_failed sd (io s)) in
          (Some success, on_io (effect (tcp_member i TcpSocket.reset_ssl)) s)
      end
  | (_, s) => (Some true, s)
  end.

(** ** Closing the transport *)

Definition raw_shutdown_both (i : nat) (m : machine) : error_code * machine :=
  raw_call i (fun r p =>
    let '(e, w) := TcpSocket.raw_shutdown r (world p) in
    (e, Process w (env_cache p) (last_tls_trust_report_slot p))) m.

Definition close_phase (i : nat) (s : system) : bool * system :=
  let '(ok1, s) :=
    if tcp_is_open i s then
      let '(e, m) := raw_shutdown_both i (io s) in
      (negb (ec_set e && negb (ec_is e not_connected)), set_io m s)
    else (true, s) in
  if tcp_is_open i s then
    let '(e, m) := raw_call i raw_close_ec (io s) in (ok1 && negb (ec_set e), set_io m s)
  else (ok1, s).

(** ** [safe_shutdown] *)

(** With the reservation held. *)
Definition shutdown_reserved (fuel : nat) (drain_rounds tls_rounds : list wait_round) (i : nat) (s : system)
    : option bool * system :=
  let s := async_restart s in
  let s := on_io (fun m => (raw_call i raw_cancel m).2) s in
  match drain_jobs fuel drain_rounds i s with
  | (None, s) => (None, s)
  | (Some false, s) => (Some false, s)
  | (Some true, s) =>
      match tls_phase fuel tls_rounds i s with
      | (None, s) => (None, s)
      | (Some tls_ok, s) => let '(ok, s) := close_phase i s in (Some (tls_ok && ok), s)
      end
  end.

Definition release_after (i : nat) (r : option bool * system) : option bool * system :=
  match r with
  | (Some b, s) => (Some b, drain_end i s)
  | (None, s) => (None, s)
  end.

(** [None]: a loop does not end within the rounds, or a poll within the fuel. *)
Definition safe_shutdown (fuel : nat) (retry_rounds drain_rounds tls_rounds : list wait_round) (i : nat)
    (s : system) : option bool * system :=
  if negb (tcp_is_open i s) then (Some true, s)
  else
    match run_io (drain_begin i) s with
    | (Ok _, s) => release_after i (shutdown_reserved fuel drain_rounds tls_rounds i s)
    | (Throw _, s) =>
        let s := on_io (fun m => (raw_call i raw_cancel m).2) s in
        let s := async_restart s in
        match drain_jobs fuel retry_rounds i s with
        | (None, s) => (None, s)
        | (Some _, s) =>
            match run_io (drain_begin i) s with
            | (Ok _, s) => release_after i (shutdown_reserved fuel drain_rounds tls_rounds i s)
            | (Throw _, s) => (Some false, s)
            end
        end
    end.

(** ** [safe_close] of a UDP socket *)

Definition udp_is_open (i : nat) (s : system) : bool :=
  match udps (env (io s)) !! i with
  | Some sk => UdpSocket.udp_raw_is_open (UdpSocket.udp_sock sk) (uworld (env (io s)))
  | None => false
  end.
Definition udp_jobs (i : nat) (s : system) : Z :=
  match udps (env (io s)) !! i with Some sk => async_jobs (udp_atoms sk) | None => 0%Z end.

(** The inner loop. *)
Fixpoint udp_drain (fuel : nat) (rounds : list wait_round) (i : nat) (s : system) : option unit * system :=
  if negb (0 <? udp_jobs i s)%Z then (Some tt, s)
  else
    match rounds with
    | [] => (None, s)
    | r :: rounds =>
        if (NETWORK_SAFE_SHUTDOWN_TIMEOUT_MS <=? now r)%Z then (Some tt, s)
        else
          match settings_poll fuel s with
          | (None, s) => (None, s)
          | (Some _, s) => udp_drain fuel rounds i (others r s)
          end
    end.

(** The outer loop: the readings of the clock, each with the rounds of the inner loop. *)
Fixpoint udp_drain_until (fuel : nat) (turns : list (Z * list wait_round)) (i : nat) (s : system)
    : option unit * system :=
  match turns with
  | [] => (None, s)
  | (now, rounds) :: turns =>
      if negb (now <? NETWORK_SAFE_SHUTDOWN_TIMEOUT_MS)%Z then (Some tt, s)
      else
        match udp_drain fuel rounds i s with
        | (None, s) => (None, s)
        | (Some _, s) => if (udp_jobs i s =? 0)%Z then (Some tt, s) else udp_drain_until fuel turns i s
        end
  end.

Definition safe_close (fuel : nat) (turns : list (Z * list wait_round)) (i : nat) (s : system)
    : option bool * system :=
  if negb (udp_is_open i s) then (Some true, s)
  else
    match udp_drain_until fuel turns i s with
    | (None, s) => (None, s)
    | (Some _, s) =>
        if (0 <? udp_jobs i s)%Z then (Some false, s)
        else
          match run_io (udp_member i UdpSocket.udp_close) s with
          | (Ok _, s) => (Some true, s)
          | (Throw _, s) => (Some false, s)
          end
    end.

(** ** What the steps keep *)

Context {AOK : AsyncExternalOk}.

(** At rest before and after, with the same guards and the same sockets drained. *)
Definition steady (f : machine -> machine) : Prop := forall m, at_rest m ->
  at_rest (f m) /\ guards (env (f m)) = guards (env m) /\ draining (env (f m)) = draining (env m).

Lemma steady_benign f : benign f -> steady f.
Proof.
  intros Hf m Hm. destruct (Hf m) as [Hs Hg]. destruct (at_rest_at m Hm) as [_ _ Hid Hgood].
  split_and!; [|apply Hs|apply Hs]. split; [|by eapply idle_stays].
  unfold async_inv. rewrite (stays_pending _ _ Hs), (st_draining _ _ Hs). by apply Hg.
Qed.
Lemma steady_comp f g : steady f -> steady g -> steady (fun m => g (f m)).
Proof.
  intros Hf Hg m Hm. destruct (Hf m Hm) as (H1 & H2 & H3), (Hg (f m) H1) as (H4 & H5 & H6).
  split_and!; [done|congruence|congruence].
Qed.
Lemma steady_silent {A} (f : M machine A) : silent f -> steady (fun m => (f m).2).
Proof. apply steady_benign. Qed.
Lemma steady_raw i f : steady (fun m => (raw_call i f m).2).
Proof. apply steady_benign, benign_raw. Qed.
Lemma steady_process f : steady (on_process f).
Proof. apply steady_benign, benign_process. Qed.
Lemma steady_update sd f : steady (update_shutdown sd f).
Proof. apply steady_benign, benign_shutdown. Qed.

(** An operation without a reservation. *)
Lemma steady_launch o on : op_key o = None -> op_state o = None -> steady (fun m => (launch o on m).2).
Proof.
  intros Hk Ht m Hm. unfold launch. destruct (initiate o on (proc (env m))) as [[u|e] p]; cbn [snd].
  - destruct (steady_benign _ (benign_proc p) m Hm) as (Hr & Hg & Hd). split_and!; [|done|done].
    pose proof (at_rest_at _ Hr) as Ha. eapply register_rest. rewrite Hk, Ht. exact Ha.
  - apply (steady_benign _ (benign_proc p) m Hm).
Qed.

Lemma steady_new : steady (fun m => (new_shutdown m).2).
Proof.
  apply steady_benign. intros m. split; [by apply stays_env|]. intros R S. apply good_mono; [by apply stays_env|].
  intros []. by split.
Qed.

Lemma steady_start i sd : steady (fun m => (start_tls_shutdown i sd m).2).
Proof.
  intros m Hm. unfold start_tls_shutdown, bind.
  pose proof (steady_silent _ (silent_member i _ TcpSocket.keeps_get_tls_raw) m Hm) as (H1 & G1 & D1).
  destruct (tcp_member i TcpSocket.get_tls_raw m) as [[x|e] m1]; cbn in *.
  2: { destruct (steady_comp _ _ (steady_process (timer_cancel sd)) (steady_update sd set_sd_done) m1 H1)
         as (H2 & G2 & D2). split_and!; [done|congruence..]. }
  pose proof (steady_launch (OpTlsShutdown i sd) OnStream eq_refl eq_refl m1 H1) as (H2 & G2 & D2).
  destruct (launch (OpTlsShutdown i sd) OnStream m1) as [[y|e] m2]; cbn in *.
  2: { destruct (steady_comp _ _ (steady_process (timer_cancel sd)) (steady_update sd set_sd_done) m2 H2)
         as (H3 & G3 & D3). split_and!; [done|congruence..]. }
  pose proof (steady_launch (OpTimer i sd) OnStream eq_refl eq_refl m2 H2) as (H3 & G3 & D3).
  destruct (launch (OpTimer i sd) OnStream m2) as [[z|e] m3]; cbn in *.
  { split_and!; [done|congruence..]. }
  destruct (steady_comp _ _ (steady_process (timer_cancel sd)) (steady_process (signal_emit sd)) m3 H3) as (H4 & G4 & D4).
  cbv beta in H4, G4, D4. set (m4 := on_process (signal_emit sd) (on_process (timer_cancel sd) m3)) in *.
  destruct (steady_comp _ _ (steady_raw i raw_cancel) (steady_raw i raw_close_ec) m4 H4) as (H5 & G5 & D5).
  cbv beta in H5, G5, D5. destruct (raw_call i raw_cancel m4) as [e4 m5]; cbn [snd] in *.
  destruct (raw_call i raw_close_ec m5) as [e5 m6]; cbn [snd] in *. split_and!; [done|congruence..].
Qed.

(** [k] shutdowns hold the socket [i]. *)
Record held (i k : nat) (s : system) : Prop := {
  hd_ok : sys_ok s;
  hd_count : cnt (TcpSock i) (draining (env (io s))) = k;
}.

(** What a fiber may do meanwhile. *)
Definition fair (i : nat) (r : wait_round) : Prop := forall k s, held i k s -> held i k (others r s).

Lemma held_io i k f s : steady f -> held i k s -> held i k (on_io f s).
Proof.
  intros Hf [[Hr Hw] Hc]. destruct (Hf _ Hr) as (Hr1 & Hg & Hd).
  split; [split; [done|cbn; by rewrite Hg]|cbn; by rewrite Hd].
Qed.
Lemma held_run_io {A} i k (f : M machine A) s : steady (fun m => (f m).2) -> held i k s -> held i k (run_io f s).2.
Proof. intros Hf Hs. pose proof (held_io i k _ s Hf Hs) as Hq. unfold run_io, on_io in *. by destruct (f (io s)). Qed.

Lemma complete_draining o m : draining (env (complete o m)) = draining (env m).
Proof.
  destruct o as [o r]. by destruct (complete_spec o r m) as [[[_ _ _ _ Hg _] _]|(o' & m1 & -> & _ & _ & [_ _ _ _ Hg _] & _)].
Qed.
Lemma held_poll i k fuel s : held i k s -> held i k (settings_poll fuel s).2.
Proof.
  intros [Hs Hc]. split; [by apply poll_system|]. unfold settings_poll.
  destruct (thread_executors s =? 0)%Z; [|done]. cbn.
  pose proof (Scheduler.poll_env (R := async_reactor) complete
    (fun x => draining x = draining (env (io s)))) as Hq.
  specialize (Hq ltac:(intros usec x; cbn; by destruct (reactor_run usec (proc x) (inflight x)) as [[? ?] ?])
    ltac:(intros o m <-; apply complete_draining) fuel (io s) eq_refl).
  destruct (Scheduler.poll _ fuel (io s)) as [n m]. cbn in *. by rewrite Hq.
Qed.
Lemma held_restart i k s : held i k s -> held i k (async_restart s).
Proof.
  intros [Hs Hc]. split; [by apply restart_ok|]. unfold async_restart. by destruct (_ && _).
Qed.

Lemma held_drain i k fuel rounds j s : Forall (fair i) rounds -> held i k s ->
  held i k (drain_jobs fuel rounds j s).2.
Proof.
  intros Hf. revert s. induction Hf as [|r rounds Hr Hf IH]; intros s Hs; cbn; destruct (negb _); try done.
  destruct (_ <=? _)%Z; [done|]. pose proof (held_poll i k fuel s Hs) as Hp.
  destruct (settings_poll fuel s) as [[n|] s1]; [|done]. by apply IH, Hr.
Qed.
Lemma held_await i k fuel rounds sd s : Forall (fair i) rounds -> held i k s ->
  held i k (await_tls fuel rounds sd s).2.
Proof.
  intros Hf. revert s. induction Hf as [|r rounds Hr Hf IH]; intros s Hs; cbn; destruct (shutdown_is_done _ _); try done.
  pose proof (held_poll i k fuel s Hs) as Hp. destruct (settings_poll fuel s) as [[n|] s1]; [|done]. by apply IH, Hr.
Qed.

Lemma held_tls i k fuel rounds s : Forall (fair i) rounds -> held i k s -> held i k (tls_phase fuel rounds i s).2.
Proof.
  intros Hf Hs. unfold tls_phase.
  pose proof (held_run_io i k _ s (steady_silent _ (silent_member i _ TcpSocket.keeps_is_ssl)) Hs) as H1.
  destruct (run_io (tcp_member i TcpSocket.is_ssl) s) as [[[]|e] s1]; cbn in H1; [|done..].
  pose proof (held_io i k _ s1 (steady_comp _ _ steady_new (steady_start i (new_shutdown (io s1)).1)) H1) as H2.
  unfold on_io in H2. cbv beta in H2. destruct (new_shutdown (io s1)) as [sd m1]; cbn [fst snd] in H2.
  destruct (start_tls_shutdown i sd m1) as [started m2]; cbn [snd] in H2.
  pose proof (held_await i k fuel rounds sd _ Hf H2) as H3.
  destruct (await_tls fuel rounds sd (set_io m2 s1)) as [[] s3]; [|done].
  apply held_io; [|done]. apply (steady_silent (tcp_member i TcpSocket.reset_ssl)), silent_member, TcpSocket.keeps_clear.
Qed.

Lemma held_close i k s : held i k s -> held i k (close_phase i s).2.
Proof.
  intros Hs. unfold close_phase.
  assert (forall f s0, held i k s0 -> held i k (set_io (raw_call i f (io s0)).2 s0)) as Hraw.
  { intros f s0. apply (held_io i k (fun m => (raw_call i f m).2)), steady_raw. }
  assert (forall b s1, held i k s1 ->
    held i k (if tcp_is_open i s1 then
      let '(e, m) := raw_call i raw_close_ec (io s1) in (b && negb (ec_set e), set_io m s1) else (b, s1)).2) as Hlast.
  { intros b s1 H1. destruct (tcp_is_open i s1); [|done]. pose proof (Hraw raw_close_ec s1 H1) as H2.
    by destruct (raw_call i raw_close_ec (io s1)). }
  destruct (tcp_is_open i s); [|by apply Hlast].
  unfold raw_shutdown_both. set (f := fun r p => _). pose proof (Hraw f s Hs) as H1.
  destruct (raw_call i f (io s)) as [e m]. by apply Hlast.
Qed.

Lemma held_reserved i k fuel r1 r2 s : Forall (fair i) r1 -> Forall (fair i) r2 -> held i k s ->
  held i k (shutdown_reserved fuel r1 r2 i s).2.
Proof.
  intros Hf1 Hf2 Hs. unfold shutdown_reserved.
  set (s1 := on_io _ (async_restart s)).
  assert (held i k s1) as H1 by (apply held_io; [apply steady_raw|by apply held_restart]).
  pose proof (held_drain i k fuel r1 i s1 Hf1 H1) as H2.
  destruct (drain_jobs fuel r1 i s1) as [[[]|] s2]; [|done..].
  pose proof (held_tls i k fuel r2 s2 Hf2 H2) as H3. destruct (tls_phase fuel r2 i s2) as [[b|] s3]; [|done].
  pose proof (held_close i k s3 H3) as H4. by destruct (close_phase i s3).
Qed.

(** ** Taking and releasing the reservation *)

Lemma remove_one_perm x l : x ∈ l -> l ≡ₚ x :: remove_one x l.
Proof.
  induction l as [|y l IH]; [by intros ?%elem_of_nil|]. intros Hx. cbn. destruct (decide (x = y)) as [->|Hne]; [done|].
  apply elem_of_cons in Hx as [Hx|Hx]; [done|]. rewrite (IH Hx) at 1. apply Permutation_swap.
Qed.
Lemma cnt_elem {A} `{EqDecision A} (x : A) l : 0 < cnt x l -> x ∈ l.
Proof.
  unfold cnt. destruct (filter (x =.) l) as [|y k] eqn:E; cbn; [lia|]. intros _.
  assert (y ∈ filter (x =.) l) as Hy by (rewrite E; by left). by apply list_elem_of_filter in Hy as [-> ?].
Qed.

(** Putting a socket on record, and taking it off. *)
Lemma inv_draining D m : good (keys D (pending m)) (ids (pending m)) m ->
  async_inv (on_env (fun e => set_draining D e) m).
Proof.
  intros Hg. unfold async_inv.
  change (pending (on_env (fun e => set_draining D e) m)) with (pending m). cbn [env on_env Scheduler.set_env draining set_draining].
  destruct Hg as [Hx|[]]; [by left|right]. by split.
Qed.

Lemma drain_begin_held i k s : held i k s ->
  match run_io (drain_begin i) s with
  | (Ok _, s') => held i (S k) s'
  | (Throw _, s') => held i k s'
  end.
Proof.
  intros [[Hr Hw] Hc]. pose proof (at_rest_at _ Hr) as Ha. unfold run_io, drain_begin, bind.
  pose proof (tcp_begin_triple _ _ _ _ i Draining Tcp.begin_draining (reserves_draining _) _ Ha) as Hq.
  pose proof (tcp_run_stays i Tcp.begin_draining (io s)) as Hst.
  destruct (tcp_run i Tcp.begin_draining (io s)) as [[u|e] m1]; cbn in *.
  - destruct Hq as [Hp Hd Hid Hg]. split.
    + split; cbn; [|by rewrite (st_guards _ _ Hst)]. split; [|destruct Hid; by split].
      apply (inv_draining (TcpSock i :: draining (env m1))). by rewrite Hp, Hd.
    + cbn. by rewrite Hd, cnt_cons, decide_True, Hc.
  - split; [|cbn; by rewrite (st_draining _ _ Hst)]. split; cbn; [by eapply resting_rest|by rewrite (st_guards _ _ Hst)].
Qed.

Lemma drain_end_held i k s : held i (S k) s -> held i k (drain_end i s).
Proof.
  intros [[Hr Hw] Hc]. pose proof (at_rest_at _ Hr) as [Hp Hd Hid Hg]. unfold drain_end, on_io.
  assert (TcpSock i ∈ draining (env (io s))) as Hin by (apply cnt_elem; lia).
  pose proof (remove_one_perm _ _ Hin) as Hperm.
  pose proof (tcp_run_stays i Tcp.end_draining (io s)) as Hst. fold (effect (tcp_run i Tcp.end_draining) (io s)) in Hst.
  set (m1 := effect (tcp_run i Tcp.end_draining) (io s)) in *.
  assert (good (keys (remove_one (TcpSock i) (draining (env (io s)))) (pending (io s))) (ids (pending (io s))) m1) as Hg1.
  { apply (tcp_end_ok _ _ i Draining); [apply end_draining_run|]. revert Hg. apply good_perm; [|done].
    unfold keys. rewrite Hperm at 1. done. }
  clearbody m1.
  split; cbn.
  - split; cbn; [|by rewrite (st_guards _ _ Hst)]. split.
    + apply (inv_draining (remove_one (TcpSock i) (draining (env m1)))).
      by rewrite (stays_pending _ _ Hst), (st_draining _ _ Hst).
    + destruct (idle_stays _ _ Hst Hid). by split.
  - rewrite (st_draining _ _ Hst). rewrite (cnt_perm _ _ _ Hperm), cnt_cons, decide_True in Hc by done. lia.
Qed.

(** ** A shutdown on a stopped loop *)

(** What decides whether the handler of [async_shutdown] can run. *)
Definition frozen (sd : nat) (m m' : machine) : Prop :=
  shutdown_is_done sd m' = shutdown_is_done sd m /\ Scheduler.stopped m' = Scheduler.stopped m.

Lemma frozen_trans sd m1 m2 m3 : frozen sd m1 m2 -> frozen sd m2 m3 -> frozen sd m1 m3.
Proof. intros [] []. split; congruence. Qed.
Lemma frozen_launch sd o on m : frozen sd m (launch o on m).2.
Proof. unfold launch. by destruct (initiate o on (proc (env m))) as [[u|e] p]. Qed.
Lemma frozen_raw sd i f m : frozen sd m (raw_call i f m).2.
Proof. unfold raw_call. destruct (tcps (env m) !! i); [|done]. by destruct (f _ _). Qed.
Lemma frozen_process sd f m : frozen sd m (on_process f m).
Proof. done. Qed.
Lemma frozen_member {A} sd i (f : M TcpSocket.tcp_state A) m : frozen sd m (tcp_member i f m).2.
Proof. unfold tcp_member. destruct (tcps (env m) !! i); [|done]. by destruct (f _). Qed.

(** With a TLS stream, and an [async_shutdown] that can be started. *)
Definition tls_ready (i : nat) (m : machine) : Prop :=
  (exists sk st, tcps (env m) !! i = Some sk /\ tls_enabled (tcp_atoms sk) = true /\ TcpSocket.tls_stream sk = Some st) /\
  forall sd p, exists p', initiate (OpTlsShutdown i sd) OnStream p = (Ok tt, p').

Definition has_stream (i : nat) (m : machine) : bool :=
  match tcps (env m) !! i with
  | Some sk => tls_enabled (tcp_atoms sk) && match TcpSocket.tls_stream sk with Some _ => true | None => false end
  | None => false
  end.
Lemma tls_ready_intro i m : has_stream i m = true ->
  (forall sd p, exists p', initiate (OpTlsShutdown i sd) OnStream p = (Ok tt, p')) -> tls_ready i m.
Proof.
  unfold has_stream. intros Hs Hini. split; [|done]. destruct (tcps (env m) !! i) as [sk|]; [|done].
  apply andb_true_iff in Hs as [Ht Hs]. destruct (TcpSocket.tls_stream sk) as [st|] eqn:E; [|done]. by exists sk, st.
Qed.

Lemma get_tls_ready i m : tls_ready i m -> exists st, (tcp_member i TcpSocket.get_tls_raw m).1 = Ok st.
Proof.
  intros [(sk & st & Hi & _ & Hs) _]. exists st. unfold tcp_member. rewrite Hi.
  unfold TcpSocket.get_tls_raw. cbn. by rewrite Hs.
Qed.

Lemma start_frozen i sd m : tls_ready i m -> frozen sd m (start_tls_shutdown i sd m).2.
Proof.
  intros Hr. unfold start_tls_shutdown, bind. destruct (get_tls_ready i m Hr) as [st Hst].
  pose proof (frozen_member sd i TcpSocket.get_tls_raw m) as H1.
  destruct (tcp_member i TcpSocket.get_tls_raw m) as [r m1]; cbn in *. subst r.
  destruct Hr as [_ Hini]. destruct (Hini sd (proc (env m1))) as [p' Hp'].
  pose proof (frozen_launch sd (OpTlsShutdown i sd) OnStream m1) as H2. unfold launch at 1. unfold launch in H2.
  rewrite Hp' in *. cbn [snd] in H2. set (m2 := register _ _) in *.
  pose proof (frozen_trans _ _ _ _ H1 H2) as H3. clearbody m2.
  pose proof (frozen_launch sd (OpTimer i sd) OnStream m2) as H4.
  destruct (launch (OpTimer i sd) OnStream m2) as [[z|e] m3]; cbn [snd] in *; [by eapply frozen_trans|].
  set (m4 := on_process (signal_emit sd) (on_process (timer_cancel sd) m3)).
  assert (frozen sd m3 m4) as H5 by done.
  pose proof (frozen_raw sd i raw_cancel m4) as H6. destruct (raw_call i raw_cancel m4) as [e4 m5]; cbn [snd] in *.
  pose proof (frozen_raw sd i raw_close_ec m5) as H7. destruct (raw_call i raw_close_ec m5) as [e5 m6]; cbn [snd] in *.
  eauto using frozen_trans.
Qed.

Lemma await_stuck fuel rounds sd s : async_stopped s = true -> shutdown_is_done sd (io s) = false ->
  (forall r, r ∈ rounds -> others r s = s) -> await_tls (S fuel) rounds sd s = (false, s).
Proof.
  intros Hstop Hnot. induction rounds as [|r rounds IH]; intros Halone; cbn [await_tls]; rewrite Hnot; [done|].
  rewrite settings_poll_stopped by done. rewrite Halone by (by left). apply IH. intros r' Hr. apply Halone. by right.
Qed.

(** Fibers that leave the program alone. *)
Definition alone (r : wait_round) : Prop := forall s, others r s = s.

Lemma tls_stuck fuel rounds i s : async_stopped s = true -> tls_ready i (io s) -> Forall alone rounds ->
  (tls_phase (S fuel) rounds i s).1 = None.
Proof.
  intros Hstop Hr Halone. unfold tls_phase, run_io.
  assert (exists m1, tcp_member i TcpSocket.is_ssl (io s) = (Ok true, m1) /\ tls_ready i m1 /\
    Scheduler.stopped m1 = true) as (m1 & -> & Hr1 & Hs1).
  { destruct Hr as [(sk & st & Hi & Ht & Hs) Hini]. unfold tcp_member. rewrite Hi. unfold TcpSocket.is_ssl. cbn. rewrite Ht.
    eexists. split; [done|]. split; [split; [|done]|exact Hstop]. cbn. rewrite lookup_insert_eq.
    by eexists _, st. }
  unfold new_shutdown. cbn [io set_io]. set (sd := fresh _). set (m2 := on_env _ m1).
  assert (shutdown_is_done sd m2 = false) as Hnot.
  { unfold shutdown_is_done, m2; cbn. by rewrite lookup_insert_eq. }
  assert (tls_ready i m2) as Hr2 by exact Hr1. assert (Scheduler.stopped m2 = true) as Hs2 by exact Hs1.
  clearbody m2. destruct (start_frozen i sd m2 Hr2) as [H1 H2].
  destruct (start_tls_shutdown i sd m2) as [started m3]; cbn [snd] in *.
  rewrite await_stuck; [done|by unfold async_stopped; cbn; rewrite H2|by cbn; rewrite H1|].
  intros r Hin. rewrite Forall_forall in Halone. by apply Halone.
Qed.

(** ** [safe_close] *)

Definition sound (r : wait_round) : Prop := forall s, sys_ok s -> sys_ok (others r s).

Lemma udp_drain_ok fuel rounds i s : Forall sound rounds -> sys_ok s -> sys_ok (udp_drain fuel rounds i s).2.
Proof.
  intros Hf. revert s. induction Hf as [|r rounds Hr Hf IH]; intros s Hs; cbn; destruct (negb _); try done.
  destruct (_ <=? _)%Z; [done|]. pose proof (poll_system fuel s Hs) as Hp.
  destruct (settings_poll fuel s) as [[n|] s1]; [|done]. by apply IH, Hr.
Qed.
Lemma udp_drain_until_ok fuel turns i s : Forall (fun t => Forall sound t.2) turns -> sys_ok s ->
  sys_ok (udp_drain_until fuel turns i s).2.
Proof.
  intros Hf. revert s. induction Hf as [|[n rounds] turns Hr Hf IH]; intros s Hs; cbn; [done|].
  destruct (negb _); [done|]. pose proof (udp_drain_ok fuel rounds i s Hr Hs) as Hp.
  destruct (udp_drain fuel rounds i s) as [[u|] s1]; [|done]. destruct (udp_jobs i s1 =? 0)%Z; [done|by apply IH].
Qed.

(** A close that does not throw found no job, and leaves none. *)
Lemma udp_close_jobs i s s' : run_io (udp_member i UdpSocket.udp_close) s = (Ok tt, s') -> udp_jobs i s' = 0%Z.
Proof.
  unfold run_io, udp_member, udp_jobs. destruct (udps (env (io s)) !! i) as [sk|] eqn:Hi; [|done].
  set (st := UdpSocket.UdpState sk (uworld (env (io s)))).
  destruct (UdpSocket.udp_close st) as [r st'] eqn:Ec. intros [= -> <-]. cbn. rewrite lookup_insert_eq.
  assert (async_jobs (udp_atoms sk) = 0%Z) as Hz.
  { unfold UdpSocket.udp_close, UdpSocket.scoped_exclusive_close, bind, UdpSocket.udp_atomically in Ec.
    rewrite UdpSocket.begin_close_exec in Ec. unfold UdpSocket.exclusive_refusal, exclusive_refusal in Ec. cbn in Ec.
    destruct (exclusive_operation (udp_atoms sk)); [done|].
    by destruct (Z.eqb_spec (async_jobs (udp_atoms sk)) 0). }
  pose proof (UdpSocket.ukeeps_close _ (UdpSocket.ukeeps_call UdpSocket.udp_raw_close) st) as Hk.
  fold UdpSocket.udp_close in Hk. rewrite Ec in Hk. cbn in Hk. rewrite Hk; [done|]. unfold jobs_ok. cbn. rewrite Hz. lia.
Qed.

(** ** Properties *)

(** C15: [safe_shutdown] leaves the bookkeeping of the program right.  Whatever else the
    program does meanwhile (as long as other fibers neither break it nor touch this
    socket's exclusive reservation), when the call returns, whatever it returns, it holds
    the reservation no more: every socket's flags and count are again those of the
    operations pending and of the shutdowns still under way. *)
Theorem safe_shutdown_accounts (fuel : nat) (retry_rounds drain_rounds tls_rounds : list wait_round)
  (i k : nat) (s : system) (Hretry : Forall (fair i) retry_rounds) (Hdrain : Forall (fair i) drain_rounds)
  (Htls : Forall (fair i) tls_rounds) (Hs : held i k s) :
  match safe_shutdown fuel retry_rounds drain_rounds tls_rounds i s with
  | (Some _, s') => held i k s'
  | (None, s') => held i k s' \/ held i (S k) s'
  end.
Proof.
  assert (forall s1, held i (S k) s1 ->
    match release_after i (shutdown_reserved fuel drain_rounds tls_rounds i s1) with
    | (Some _, s') => held i k s'
    | (None, s') => held i k s' \/ held i (S k) s'
    end) as Hreserved.
  { intros s1 H1. pose proof (held_reserved i (S k) fuel _ _ s1 Hdrain Htls H1) as H2.
    destruct (shutdown_reserved fuel drain_rounds tls_rounds i s1) as [[b|] s2]; [|by right]. by apply drain_end_held. }
  unfold safe_shutdown. destruct (negb (tcp_is_open i s)); [done|].
  pose proof (drain_begin_held i k s Hs) as Hb.
  destruct (run_io (drain_begin i) s) as [[u|e] s1]; [by apply Hreserved|].
  set (s2 := async_restart _).
  assert (held i k s2) as H2 by (apply held_restart, held_io; [apply steady_raw|done]).
  pose proof (held_drain i k fuel retry_rounds i s2 Hretry H2) as H3.
  destruct (drain_jobs fuel retry_rounds i s2) as [[b|] s3]; [|by left]. clear Hb.
  pose proof (drain_begin_held i k s3 H3) as Hb.
  destruct (run_io (drain_begin i) s3) as [[u|e'] s4]; [by apply Hreserved|done].
Qed.

(** The reservation taken and the operations drained. *)
Definition drained (fuel : nat) (rounds : list wait_round) (i : nat) (s : system) : option bool * system :=
  drain_jobs fuel rounds i
    (on_io (fun m => (raw_call i raw_cancel m).2) (async_restart (run_io (drain_begin i) s).2)).

(** C31: [safe_shutdown] can wait for ever.  If draining the socket's operations used up the
    last work of the io_context, the poll that ran them left it stopped; nothing restarts
    it before [async_shutdown] and its timer are started, so that neither can complete, and
    the loop that waits for them never ends, however often it polls and yields. *)
Theorem safe_shutdown_hangs (fuel : nat) (retry_rounds drain_rounds tls_rounds : list wait_round) (i : nat)
  (s : system) (Hopen : tcp_is_open i s = true) (Hbegin : (run_io (drain_begin i) s).1 = Ok tt)
  (Hdrain : (drained (S fuel) drain_rounds i s).1 = Some true)
  (Hstop : async_stopped (drained (S fuel) drain_rounds i s).2 = true)
  (Htls : tls_ready i (io (drained (S fuel) drain_rounds i s).2)) (Halone : Forall alone tls_rounds) :
  (safe_shutdown (S fuel) retry_rounds drain_rounds tls_rounds i s).1 = None.
Proof.
  unfold safe_shutdown. rewrite Hopen. unfold drained in *. destruct (run_io (drain_begin i) s) as [r1 s1].
  cbn [negb fst snd] in *. subst r1. unfold shutdown_reserved.
  destruct (drain_jobs (S fuel) drain_rounds i _) as [r2 s2]. cbn [fst snd] in *. subst r2.
  pose proof (tls_stuck fuel tls_rounds i s2 Hstop Htls Halone) as Hn.
  destruct (tls_phase (S fuel) tls_rounds i s2) as [r s3]; cbn in Hn. by subst r.
Qed.

(** [safe_close] closes only an idle UDP socket.  When it answers [true] the socket
    was not open to begin with, or no operation is in flight on it; and whatever it answers
    or however long it goes on, the program's bookkeeping holds. *)
Theorem safe_close_idle (fuel : nat) (turns : list (Z * list wait_round)) (i : nat) (s : system)
  (Hturns : Forall (fun t => Forall sound t.2) turns) (Hs : sys_ok s) :
  let '(r, s') := safe_close fuel turns i s in
  sys_ok s' /\ (r = Some true -> udp_is_open i s = false \/ udp_jobs i s' = 0%Z).
Proof.
  unfold safe_close. destruct (udp_is_open i s); cbn [negb]; [|split; [done|by left]].
  pose proof (udp_drain_until_ok fuel turns i s Hturns Hs) as H1.
  destruct (udp_drain_until fuel turns i s) as [[u|] s1]; cbn [snd] in H1; [|done].
  destruct (0 <? udp_jobs i s1)%Z; [done|].
  assert (sys_ok (run_io (udp_member i UdpSocket.udp_close) s1).2) as H2.
  { pose proof (on_io_starts (udp_member i UdpSocket.udp_close) s1) as Hq. unfold on_io, effect in Hq.
    unfold run_io. destruct (udp_member i UdpSocket.udp_close (io s1)) as [r m].
    apply Hq; [|done]. apply starts_silent, silent_udp_member, UdpSocket.ukeeps_close, UdpSocket.ukeeps_call. }
  pose proof (udp_close_jobs i s1) as Hj.
  destruct (run_io (udp_member i UdpSocket.udp_close) s1) as [[[]|e] s2]; [|done].
  split; [done|]. intros _. right. by apply Hj.
Qed.
End shutdown.

(** ** A TLS client without a work guard *)
Import TrustStore.

Abbreviation lab_shutdown := (@safe_shutdown host_trust TcpSocket.loopback UdpSocket.udp_toy lab_async default_config).
Definition tls_program : list lab_request :=
  [@NewTcp host_trust TcpSocket.loopback UdpSocket.udp_toy script_var int_number 7;
   @Connect host_trust TcpSocket.loopback UdpSocket.udp_toy script_var int_number 0 TcpSocket.loop_endpoint;
   @Poll host_trust TcpSocket.loopback UdpSocket.udp_toy script_var int_number 9;
   @Restart host_trust TcpSocket.loopback UdpSocket.udp_toy script_var int_number;
   @ConnectSsl host_trust TcpSocket.loopback UdpSocket.udp_toy script_var int_number 0 "localhost" SV_null;
   @Poll host_trust TcpSocket.loopback UdpSocket.udp_toy script_var int_number 9;
   @Restart host_trust TcpSocket.loopback UdpSocket.udp_toy script_var int_number;
   @Read host_trust TcpSocket.loopback UdpSocket.udp_toy script_var int_number 0 2%Z].
Definition tls_files : list string := ["a"; "b"; "c"; "d"; "e"]%string.

(** Rounds in which no other fiber acts. *)
Definition quiet_rounds (n : nat) :=
  replicate n (@WaitRound host_trust TcpSocket.loopback UdpSocket.udp_toy lab_async 0%Z id).

Lemma safe_shutdown_accounts_witness :
  match lab_shutdown 9 [] (quiet_rounds 1) (quiet_rounds 5) 0 (lab_perform tls_program tls_files) with
  | (Some _, s') => held 0 0 s'
  | (None, s') => held 0 0 s' \/ held 0 1 s'
  end.
Proof.
  apply (@safe_shutdown_accounts host_trust TcpSocket.loopback UdpSocket.udp_toy lab_async default_config lab_async_ok).
  - constructor.
  - apply Forall_replicate. intros k s Hs. exact Hs.
  - apply Forall_replicate. intros k s Hs. exact Hs.
  - split; [|vm_compute; reflexivity]. apply run_requests_ok, initial_ok.
Defined.

Lemma safe_shutdown_hangs_witness :
  (lab_shutdown 9 [] (quiet_rounds 1) (quiet_rounds 1000) 0 (lab_perform tls_program tls_files)).1 = None.
Proof.
  apply (@safe_shutdown_hangs host_trust TcpSocket.loopback UdpSocket.udp_toy lab_async default_config 8
    [] (quiet_rounds 1) (quiet_rounds 1000) 0 (lab_perform tls_program tls_files)).
  - vm_compute. reflexivity.
  - vm_compute. reflexivity.
  - vm_compute. reflexivity.
  - vm_compute. reflexivity.
  - apply tls_ready_intro; [vm_compute; reflexivity|intros sd p; eexists; reflexivity].
  - apply Forall_replicate. intros x. reflexivity.
Defined.

(** A UDP socket with a send in flight, which the first poll completes. *)
Definition udp_program : list lab_request :=
  [@NewUdp host_trust TcpSocket.loopback UdpSocket.udp_toy script_var int_number tt;
   @SendTo host_trust TcpSocket.loopback UdpSocket.udp_toy script_var int_number 0 ["h"; "i"]%char TcpSocket.loop_endpoint].

Lemma safe_close_idle_witness :
  let s := lab_perform udp_program tls_files in
  let '(r, s') := @safe_close host_trust TcpSocket.loopback UdpSocket.udp_toy lab_async default_config 9
    [(0%Z, quiet_rounds 3)] 0 s in
  sys_ok s' /\ (r = Some true -> udp_is_open 0 s = false \/ udp_jobs 0 s' = 0%Z).
Proof.
  apply (@safe_close_idle host_trust TcpSocket.loopback UdpSocket.udp_toy lab_async default_config lab_async_ok).
  - constructor; [|constructor]. apply Forall_replicate. intros s Hs. exact Hs.
  - apply run_requests_ok, initial_ok.
Defined.
